(* ===== verification/_CoqProject ===== *)
-Q . S2P
Prelude.v
GoText.v
GoPath.v
GoBase.v
GoFloat.v
FloatFacts.v
Durations.v
Regex.v
RegexLines.v
GoScan.v
Table.v
Drive.v
Monitor.v
Discover.v
Config.v
Sha256.v
Disc.v
Failure.v
Robot.v
RobotFacts.v
Key.v
Attrs.v
MakeMkv.v
MakeMkvFacts.v
Hub.v
Store.v
Queue.v
StoreWf.v
StoreDiscs.v
StoreQueue.v
Background.v
Verify.v
Decrypt.v
Dvd.v
Ifo.v
BdInfo.v
Source.v
Status.v
Worker.v
BluRay.v
WorkerFrame.v
WorkerSafety.v
WorkerRip.v
WorkerAttempts.v
WorkerScan.v
WorkerJobs.v
WorkerKeeps.v
Slot.v
System.v
Library.v
LibraryPlan.v
Encoder.v
EncoderFacts.v
Transcoder.v
TranscoderFrame.v
TranscoderFacts.v
Wake.v
Pipeline.v
Daemon.v
DaemonRun.v
Tools.v
Identify.v
Nets.v
NetsFacts.v
Menu.v
Sse.v
Pushes.v
Server.v
Native.v
NativeRip.v
ServerFacts.v
Feeds.v
ConnRun.v
Client.v
ClientRun.v
Tui.v
Screen.v
View.v
ViewFacts.v
Main.v
