(* ===== verification/Prelude.v ===== *)
(** * hellbox: a verification library for the disc ripping daemon

    hellbox watches optical drives; when a disc goes in it scans it, rips it
    title by title, verifies every title, opens the tray, transcodes the titles
    in the background and hardlinks the results into a media library.  Its state
    is a SQLite database; clients follow it over a socket and an HTTP event
    stream.  This library models the daemon, the external programs' output as
    it reads it, the terminal client and the two entry points as executable
    definitions, and proves what makes them correct.

    ** The parts, and where they are

    The language and its standard library, as far as the sources use them:
    - Prelude, GoText, GoBase: outcomes ([(T, error)] as [Ok]/[Err]), tactics
      and hint database; strings, fmt, strconv and unicode (the non-ASCII tables
      are the class [Unicode]); errors with a chain, durations.
    - GoFloat, FloatFacts: float64 on the Standard Library's SpecFloat.
    - GoPath: path/filepath on Unix.  GoScan: bufio.Scanner.  Regex, RegexLines:
      package regexp, a backtracking matcher proved against a declarative
      relation.  Sha256.  Table: SQL statements on lists of rows.

    The drives and what is on a disc:
    - Drive, Monitor, Discover (internal/drive): SCSI replies, the status poll,
      the polling loop, drive discovery and volume labels.
    - Disc, Failure (internal/disc): the disc record, its fingerprint, slug and
      directory name; grouping of failure messages.
    - Robot, RobotFacts, Attrs, MakeMkv, MakeMkvFacts, Key (internal/makemkv):
      the robot line format, a scan, a rip with its stall timer, the
      registration key.
    - Dvd, Ifo (internal/dvd): the title sweep, the extraction, PAL
      runtimes, the disc's own name out of VIDEO_TS.IFO.
    - BdInfo (internal/bluray), Decrypt (internal/decrypt), Source
      (internal/source): Blu-ray playlists, decrypted copies and their reuse,
      how a disc will be read.
    - Verify (internal/verify, daemon/verify.go): the checks of an output file.
    - Identify, Nets, NetsFacts, Menu (internal/identify): what a disc is
      called, from its label, its own name and its menus.

    The state database (internal/store): Store and Queue, every method in a
    state-and-error monad with transactions, foreign keys and unique keys;
    StoreWf, the database invariant; StoreDiscs, StoreQueue, what the methods
    promise.

    The daemon (internal/daemon):
    - Status, Worker, BluRay, Native: the published drive state and the whole of
      one drive's worker, from the monitor's event to the open tray.
      WorkerFrame is the program logic the proofs about it use; WorkerSafety,
      WorkerRip, WorkerAttempts, WorkerScan, WorkerJobs and WorkerKeeps hold the
      theorems; NativeRip runs the worker with the native reader.  Background:
      what the other goroutines write while a worker holds the slot.  Slot: all
      workers around the shared slot.  System: every worker, the others' calls,
      kills and restarts on one database.
    - Library, LibraryPlan (internal/library), Encoder, EncoderFacts
      (internal/transcode), Transcoder, TranscoderFrame, TranscoderFacts: the
      queue runner and the filing of finished titles.  Wake: the runner, those
      who queue titles and the channel between them.  Pipeline puts the worker,
      the queue and the runner together.
    - Daemon, DaemonRun, Tools, Config, Durations: assembly, health, the
      goroutines of Run, looking for programs, the configuration.
    - Hub, Sse (internal/api), Pushes, Feeds, Server, ServerFacts, ConnRun: the
      event ring, one client's stream with what its full channel drops, the
      stream as text, the socket's subscribers, both feeds together, every request of the socket and the API, the goroutines of a
      connection.

    The programs: Client and ClientRun (internal/client), Tui, Screen, View,
    ViewFacts (internal/tui), Main (cmd, and opening the database).

    A worker calls Store, Verify and Status directly and hands a finished disc
    to the queue runner (queueTranscodes) or to filing (fileTitle); the runner
    calls Queue, Encoder and Library.  Server's requests act on the state of
    Daemon, the workers' and the runner's worlds, which share one database.
    Client, Tui and View are proved against the answers of Server.

    ** How the machine is modelled

    The worker and the queue runner are state-passing programs over a world (the
    database, the status, the file names in use, what the outside saw).  What
    the drive, the external programs, the clock, the file system and the
    database's I/O answer is an oracle of an environment record, indexed by the
    number of calls made so far, so a theorem over all environments covers every
    answer at every point, and a context may be cancelled at any call.  A
    database call under a cancelled context fails without effect.  Between any
    two calls of a worker the rest of the daemon may write to the database
    ([meanwhile]): any call while the worker waits for the shared slot, and once
    it holds it any background call, which no other worker's disc work is, as
    the slot keeps the workers apart; and between any two calls of the runner
    ([q_meanwhile]) others may write what is neither queue nor library links.
    requeued_during_encode_is_lost shows what a call that does the former can
    lead to.  Tables are
    lists of rows in rowid order; INSERT takes the next rowid.  Goroutines that
    share channels (Hub, Slot, Wake, DaemonRun, Pushes, ConnRun, ClientRun) are step
    relations in which any interleaving is possible.  float64 is SpecFloat's
    binary64 in Durations, Dvd, Identify, Screen and View; elsewhere a comparison
    with a small constant, a percentage or a progress fraction is a rational or
    a scaled integer, with the reason in that file's header.  int64 products
    that can wrap are wrapped.  Log lines are kept by format or text.

    ** Bounds and fuel

    makeRipDir tries the base name and 49 more, as the code does; a scan makes
    ScanAttempts attempts; humanBytes divides at most five times, enough below
    2^60 bytes.  The runner's inner loop takes fuel: drain_empties_queue proves
    that one claim per waiting job and one more are enough, and
    stopped_encode_restarts that no fuel is when every encode is stopped.  The
    outer loop runs for a given number of wake-ups.  MatchString_iff shows the
    fuel of the regular expression matcher to be enough.  TrueSeconds_rounds
    covers runtimes up to three hours, by computation.

    ** What the theorems show

    - Worker: the tray opens only when the disc is recorded as ripped, or where
      that is configured for a failure that was reported; a rip that succeeds has verified and recorded every title; the slot and the
      cancel hook are always given back; scans stop at the first success; a rip
      directory is fresh; a disc that was ripped is left alone.  All of it under
      the calls the rest of the daemon makes meanwhile.
    - The daemon as a whole, over every history of drives, requests, failures,
      kills and restarts: one disc at a time, and the slot is never lost; no
      disc passes the attempt cap but for a count that could not be read; a disc recorded as ripped stays so until it
      is forgotten; an idle daemon that nobody cancelled has no open job.
    - Database: every sequence of writes keeps keys unique and references valid;
      saving, forgetting, counting attempts, the restart sweeps, claiming within
      a budget and reconciling with the library do what they say and nothing
      else.
    - Queue runner: every encode settles its job unless the database fails as it
      is recorded, the queue drains, the output
      is in place when a job is complete, whatever the workers write to the
      database beside it; it does not sleep through a queued title; an encode appears whole or not at all; filing replaces nothing and plans distinct paths inside the library; audio
      selection loses no stream silently.
    - Reading discs: reported events form a chain of settled changes; a disc is
      called readable exactly when the drive says so; a printed line reads back;
      a scan holds exactly the titles described; the watchdog stops exactly the
      rips that stand still; a reused copy is a finished one; fingerprints
      identify the scanned content; directory names are safe path components;
      the nets propose names that look like names, and their confidences are
      weighed as documented.
    - Daemon: one worker per drive; shutdown ends once the clients have gone; key refreshes are spaced and
      the settings file is replaced whole.
    - Clients: the ring refines a log of everything published; a client resuming
      gets each event that its channel has room for, once and in order, and is
      told to reconcile when the ring has wrapped; the two front ends agree;
      no send on a closed channel, answers in order, tearing down a connection
      ends; the terminal decodes every answer as what it is and shows every
      failing check.
    - Behaviours proved that look unintended: a job exhausted and queued again is
      stuck; a tray that fails to open leaves the drive busy; cancelling during
      a title reads as a failure; stopping an encode restarts it; a film whose
      name is taken counts as filed; a client ahead of the ids is starved; a
      removal cut short leaves a copy that is reused; a client that stays
      connected keeps the daemon from returning; a probe that fails ends a
      sweep as a success; two drives alike share an id; a status moves the
      queue's cursor; closing a client while it dials does not stop it; a
      cancellation while a finished disc is recorded leaves its job open; a
      title queued again during its encode is lost; an attempt count that cannot
      be read lets a disc pass the cap; an event dropped for a slow client is
      lost to it once it has received a later one.

    ** Not modelled, and why

    - Running processes, ioctls, sysfs and the network (exec, SG_IO, net.Listen,
      net/http's server): I/O.  What they answer is an argument
      or an oracle; what the program does with the answer is modelled.
    - The JSON and TOML decoders: third-party or standard library code.  Requests
      and answers are JSON values, a configuration is what the decoder gives.
    - The styling library of the terminal (lipgloss, bubbletea): parameters
      [Render] and [Width] of View.
    - internal/drive/unsupported.go (stubs for other systems),
      internal/testsource (a helper of the tests), the web client (Ruby on
      Rails, a consumer of the HTTP API). *)

From Stdlib Require Export ZArith Lia Ascii.
From stdpp Require Export base tactics list strings gmap numbers sorting pretty.
#[global] Set Default Goal Selector "!".
#[global] Arguments String.append !s1 s2 : simpl nomatch.
#[global] Open Scope string_scope.
#[global] Open Scope list_scope.
#[global] Open Scope Z_scope.

(** ** Errors as values *)

(** A Go function returning [(T, error)]: the value, or the error with the value discarded. *)
Inductive outcome (E A : Type) : Type :=
| Ok (a : A)
| Err (e : E).
Arguments Ok {E A} a.
Arguments Err {E A} e.

#[global] Instance outcome_eq_dec E A `{EqDecision E, EqDecision A} :
  EqDecision (outcome E A).
Proof. solve_decision. Defined.

Definition is_ok {E A} (o : outcome E A) : bool :=
  match o with Ok _ => true | Err _ => false end.

Definition obind {E A B} (o : outcome E A) (k : A → outcome E B) : outcome E B :=
  match o with Ok a => k a | Err e => Err e end.

Declare Scope go_scope.
Delimit Scope go_scope with go.
#[global] Open Scope go_scope.
Notation "x <-? m ;; k" := (obind m (λ x, k))
  (at level 100, m at next level, right associativity) : go_scope.

(** ** Automation *)

Create HintDb hellbox.

(** Case split on every boolean test and match in sight, closing the cases
    that computation or arithmetic closes. *)
Ltac go_cases :=
  repeat (case_match || case_decide || case_bool_decide); simplify_eq/=; try done.
Ltac go_solve := go_cases; try done; try lia; eauto with hellbox.

(** Turn boolean comparisons of the source into propositions. *)
Ltac breflect :=
  repeat match goal with
  | H : (_ <? _) = true |- _ => apply Z.ltb_lt in H
  | H : (_ <? _) = false |- _ => apply Z.ltb_ge in H
  | H : (_ <=? _) = true |- _ => apply Z.leb_le in H
  | H : (_ <=? _) = false |- _ => apply Z.leb_gt in H
  | H : (_ =? _) = true |- _ => apply Z.eqb_eq in H
  | H : (_ =? _) = false |- _ => apply Z.eqb_neq in H
  | H : (_ && _) = true |- _ => apply andb_true_iff in H as [? ?]
  | H : (_ || _) = false |- _ => apply orb_false_iff in H as [? ?]
  | H : negb _ = true |- _ => apply negb_true_iff in H
  | H : negb _ = false |- _ => apply negb_false_iff in H
  end.

(** ** Sums *)

Definition sumZ (l : list Z) : Z := foldr Z.add 0 l.

Lemma sumZ_app l k : sumZ (l ++ k) = sumZ l + sumZ k.
Proof. unfold sumZ. induction l; simpl; lia. Qed.

Lemma sumZ_nonneg l : Forall (λ z, 0 ≤ z) l → 0 ≤ sumZ l.
Proof. unfold sumZ. induction 1; simpl; lia. Qed.

(** ** Filters *)

Section filters.
Context {A : Type} (P : A → Prop) `{∀ x, Decision (P x)}.
Implicit Types l k : list A.

Lemma filter_all l : Forall P l → filter P l = l.
Proof. induction 1; [done|]. rewrite filter_cons_True by done. by f_equal. Qed.

Lemma filter_none l : Forall (λ x, ¬ P x) l → filter P l = [].
Proof. induction 1; [done|]. by rewrite filter_cons_False. Qed.

Lemma Forall_filter_self l : Forall P (filter P l).
Proof. apply Forall_forall. by intros x [? _]%list_elem_of_filter. Qed.

Lemma Forall_filter_keep (Q : A → Prop) l : Forall Q l → Forall Q (filter P l).
Proof. rewrite !Forall_forall. intros HQ x [_ ?]%list_elem_of_filter. auto. Qed.
End filters.

Lemma tail_drop {A} n (l : list A) : tail (drop n l) = drop (S n) l.
Proof. revert n; induction l; intros [|n]; simpl; auto using drop_0. Qed.
