(* ===== verification/GoText.v ===== *)
(** * Go strings and the parts of package strings, strconv and fmt the daemon uses

    A Go string is a byte sequence, modelled by [string].  The functions of
    package strings work byte by byte on ASCII input and consult the Unicode
    tables on anything else; the tables are the class [Unicode], whose fields
    are the non-ASCII branches of the library functions.  No law is assumed of
    them, so every theorem holds whatever the tables say. *)

From S2P Require Import Prelude.

(** ** Bytes *)

Definition byte_val (a : ascii) : Z := Z.of_N (Ascii.N_of_ascii a).
Definition byte_of (z : Z) : ascii := Ascii.ascii_of_N (Z.to_N z).
Definition in_range (lo hi : Z) (a : ascii) : bool :=
  (lo <=? byte_val a) && (byte_val a <=? hi).
Definition is_upper_byte : ascii → bool := in_range 65 90.
Definition is_lower_byte : ascii → bool := in_range 97 122.
Definition is_digit_byte : ascii → bool := in_range 48 57.
Definition is_space_byte (a : ascii) : bool :=
  in_range 9 13 a || (byte_val a =? 32).
Definition is_ascii_byte (a : ascii) : bool := byte_val a <? 128.
Definition lower_byte (a : ascii) : ascii :=
  if is_upper_byte a then byte_of (byte_val a + 32) else a.
Definition upper_byte (a : ascii) : ascii :=
  if is_lower_byte a then byte_of (byte_val a - 32) else a.
Definition newline : ascii := byte_of 10.
Definition nul : ascii := byte_of 0.
Definition dash : ascii := "-"%char.

Fixpoint str_forall (p : ascii → bool) (s : string) : bool :=
  match s with EmptyString => true | String c s' => p c && str_forall p s' end.
Fixpoint str_exists (p : ascii → bool) (s : string) : bool :=
  match s with EmptyString => false | String c s' => p c || str_exists p s' end.
Fixpoint str_map (f : ascii → ascii) (s : string) : string :=
  match s with EmptyString => EmptyString | String c s' => String (f c) (str_map f s') end.
Fixpoint str_filter (p : ascii → bool) (s : string) : string :=
  match s with
  | EmptyString => EmptyString
  | String c s' => if p c then String c (str_filter p s') else str_filter p s'
  end.
Fixpoint str_last (s : string) : option ascii :=
  match s with
  | EmptyString => None
  | String c EmptyString => Some c
  | String _ s' => str_last s'
  end.
Definition str_head (s : string) : option ascii :=
  match s with EmptyString => None | String c _ => Some c end.
Definition is_ascii (s : string) : bool := str_forall is_ascii_byte s.
(** [len(s)] counts bytes. *)
Definition len (s : string) : Z := Z.of_nat (String.length s).

(** ** The Unicode tables *)

Class Unicode := {
  (** strings.Map(unicode.ToLower, s), on a string with a non-ASCII byte *)
  u_map_lower : string → string;
  (** strings.TrimFunc(s, unicode.IsSpace), on a string opening with a non-ASCII byte *)
  u_trim_func : string → string;
  (** strings.TrimRightFunc(s, unicode.IsSpace), on a string ending in a non-ASCII byte *)
  u_trim_right_func : string → string;
  (** strings.FieldsFunc(s, unicode.IsSpace), on a string with a non-ASCII byte *)
  u_fields_func : string → list string;
  (** every rune satisfies unicode.IsDigit, on a string with a non-ASCII byte *)
  u_all_digits : string → bool;
  (** strings.IndexFunc(s, unicode.IsLower) >= 0, on a string with a non-ASCII byte *)
  u_has_lower : string → bool;
  (** the first rune passed through unicode.ToUpper, on a string with a non-ASCII byte *)
  u_upper_first : string → string;
}.

(** Tables that treat every non-ASCII rune as a caseless letter: a concrete
    instance for evaluation. *)
Definition caseless : Unicode := {|
  u_map_lower := str_map lower_byte;
  u_trim_func := λ s, s;
  u_trim_right_func := λ s, s;
  u_fields_func := λ s, [s];
  u_all_digits := λ _, false;
  u_has_lower := str_exists is_lower_byte;
  u_upper_first := λ s, s;
|}.

(** ** Package strings *)

Fixpoint trim_left (p : ascii → bool) (s : string) : string :=
  match s with
  | EmptyString => EmptyString
  | String c s' => if p c then trim_left p s' else s
  end.
Fixpoint trim_right (p : ascii → bool) (s : string) : string :=
  match s with
  | EmptyString => EmptyString
  | String c s' =>
      match trim_right p s' with
      | EmptyString => if p c then EmptyString else String c EmptyString
      | t => String c t
      end
  end.
(** strings.Trim(s, cutset) for an ASCII cutset. *)
Definition trim (p : ascii → bool) (s : string) : string := trim_right p (trim_left p s).

Fixpoint contains (s sub : string) : bool :=
  String.prefix sub s ||
  match s with EmptyString => false | String _ s' => contains s' sub end.
Definition has_prefix (s p : string) : bool := String.prefix p s.
(** strings.HasSuffix and strings.TrimSuffix. *)
Fixpoint has_suffix (s suf : string) : bool :=
  bool_decide (s = suf) || match s with EmptyString => false | String _ s' => has_suffix s' suf end.
Fixpoint TrimSuffix (s suf : string) : string :=
  if bool_decide (s = suf) then ""
  else match s with EmptyString => "" | String c s' => String c (TrimSuffix s' suf) end.

(** The pieces of [s] between the bytes satisfying [p]: never empty. *)
Fixpoint split_at (p : ascii → bool) (s : string) : list string :=
  match s with
  | EmptyString => [EmptyString]
  | String c s' =>
      if p c then EmptyString :: split_at p s'
      else match split_at p s' with
           | [] => [String c EmptyString]
           | w :: ws => String c w :: ws
           end
  end.
Definition byte_eqb (a b : ascii) : bool := bool_decide (a = b).
(** strings.Split(s, sep) for a one-byte separator. *)
Definition split_on (sep : ascii) (s : string) : list string := split_at (byte_eqb sep) s.
Definition join (sep : string) (l : list string) : string := String.concat sep l.

(** strings.Fields on ASCII input: maximal runs of non-space bytes. *)
Definition fields_ascii (s : string) : list string :=
  filter (λ w, w ≠ EmptyString) (split_at is_space_byte s).

Section unicode.
Context {U : Unicode}.

Definition ToLower (s : string) : string :=
  if is_ascii s then str_map lower_byte s else u_map_lower s.

(** strings.TrimSpace: ASCII from both ends, deferring to the tables at the
    first non-ASCII byte met on either side. *)
Definition TrimSpace (s : string) : string :=
  let s1 := trim_left is_space_byte s in
  match str_head s1 with
  | Some c => if is_ascii_byte c then
                let s2 := trim_right is_space_byte s1 in
                match str_last s2 with
                | Some c' => if is_ascii_byte c' then s2 else u_trim_right_func s2
                | None => s2
                end
              else u_trim_func s1
  | None => EmptyString
  end.

Definition Fields (s : string) : list string :=
  if is_ascii s then fields_ascii s else u_fields_func s.
End unicode.

(** ** Package fmt *)

(** fmt's [%d]. *)
Definition itoa (n : Z) : string := pretty n.
(** fmt's [%02d]. *)
Definition itoa02 (n : Z) : string :=
  if (0 <=? n) && (n <? 10) then "0" +:+ itoa n else itoa n.

(** ** Lemmas: predicates over strings *)

Lemma str_forall_app p s t : str_forall p (s +:+ t) = str_forall p s && str_forall p t.
Proof. induction s as [|c s IH]; simpl; [done|]. by rewrite IH, andb_assoc. Qed.

Lemma str_forall_impl (p q : ascii → bool) s :
  (∀ c, p c = true → q c = true) → str_forall p s = true → str_forall q s = true.
Proof.
  intros Hpq. induction s as [|c s IH]; simpl; [done|].
  intros [Hp Hs]%andb_true_iff. by rewrite (Hpq _ Hp), IH.
Qed.

Lemma str_app_assoc (s t u : string) : s +:+ (t +:+ u) = (s +:+ t) +:+ u.
Proof. induction s; simpl; congruence. Qed.

Lemma str_app_empty_r (s : string) : s +:+ "" = s.
Proof. induction s; simpl; congruence. Qed.

Lemma append_not_empty (s t : string) : t ≠ "" → s +:+ t ≠ "".
Proof. by destruct s. Qed.

Lemma len_app s t : len (s +:+ t) = len s + len t.
Proof. unfold len. induction s as [|c s IH]; [done|]. cbn [String.append String.length]. lia. Qed.

Lemma len_nonneg s : 0 ≤ len s.
Proof. unfold len. lia. Qed.

Lemma trim_right_forall p q s : str_forall q s = true → str_forall q (trim_right p s) = true.
Proof.
  induction s as [|c s IH]; simpl; [done|]. intros [Hq Hs]%andb_true_iff.
  specialize (IH Hs). destruct (trim_right p s); [destruct (p c)|]; simpl in *;
    by rewrite ?Hq.
Qed.

Lemma trim_left_forall p q s : str_forall q s = true → str_forall q (trim_left p s) = true.
Proof.
  induction s as [|c s IH]; simpl; [done|]. intros H.
  pose proof H as [Hq Hs]%andb_true_iff. destruct (p c); [auto|done].
Qed.

Lemma trim_right_last p s c : str_last (trim_right p s) = Some c → p c = false.
Proof.
  induction s as [|d s IH]; simpl; [done|].
  destruct (trim_right p s) eqn:E.
  - destruct (p d) eqn:Hd; simpl; [done|]. intros [= <-]. done.
  - simpl. intros H. apply IH. done.
Qed.

Lemma trim_right_head p s : str_head (trim_right p s) = None ∨
  str_head (trim_right p s) = str_head s.
Proof.
  destruct s as [|d s]; simpl; [by left|].
  destruct (trim_right p s); [destruct (p d); by auto|by right].
Qed.

Lemma trim_left_head p s c : str_head (trim_left p s) = Some c → p c = false.
Proof.
  induction s as [|d s IH]; simpl; [done|]. destruct (p d) eqn:Hd; [done|].
  intros [= <-]. done.
Qed.

Lemma trim_edges p s :
  (∀ c, str_head (trim p s) = Some c → p c = false) ∧
  (∀ c, str_last (trim p s) = Some c → p c = false).
Proof.
  unfold trim. split; intros c Hc; [|by eapply trim_right_last].
  destruct (trim_right_head p (trim_left p s)) as [E|E]; rewrite E in Hc; [done|].
  by eapply trim_left_head.
Qed.

(** ** Lemmas: searching *)

Lemma prefix_spec p s : String.prefix p s = true ↔ ∃ t, s = p +:+ t.
Proof.
  revert s; induction p as [|c p IH]; intros s; simpl.
  { split; [intros _; exists s; done | by destruct s]. }
  destruct s as [|d s]; simpl; [split; [done|by intros []]|].
  destruct (ascii_dec c d) as [->|Hne].
  - rewrite IH. split; intros [t Ht]; exists t; congruence.
  - split; [done|]. intros [t Ht]. congruence.
Qed.

Lemma contains_unfold s sub :
  contains s sub =
    String.prefix sub s || match s with EmptyString => false | String _ s' => contains s' sub end.
Proof. by destruct s. Qed.

Lemma contains_spec s sub : contains s sub = true ↔ ∃ a b, s = a +:+ sub +:+ b.
Proof.
  induction s as [|c s IH]; rewrite contains_unfold, orb_true_iff, prefix_spec.
  - split.
    + intros [[t Ht]|]; [|done]. exists "", t. done.
    + intros ([|d a] & b & H); [left; exists b; done | simpl in H; discriminate H].
  - rewrite IH. split.
    + intros [[t Ht]|(a & b & ->)]; [by exists "", t|by exists (String c a), b].
    + intros ([|d a] & b & H); [left; by exists b|right; injection H as -> ->; eauto].
Qed.

(** ** Lemmas: splitting and joining *)

Lemma split_at_cons p s : ∃ w ws, split_at p s = w :: ws.
Proof.
  induction s as [|c s (w & ws & E)]; simpl; [by eauto|].
  destruct (p c); [by eauto|]. rewrite E. eauto.
Qed.

Lemma join_split sep s : join (String sep "") (split_on sep s) = s.
Proof.
  unfold join, split_on. induction s as [|c s IH]; simpl; [done|].
  destruct (split_at_cons (byte_eqb sep) s) as (w & ws & E). rewrite E in *.
  destruct (byte_eqb sep c) eqn:Hc.
  - apply bool_decide_eq_true in Hc as <-. by rewrite <- IH.
  - rewrite <- IH. by destruct ws.
Qed.

Lemma split_at_app_sep p s c t :
  str_forall (λ x, negb (p x)) s = true → p c = true →
  split_at p (s +:+ String c t) = s :: split_at p t.
Proof.
  intros Hs Hc. induction s as [|d s IH]; simpl in *; [by rewrite Hc|].
  apply andb_true_iff in Hs as [Hd%negb_true_iff Hs]. by rewrite Hd, IH.
Qed.

Lemma split_at_none p s : str_forall (λ x, negb (p x)) s = true → split_at p s = [s].
Proof.
  induction s as [|d s IH]; simpl; [done|].
  intros [Hd%negb_true_iff Hs]%andb_true_iff. by rewrite Hd, IH.
Qed.

Lemma split_at_forall p q s : str_forall q s = true → Forall (λ w, str_forall q w = true) (split_at p s).
Proof.
  induction s as [|c s IH]; cbn [split_at str_forall]; [intros; by apply Forall_singleton|].
  intros [Hc Hs]%andb_true_iff. specialize (IH Hs). destruct (p c); [by constructor|].
  destruct (split_at p s) as [|w ws]; [apply Forall_singleton; cbn; by rewrite Hc|].
  apply Forall_cons in IH as [Hw ?]. constructor; [|done]. cbn. by rewrite Hc.
Qed.

Lemma split_at_pieces p s : Forall (λ w, str_forall (λ x, negb (p x)) w = true) (split_at p s).
Proof.
  induction s as [|c s IH]; simpl; [by repeat constructor|].
  destruct (p c) eqn:Hc; [by constructor|].
  destruct (split_at p s); inversion IH; subst; constructor; simpl; rewrite ?Hc; done.
Qed.

Lemma split_join sep ws :
  ws ≠ [] → Forall (λ w, str_forall (λ x, negb (byte_eqb sep x)) w = true) ws →
  split_on sep (join (String sep "") ws) = ws.
Proof.
  unfold join, split_on. intros Hne Hall. induction ws as [|w ws IH]; [done|].
  inversion Hall; subst. destruct ws as [|w' ws]; [by apply split_at_none|].
  change (String.concat (String sep "") (w :: w' :: ws)) with
    (w +:+ String sep (String.concat (String sep "") (w' :: ws))).
  rewrite split_at_app_sep, IH; try done. unfold byte_eqb. by rewrite bool_decide_eq_true_2.
Qed.

(** ** Lemmas: decimal numerals *)

Definition is_numeral_byte (c : ascii) : bool := is_digit_byte c || byte_eqb dash c.

Lemma pretty_N_char_digit n : is_digit_byte (pretty_N_char n) = true.
Proof. unfold pretty_N_char. by repeat case_match. Qed.

Lemma pretty_N_go_digits n s :
  str_forall is_digit_byte s = true → str_forall is_digit_byte (pretty_N_go n s) = true.
Proof.
  revert s. induction (N.lt_wf_0 n) as [n _ IH]; intros s Hs.
  destruct (decide (n = 0%N)) as [->|]; [by rewrite pretty_N_go_0|].
  rewrite pretty_N_go_step by lia. apply IH; [apply N.div_lt; lia|].
  simpl. by rewrite pretty_N_char_digit.
Qed.

Lemma itoa_nonneg_digits n : 0 ≤ n → str_forall is_digit_byte (itoa n) = true.
Proof.
  intros. unfold itoa. destruct n as [|p|p]; [done| |lia].
  change (pretty (Z.pos p)) with (pretty_N (N.pos p)).
  unfold pretty_N. case_decide; [done|]. by apply pretty_N_go_digits.
Qed.

Lemma itoa_numeral n : str_forall is_numeral_byte (itoa n) = true.
Proof.
  destruct (decide (0 ≤ n)).
  - eapply str_forall_impl; [|by apply itoa_nonneg_digits].
    intros c. unfold is_numeral_byte. by intros ->.
  - unfold itoa. destruct n as [|p|p]; try lia.
    change (pretty (Z.neg p)) with (String dash (itoa (Z.pos p))). simpl.
    eapply str_forall_impl; [|apply (itoa_nonneg_digits (Z.pos p)); lia].
    intros c. unfold is_numeral_byte. by intros ->.
Qed.

Lemma itoa_inj n m : itoa n = itoa m → n = m.
Proof. apply (inj pretty). Qed.

Lemma itoa_not_leading_zero n s : 0 < n → itoa n ≠ "0" +:+ s.
Proof.
  intros Hn. unfold itoa. destruct n as [|p|]; try lia.
  change (pretty (Z.pos p)) with (pretty_N (N.pos p)).
  unfold pretty_N. case_decide; [done|].
  enough (∀ x t, (0 < x)%N → ∃ c u, pretty_N_go x t = String c u ∧ c ≠ "0"%char) as Hgo.
  { destruct (Hgo (N.pos p) "") as (c & u & -> & Hc); [done|]. simpl. congruence. }
  intros x. induction (N.lt_wf_0 x) as [x _ IH]; intros t Hx.
  rewrite pretty_N_go_step by done.
  destruct (decide (x < 10)%N) as [Hlt|Hge].
  - rewrite N.div_small, pretty_N_go_0, N.mod_small by done. do 2 eexists. split; [done|].
    assert (x = 1 ∨ x = 2 ∨ x = 3 ∨ x = 4 ∨ x = 5 ∨ x = 6 ∨ x = 7 ∨ x = 8 ∨ x = 9)%N as Hd by lia.
    by repeat destruct Hd as [->|Hd]; subst.
  - apply IH; [apply N.div_lt; lia|]. apply N.div_str_pos. lia.
Qed.

Lemma itoa02_inj n m : 0 ≤ n → 0 ≤ m → itoa02 n = itoa02 m → n = m.
Proof.
  intros Hn Hm. unfold itoa02.
  destruct (Z.leb_spec 0 n), (Z.leb_spec 0 m); try lia. simpl.
  destruct (Z.ltb_spec n 10), (Z.ltb_spec m 10); intros E.
  - injection E. apply itoa_inj.
  - by destruct (itoa_not_leading_zero m (itoa n)); [lia|].
  - by destruct (itoa_not_leading_zero n (itoa m)); [lia|].
  - by apply itoa_inj.
Qed.

Lemma str_app_inv_head (s t u : string) : s +:+ t = s +:+ u → t = u.
Proof. induction s; simpl; [done|]. intros [= ?]. auto. Qed.

(** A prefix free of a delimiter is determined by what follows it. *)
Lemma str_app_delim_inj p (s1 s2 : string) c t1 t2 :
  str_forall (λ x, negb (p x)) s1 = true → str_forall (λ x, negb (p x)) s2 = true →
  p c = true → s1 +:+ String c t1 = s2 +:+ String c t2 → s1 = s2 ∧ t1 = t2.
Proof.
  intros H1 H2 Hc. revert s2 H2. induction s1 as [|d s1 IH]; intros [|e s2] H2 E; simpl in *.
  - by injection E.
  - injection E as -> _. apply andb_true_iff in H2 as [H2%negb_true_iff _]. congruence.
  - injection E as -> _. apply andb_true_iff in H1 as [H1%negb_true_iff _]. congruence.
  - injection E as -> E. apply andb_true_iff in H1 as [_ H1], H2 as [_ H2].
    destruct (IH H1 s2 H2 E). by subst.
Qed.

(** ** Machine integers *)

(** int64 arithmetic. *)
Definition int64 (z : Z) : Z := (z + 2 ^ 63) mod 2 ^ 64 - 2 ^ 63.

(** ** Package strconv *)

Definition digit_val (c : ascii) : Z := byte_val c - 48.
Fixpoint digits_value (acc : Z) (s : string) : Z :=
  match s with "" => acc | String c s' => digits_value (10 * acc + digit_val c) s' end.
Definition is_digits (s : string) : bool :=
  negb (bool_decide (s = "")) && str_forall is_digit_byte s.
(** strconv.ParseUint(s, 10, 64). *)
Definition ParseUint64 (s : string) : option Z :=
  if is_digits s then
    let v := digits_value 0 s in if v <? 2 ^ 64 then Some v else None
  else None.
(** strconv.Atoi / ParseInt(s, 10, 64) on a 64-bit platform: an optional sign,
    then digits, in range. *)
Definition Atoi (s : string) : option Z :=
  let '(neg, t) :=
    match s with
    | String c s' =>
        if byte_eqb dash c then (true, s')
        else if byte_eqb "+"%char c then (false, s') else (false, s)
    | "" => (false, "")
    end in
  if is_digits t then
    let v := if neg : bool then - digits_value 0 t else digits_value 0 t in
    if (- 2 ^ 63 <=? v) && (v <? 2 ^ 63) then Some v else None
  else None.

(** An unsigned decimal number: its digits and how many of them are decimals. *)
Definition ParseDecimal (s : string) : option (Z * nat) :=
  match split_on "."%char s with
  | [a] => if is_digits a then Some (digits_value 0 a, O) else None
  | [a; b] =>
      if (is_digits a || bool_decide (a = "")) && (is_digits b || bool_decide (b = "")) &&
         negb (bool_decide (a = "") && bool_decide (b = ""))
      then Some (digits_value 0 (a +:+ b), String.length b) else None
  | _ => None
  end.

(** strconv.ParseFloat on decimal and exponent notation, as a fraction [num / den] with [0 < den];
    infinities, NaN and hexadecimal are not read. *)
Definition ParseFloat (s : string) : option (Z * Z) :=
  let '(neg, t) :=
    match s with
    | String c s' =>
        if byte_eqb dash c then (true, s')
        else if byte_eqb "+"%char c then (false, s') else (false, s)
    | "" => (false, "")
    end in
  let scaled (m : string) (x : Z) :=
    match ParseDecimal m with
    | Some (n, k) =>
        let n := if neg : bool then - n else n in
        let e := x - Z.of_nat k in
        Some (if 0 <=? e then (n * 10 ^ e, 1) else (n, 10 ^ (- e)))
    | None => None
    end in
  match split_at (λ c, byte_eqb "e"%char c || byte_eqb "E"%char c) t with
  | [m] => scaled m 0
  | [m; x] => match Atoi x with Some x => scaled m x | None => None end
  | _ => None
  end.

Example float_speed : ParseFloat "28.7" = Some (287, 10). Proof. reflexivity. Qed.
Example float_exp : ParseFloat "1.5e+03" = Some (1500, 1). Proof. reflexivity. Qed.
Example float_na : ParseFloat "N/A" = None. Proof. reflexivity. Qed.

(** ** Lemmas: numbers and their text *)

Lemma digit_val_char d : (d < 10)%N → digit_val (pretty_N_char d) = Z.of_N d.
Proof.
  intros Hd.
  assert (d = 0 ∨ d = 1 ∨ d = 2 ∨ d = 3 ∨ d = 4 ∨ d = 5 ∨ d = 6 ∨ d = 7 ∨ d = 8 ∨ d = 9)%N as H by lia.
  by repeat destruct H as [->|H]; subst.
Qed.

Lemma digits_value_pretty n : ∀ s, digits_value 0 (pretty_N_go n s) = digits_value (Z.of_N n) s.
Proof.
  induction (N.lt_wf_0 n) as [n _ IH]; intros s.
  destruct (decide (n = 0%N)) as [->|Hn]; [by rewrite pretty_N_go_0|].
  rewrite pretty_N_go_step by lia. rewrite IH by (apply N.div_lt; lia). cbn [digits_value].
  rewrite digit_val_char by (apply N.mod_lt; lia). f_equal.
  pose proof (N.div_mod n 10 ltac:(lia)). lia.
Qed.

Lemma itoa_digits_value n : 0 ≤ n → digits_value 0 (itoa n) = n.
Proof.
  intros. unfold itoa. destruct n as [|p|]; [done| |lia].
  change (pretty (Z.pos p)) with (pretty_N (N.pos p)). unfold pretty_N.
  case_decide; [done|]. by rewrite digits_value_pretty.
Qed.

Lemma itoa_nonempty n : itoa n ≠ "".
Proof.
  destruct n as [|p|p]; [done| |done]. intros E.
  pose proof (itoa_digits_value (Z.pos p) ltac:(lia)) as H. rewrite E in H. done.
Qed.

Lemma itoa_is_digits n : 0 ≤ n → is_digits (itoa n) = true.
Proof.
  intros. unfold is_digits. rewrite bool_decide_eq_false_2 by apply itoa_nonempty.
  by rewrite itoa_nonneg_digits.
Qed.

(** What a sign test sees of a numeral. *)
Lemma digit_not_sign c : is_digit_byte c = true → byte_eqb dash c = false ∧ byte_eqb "+"%char c = false.
Proof. destruct c as [[] [] [] [] [] [] [] []]; vm_compute; intros; split; congruence. Qed.

Lemma Atoi_digits s : is_digits s = true → digits_value 0 s < 2 ^ 63 → 0 ≤ digits_value 0 s →
  Atoi s = Some (digits_value 0 s).
Proof.
  intros Hd Hv Hp. pose proof Hd as Hd'. unfold is_digits in Hd'. apply andb_true_iff in Hd' as [Hne Hs].
  unfold Atoi. destruct s as [|c s]; [done|].
  cbn [str_forall] in Hs. apply andb_true_iff in Hs as [Hc _].
  destruct (digit_not_sign c Hc) as [-> ->]. rewrite Hd.
  rewrite (proj2 (Z.leb_le _ _)) by lia. by rewrite (proj2 (Z.ltb_lt _ _)).
Qed.

Lemma Atoi_itoa n : 0 ≤ n < 2 ^ 63 → Atoi (itoa n) = Some n.
Proof.
  intros Hn. pose proof (itoa_digits_value n ltac:(lia)) as Hv.
  rewrite Atoi_digits by (rewrite ?Hv; try lia; apply itoa_is_digits; lia). by rewrite Hv.
Qed.

(** ** Lemmas: the order of strings *)

Lemma leb_cons a s b t : String.leb (String a s) (String b t) = true ↔
  (N_of_ascii a < N_of_ascii b)%N ∨ (a = b ∧ String.leb s t = true).
Proof.
  unfold String.leb. cbn [String.compare]. unfold Ascii.compare.
  destruct (N.compare_spec (N_of_ascii a) (N_of_ascii b)) as [E|E|E].
  - assert (a = b) as -> by (rewrite <- (ascii_N_embedding a), E; apply ascii_N_embedding).
    split; [by right|]. intros [?|[_ ?]]; [lia|done].
  - split; [by left|done].
  - split; [done|]. intros [?|[-> _]]; lia.
Qed.

Lemma leb_trans s : ∀ t u, String.leb s t = true → String.leb t u = true → String.leb s u = true.
Proof.
  induction s as [|a s IH]; intros t u; [by destruct u|].
  destruct t as [|b t]; [done|]. destruct u as [|c u]; [done|]. rewrite !leb_cons.
  intros [?|[-> ?]] [?|[-> ?]]; [left; lia|by left|by left|right]. eauto.
Qed.
