(* ===== verification/GoPath.v ===== *)
(** * Package path/filepath (Unix)

    Clean, Join, Dir and Base on slash-separated paths, with the facts the
    components that build paths need. *)

From S2P Require Import Prelude GoText.

Definition slash : ascii := "/"%char.

(** One path element against the elements kept so far, innermost first. *)
Definition clean_step (rooted : bool) (stack : list string) (e : string) : list string :=
  if bool_decide (e = "") || bool_decide (e = ".") then stack
  else if bool_decide (e = "..") then
    match stack with
    | top :: rest => if bool_decide (top = "..") then e :: stack else rest
    | [] => if rooted then [] else [e]
    end
  else e :: stack.

Definition is_rooted (s : string) : bool :=
  match s with String c _ => byte_eqb slash c | EmptyString => false end.

Definition clean_stack (s : string) : list string :=
  foldl (clean_step (is_rooted s)) [] (split_on slash s).

(** filepath.Clean *)
Definition Clean (s : string) : string :=
  let body := join "/" (reverse (clean_stack s)) in
  if is_rooted s then "/" +:+ body
  else if bool_decide (body = "") then "." else body.

(** filepath.Join: empty elements are dropped. *)
Definition Join (es : list string) : string :=
  match filter (λ e, e ≠ "") es with
  | [] => ""
  | es' => Clean (join "/" es')
  end.

(** filepath.Dir: everything before the last element, cleaned. *)
Fixpoint upto_slash (s : string) : option string :=
  match s with
  | EmptyString => None
  | String c s' =>
      match upto_slash s' with
      | Some t => Some (String c t)
      | None => if byte_eqb slash c then Some (String c EmptyString) else None
      end
  end.
Definition Dir (s : string) : string := Clean (default "" (upto_slash s)).

(** filepath.Base: the last element, trailing slashes removed. *)
Definition Base (s : string) : string :=
  if bool_decide (s = "") then "."
  else
    let t := trim_right (byte_eqb slash) s in
    if bool_decide (t = "") then "/" else List.last (split_on slash t) "".

(** filepath.Ext: from the last dot of the last element. *)
Fixpoint Ext (s : string) : string :=
  match s with
  | "" => ""
  | String c s' =>
      let e := Ext s' in
      if negb (bool_decide (e = "")) then e
      else if byte_eqb "."%char c && negb (str_exists (byte_eqb slash) s') then s else ""
  end.
Example ext_mkv : Ext "a.b/title.tar.mkv" = ".mkv". Proof. reflexivity. Qed.
Example ext_dir : Ext "a.b/title" = "". Proof. reflexivity. Qed.

Example base_file : Base "/out/disc/title_00.mkv" = "title_00.mkv". Proof. reflexivity. Qed.
Example base_trailing : Base "/out/disc//" = "disc". Proof. reflexivity. Qed.
Example clean_dots : Clean "/a//b/./c/../d/" = "/a/b/d". Proof. reflexivity. Qed.
Example clean_rel : Clean "../../x/.." = "../..". Proof. reflexivity. Qed.
Example clean_empty : Clean "" = ".". Proof. reflexivity. Qed.
Example join_lib : Join ["/lib"; "Movies"; "AC/DC"; "x.mkv"] = "/lib/Movies/AC/DC/x.mkv". Proof. reflexivity. Qed.
Example dir_file : Dir "/out/disc/title_00.mkv" = "/out/disc". Proof. reflexivity. Qed.

(** ** The last element survives cleaning *)

Definition plain (e : string) : Prop := e ≠ "" ∧ e ≠ "." ∧ e ≠ "..".

Lemma clean_step_plain r stack e : plain e → clean_step r stack e = e :: stack.
Proof. intros (H1 & H2 & H3). unfold clean_step. by rewrite !bool_decide_eq_false_2. Qed.

Definition slash_free (s : string) : bool := str_forall (λ c, negb (byte_eqb slash c)) s.

Lemma split_on_app_slash s t :
  slash_free t = true → split_on slash (s +:+ "/" +:+ t) = split_on slash s ++ [t].
Proof.
  intros Ht. change ("/" +:+ t) with (String slash t). unfold split_on.
  induction s as [|c s IH]; cbn [String.append split_at]; [by rewrite (split_at_none _ t)|].
  rewrite IH. destruct (byte_eqb slash c); [done|].
  by destruct (split_at_cons (byte_eqb slash) s) as (w & ws & ->).
Qed.

Lemma clean_stack_last s e :
  s ≠ "" → slash_free e = true → plain e →
  clean_stack (s +:+ "/" +:+ e) = e :: clean_stack s.
Proof.
  intros Hs Hf Hp. unfold clean_stack. rewrite split_on_app_slash by done.
  rewrite foldl_app. cbn [foldl]. rewrite clean_step_plain by done.
  assert (is_rooted (s +:+ "/" +:+ e) = is_rooted s) as ->; [by destruct s|done].
Qed.

(** Elements kept by Clean hold no slash, so a clean path determines them. *)
Lemma split_on_slash_free s : Forall (λ e, slash_free e = true) (split_on slash s).
Proof. apply split_at_pieces. Qed.

Lemma clean_step_Forall (P : string → Prop) r stack e :
  P e → Forall P stack → Forall P (clean_step r stack e).
Proof.
  intros He Hs. unfold clean_step. repeat case_match; auto.
  by apply Forall_cons in Hs as [_ ?].
Qed.

Lemma clean_stack_slash_free s : Forall (λ e, slash_free e = true) (clean_stack s).
Proof.
  unfold clean_stack. generalize (split_on_slash_free s). generalize (is_rooted s). intros r.
  assert (Forall (λ e, slash_free e = true) []) as Hn by constructor. revert Hn. generalize (@nil string).
  induction (split_on slash s) as [|e es IH]; intros stack Hst Hes; simpl; [done|].
  apply Forall_cons in Hes as [He Hes]. apply IH; [|done]. by apply clean_step_Forall.
Qed.

Lemma join_inj (es es' : list string) :
  Forall (λ e, slash_free e = true) es → Forall (λ e, slash_free e = true) es' →
  es ≠ [] → es' ≠ [] → join "/" es = join "/" es' → es = es'.
Proof.
  intros H H' Hn Hn' E.
  assert (∀ l, l ≠ [] → Forall (λ e, slash_free e = true) l → split_on slash (join "/" l) = l) as Hs.
  { clear. intros l Hn H. apply (split_join slash); [done|]. exact H. }
  rewrite <- (Hs es), <- (Hs es') by done. by rewrite E.
Qed.

(** ** Base of a joined path *)

Lemma trim_right_id p s c : str_last s = Some c → p c = false → trim_right p s = s.
Proof.
  revert c; induction s as [|x s IH]; intros c; [done|]. cbn [trim_right]. destruct s as [|y s].
  - intros [= ->] Hp. simpl. by rewrite Hp.
  - intros Hl Hp. rewrite (IH c) by done. done.
Qed.

Lemma str_last_app s t : t ≠ "" → str_last (s +:+ t) = str_last t.
Proof.
  intros Ht. induction s as [|c s IH]; [done|]. cbn [String.append str_last].
  destruct (s +:+ t) eqn:E; [by apply append_not_empty in E|]. done.
Qed.

Lemma slash_free_last e : e ≠ "" → slash_free e = true → ∃ c, str_last e = Some c ∧ byte_eqb slash c = false.
Proof.
  unfold slash_free. induction e as [|c e IH]; [done|]. intros _. cbn [str_forall].
  intros [Hc He]%andb_true_iff. destruct e as [|c' e]; [exists c; split; [done|by apply negb_true_iff]|].
  by apply IH.
Qed.

Lemma Base_file p e : slash_free e = true → e ≠ "" → p = "" ∨ (∃ q, p = q +:+ "/") → Base (p +:+ e) = e.
Proof.
  intros Hf Hne Hp. destruct (slash_free_last e Hne Hf) as (c & Hl & Hc).
  unfold Base. rewrite bool_decide_eq_false_2 by by apply append_not_empty.
  rewrite (trim_right_id _ _ c) by (by rewrite ?str_last_app).
  rewrite bool_decide_eq_false_2 by by apply append_not_empty.
  destruct Hp as [->|[q ->]].
  - simpl. unfold split_on. by rewrite split_at_none.
  - rewrite <- str_app_assoc, split_on_app_slash by done. by rewrite last_last.
Qed.

Lemma join_last l e : l = [] ∨ ∃ q, join "/" (l ++ [e]) = (q +:+ "/") +:+ e.
Proof.
  induction l as [|x l IH]; [by left|right]. unfold join in *. destruct l as [|y l].
  - exists x. simpl. by rewrite <- str_app_assoc.
  - destruct IH as [?|[q E]]; [done|].
    change (String.concat "/" ((x :: y :: l) ++ [e])) with (x +:+ "/" +:+ String.concat "/" ((y :: l) ++ [e])).
    rewrite E. exists (x +:+ "/" +:+ q). by rewrite <- !str_app_assoc.
Qed.

Lemma join_snoc_slash l e : l ≠ [] → join "/" (l ++ [e]) = join "/" l +:+ "/" +:+ e.
Proof.
  intros Hl. unfold join. induction l as [|x l IH]; [done|]. destruct l as [|y l]; [done|].
  change (String.concat "/" ((x :: y :: l) ++ [e])) with (x +:+ "/" +:+ String.concat "/" ((y :: l) ++ [e])).
  rewrite IH by done. change (String.concat "/" (x :: y :: l)) with (x +:+ "/" +:+ String.concat "/" (y :: l)).
  by rewrite <- !str_app_assoc.
Qed.

Lemma join_nonempty l : l ≠ [] → Forall (λ e, e ≠ "") l → join "/" l ≠ "".
Proof. destruct l as [|x [|y l]]; [done| |]; intros _ [Hx _]%Forall_cons; by destruct x. Qed.

Lemma Base_Join l e : slash_free e = true → plain e → Base (Join (l ++ [e])) = e.
Proof.
  intros Hf Hp. pose proof Hp as (Hne & _). unfold Join.
  rewrite filter_app, (filter_all _ [e]) by by apply Forall_singleton.
  set (k := filter (λ x, x ≠ "") l). assert (Forall (λ x, x ≠ "") k) as Hk by apply Forall_filter_self.
  assert (Base (Clean (join "/" (k ++ [e]))) = e) as HB; [|by destruct k].
  assert (∀ body, body = e ∨ (∃ q, body = (q +:+ "/") +:+ e) → ∀ r : bool,
            Base (if r then "/" +:+ body else if bool_decide (body = "") then "." else body) = e) as Hbody.
  { intros body Hb r. rewrite (bool_decide_eq_false_2 (body = ""))
      by (destruct Hb as [->|[q ->]]; [done|by apply append_not_empty]).
    destruct Hb as [->|[q ->]], r.
    - apply Base_file; [done..|]. right. by exists "".
    - apply (Base_file ""); auto.
    - rewrite str_app_assoc. apply Base_file; [done..|]. right. exists ("/" +:+ q). by rewrite str_app_assoc.
    - apply Base_file; [done..|]. right. by exists q. }
  unfold Clean. destruct (decide (k = [])) as [->|Hkne].
  - change (join "/" ([] ++ [e])) with e. apply Hbody. left.
    unfold clean_stack, split_on. rewrite split_at_none by done. cbn [foldl]. by rewrite clean_step_plain.
  - rewrite join_snoc_slash, clean_stack_last, reverse_cons by (try done; by apply join_nonempty).
    apply Hbody. by destruct (join_last (reverse (clean_stack (join "/" k))) e) as [->|?]; [left|right].
Qed.

Lemma Clean_not_empty s : Clean s ≠ "".
Proof. unfold Clean. destruct (is_rooted s); [done|]. by case_bool_decide. Qed.

Lemma Base_slash_free s : Base s ≠ "/" → slash_free (Base s) = true.
Proof.
  unfold Base. case_bool_decide; [done|]. case_bool_decide; [done|]. intros _.
  destruct (split_on slash (trim_right (byte_eqb slash) s)) as [|w ws] eqn:E using rev_ind; [done|].
  rewrite last_last. pose proof (split_on_slash_free (trim_right (byte_eqb slash) s)) as Hf.
  rewrite E, Forall_app in Hf. destruct Hf as [_ Hf]. by apply Forall_cons in Hf as [? _].
Qed.

Lemma plain_long (s : string) : 2 < len s → plain s.
Proof. intros H. split_and!; intros E; by rewrite E in H. Qed.
