(* ===== verification/GoBase.v ===== *)
(** * Errors with a chain, and durations

    An error value as errors.Is sees it, and time.Duration with its text.  A
    duration or an instant is a number of nanoseconds. *)

From S2P Require Import Prelude GoText.

(** ** Errors *)

(** An error: its text and what errors.Is finds in its chain. *)
Record goerr := mkErr {
  e_text : string;
  is_errCancelled : bool;
  is_errDiscGone : bool;
  is_ctxCanceled : bool;
}.
Definition errorf (text : string) : goerr := mkErr text false false false.
(** fmt.Errorf with a [%w] between two texts. *)
Definition wrapf (pre : string) (e : goerr) (post : string) : goerr :=
  mkErr (pre +:+ e_text e +:+ post) (is_errCancelled e) (is_errDiscGone e) (is_ctxCanceled e).
Definition ctxCanceled : goerr := mkErr "context canceled" false false true.

(** ** Durations *)

Definition Microsecond : Z := 1000.
Definition Millisecond : Z := 1000000.
Definition Second : Z := 1000000000.
Definition Minute : Z := 60 * Second.
Definition Hour : Z := 60 * Minute.

(** The [n] low decimal digits of [v] after a point, without trailing zeros. *)
Fixpoint frac_digits (n : nat) (v : Z) (shown : bool) : string :=
  match n with
  | O => ""
  | S n =>
      let d := v mod 10 in
      let shown := shown || negb (d =? 0) in
      frac_digits n (v / 10) shown +:+ (if shown then itoa d else "")
  end.
Definition fmtFrac (n : nat) (v : Z) : string :=
  let s := frac_digits n v false in if bool_decide (s = "") then "" else "." +:+ s.
(** Duration.String *)
Definition Duration_String (d : Z) : string :=
  let u := Z.abs d in
  let body :=
    if u =? 0 then "0s"
    else if u <? Microsecond then itoa u +:+ "ns"
    else if u <? Millisecond then itoa (u / Microsecond) +:+ fmtFrac 3 u +:+ String (byte_of 194) (String (byte_of 181) "s")
    else if u <? Second then itoa (u / Millisecond) +:+ fmtFrac 6 u +:+ "ms"
    else
      let secs := u / Second in
      let s := itoa (secs mod 60) +:+ fmtFrac 9 u +:+ "s" in
      let mins := secs / 60 in
      if mins =? 0 then s
      else
        let ms := itoa (mins mod 60) +:+ "m" +:+ s in
        if mins / 60 =? 0 then ms else itoa (mins / 60) +:+ "h" +:+ ms in
  if d <? 0 then "-" +:+ body else body.

Example dur_10m : Duration_String (10 * Minute) = "10m0s". Proof. reflexivity. Qed.
Example dur_90m : Duration_String (90 * Minute + 1500 * Millisecond) = "1h30m1.5s". Proof. reflexivity. Qed.
Example dur_ms : Duration_String (1020 * Microsecond) = "1.02ms". Proof. reflexivity. Qed.
