(* ===== verification/GoFloat.v ===== *)
(** * float64

    The binary64 numbers of the Standard Library's SpecFloat, whose operations
    round as IEEE 754 says, with a decimal literal read to the nearest number,
    the comparisons of Go, the conversion to an integer and the formats
    [%.0f] and [%.1f]. *)

From Stdlib Require Import SpecFloat.
From S2P Require Import Prelude GoText.

Notation float64 := spec_float.
Definition f_of_Z (n : Z) : float64 := binary_normalize 53 1024 n 0 false.
(** The literal a / b, for a and b that are exact: the nearest number. *)
Definition f_lit (a b : Z) : float64 := SFdiv 53 1024 (f_of_Z a) (f_of_Z b).
Definition f_add : float64 → float64 → float64 := SFadd 53 1024.
Definition f_sub : float64 → float64 → float64 := SFsub 53 1024.
Definition f_mul : float64 → float64 → float64 := SFmul 53 1024.
Definition f_lt : float64 → float64 → bool := SFltb.

(** An integer conversion of a number that fits: its integer part. *)
Definition f_to_int (a : float64) : Z :=
  match a with
  | S754_finite s m e => (if s then Z.opp else id) (if 0 <=? e then Z.shiftl (Zpos m) e else Z.shiftr (Zpos m) (- e))
  | _ => 0
  end.

(** n * 2^e as the nearest integer, a tie to the even one. *)
Definition round_even (n e : Z) : Z :=
  if 0 <=? e then Z.shiftl n e
  else
    let d := Z.shiftl 1 (- e) in
    let q := n / d in
    let r := 2 * (n mod d) in
    if (d <? r) || ((r =? d) && Z.odd q) then q + 1 else q.
(** fmt's verbs for a number, from how its absolute value is written. *)
Definition fmt_with (text : Z → Z → string) (f : float64) : string :=
  match f with
  | S754_nan => "NaN"
  | S754_infinity s => if s then "-Inf" else "+Inf"
  | S754_zero s => (if s then "-" else "") +:+ text 0 0
  | S754_finite s m e => (if s then "-" else "") +:+ text (Zpos m) e
  end.
Definition fmt_0f : float64 → string := fmt_with (λ m e, itoa (round_even m e)).
Definition fmt_1f : float64 → string :=
  fmt_with (λ m e, let t := round_even (10 * m) e in itoa (t / 10) +:+ "." +:+ itoa (t mod 10)).
Example fmt_1f_a : (λ x : Z * Z, fmt_1f (f_lit x.1 x.2)) <$> [(125, 100); (135, 100); (52, 10); (0, 1); (996, 100); (12, 1)]
  = ["1.2"; "1.4"; "5.2"; "0.0"; "10.0"; "12.0"].
Proof. vm_compute. reflexivity. Qed.
Example fmt_0f_a : (λ x : Z * Z, fmt_0f (f_lit x.1 x.2)) <$> [(5, 10); (15, 10); (25, 10); (667, 10); (-1, 10); (100, 1)]
  = ["0"; "2"; "2"; "67"; "-0"; "100"].
Proof. vm_compute. reflexivity. Qed.
Example f_to_int_a : (λ x : Z * Z, f_to_int (f_lit x.1 x.2)) <$> [(199, 10); (-199, 10); (0, 1); (2 ^ 60, 1)] = [19; -19; 0; 2 ^ 60].
Proof. vm_compute. reflexivity. Qed.

Definition is_nan (a : float64) : bool := match a with S754_nan => true | _ => false end.

(** The decimals 0.35 and 0.15 are not a fifth apart as numbers. *)
Example float_gap : f_lt (f_sub (f_lit 35 100) (f_lit 15 100)) (f_lit 2 10) = true.
Proof. reflexivity. Qed.

(** ** The order *)

(** A key the comparison is lexicographic on: class, exponent, mantissa. *)
Definition f_key (a : float64) : Z * Z * Z :=
  match a with
  | S754_nan => (0, 0, 0)
  | S754_infinity true => (-2, 0, 0)
  | S754_finite true m e => (-1, - e, Zneg m)
  | S754_zero _ => (0, 0, 0)
  | S754_finite false m e => (1, e, Zpos m)
  | S754_infinity false => (2, 0, 0)
  end.
Definition key_lt (a b : Z * Z * Z) : Prop :=
  a.1.1 < b.1.1 ∨ a.1.1 = b.1.1 ∧ (a.1.2 < b.1.2 ∨ a.1.2 = b.1.2 ∧ a.2 < b.2).

Lemma f_lt_key a b : is_nan a = false → is_nan b = false → f_lt a b = true ↔ key_lt (f_key a) (f_key b).
Proof.
  unfold f_lt, SFltb, key_lt.
  destruct a as [[]|[]| |[] ma ea], b as [[]|[]| |[] mb eb]; intros Ha Hb; try discriminate;
    cbn [f_key fst snd SFcompare]; try (split; [intros; (discriminate || lia)|intros; (reflexivity || lia)]).
  - change (Pos.compare_cont Eq ma mb) with (ma ?= mb)%positive. 
    destruct (Z.compare_spec ea eb), (Pos.compare_spec ma mb); cbn [CompOpp]; split; intros; (discriminate || reflexivity || lia).
  - change (Pos.compare_cont Eq ma mb) with (ma ?= mb)%positive.
    destruct (Z.compare_spec ea eb), (Pos.compare_spec ma mb); split; intros; (discriminate || reflexivity || lia).
Qed.

Lemma f_lt_asym a b : f_lt a b = true → f_lt b a = false.
Proof.
  intros H. assert (is_nan a = false ∧ is_nan b = false) as [Ha Hb].
  { unfold f_lt, SFltb in H. by destruct a as [[]|[]| |[]], b as [[]|[]| |[]]. }
  apply f_lt_key in H; [|done..]. destruct (f_lt b a) eqn:E; [|done].
  apply f_lt_key in E; [|done..]. unfold key_lt in *. lia.
Qed.

(** Not less, among numbers, is transitive. *)
Lemma f_nlt_trans a b c : is_nan a = false → is_nan b = false → is_nan c = false →
  f_lt a b = false → f_lt b c = false → f_lt a c = false.
Proof.
  intros Ha Hb Hc H1 H2. destruct (f_lt a c) eqn:E; [|done]. apply f_lt_key in E; [|done..].
  assert (¬ key_lt (f_key a) (f_key b)) as N1 by (rewrite <- f_lt_key by done; congruence).
  assert (¬ key_lt (f_key b) (f_key c)) as N2 by (rewrite <- f_lt_key by done; congruence).
  unfold key_lt in *. lia.
Qed.
