(* ===== verification/FloatFacts.v ===== *)
(** * Rounding in float64 arithmetic

    What SpecFloat's rounding does to an exact value m * 2^e, as far as the
    sources depend on it: a product that is an integer below 2^53 is computed
    exactly, and rounding never carries a value past an integer that bounds
    it. *)

From Stdlib Require Import SpecFloat.
From S2P Require Import Prelude GoText GoFloat.
#[local] Open Scope Z_scope.

(** ** Shifting the mantissa *)

Lemma iter_pos_ind {A} (f : A → A) (P : Z → A → Prop) :
  (∀ k x, 0 ≤ k → P k x → P (k + 1) (f x)) → ∀ n k x, 0 ≤ k → P k x → P (k + Zpos n) (SpecFloat.iter_pos f n x).
Proof.
  intros Hs n. induction n as [n IH|n IH|]; intros k x Hk Hx; cbn [SpecFloat.iter_pos].
  - replace (k + Zpos n~1) with (k + 1 + Zpos n + Zpos n) by lia.
    apply IH; [lia|]. apply IH; [lia|]. by apply Hs.
  - replace (k + Zpos n~0) with (k + Zpos n + Zpos n) by lia. apply IH; [lia|]. by apply IH.
  - by apply Hs.
Qed.

(** After k shifts: the quotient, and whether anything was lost. *)
Definition shifted (m k : Z) (r : shr_record) : Prop :=
  0 ≤ shr_m r ∧ ∃ lost, 0 ≤ lost < 2 ^ k ∧ m = shr_m r * 2 ^ k + lost ∧ (lost = 0 ↔ loc_of_shr_record r = loc_Exact).

Lemma shr_1_shifted m k r : 0 ≤ k → shifted m k r → shifted m (k + 1) (shr_1 r).
Proof.
  intros Hk (Hm & lost & Hl & E & Hz). destruct r as [q b s]. cbn [shr_m] in *.
  assert (∃ q' c, shr_1 (Build_shr_record q b s) = Build_shr_record q' c (b || s) ∧ q = 2 * q' + (if c then 1 else 0) ∧ 0 ≤ q') as (q' & c & -> & -> & Hq).
  { destruct q as [|[p|p|]|p]; [..|lia]; cbn [shr_1]; eexists _, _; (split; [reflexivity|]); lia. }
  split; [done|]. exists ((if c then 2 ^ k else 0) + lost). cbn [shr_m]. rewrite Z.pow_add_r by lia. change (2 ^ 1) with 2.
  assert (0 < 2 ^ k) as Hp by lia. rewrite E. clear E. revert Hl Hp Hz. generalize (2 ^ k) as t. intros t Hl Hp Hz.
  split; [destruct c; lia|]. split; [destruct c; ring|].
  assert (loc_of_shr_record (Build_shr_record q' c (b || s)) = loc_Exact ↔
    c = false ∧ loc_of_shr_record (Build_shr_record (2 * q' + (if c then 1 else 0)) b s) = loc_Exact) as ->
    by (destruct c, b, s; cbn; split; (intros [? ?] || intros ?); repeat split; congruence).
  rewrite <- Hz. destruct c; split; try (intros [? ?]); intros; try split; lia || congruence.
Qed.
Lemma shr_spec m e n : 0 ≤ m → 0 < n → ∃ r, shr (shr_record_of_loc m loc_Exact) e n = (r, e + n) ∧ shifted m n r.
Proof.
  intros Hm Hn. destruct n as [|p|]; [lia| |lia]. cbn [shr shr_record_of_loc]. eexists. split; [reflexivity|].
  apply (iter_pos_ind shr_1 (shifted m)) with (k := 0); [by intros; apply shr_1_shifted|lia|].
  split; [done|]. exists 0. change (2 ^ 0) with 1. cbn [shr_m]. split; [lia|]. split; [lia|done].
Qed.

(** ** Digits *)

Lemma digits2_log2 p : Zpos (digits2_pos p) = Z.log2 (Zpos p) + 1.
Proof. induction p as [p IH|p IH|]; cbn [digits2_pos]; [..|done]; rewrite Pos2Z.inj_succ, IH; destruct p; cbn; lia. Qed.
Lemma Zdigits2_log2 m : 0 < m → Zdigits2 m = Z.log2 m + 1.
Proof. destruct m; [lia| |lia]. intros _. apply digits2_log2. Qed.
Lemma log2_div_pow m n : 0 < m → 0 ≤ n → 0 < m / 2 ^ n → Z.log2 (m / 2 ^ n) = Z.log2 m - n.
Proof. intros. rewrite <- Z.shiftr_div_pow2, Z.log2_shiftr by done. rewrite <- Z.shiftr_div_pow2 in * by done.
  assert (n ≤ Z.log2 m) as Hn; [|lia]. rewrite Z.shiftr_div_pow2 in * by done.
  destruct (Z.le_gt_cases n (Z.log2 m)); [done|]. exfalso. apply Z.log2_lt_pow2 in H2; [|done].
  rewrite Z.div_small in * by lia. lia. Qed.

(** ** Values *)

(** m * 2^e is at most n, and is n. *)
Definition at_most (m e n : Z) : Prop := m * 2 ^ Z.max e 0 ≤ n * 2 ^ Z.max (- e) 0.
Definition exactly (m e n : Z) : Prop := m * 2 ^ Z.max e 0 = n * 2 ^ Z.max (- e) 0.
(** The exponent the mantissa is rounded to. *)
Definition target (m e : Z) : Z := fexp 53 1024 (Zdigits2 m + e).

Lemma at_most_log2 m e n : 0 < m → 0 < n → at_most m e n → Z.log2 m + e ≤ Z.log2 n.
Proof.
  intros Hm Hn H. unfold at_most in H.
  assert (0 < 2 ^ Z.max e 0 ∧ 0 < 2 ^ Z.max (- e) 0) as [? ?] by lia.
  apply Z.log2_le_mono in H. rewrite !Z.log2_mul_pow2 in H by lia. lia.
Qed.
Lemma target_le m e n : 0 < m → 0 < n < 2 ^ 53 → at_most m e n → target m e ≤ 0 ∧ e < 53.
Proof.
  intros Hm Hn H. apply at_most_log2 in H; [|lia..].
  assert (Z.log2 n < 53) as Hl by (apply Z.log2_lt_pow2; lia).
  pose proof (Z.log2_nonneg m). unfold target, fexp, emin. rewrite Zdigits2_log2 by done. lia.
Qed.

(** ** One shift to the target exponent *)

Lemma shr_fexp_spec m e : 0 ≤ m → ∃ r e',
  shr_fexp 53 1024 m e loc_Exact = (r, e') ∧
  (target m e ≤ e ∧ e' = e ∧ r = Build_shr_record m false false ∨ e < target m e ∧ e' = target m e ∧ shifted m (e' - e) r).
Proof.
  intros Hm. unfold shr_fexp. fold (target m e). destruct (Z.le_gt_cases (target m e) e) as [H|H].
  - exists (Build_shr_record m false false), e. split; [|auto]. unfold shr. destruct (target m e - e) eqn:E; [done|lia|done].
  - destruct (shr_spec m e (target m e - e)) as (r & Hr & Hs); [lia..|]. exists r, (target m e). rewrite Hr.
    replace (e + (target m e - e)) with (target m e) by lia. auto.
Qed.

Lemma round_even_bound r : round_nearest_even (shr_m r) (loc_of_shr_record r) = shr_m r ∨
  loc_of_shr_record r ≠ loc_Exact ∧ round_nearest_even (shr_m r) (loc_of_shr_record r) = shr_m r + 1.
Proof. destruct r as [q b s]. destruct b, s; cbn; auto; destruct (Z.even q); auto. Qed.

(** m * 2^e ≤ n shifted down to an exponent that is not positive, and rounded. *)
Lemma rounded_at_most m e k n r : 0 < m → 0 < n → 0 < k → e + k ≤ 0 → at_most m e n → shifted m k r →
  at_most (round_nearest_even (shr_m r) (loc_of_shr_record r)) (e + k) n.
Proof.
  intros Hm Hn Hk He H (Hq & lost & Hl & E & Hz). unfold at_most in *.
  rewrite (Z.max_r e), (Z.max_l (- e)) in H by lia. rewrite (Z.max_r (e + k)), (Z.max_l (- (e + k))) by lia.
  replace (- e) with (- (e + k) + k) in H by lia. rewrite Z.pow_add_r in H by lia.
  rewrite Z.mul_1_r in *. rewrite Z.mul_assoc in H. revert H. generalize (n * 2 ^ (- (e + k))) as N. intros N H.
  destruct (round_even_bound r) as [->|[Hx ->]]; [nia|].
  assert (lost ≠ 0) by tauto. nia.
Qed.
Lemma shifted_at_most m e k n r : 0 < m → 0 < n → 0 < k → e + k ≤ 0 → at_most m e n → shifted m k r → at_most (shr_m r) (e + k) n.
Proof.
  intros Hm Hn Hk He H (Hq & lost & Hl & E & Hz). unfold at_most in *.
  rewrite (Z.max_r e), (Z.max_l (- e)) in H by lia. rewrite (Z.max_r (e + k)), (Z.max_l (- (e + k))) by lia.
  replace (- e) with (- (e + k) + k) in H by lia. rewrite Z.pow_add_r in H by lia.
  rewrite Z.mul_1_r in *. rewrite Z.mul_assoc in H. revert H. generalize (n * 2 ^ (- (e + k))) as N. intros N H. nia.
Qed.

Definition within_bound (f : float64) (n : Z) : Prop :=
  match f with S754_zero _ => True | S754_finite false m e => at_most (Zpos m) e n | _ => False end.

Lemma round_within m e n : 0 < m → 0 < n < 2 ^ 53 → at_most m e n →
  within_bound (binary_round_aux 53 1024 false m e loc_Exact) n.
Proof.
  intros Hm Hn H. unfold binary_round_aux. destruct (shr_fexp_spec m e ltac:(lia)) as (r & e1 & -> & Hr).
  destruct (target_le m e n Hm Hn H) as [Ht He].
  set (q := round_nearest_even _ _).
  assert (0 ≤ q ∧ at_most q e1 n) as [Hq Hb].
  { destruct Hr as [(_ & -> & ->)|(H1 & -> & Hs)]; [cbn in q; subst q; split; [lia|done]|].
    split; [destruct Hs as [Hs _]; subst q; destruct (round_even_bound r) as [->|[_ ->]]; lia|].
    replace (target m e) with (e + (target m e - e)) by lia. by apply (rounded_at_most m); try lia. }
  clearbody q. destruct (shr_fexp_spec q e1 Hq) as (r2 & e2 & -> & Hr2).
  destruct (Z.eq_dec q 0) as [->|Hq0].
  { assert (shr_m r2 = 0) as ->; [|done]. destruct Hr2 as [(_ & _ & ->)|(_ & _ & ? & lost & ? & ? & _)]; [done|nia]. }
  destruct (target_le q e1 n) as [Ht2 He2]; [lia..|done|].
  assert (0 ≤ shr_m r2 ∧ at_most (shr_m r2) e2 n) as [Hm2 Hb2].
  { destruct Hr2 as [(_ & -> & ->)|(H1 & -> & Hs)]; [cbn; split; [lia|done]|]. split; [apply Hs|].
    replace (target q e1) with (e1 + (target q e1 - e1)) by lia. apply (shifted_at_most q); try lia; done. }
  destruct (shr_m r2) as [|p|p]; [done| |lia]. cbn.
  assert (e2 ≤ 1024 - 53) as ->%Z.leb_le; [|exact Hb2]. destruct Hr2 as [(_ & -> & _)|(_ & -> & _)]; lia.
Qed.

Lemma round_exact m e n : 0 < m → 0 < n < 2 ^ 53 → exactly m e n →
  ∃ m' e', binary_round_aux 53 1024 false m e loc_Exact = S754_finite false m' e' ∧ exactly (Zpos m') e' n ∧ e' < 53.
Proof.
  intros Hm Hn H. assert (at_most m e n) as Hle by (unfold at_most; unfold exactly in H; lia).
  destruct (target_le m e n Hm Hn Hle) as [Ht He].
  unfold binary_round_aux. destruct (shr_fexp_spec m e ltac:(lia)) as (r & e1 & -> & Hr).
  destruct Hr as [(H1 & -> & ->)|(H1 & -> & Hq & lost & Hl & E & Hz)].
  - cbn [shr_m loc_of_shr_record round_nearest_even]. destruct (shr_fexp_spec m e ltac:(lia)) as (r2 & e2 & -> & [(_ & -> & ->)|(? & _)]); [|lia].
    cbn [shr_m]. destruct m as [|m|]; [lia| |lia]. rewrite (proj2 (Z.leb_le _ _)) by lia. by exists m, e.
  - set (k := target m e - e) in *. assert (0 < k) by lia.
    assert (lost = 0 ∧ exactly (shr_m r) (target m e) n) as [Hl0 Hx].
    { unfold exactly in *. rewrite (Z.max_r e), (Z.max_l (- e)) in H by lia.
      rewrite (Z.max_r (target m e)), (Z.max_l (- target m e)) by lia.
      replace (- e) with (- target m e + k) in H by lia. rewrite Z.pow_add_r in H by lia.
      change (2 ^ 0) with 1 in *. rewrite Z.mul_1_r in *. rewrite Z.mul_assoc in H. revert H. generalize (n * 2 ^ (- target m e)) as N. intros N H.
      clear - E H Hl. revert E H Hl. generalize (2 ^ k) as K. intros K E H Hl.
      assert (N = shr_m r) as -> by nia. split; [lia|done]. }
    pose proof (proj1 Hz Hl0) as ->. cbn [round_nearest_even]. subst lost. rewrite Z.add_0_r in E.
    assert (0 < shr_m r) as Hr0 by nia.
    assert (target (shr_m r) (target m e) = target m e) as Ht2.
    { assert (Z.log2 m = Z.log2 (shr_m r) + k) as Hlog by (rewrite E at 1; rewrite Z.log2_mul_pow2; lia).
      unfold target at 1. rewrite Zdigits2_log2 by done. replace (_ + 1 + _) with (Zdigits2 m + e); [done|].
      rewrite Zdigits2_log2 by done. lia. }
    destruct (shr_fexp_spec (shr_m r) (target m e) Hq) as (r2 & e2 & -> & [(_ & -> & ->)|(? & _)]); [|lia].
    cbn [shr_m]. destruct (shr_m r) as [|m'|]; [lia| |lia]. rewrite (proj2 (Z.leb_le _ _)) by lia. exists m', (target m e). split; [done|]. split; [done|lia].
Qed.

(** ** Integers, and products *)

Lemma common_power p q : 0 ≤ p → 0 ≤ q → ∃ k, 0 ≤ k ∧ p = Z.max (p - q) 0 + k ∧ q = Z.max (- (p - q)) 0 + k.
Proof. intros. exists (Z.min p q). lia. Qed.
Lemma exactly_any m e n p q : 0 ≤ p → 0 ≤ q → p - q = e → exactly m e n ↔ m * 2 ^ p = n * 2 ^ q.
Proof.
  intros Hp Hq <-. unfold exactly. destruct (common_power p q Hp Hq) as (k & Hk & Ep & Eq).
  assert (0 ≤ Z.max (p - q) 0 ∧ 0 ≤ Z.max (- (p - q)) 0) as [Ha Hb] by lia. revert Ha Hb Ep Eq.
  generalize (Z.max (p - q) 0) (Z.max (- (p - q)) 0). intros a b Ha Hb -> ->.
  rewrite !Z.pow_add_r, !Z.mul_assoc by lia. rewrite Z.mul_cancel_r; [done|]. apply Z.pow_nonzero; lia.
Qed.
Lemma at_most_any m e n p q : 0 ≤ p → 0 ≤ q → p - q = e → at_most m e n ↔ m * 2 ^ p ≤ n * 2 ^ q.
Proof.
  intros Hp Hq <-. unfold at_most. destruct (common_power p q Hp Hq) as (k & Hk & Ep & Eq).
  assert (0 ≤ Z.max (p - q) 0 ∧ 0 ≤ Z.max (- (p - q)) 0) as [Ha Hb] by lia. revert Ha Hb Ep Eq.
  generalize (Z.max (p - q) 0) (Z.max (- (p - q)) 0). intros a b Ha Hb -> ->.
  rewrite !Z.pow_add_r, !Z.mul_assoc by lia. apply Z.mul_le_mono_pos_r. lia.
Qed.

(** The number is the positive integer n. *)
Definition represents (f : float64) (n : Z) : Prop := ∃ m e, f = S754_finite false m e ∧ exactly (Zpos m) e n.

Lemma represents_to_int f n : represents f n → f_to_int f = n.
Proof.
  intros (m & e & -> & H). cbn [f_to_int]. unfold id, exactly in *. destruct (Z.leb_spec 0 e).
  - rewrite Z.shiftl_mul_pow2 by done. rewrite Z.max_l, Z.max_r in H by lia. lia.
  - rewrite Z.shiftr_div_pow2 by lia. rewrite Z.max_r, Z.max_l in H by lia. change (2 ^ 0) with 1 in H.
    replace (Zpos m) with (n * 2 ^ (- e)) by lia. apply Z.div_mul. apply Z.pow_nonzero; lia.
Qed.
Lemma within_to_int f n : 0 ≤ n → within_bound f n → 0 ≤ f_to_int f ≤ n.
Proof.
  intros Hn. destruct f as [s|s| |[] m e]; cbn [within_bound f_to_int]; try lia; try (by intros []; lia).
  unfold at_most, id. destruct (Z.leb_spec 0 e); intros H'.
  - rewrite Z.shiftl_mul_pow2 by done. rewrite Z.max_l, Z.max_r in H' by lia. lia.
  - rewrite Z.shiftr_div_pow2 by lia. rewrite Z.max_r, Z.max_l in H' by lia. change (2 ^ 0) with 1 in H'.
    split; [apply Z.div_pos; lia|]. apply Z.div_le_upper_bound; lia.
Qed.

Lemma iter_xO p : ∀ m, Zpos (Pos.iter xO m p) = Zpos m * 2 ^ Zpos p.
Proof.
  induction p as [|p IH] using Pos.peano_ind; intros m; [cbn; lia|].
  rewrite Pos.iter_succ, Pos2Z.inj_succ, Z.pow_succ_r by lia. rewrite Pos2Z.inj_xO, IH. lia.
Qed.
Lemma f_of_Z_represents n : 0 < n < 2 ^ 53 → represents (f_of_Z n) n.
Proof.
  intros Hn. destruct n as [|m|]; [lia| |lia]. unfold f_of_Z, binary_normalize, binary_round, shl_align.
  set (k := fexp _ _ _). clearbody k.
  assert (exactly (Zpos m) 0 (Zpos m)) as H0 by done.
  destruct (k - 0) as [|p|p] eqn:E.
  1, 2: destruct (round_exact (Zpos m) 0 (Zpos m)) as (m' & e' & -> & H & _); try done; by exists m', e'.
  destruct (round_exact (Zpos (Pos.iter xO m p)) k (Zpos m)) as (m' & e' & -> & H & _); try done; [|by exists m', e'].
  rewrite iter_xO. apply (exactly_any _ _ _ 0 (Zpos p)); [lia..|]. rewrite Z.mul_1_r. done.
Qed.

Lemma f_mul_exact x y a b : represents x a → represents y b → 0 < a → 0 < b → a * b < 2 ^ 53 → represents (f_mul x y) (a * b).
Proof.
  intros (m1 & e1 & -> & H1) (m2 & e2 & -> & H2) Ha Hb Hab. unfold f_mul. cbn [SFmul xorb].
  destruct (round_exact (Zpos (m1 * m2)) (e1 + e2) (a * b)) as (m' & e' & -> & H & _); [lia|nia| |by exists m', e'].
  unfold exactly in H1, H2.
  apply (exactly_any _ _ _ (Z.max e1 0 + Z.max e2 0) (Z.max (- e1) 0 + Z.max (- e2) 0)); [lia..|].
  rewrite !Z.pow_add_r, Pos2Z.inj_mul by lia. nia.
Qed.
Lemma f_mul_within m e y b : at_most (Zpos m) e 1 → represents y b → 0 < b < 2 ^ 53 →
  within_bound (f_mul (S754_finite false m e) y) b.
Proof.
  intros H1 (m2 & e2 & -> & H2) Hb. unfold f_mul. cbn [SFmul xorb].
  apply round_within; [lia|done|]. unfold at_most in H1. unfold exactly in H2.
  apply (at_most_any _ _ _ (Z.max e 0 + Z.max e2 0) (Z.max (- e) 0 + Z.max (- e2) 0)); [lia..|].
  rewrite !Z.pow_add_r, Pos2Z.inj_mul by lia. 
  replace (Zpos m * Zpos m2 * (2 ^ Z.max e 0 * 2 ^ Z.max e2 0)) with (Zpos m * 2 ^ Z.max e 0 * (Zpos m2 * 2 ^ Z.max e2 0)) by ring.
  rewrite H2. replace (b * (2 ^ Z.max (- e) 0 * 2 ^ Z.max (- e2) 0)) with (1 * 2 ^ Z.max (- e) 0 * (b * 2 ^ Z.max (- e2) 0)) by ring.
  apply Z.mul_le_mono_nonneg_r; [|done]. nia.
Qed.

(** ** Numbers stay numbers *)

Definition is_finite (a : float64) : bool := match a with S754_zero _ | S754_finite _ _ _ => true | _ => false end.

Lemma round_not_nan s m e : 0 ≤ m → is_nan (binary_round_aux 53 1024 s m e loc_Exact) = false.
Proof.
  assert (∀ m e r e', 0 ≤ m → shr_fexp 53 1024 m e loc_Exact = (r, e') → 0 ≤ shr_m r) as H.
  { intros m0 e0 r e' Hm E. destruct (shr_fexp_spec m0 e0 Hm) as (r1 & e1 & E1 & Hr). rewrite E in E1. injection E1 as <- <-.
    destruct Hr as [(_ & _ & ->)|(_ & _ & [? _])]; done. }
  intros Hm. unfold binary_round_aux. destruct (shr_fexp 53 1024 m e loc_Exact) as [r1 e1] eqn:E1. apply H in E1; [|done].
  destruct (shr_fexp 53 1024 (round_nearest_even _ _) e1 loc_Exact) as [r2 e2] eqn:E2. apply H in E2.
  - destruct (shr_m r2); [done|by case_match|lia].
  - destruct (round_even_bound r1) as [->|[_ ->]]; lia.
Qed.
Lemma normalize_not_nan m e b : is_nan (binary_normalize 53 1024 m e b) = false.
Proof. destruct m; cbn [binary_normalize]; [done| |]; unfold binary_round; destruct (shl_align _ _ _); by apply round_not_nan. Qed.

Lemma f_add_not_nan a b : is_finite a = true → is_nan b = false → is_nan (f_add a b) = false.
Proof.
  unfold f_add. destruct a as [[]|[]| |sa ma ea], b as [[]|[]| |sb mb eb]; try done; intros _ _; apply normalize_not_nan.
Qed.
Lemma f_mul_not_nan s m e n : is_nan (f_mul (S754_finite s m e) (f_of_Z n)) = false.
Proof.
  pose proof (normalize_not_nan n 0 false) as H. fold (f_of_Z n) in H. destruct (f_of_Z n) as [b|b| |b m' e']; try done.
  by apply round_not_nan.
Qed.
