(* ===== verification/Durations.v ===== *)
(** * Durations in the configuration (type Duration in internal/config/config.go)

    A duration is written as text such as "1h30m" and read with
    time.ParseDuration, whose integer part is exact and whose fraction is
    computed in float64.

    [duration_roundtrip]: every duration that is written, the smallest int64
    included, is read back as itself. *)

From Stdlib Require Import SpecFloat.
From S2P Require Import Prelude GoText GoBase GoFloat FloatFacts.
#[local] Open Scope Z_scope.

(** ** time.ParseDuration *)

Definition point : ascii := "."%char.
Definition back_slash : ascii := byte_of 92.
Definition hex_char (n : Z) : string := if n <? 10 then itoa n else String (byte_of (87 + n)) "".
(** quote of package time: what is not printable ASCII as bytes. *)
Fixpoint time_quote_body (s : string) : string :=
  match s with
  | "" => ""
  | String c s =>
      (if (128 <=? byte_val c) || (byte_val c <? 32)
       then String back_slash ("x" +:+ hex_char (byte_val c / 16) +:+ hex_char (byte_val c mod 16))
       else if bool_decide (byte_val c = 34) || bool_decide (c = back_slash) then String back_slash (String c "") else String c "")
      +:+ time_quote_body s
  end.
Definition time_quote (s : string) : string := String (byte_of 34) (time_quote_body s +:+ String (byte_of 34) "").

(** The digits a text starts with; none when they pass 2^63. *)
Fixpoint leadingInt (x : Z) (s : string) : option (Z * string) :=
  match s with
  | "" => Some (x, "")
  | String c s' =>
      if negb (is_digit_byte c) then Some (x, s)
      else if 2 ^ 63 / 10 <? x then None
      else
        let x := 10 * x + digit_val c in
        if 2 ^ 63 <? x then None else leadingInt x s'
  end.
(** The digits of a fraction, those that do not fit left out, and its scale. *)
Fixpoint leadingFraction (x : Z) (scale : float64) (overflow : bool) (s : string) : Z * float64 * string :=
  match s with
  | "" => (x, scale, "")
  | String c s' =>
      if negb (is_digit_byte c) then (x, scale, s)
      else if overflow then leadingFraction x scale overflow s'
      else if (2 ^ 63 - 1) / 10 <? x then leadingFraction x scale true s'
      else
        let y := 10 * x + digit_val c in
        if 2 ^ 63 <? y then leadingFraction x scale true s'
        else leadingFraction y (f_mul scale (f_of_Z 10)) overflow s'
  end.
(** The unit: up to the next digit or point. *)
Fixpoint unit_text (s : string) : string * string :=
  match s with
  | "" => ("", "")
  | String c s' =>
      if bool_decide (c = point) || is_digit_byte c then ("", s)
      else let '(u, r) := unit_text s' in (String c u, r)
  end.
Definition micro : string := String (byte_of 194) (String (byte_of 181) "s").
Definition mu : string := String (byte_of 206) (String (byte_of 188) "s").
Definition unitMap : list (string * Z) :=
  [("ns", 1); ("us", Microsecond); (micro, Microsecond); (mu, Microsecond); ("ms", Millisecond); ("s", Second); ("m", Minute); ("h", Hour)].
Definition unit_value (u : string) : option Z := snd <$> List.find (λ p, bool_decide (p.1 = u)) unitMap.

Definition f_div : float64 → float64 → float64 := SFdiv 53 1024.
Definition uint64 (z : Z) : Z := z mod 2 ^ 64.

(** One number and its unit: the nanoseconds, and the rest. *)
Definition duration_part (orig s : string) : outcome string (Z * string) :=
  let invalid := Err ("time: invalid duration " +:+ time_quote orig) in
  match s with
  | "" => invalid
  | String c _ =>
      if negb (bool_decide (c = point) || is_digit_byte c) then invalid
      else match leadingInt 0 s with
      | None => invalid
      | Some (v, s1) =>
          let pre := negb (String.length s =? String.length s1)%nat in
          let '(f, scale, s2, post) :=
            match s1 with
            | String c s1' =>
                if bool_decide (c = point) then
                  let '(f, scale, s2) := leadingFraction 0 (f_of_Z 1) false s1' in
                  (f, scale, s2, negb (String.length s1' =? String.length s2)%nat)
                else (0, f_of_Z 1, s1, false)
            | "" => (0, f_of_Z 1, s1, false)
            end in
          if negb pre && negb post then invalid
          else
            let '(u, s3) := unit_text s2 in
            if bool_decide (u = "") then Err ("time: missing unit in duration " +:+ time_quote orig)
            else match unit_value u with
            | None => Err ("time: unknown unit " +:+ time_quote u +:+ " in duration " +:+ time_quote orig)
            | Some unit =>
                if 2 ^ 63 / unit <? v then invalid
                else
                  let v := v * unit in
                  let v := if 0 <? f then uint64 (v + f_to_int (f_mul (f_of_Z f) (f_div (f_of_Z unit) scale))) else v in
                  if 2 ^ 63 <? v then invalid else Ok (v, s3)
            end
      end
  end.
(** The loop over the parts; each takes at least a byte. *)
Fixpoint duration_parts (fuel : nat) (orig : string) (d : Z) (s : string) : outcome string Z :=
  match s, fuel with
  | "", _ => Ok d
  | _, O => Err ("time: invalid duration " +:+ time_quote orig)
  | _, S fuel =>
      match duration_part orig s with
      | Err e => Err e
      | Ok (v, s) =>
          let d := uint64 (d + v) in
          if 2 ^ 63 <? d then Err ("time: invalid duration " +:+ time_quote orig) else duration_parts fuel orig d s
      end
  end.
Definition time_ParseDuration (orig : string) : outcome string Z :=
  let '(neg, s) :=
    match orig with
    | String c s => if bool_decide (c = dash) then (true, s) else if bool_decide (c = "+"%char) then (false, s) else (false, orig)
    | "" => (false, "")
    end in
  if bool_decide (s = "0") then Ok 0
  else if bool_decide (s = "") then Err ("time: invalid duration " +:+ time_quote orig)
  else
    d <-? duration_parts (String.length s) orig 0 s ;;
    if neg then Ok (int64 (- d))
    else if 2 ^ 63 - 1 <? d then Err ("time: invalid duration " +:+ time_quote orig) else Ok d.

(** ** The configuration's durations *)

Definition UnmarshalText (text : string) : outcome string Z := time_ParseDuration text.
Definition MarshalText (d : Z) : string := Duration_String d.

Example parse_a : time_ParseDuration <$> ["2s"; "1h30m"; "-1.5h"; ".5m"; "0"; "100ms"; "1.0000001s"]
  = [Ok (2 * Second); Ok (90 * Minute); Ok (-90 * Minute); Ok (30 * Second); Ok 0; Ok (100 * Millisecond); Ok 1000000100].
Proof. vm_compute. reflexivity. Qed.
Example parse_b : time_ParseDuration <$> ["5"; ""; "1d"; "s"; "9223372036854775808ns"; "-9223372036854775808ns"]
  = [Err (String.append "time: missing unit in duration " (time_quote "5")); Err (String.append "time: invalid duration " (time_quote ""));
     Err ("time: unknown unit " +:+ time_quote "d" +:+ " in duration " +:+ time_quote "1d"); Err ("time: invalid duration " +:+ time_quote "s");
     Err ("time: invalid duration " +:+ time_quote "9223372036854775808ns"); Ok (- 2 ^ 63)].
Proof. vm_compute. reflexivity. Qed.

(** ** Digits *)

(** A text that does not go on with a digit or a point. *)
Definition no_number (s : string) : Prop := match s with "" => True | String c _ => is_digit_byte c = false ∧ c ≠ point end.
Definition digits (t : string) : Prop := str_forall is_digit_byte t = true.

Lemma digit_val_range c : is_digit_byte c = true → 0 ≤ digit_val c ≤ 9.
Proof. unfold is_digit_byte, in_range, digit_val. rewrite andb_true_iff, !Z.leb_le. lia. Qed.
Lemma digits_cons c t : digits (String c t) ↔ is_digit_byte c = true ∧ digits t.
Proof. unfold digits. cbn. apply andb_true_iff. Qed.
Lemma digits_value_ge t : ∀ x, digits t → 0 ≤ x → x ≤ digits_value x t.
Proof.
  induction t as [|c t IH]; intros x Ht Hx; [done|]. apply digits_cons in Ht as [Hc Ht]. cbn [digits_value].
  pose proof (digit_val_range c Hc). transitivity (10 * x + digit_val c); [lia|]. apply IH; [done|lia].
Qed.
Lemma digits_value_app s t : ∀ x, digits_value x (s +:+ t) = digits_value (digits_value x s) t.
Proof. induction s as [|c s IH]; intros x; [done|]. cbn. apply IH. Qed.

Lemma leadingInt_digits t rest : ∀ x, digits t → no_number rest ∨ (∃ s, rest = String point s) → 0 ≤ x → digits_value x t ≤ 2 ^ 63 →
  leadingInt x (t +:+ rest) = Some (digits_value x t, rest).
Proof.
  induction t as [|c t IH]; intros x Ht Hr Hx Hv; cbn [String.append digits_value leadingInt].
  - destruct rest as [|c s]; [done|]. cbn [leadingInt]. destruct Hr as [[Hc _]|[s' [= -> ->]]]; [by rewrite Hc|done].
  - apply digits_cons in Ht as [Hc Ht]. pose proof (digit_val_range c Hc). cbn [digits_value] in Hv.
    pose proof (digits_value_ge t (10 * x + digit_val c) Ht ltac:(lia)).
    rewrite Hc. cbn [negb]. rewrite !(proj2 (Z.ltb_ge _ _)); [apply IH; [done..|lia|done]|lia|].
    apply Z.div_le_lower_bound; lia.
Qed.

(** The scale after i digits. *)
Definition scale_at (i : nat) : float64 := Nat.iter i (λ s, f_mul s (f_of_Z 10)) (f_of_Z 1).
Lemma leadingFraction_digits t rest : ∀ x i, digits t → no_number rest → 0 ≤ x → digits_value x t < 2 ^ 53 →
  leadingFraction x (scale_at i) false (t +:+ rest) = (digits_value x t, scale_at (i + String.length t), rest).
Proof.
  induction t as [|c t IH]; intros x i Ht Hr Hx Hv; cbn [String.append digits_value leadingFraction String.length].
  - rewrite Nat.add_0_r. destruct rest as [|c s]; [done|]. cbn [leadingFraction]. destruct Hr as [Hc _]. by rewrite Hc.
  - apply digits_cons in Ht as [Hc Ht]. pose proof (digit_val_range c Hc). cbn [digits_value] in Hv.
    pose proof (digits_value_ge t (10 * x + digit_val c) Ht ltac:(lia)).
    rewrite Hc. cbn [negb]. rewrite !(proj2 (Z.ltb_ge _ _)); [|lia|apply Z.div_le_lower_bound; lia].
    change (f_mul (scale_at i) (f_of_Z 10)) with (scale_at (S i)). rewrite IH by (done || lia).
    by replace (S i + String.length t)%nat with (i + S (String.length t))%nat by lia.
Qed.

(** ** The fraction that is printed *)

Lemma mod_pow_succ v n : 0 ≤ v → v mod 10 ^ Z.of_nat (S n) = 10 * ((v / 10) mod 10 ^ Z.of_nat n) + v mod 10.
Proof.
  intros Hv. rewrite Nat2Z.inj_succ, Z.pow_succ_r by lia. rewrite Z.rem_mul_r by lia. lia.
Qed.
Lemma itoa_digit d : 0 ≤ d < 10 → ∃ c, itoa d = String c "" ∧ is_digit_byte c = true ∧ digit_val c = d.
Proof.
  intros Hd. assert (d = 0 ∨ d = 1 ∨ d = 2 ∨ d = 3 ∨ d = 4 ∨ d = 5 ∨ d = 6 ∨ d = 7 ∨ d = 8 ∨ d = 9) as H by lia.
  repeat destruct H as [->|H]; subst; eexists; (split; [reflexivity|]); split; reflexivity.
Qed.
Lemma digits_snoc t c : digits t → is_digit_byte c = true → digits (t +:+ String c "").
Proof. unfold digits. intros Ht Hc. rewrite str_forall_app, Ht. cbn. by rewrite Hc. Qed.
Lemma length_snoc t c : String.length (t +:+ String c "") = S (String.length t).
Proof. induction t as [|d t IH]; [done|]. cbn. by rewrite IH. Qed.

Lemma frac_digits_shown n : ∀ v, 0 ≤ v →
  digits (frac_digits n v true) ∧ String.length (frac_digits n v true) = n ∧ digits_value 0 (frac_digits n v true) = v mod 10 ^ Z.of_nat n.
Proof.
  induction n as [|n IH]; intros v Hv; [cbn; split; [done|split; [done|by rewrite Z.mod_1_r]]|].
  cbn [frac_digits orb]. destruct (IH (v / 10)) as (H1 & H2 & H3); [apply Z.div_pos; lia|].
  destruct (itoa_digit (v mod 10)) as (c & -> & Hc & Hcv); [apply Z.mod_pos_bound; lia|].
  split; [by apply digits_snoc|]. split; [by rewrite length_snoc, H2|]. rewrite digits_value_app, H3, mod_pow_succ by done. cbn. lia.
Qed.
(** Nothing, or digits without the zeros at the end. *)
Lemma frac_digits_hidden n : ∀ v, 0 ≤ v →
  (frac_digits n v false = "" ∧ v mod 10 ^ Z.of_nat n = 0) ∨
  ∃ t j, frac_digits n v false = t ∧ digits t ∧ t ≠ "" ∧ (String.length t + j = n)%nat ∧ digits_value 0 t * 10 ^ Z.of_nat j = v mod 10 ^ Z.of_nat n ∧ 0 < digits_value 0 t.
Proof.
  induction n as [|n IH]; intros v Hv; [left; cbn; split; [done|by rewrite Z.mod_1_r]|].
  cbn [frac_digits]. rewrite mod_pow_succ by done. pose proof (Z.mod_pos_bound v 10 ltac:(lia)). pose proof (Z.div_pos v 10 Hv ltac:(lia)) as Hq.
  destruct (Z.eqb_spec (v mod 10) 0) as [E|E]; cbn [orb negb].
  - rewrite str_app_empty_r. destruct (IH (v / 10) Hq) as [[-> H0]|(t & j & -> & Ht & Hne & Hl & Hval & Hpos)]; [left; split; [done|lia]|right].
    exists t, (S j). split; [done|]. split; [done|]. split; [done|]. split; [lia|]. split; [|done].
    rewrite Nat2Z.inj_succ, Z.pow_succ_r by lia. lia.
  - right. destruct (frac_digits_shown n (v / 10) Hq) as (H1 & H2 & H3).
    destruct (itoa_digit (v mod 10)) as (c & -> & Hc & Hcv); [done|]. eexists _, 0%nat. split; [reflexivity|].
    split; [by apply digits_snoc|]. split; [by destruct (frac_digits n (v / 10) true)|]. split; [rewrite length_snoc; lia|].
    rewrite digits_value_app, H3. cbn [digits_value]. rewrite Hcv.
    pose proof (Z.mod_pos_bound (v / 10) (10 ^ Z.of_nat n) ltac:(lia)). lia.
Qed.

(** ** One part *)

Definition fraction_text (k : nat) (ft : string) (w : Z) : Prop :=
  (ft = "" ∧ w = 0) ∨
  ∃ t j, ft = String point t ∧ digits t ∧ t ≠ "" ∧ (String.length t + j = k)%nat ∧ digits_value 0 t * 10 ^ Z.of_nat j = w ∧ 0 < digits_value 0 t.
Lemma fmtFrac_text k v : 0 ≤ v → fraction_text k (fmtFrac k v) (v mod 10 ^ Z.of_nat k).
Proof.
  intros Hv. unfold fmtFrac. destruct (frac_digits_hidden k v Hv) as [[E H]|(t & j & E & H1 & H2 & H3 & H4 & H5)]; rewrite E.
  - left. by rewrite bool_decide_eq_true_2.
  - right. rewrite bool_decide_eq_false_2 by done. exists t, j. by split.
Qed.

(** The fractions that are printed have a unit whose scale divides exactly. *)
Definition exact_scale (k : nat) : Prop := k = 3%nat ∨ k = 6%nat ∨ k = 9%nat.
Lemma scale_div k i j : exact_scale k → (i + j = k)%nat → i ≠ 0%nat → f_div (f_of_Z (10 ^ Z.of_nat k)) (scale_at i) = f_of_Z (10 ^ Z.of_nat j).
Proof.
  intros Hk Hi H0.
  assert (i = 1 ∨ i = 2 ∨ i = 3 ∨ i = 4 ∨ i = 5 ∨ i = 6 ∨ i = 7 ∨ i = 8 ∨ i = 9)%nat as Hc by (destruct Hk as [->|[->| ->]]; lia).
  replace j with (k - i)%nat by lia. destruct Hk as [->|[->| ->]]; repeat destruct Hc as [->|Hc]; subst; try lia; vm_compute; reflexivity.
Qed.
Lemma fraction_exact k t j : exact_scale k → t ≠ "" → (String.length t + j = k)%nat → digits_value 0 t * 10 ^ Z.of_nat j < 2 ^ 53 → 0 < digits_value 0 t →
  f_to_int (f_mul (f_of_Z (digits_value 0 t)) (f_div (f_of_Z (10 ^ Z.of_nat k)) (scale_at (String.length t)))) = digits_value 0 t * 10 ^ Z.of_nat j.
Proof.
  intros Hk Hne Hl Hb Hp. rewrite (scale_div k _ j) by (done || by destruct t).
  assert (0 < 10 ^ Z.of_nat j) by lia.
  apply represents_to_int, f_mul_exact; [apply f_of_Z_represents; nia|apply f_of_Z_represents; nia|done..].
Qed.

(** A unit's text, and what may follow it. *)
Definition unit_like (u : string) : Prop := u ≠ "" ∧ str_forall (λ c, negb (bool_decide (c = point) || is_digit_byte c)) u = true.
Definition next_part (s : string) : Prop := match s with "" => True | String c _ => is_digit_byte c = true end.
Lemma unit_text_app u rest : unit_like u → next_part rest → unit_text (u +:+ rest) = (u, rest).
Proof.
  intros [_ Hu] Hr. induction u as [|c u IH]; cbn [String.append unit_text].
  - destruct rest as [|c s]; [done|]. cbn [unit_text next_part] in *. by rewrite Hr, orb_true_r.
  - cbn [str_forall] in Hu. apply andb_true_iff in Hu as [Hc Hu]. apply negb_true_iff in Hc. rewrite Hc. by rewrite IH.
Qed.
Lemma unit_no_number u rest : unit_like u → no_number (u +:+ rest).
Proof.
  intros [Hne Hu]. destruct u as [|c u]; [done|]. cbn [String.append no_number str_forall] in *.
  apply andb_true_iff in Hu as [Hc _]. apply negb_true_iff, orb_false_iff in Hc as [Hp Hd]. split; [done|]. by apply bool_decide_eq_false in Hp.
Qed.

Lemma length_prefix s t : s ≠ "" → (String.length (s +:+ t) =? String.length t)%nat = false.
Proof.
  intros Hs. apply Nat.eqb_neq. destruct s as [|c s]; [done|]. clear Hs.
  assert (∀ s, String.length (s +:+ t) = (String.length s + String.length t)%nat) as E.
  { intros w. induction w as [|x w IH]; [done|]. cbn. by rewrite IH. }
  rewrite E. cbn. lia.
Qed.

Lemma duration_part_spec orig n k ft w u unit rest :
  0 ≤ n → fraction_text k ft w → (ft = "" ∨ unit = 10 ^ Z.of_nat k ∧ exact_scale k) → unit_like u → unit_value u = Some unit → 0 < unit →
  next_part rest → 0 ≤ w → n * unit + w ≤ 2 ^ 63 → w < 2 ^ 53 →
  duration_part orig (itoa n +:+ ft +:+ u +:+ rest) = Ok (n * unit + w, rest).
Proof.
  intros Hn Hft Hk Hu Huv Hpos Hr Hw Hle Hw2.
  assert (digits (itoa n)) as Hd by (by apply itoa_nonneg_digits).
  pose proof (itoa_nonempty n) as Hne. pose proof (itoa_digits_value n Hn) as Hval.
  assert (leadingInt 0 (itoa n +:+ ft +:+ u +:+ rest) = Some (n, ft +:+ u +:+ rest)) as HI.
  { rewrite leadingInt_digits; [by rewrite Hval|done| |lia|rewrite Hval; nia].
    destruct Hft as [[-> _]|(t & j & -> & _)]; [left; exact (unit_no_number u rest Hu)|right; by eexists]. }
  unfold duration_part. destruct (itoa n +:+ ft +:+ u +:+ rest) as [|c s0] eqn:Es; [destruct (itoa n); done|].
  assert (is_digit_byte c = true) as Hc.
  { destruct (itoa n) as [|c' s']; [done|]. injection Es as <- _. by apply digits_cons in Hd as [? _]. }
  rewrite Hc, orb_true_r. cbn [negb]. rewrite HI, <- Es, length_prefix by done. cbn [negb andb].
  destruct Hft as [[-> ->]|(t & j & -> & Ht & Htne & Hl & Hv & Hvp)].
  - cbn [String.append]. destruct (u +:+ rest) as [|d s] eqn:Eu; [by destruct u, Hu|].
    assert (d ≠ point) as Hdp by (pose proof (unit_no_number u rest Hu) as H; rewrite Eu in H; apply H).
    rewrite bool_decide_eq_false_2 by done. rewrite <- Eu, unit_text_app by done.
    rewrite bool_decide_eq_false_2 by (apply Hu). rewrite Huv. rewrite (proj2 (Z.ltb_ge _ _)) by (apply Z.div_le_lower_bound; lia).
    cbn [Z.ltb Z.compare]. rewrite (proj2 (Z.ltb_ge _ _)) by lia. by rewrite Z.add_0_r.
  - destruct Hk as [|[-> Hk]]; [done|]. cbn [String.append]. rewrite bool_decide_eq_true_2 by done.
    assert (digits_value 0 t < 2 ^ 53) as Hsmall by nia.
    change (f_of_Z 1) with (scale_at 0). rewrite leadingFraction_digits by (done || lia || by apply unit_no_number).
    rewrite unit_text_app, bool_decide_eq_false_2, Huv by (done || apply Hu). rewrite (proj2 (Z.ltb_ge _ _)) by (apply Z.div_le_lower_bound; lia).
    rewrite (proj2 (Z.ltb_lt _ _) Hvp). change (0 + String.length t)%nat with (String.length t). rewrite (fraction_exact k t j) by (done || lia). rewrite Hv.
    unfold uint64. rewrite Z.mod_small by lia. by rewrite (proj2 (Z.ltb_ge _ _)) by lia.
Qed.

(** ** The text of a duration *)

Lemma duration_parts_step fuel orig d n k ft w u unit rest :
  0 ≤ n → fraction_text k ft w → (ft = "" ∨ unit = 10 ^ Z.of_nat k ∧ exact_scale k) → unit_like u → unit_value u = Some unit → 0 < unit →
  next_part rest → 0 ≤ w < 2 ^ 53 → 0 ≤ d → d + (n * unit + w) ≤ 2 ^ 63 →
  duration_parts (S fuel) orig d (itoa n +:+ ft +:+ u +:+ rest) = duration_parts fuel orig (d + (n * unit + w)) rest.
Proof.
  intros Hn Hft Hk Hu Huv Hpos Hr Hw Hd Hle.
  destruct (itoa n +:+ ft +:+ u +:+ rest) as [|c s] eqn:E; [destruct (itoa n) eqn:E'; [by apply itoa_nonempty in E'|done]|].
  cbn [duration_parts]. rewrite <- E, (duration_part_spec orig n k ft w u unit rest) by (done || lia || nia).
  unfold uint64. rewrite Z.mod_small by nia. by rewrite (proj2 (Z.ltb_ge _ _)).
Qed.
Lemma whole_text : fraction_text 0 "" 0.
Proof. by left. Qed.
Lemma text_length_app s t : String.length (s +:+ t) = (String.length s + String.length t)%nat.
Proof. induction s as [|c s IH]; [done|]. cbn. by rewrite IH. Qed.
Lemma itoa_starts n rest : 0 ≤ n → next_part (itoa n +:+ rest).
Proof.
  intros Hn. pose proof (itoa_nonneg_digits n Hn) as Hd. pose proof (itoa_nonempty n) as Hne. destruct (itoa n) as [|c s]; [done|].
  cbn in *. by apply andb_true_iff in Hd as [? _].
Qed.

(** The body of Duration.String, after the sign. *)
Definition duration_body (u : Z) : string := Duration_String u.
Lemma Duration_String_sign d : Duration_String d = (if d <? 0 then "-" else "") +:+ duration_body (Z.abs d).
Proof.
  unfold duration_body, Duration_String. rewrite (proj2 (Z.ltb_ge (Z.abs d) 0)), Z.abs_involutive by lia. by destruct (d <? 0).
Qed.

(** A text of p parts that is read as v. *)
Record reads (orig s : string) (v : Z) (p : nat) : Prop := mkReads {
  re_parts fuel d : (p ≤ fuel)%nat → 0 ≤ d → d + v ≤ 2 ^ 63 → duration_parts fuel orig d s = Ok (d + v);
  re_starts : next_part s;
  re_ends : ∃ t, s = t +:+ "s";
  re_length : (p ≤ String.length s)%nat;
}.
Lemma reads_one orig n k w u unit v ft : 0 ≤ n → fraction_text k ft w → (ft = "" ∨ unit = 10 ^ Z.of_nat k ∧ exact_scale k) →
  (∃ t, u = t +:+ "s") → unit_like u → unit_value u = Some unit → 0 < unit → 0 ≤ w < 2 ^ 53 → v = n * unit + w → reads orig (itoa n +:+ ft +:+ u) v 1.
Proof.
  intros Hn Hft Hk [t Ht] Hu Huv Hpos Hw ->. split.
  - intros fuel d Hf Hd Hle. destruct fuel as [|fuel]; [lia|]. rewrite <- (str_app_empty_r u).
    rewrite (duration_parts_step fuel orig d n k ft w u unit "") by done. by destruct fuel.
  - by apply itoa_starts.
  - exists (itoa n +:+ ft +:+ t). rewrite Ht. by rewrite !str_app_assoc.
  - rewrite !text_length_app. pose proof (itoa_nonempty n). destruct (itoa n); [done|cbn; lia].
Qed.
Lemma reads_more orig s v p n u unit : reads orig s v p → 0 ≤ v → 0 ≤ n → unit_like u → unit_value u = Some unit → 0 < unit →
  reads orig (itoa n +:+ u +:+ s) (n * unit + v) (S p).
Proof.
  intros [Hp Hs [t Ht] Hl] Hv Hn Hu Huv Hpos. split.
  - intros fuel d Hf Hd Hle. destruct fuel as [|fuel]; [lia|]. change (u +:+ s) with ("" +:+ u +:+ s).
    rewrite (duration_parts_step fuel orig d n 0 "" 0 u unit s) by (apply whole_text || auto || lia || done).
    rewrite Hp by nia. f_equal. lia.
  - by apply itoa_starts.
  - exists (itoa n +:+ u +:+ t). rewrite Ht. by rewrite !str_app_assoc.
  - rewrite !text_length_app. pose proof (itoa_nonempty n). destruct (itoa n); [done|cbn; lia].
Qed.

Lemma seconds_read orig u : 0 ≤ u → reads orig (itoa (u / Second mod 60) +:+ fmtFrac 9 u +:+ "s") (u mod Minute) 1.
Proof.
  intros Hu. pose proof (Z.mod_pos_bound (u / Second) 60 ltac:(lia)). pose proof (Z.mod_pos_bound u Second ltac:(done)).
  apply (reads_one _ _ 9 (u mod Second) _ Second); try done; try (unfold Second in *; lia).
  - by apply (fmtFrac_text 9).
  - right. split; [done|]. unfold exact_scale. lia.
  - by exists "".
  - unfold Minute. rewrite (Z.mul_comm 60), Z.rem_mul_r by (unfold Second; lia). lia.
Qed.

Lemma duration_body_reads orig u : 0 ≤ u → ∃ p, reads orig (duration_body u) u p.
Proof.
  intros Hu. unfold duration_body, Duration_String. rewrite (proj2 (Z.ltb_ge _ 0)), Z.abs_eq by done. cbv zeta.
  destruct (Z.eqb_spec u 0) as [->|H0].
  { exists 1%nat. apply (reads_one orig 0 0 0 "s" Second 0 ""); try done; [apply whole_text|by left|by exists ""]. }
  destruct (Z.ltb_spec u Microsecond) as [H1|H1].
  { exists 1%nat. apply (reads_one orig u 0 0 "ns" 1 u ""); try done; [apply whole_text|by left|by exists "n"|lia]. }
  destruct (Z.ltb_spec u Millisecond) as [H2|H2].
  { exists 1%nat. pose proof (Z.mod_pos_bound u Microsecond ltac:(done)).
    apply (reads_one _ _ 3 (u mod Microsecond) micro Microsecond); try done; try (apply Z.div_pos; done); try (unfold Microsecond in *; lia).
    - by apply (fmtFrac_text 3).
    - right. split; [done|]. unfold exact_scale. lia.
    - by exists (String (byte_of 194) (String (byte_of 181) "")).
    - rewrite (Z.div_mod u Microsecond) at 1 by done. lia. }
  destruct (Z.ltb_spec u Second) as [H3|H3].
  { exists 1%nat. pose proof (Z.mod_pos_bound u Millisecond ltac:(done)).
    apply (reads_one _ _ 6 (u mod Millisecond) "ms" Millisecond); try done; try (apply Z.div_pos; done); try (unfold Millisecond in *; lia).
    - by apply (fmtFrac_text 6).
    - right. split; [done|]. unfold exact_scale. lia.
    - by exists "m".
    - rewrite (Z.div_mod u Millisecond) at 1 by done. lia. }
  pose proof (seconds_read orig u Hu) as Hs. pose proof (Z.mod_pos_bound u Minute ltac:(done)) as Hm.
  assert (u / Second / 60 = u / Minute) as -> by (rewrite Z.div_div by done; done).
  destruct (Z.eqb_spec (u / Minute) 0) as [E|E].
  { exists 1%nat. pose proof (Z.div_mod u Minute ltac:(done)) as Hdm. assert (u mod Minute = u) as Em by lia. by rewrite Em in Hs. }
  assert (u / Minute / 60 = u / Hour) as -> by (rewrite Z.div_div by done; done).
  assert (reads orig (itoa (u / Minute mod 60) +:+ "m" +:+ itoa (u / Second mod 60) +:+ fmtFrac 9 u +:+ "s") (u mod Hour) 2) as H60.
  { assert (u mod Hour = u / Minute mod 60 * Minute + u mod Minute) as ->.
    { unfold Hour. rewrite (Z.mul_comm 60), Z.rem_mul_r by done. lia. }
    apply reads_more; try done; [lia|]. apply Z.mod_pos_bound; lia. }
  pose proof (Z.mod_pos_bound u Hour ltac:(done)).
  destruct (Z.eqb_spec (u / Hour) 0) as [E2|E2].
  { exists 2%nat. pose proof (Z.div_mod u Hour ltac:(done)) as Hdm. assert (u mod Hour = u) as Em by lia. by rewrite Em in H60. }
  exists 3%nat. pose proof (Z.div_mod u Hour ltac:(done)) as Hdm. replace u with (u / Hour * Hour + u mod Hour) at 5 by lia.
  apply reads_more; try done; [lia|]. apply Z.div_pos; done.
Qed.

(** C32: a duration in the configuration is read back as it was written:
    every int64 of nanoseconds, whatever its sign and its fraction, the one
    that has no opposite included. *)
Theorem duration_roundtrip d : - 2 ^ 63 ≤ d < 2 ^ 63 → UnmarshalText (MarshalText d) = Ok d.
Proof.
  intros Hd. unfold UnmarshalText, MarshalText, time_ParseDuration. rewrite Duration_String_sign.
  destruct (duration_body_reads ((if d <? 0 then "-" else "") +:+ duration_body (Z.abs d)) (Z.abs d) ltac:(lia)) as (p & [Hp Hs [t Ht] Hl]).
  set (orig := (if d <? 0 then "-" else "") +:+ _) in *. set (body := duration_body (Z.abs d)) in *. clearbody body.
  assert (body ≠ "" ∧ body ≠ "0") as [Hne Hn0].
  { rewrite Ht. split; by destruct t as [|c [|c' t]]. }
  assert (duration_parts (String.length body) orig 0 body = Ok (Z.abs d)) as Hread by (rewrite Hp by lia; f_equal; lia).
  assert ((match orig with
    | String c s => if bool_decide (c = dash) then (true, s) else if bool_decide (c = "+"%char) then (false, s) else (false, orig)
    | "" => (false, "") end) = (d <? 0, body)) as ->.
  { subst orig. destruct (d <? 0); [done|]. cbn [String.append]. destruct body as [|c b]; [done|]. cbn in Hs.
    rewrite !bool_decide_eq_false_2; [done|by intros ->..]. }
  rewrite !bool_decide_eq_false_2 by done. rewrite Hread. cbn [obind].
  destruct (Z.ltb_spec d 0).
  - rewrite Z.abs_neq, Z.opp_involutive by lia. unfold int64. f_equal. rewrite Z.mod_small by lia. lia.
  - rewrite Z.abs_eq by lia. by rewrite (proj2 (Z.ltb_ge _ _)) by lia.
Qed.
Lemma duration_roundtrip_witness : UnmarshalText (MarshalText (-90 * Minute - 1500001)) = Ok (-90 * Minute - 1500001).
Proof. apply (duration_roundtrip (-90 * Minute - 1500001)). split; [discriminate|reflexivity]. Defined.
