(* ===== verification/Regex.v ===== *)
(** * Package regexp, as the daemon uses it

    The daemon reads the output of every program it runs with regular
    expressions.  [regex] is the syntax they use; [match_here] is a backtracking
    matcher that, like Go's, prefers the leftmost match and inside it the
    choice written first, counting a repetition greedy unless it is marked
    lazy.  A class consumes one rune of UTF-8, and an invalid byte counts as
    the rune U+FFFD of width one, as in package utf8.

    [matches] says declaratively which stretch of text a pattern covers, and
    [MatchString_iff] proves that the matcher finds a match exactly when there
    is one.  Clients reason with the relation for what a match must look like,
    and with the equations of the matcher for which match is chosen. *)

From S2P Require Import Prelude GoText.

(** ** Runes *)

Definition RuneError : Z := 65533.
Definition cont (lo hi : Z) (a : ascii) : bool := in_range lo hi a.
Definition low6 (a : ascii) : Z := Z.land (byte_val a) 63.

(** utf8.DecodeRuneInString on a non-empty string: the rune, its tail. *)
Definition decode_rune (a : ascii) (s : string) : Z * string :=
  let b0 := byte_val a in
  let bad := (RuneError, s) in
  let two :=
    match s with
    | String b s1 => if cont 128 191 b then (Z.shiftl (Z.land b0 31) 6 + low6 b, s1) else bad
    | _ => bad
    end in
  let three lo hi :=
    match s with
    | String b (String c s2) =>
        if cont lo hi b && cont 128 191 c
        then (Z.shiftl (Z.land b0 15) 12 + Z.shiftl (low6 b) 6 + low6 c, s2) else bad
    | _ => bad
    end in
  let four lo hi :=
    match s with
    | String b (String c (String d s3)) =>
        if cont lo hi b && cont 128 191 c && cont 128 191 d
        then (Z.shiftl (Z.land b0 7) 18 + Z.shiftl (low6 b) 12 + Z.shiftl (low6 c) 6 + low6 d, s3)
        else bad
    | _ => bad
    end in
  if b0 <? 128 then (b0, s)
  else if (194 <=? b0) && (b0 <=? 223) then two
  else if b0 =? 224 then three 160 191
  else if b0 =? 237 then three 128 159
  else if (225 <=? b0) && (b0 <=? 239) then three 128 191
  else if b0 =? 240 then four 144 191
  else if (241 <=? b0) && (b0 <=? 243) then four 128 191
  else if b0 =? 244 then four 128 143
  else bad.

Example rune_pound : decode_rune (byte_of 194) (String (byte_of 163) "x") = (163, "x").
Proof. reflexivity. Qed.
Example rune_ellipsis :
  decode_rune (byte_of 226) (String (byte_of 128) (String (byte_of 166) "")) = (8230, "").
Proof. reflexivity. Qed.
Example rune_stray : decode_rune (byte_of 166) "a" = (RuneError, "a").
Proof. reflexivity. Qed.

Lemma decode_rune_ascii a s : is_ascii_byte a = true → decode_rune a s = (byte_val a, s).
Proof. unfold decode_rune, is_ascii_byte. by intros ->. Qed.

Lemma decode_rune_shorter a s : (String.length (decode_rune a s).2 ≤ String.length s)%nat.
Proof.
  unfold decode_rune. repeat case_match; cbn [String.length snd]; lia.
Qed.

(** ** Patterns *)

Inductive regex : Type :=
| Cls (p : Z → bool)
| Eps
| Bol                        (* (?m)^ *)
| Eol                        (* (?m)$ *)
| BeginText                  (* ^ *)
| EndText                    (* $ *)
| WordB                      (* \b *)
| Seq (a b : regex)
| Alt (a b : regex)
| Star (greedy : bool) (a : regex)
| Cap (n : nat) (a : regex).

Declare Scope regex_scope.
Delimit Scope regex_scope with re.
Bind Scope regex_scope with regex.
Infix "∘" := Seq (at level 40, left associativity) : regex_scope.
Infix "⊕" := Alt (at level 50, left associativity) : regex_scope.

Definition rune_in (lo hi : Z) (r : Z) : bool := (lo <=? r) && (r <=? hi).
Definition r_digit : Z → bool := rune_in 48 57.
Definition r_upper : Z → bool := rune_in 65 90.
Definition r_lower : Z → bool := rune_in 97 122.
(** [\s] and [.] *)
Definition r_space (r : Z) : bool := (r =? 9) || (r =? 10) || (r =? 12) || (r =? 13) || (r =? 32).
Definition r_dot (r : Z) : bool := negb (r =? 10).
(** A rune of the ASCII set [s]. *)
Definition r_one_of (s : string) (r : Z) : bool := str_exists (λ c, byte_val c =? r) s.
Definition r_is (c : ascii) (r : Z) : bool := r =? byte_val c.
(** [(?i)c]: simple folding also relates k to U+212A and s to U+017F. *)
Definition r_fold (c : ascii) (r : Z) : bool :=
  (r =? byte_val (lower_byte c)) || (r =? byte_val (upper_byte c)) ||
  (byte_eqb "k"%char (lower_byte c) && (r =? 8490)) ||
  (byte_eqb "s"%char (lower_byte c) && (r =? 383)).

Fixpoint lit (s : string) : regex :=
  match s with "" => Eps | String c "" => Cls (r_is c) | String c s' => Seq (Cls (r_is c)) (lit s') end.
Fixpoint lit_i (s : string) : regex :=
  match s with "" => Eps | String c "" => Cls (r_fold c) | String c s' => Seq (Cls (r_fold c)) (lit_i s') end.
Definition Plus (a : regex) : regex := Seq a (Star true a).
Definition Opt (a : regex) : regex := Alt a Eps.
(** [a{n}] and the greedy [a{0,k}]. *)
Fixpoint Times (n : nat) (a : regex) : regex :=
  match n with O => Eps | S n => Seq a (Times n a) end.
Fixpoint UpTo (k : nat) (a : regex) : regex :=
  match k with O => Eps | S k => Opt (Seq a (UpTo k a)) end.
(** [a{n,m}] *)
Definition Rep (n m : nat) (a : regex) : regex := Seq (Times n a) (UpTo (m - n) a).
Definition alts (l : list regex) : regex :=
  match l with [] => Cls (λ _, false) | r :: l => foldl Alt r l end.

(** ** Matching *)

(** A position: the byte before it, and the text after it. *)
Record pos := mkPos { prev : option ascii; rest : string }.

Definition at_word (a : option ascii) : bool :=
  match a with
  | Some a => is_digit_byte a || is_upper_byte a || is_lower_byte a || byte_eqb "_"%char a
  | None => false
  end.
Definition at_newline (a : option ascii) : bool :=
  match a with Some a => byte_eqb newline a | None => true end.

Definition holds_here (r : regex) (p : pos) : bool :=
  match r with
  | Bol => at_newline (prev p)
  | Eol => at_newline (str_head (rest p))
  | BeginText => bool_decide (prev p = None)
  | EndText => bool_decide (rest p = "")
  | WordB => xorb (at_word (prev p)) (at_word (str_head (rest p)))
  | _ => true
  end.

(** The text between two positions of the same string. *)
Definition text_between (p q : pos) : string :=
  String.substring 0 (String.length (rest p) - String.length (rest q)) (rest p).

(** The position one rune on, with the rune. *)
Definition next (p : pos) : option (Z * pos) :=
  match rest p with
  | "" => None
  | String a s =>
      let '(r, t) := decode_rune a s in
      Some (r, mkPos (str_last (text_between p (mkPos None t))) t)
  end.

Definition captures := list (nat * string).

Definition shorter (q p : pos) : bool := (String.length (rest q) <? String.length (rest p))%nat.
Definition orelse {A} (x : option A) (y : unit → option A) : option A :=
  match x with Some a => Some a | None => y tt end.

Section matcher.
Context {R : Type}.

Definition star_loop (step : pos → captures → (pos → captures → option R) → option R)
    (greedy : bool) (k : pos → captures → option R) : nat → pos → captures → option R :=
  fix loop (fuel : nat) (p : pos) (c : captures) : option R :=
    match fuel with
    | O => k p c
    | S n =>
        let more (_ : unit) := step p c (λ q c', if shorter q p then loop n q c' else None) in
        if greedy then orelse (more tt) (λ _, k p c) else orelse (k p c) more
    end.

Fixpoint run (r : regex) (p : pos) (c : captures) (k : pos → captures → option R) : option R :=
  match r with
  | Cls f => match next p with Some (x, q) => if f x then k q c else None | None => None end
  | Seq a b => run a p c (λ q c', run b q c' k)
  | Alt a b => orelse (run a p c k) (λ _, run b p c k)
  | Star g a => star_loop (run a) g k (String.length (rest p)) p c
  | Cap n a => run a p c (λ q c', k q ((n, text_between p q) :: c'))
  | _ => if holds_here r p then k p c else None
  end.
End matcher.

Record found := mkFound { f_before : string; f_text : string; f_caps : captures; f_end : pos }.

(** The match that starts at [p]. *)
Definition match_here (r : regex) (p : pos) : option (pos * captures) :=
  run r p [] (λ q c, Some (q, c)).

(** The leftmost match from [p] on; [skipped] is the text passed over. *)
Fixpoint search (fuel : nat) (r : regex) (p : pos) : option (pos * pos * captures) :=
  match match_here r p with
  | Some (q, c) => Some (p, q, c)
  | None =>
      match fuel, next p with
      | S n, Some (_, p') => search n r p'
      | _, _ => None
      end
  end.
Definition start (s : string) : pos := mkPos None s.
Definition find_from (r : regex) (p : pos) : option (pos * pos * captures) :=
  search (String.length (rest p)) r p.

(** regexp.MatchString, FindString and FindStringSubmatch. *)
Definition MatchString (r : regex) (s : string) : bool :=
  bool_decide (is_Some (find_from r (start s))).
Definition FindString (r : regex) (s : string) : string :=
  match find_from r (start s) with Some (p, q, _) => text_between p q | None => "" end.
Definition cap (n : nat) (c : captures) : string :=
  match filter (λ x, x.1 = n) c with (_, t) :: _ => t | [] => "" end.
Definition FindStringSubmatch (r : regex) (s : string) : option captures :=
  match find_from r (start s) with Some (p, q, c) => Some ((O, text_between p q) :: c) | None => None end.

(** strings.EqualFold against an ASCII literal. *)
Definition EqualFold (s word : string) : bool :=
  MatchString (Seq BeginText (Seq (lit_i word) EndText)) s.

(** The successive non-overlapping matches, each with the text before it, and
    the text after the last.  Every pattern it is used with consumes a rune,
    so a match always moves on. *)
Fixpoint pieces (fuel : nat) (r : regex) (p : pos) : list (string * string * captures) * string :=
  match fuel with
  | O => ([], rest p)
  | S n =>
      match find_from r p with
      | Some (a, b, c) =>
          if shorter b p then
            let '(l, t) := pieces n r b in ((text_between p a, text_between a b, c) :: l, t)
          else ([], rest p)
      | None => ([], rest p)
      end
  end.
Definition all_pieces (r : regex) (s : string) := pieces (S (String.length s)) r (start s).
Definition FindAllStringSubmatch (r : regex) (s : string) : list captures :=
  (λ x, (O, x.1.2) :: x.2) <$> (all_pieces r s).1.
Definition ReplaceAllLiteralString (r : regex) (s new : string) : string :=
  let '(l, t) := all_pieces r s in
  foldr (λ x acc, x.1.1 +:+ new +:+ acc) t l.

(** ** What a pattern covers *)

Definition assertion (r : regex) : bool :=
  match r with Eps | Bol | Eol | BeginText | EndText | WordB => true | _ => false end.

Inductive matches : regex → pos → pos → Prop :=
| M_cls f p x q : next p = Some (x, q) → f x = true → matches (Cls f) p q
| M_assert r p : assertion r = true → holds_here r p = true → matches r p p
| M_seq a b p q q' : matches a p q → matches b q q' → matches (Seq a b) p q'
| M_alt_l a b p q : matches a p q → matches (Alt a b) p q
| M_alt_r a b p q : matches b p q → matches (Alt a b) p q
| M_star_nil g a p : matches (Star g a) p p
| M_star_cons g a p q q' : matches a p q → matches (Star g a) q q' → matches (Star g a) p q'
| M_cap n a p q : matches a p q → matches (Cap n a) p q.
#[export] Hint Constructors matches : hellbox.

(** The positions a search tries: one rune at a time. *)
Inductive ahead : pos → pos → Prop :=
| A_here p : ahead p p
| A_next p x p' q : next p = Some (x, p') → ahead p' q → ahead p q.
#[export] Hint Constructors ahead : hellbox.

Lemma orelse_Some {A} (x : option A) y a : orelse x y = Some a → x = Some a ∨ y tt = Some a.
Proof. destruct x; simpl; auto. Qed.
Lemma orelse_is_Some {A} (x : option A) y : is_Some x ∨ is_Some (y tt) → is_Some (orelse x y).
Proof. destruct x; simpl; [eauto|]. by intros [[? ?]|?]. Qed.

Lemma next_shorter p x q : next p = Some (x, q) → shorter q p = true.
Proof.
  unfold next, shorter. destruct (rest p) as [|a s] eqn:E; [done|].
  destruct (decode_rune a s) as [r t] eqn:D. intros [= <- <-].
  pose proof (decode_rune_shorter a s) as H. rewrite D in H.
  cbn [rest String.length snd] in *. apply Nat.ltb_lt. lia.
Qed.

Lemma matches_moves r p q : matches r p q → p = q ∨ shorter q p = true.
Proof.
  unfold shorter.
  assert (∀ x y z, (x = y ∨ shorter y x = true) → (y = z ∨ shorter z y = true) →
            x = z ∨ shorter z x = true) as Htrans.
  { intros x y z [->|?] [->|?]; auto. right. unfold shorter in *.
    repeat match goal with H : (_ <? _)%nat = true |- _ => apply Nat.ltb_lt in H end.
    apply Nat.ltb_lt. lia. }
  induction 1 as [f p x q H|r p| | | | |g a p q q' _ IH1 _ IH2|]; eauto.
  right. by eapply next_shorter.
Qed.

Section agreement.
Context {R : Type}.
Implicit Types k : pos → captures → option R.

Lemma star_loop_sound a g k
    (IH : ∀ p c k x, run (R:=R) a p c k = Some x → ∃ q c', matches a p q ∧ k q c' = Some x) :
  ∀ fuel p c x, star_loop (run a) g k fuel p c = Some x →
    ∃ q c', matches (Star g a) p q ∧ k q c' = Some x.
Proof.
  induction fuel as [|n IHn]; intros p c x; simpl; [eauto with hellbox|].
  assert (∀ x, run a p c (λ q c', if shorter q p then star_loop (run a) g k n q c' else None) = Some x →
            ∃ q c', matches (Star g a) p q ∧ k q c' = Some x) as Hmore.
  { intros y (q & c' & Ha & Hk)%IH. destruct (shorter q p); [|done].
    apply IHn in Hk as (q' & c'' & ? & ?). eauto with hellbox. }
  destruct g; intros [H|H]%orelse_Some; eauto with hellbox.
Qed.

Lemma run_sound r : ∀ p c k x,
  run r p c k = Some x → ∃ q c', matches r p q ∧ k q c' = Some x.
Proof.
  induction r as [f| | | | | | |a IHa b IHb|a IHa b IHb|g a IHa|n a IHa]; intros p c k x;
    cbn [run]; intros H;
    try (destruct (holds_here _ p) eqn:Hh; [|done]; exists p, c; eauto with hellbox; done).
  - destruct (next p) as [[y q]|] eqn:Hn; [|done]. destruct (f y) eqn:Hf; [|done].
    eauto with hellbox.
  - apply IHa in H as (q & c' & ? & H). apply IHb in H as (q' & c'' & ? & ?). eauto with hellbox.
  - apply orelse_Some in H as [H|H]; [apply IHa in H|apply IHb in H];
      destruct H as (q & c' & ? & ?); eauto with hellbox.
  - by eapply star_loop_sound.
  - apply IHa in H as (q & c' & ? & H). eauto with hellbox.
Qed.

(** What the captures of a match are: [P] of each group number and text. *)
Fixpoint caps_in (P : nat → string → Prop) (r : regex) : Prop :=
  match r with
  | Seq a b | Alt a b => caps_in P a ∧ caps_in P b
  | Star _ a => caps_in P a
  | Cap n a => caps_in P a ∧ ∀ p q, matches a p q → P n (text_between p q)
  | _ => True
  end.
Definition caps_ok (P : nat → string → Prop) (c : captures) : Prop := ∀ n t, (n, t) ∈ c → P n t.

Lemma star_loop_caps P a g k
    (IH : ∀ p c k x, caps_ok P c → run (R:=R) a p c k = Some x → ∃ q c', matches a p q ∧ k q c' = Some x ∧ caps_ok P c') :
  ∀ fuel p c x, caps_ok P c → star_loop (run a) g k fuel p c = Some x →
    ∃ q c', matches (Star g a) p q ∧ k q c' = Some x ∧ caps_ok P c'.
Proof.
  induction fuel as [|n IHn]; intros p c x Hc; simpl; [eauto with hellbox|].
  assert (∀ x, run a p c (λ q c', if shorter q p then star_loop (run a) g k n q c' else None) = Some x →
            ∃ q c', matches (Star g a) p q ∧ k q c' = Some x ∧ caps_ok P c') as Hmore.
  { intros y (q & c' & Ha & Hk & Hc')%IH; [|done]. destruct (shorter q p); [|done].
    apply IHn in Hk as (q' & c'' & ? & ? & ?); [|done]. eauto 6 with hellbox. }
  destruct g; intros [H|H]%orelse_Some; eauto 6 with hellbox.
Qed.

Lemma run_caps P r : ∀ p c k x, caps_in P r → caps_ok P c →
  run r p c k = Some x → ∃ q c', matches r p q ∧ k q c' = Some x ∧ caps_ok P c'.
Proof.
  induction r as [f| | | | | | |a IHa b IHb|a IHa b IHb|g a IHa|n a IHa]; intros p c k x Hin Hc;
    cbn [run]; intros H;
    try (destruct (holds_here _ p) eqn:Hh; [|done]; exists p, c; eauto with hellbox; done).
  - destruct (next p) as [[y q]|] eqn:Hn; [|done]. destruct (f y) eqn:Hf; [|done].
    eauto 6 with hellbox.
  - destruct Hin as [Ha Hb]. apply IHa in H as (q & c' & ? & H & ?); [|done..].
    apply IHb in H as (q' & c'' & ? & ? & ?); [|done..]. eauto 6 with hellbox.
  - destruct Hin as [Ha Hb]. apply orelse_Some in H as [H|H]; [apply IHa in H|apply IHb in H]; try done;
      destruct H as (q & c' & ? & ? & ?); eauto 6 with hellbox.
  - eapply star_loop_caps; eauto.
  - destruct Hin as [Ha Hn]. apply IHa in H as (q & c' & Hm & H & Hc'); [|done..].
    eexists q, _. split; [by apply M_cap|]. split; [exact H|]. intros m t [[= -> ->]|?]%elem_of_cons; [by apply Hn|by apply Hc'].
Qed.

Lemma star_loop_complete a g k p q
    (IH : ∀ p q k, matches a p q → (∀ c, is_Some (k q c)) → ∀ c, is_Some (run (R:=R) a p c k)) :
  matches (Star g a) p q → (∀ c, is_Some (k q c)) →
  ∀ fuel c, (String.length (rest p) ≤ fuel)%nat → is_Some (star_loop (run a) g k fuel p c).
Proof.
  intros Hm Hk. remember (Star g a) as s eqn:Es.
  induction Hm as [ | r p Hr| | | |g' a' p|g' a' p q q' Ha _ Hs IHs| ]; simplify_eq/=; try done.
  - intros [|n] c _; simpl; [done|]. destruct g; apply orelse_is_Some; auto.
  - intros fuel c Hf. specialize (IHs eq_refl Hk).
    destruct (matches_moves _ _ _ Ha) as [->|Hlt]; [by apply IHs|].
    destruct fuel as [|n]; [by apply Nat.ltb_lt in Hlt; lia|]. simpl.
    assert (is_Some (run a p c (λ q0 c', if shorter q0 p then star_loop (run a) g k n q0 c' else None))).
    { apply (IH _ q); [done|]. intros c'. rewrite Hlt. apply IHs. apply Nat.ltb_lt in Hlt. lia. }
    destruct g; apply orelse_is_Some; auto.
Qed.

Lemma run_complete r : ∀ p q k,
  matches r p q → (∀ c, is_Some (k q c)) → ∀ c, is_Some (run r p c k).
Proof.
  induction r as [f| | | | | | |a IHa b IHb|a IHa b IHb|g a IHa|n a IHa]; intros p q k Hm Hk c;
    cbn [run].
  - inversion Hm as [f' p' x q' Hn Hf| | | | | | | ]; subst; [|done]. by rewrite Hn, Hf.
  - by inversion Hm; simplify_eq/=.
  - by inversion Hm as [|r p' _ Hh| | | | | | ]; simplify_eq; rewrite Hh.
  - by inversion Hm as [|r p' _ Hh| | | | | | ]; simplify_eq; rewrite Hh.
  - by inversion Hm as [|r p' _ Hh| | | | | | ]; simplify_eq; rewrite Hh.
  - by inversion Hm as [|r p' _ Hh| | | | | | ]; simplify_eq; rewrite Hh.
  - by inversion Hm as [|r p' _ Hh| | | | | | ]; simplify_eq; rewrite Hh.
  - inversion Hm; simplify_eq/=. eapply IHa; [done|]. intros c'. by eapply IHb.
  - inversion Hm; simplify_eq/=; apply orelse_is_Some; [left|right]; eauto.
  - eapply star_loop_complete; eauto.
  - inversion Hm; simplify_eq/=. eapply IHa; [done|]. done.
Qed.
End agreement.

Lemma match_here_sound r p q c : match_here r p = Some (q, c) → matches r p q.
Proof. intros (q' & c' & ? & [= -> ->])%run_sound. done. Qed.

Lemma match_here_complete r p q : matches r p q → is_Some (match_here r p).
Proof. intros. eapply run_complete; eauto. Qed.

Lemma search_sound r fuel : ∀ p a b c,
  search fuel r p = Some (a, b, c) → ahead p a ∧ matches r a b.
Proof.
  induction fuel as [|n IH]; intros p a b c; simpl;
    destruct (match_here r p) as [[q c']|] eqn:E.
  - intros [= <- <- <-]. eauto using match_here_sound with hellbox.
  - done.
  - intros [= <- <- <-]. eauto using match_here_sound with hellbox.
  - destruct (next p) as [[x p']|] eqn:Hn; [|done]. intros [? ?]%IH. eauto with hellbox.
Qed.

Lemma search_complete r fuel p a b :
  ahead p a → matches r a b → (String.length (rest p) ≤ fuel)%nat → is_Some (search fuel r p).
Proof.
  intros Ha. revert fuel. induction Ha as [p|p x p' a Hn Ha IH]; intros fuel Hm Hf.
  - destruct (match_here_complete _ _ _ Hm) as [[q c] E]. destruct fuel; simpl; rewrite E; eauto.
  - pose proof (next_shorter _ _ _ Hn) as Hlt%Nat.ltb_lt.
    destruct fuel as [|n]; [lia|]. simpl.
    destruct (match_here r p) as [[q c]|]; [eauto|]. rewrite Hn. apply IH; [done|lia].
Qed.

Lemma find_from_sound r p a b c : find_from r p = Some (a, b, c) → ahead p a ∧ matches r a b.
Proof. apply search_sound. Qed.

(** The search succeeds exactly when the pattern covers a stretch of the text. *)
Lemma MatchString_iff r s :
  MatchString r s = true ↔ ∃ a b, ahead (start s) a ∧ matches r a b.
Proof.
  unfold MatchString. rewrite bool_decide_eq_true. split.
  - intros [[[a b] c] H]. apply find_from_sound in H as [? ?]. eauto.
  - intros (a & b & Ha & Hm). by eapply search_complete.
Qed.

(** ** Which match is chosen: equations of the matcher *)

Definition last_of (pv : option ascii) (u : string) : option ascii :=
  match str_last u with Some a => Some a | None => pv end.

Lemma last_of_cons pv a u : last_of pv (String a u) = last_of (Some a) u.
Proof.
  assert (is_Some (str_last (String a u))) as [b Hb].
  { revert a. induction u as [|b u IH]; intros a; [by eexists|]. apply IH. }
  destruct u as [|d u]; [done|]. unfold last_of.
  change (str_last (String a (String d u))) with (str_last (String d u)) in *. by rewrite Hb.
Qed.

Lemma last_of_app pv u v : last_of pv (u +:+ v) = last_of (last_of pv u) v.
Proof.
  revert pv. induction u as [|a u IH]; intros pv; [done|].
  cbn [String.append]. by rewrite !last_of_cons.
Qed.

Lemma substring_prefix u t : String.substring 0 (String.length u) (u +:+ t) = u.
Proof. induction u as [|a u IH]; simpl; [by destruct t|by rewrite IH]. Qed.

Lemma str_length_app u t : String.length (u +:+ t) = (String.length u + String.length t)%nat.
Proof. induction u; simpl; congruence. Qed.

Lemma text_between_app pv pv' u t : text_between (mkPos pv (u +:+ t)) (mkPos pv' t) = u.
Proof.
  unfold text_between. cbn [rest]. rewrite str_length_app.
  replace (String.length u + String.length t - String.length t)%nat with (String.length u) by lia.
  apply substring_prefix.
Qed.

Lemma next_ascii pv a s :
  is_ascii_byte a = true → next (mkPos pv (String a s)) = Some (byte_val a, mkPos (Some a) s).
Proof.
  intros Ha. unfold next. cbn [rest]. rewrite decode_rune_ascii by done.
  change (String a s) with (String a "" +:+ s). by rewrite text_between_app.
Qed.

(** A byte class: the ASCII bytes of [f]. *)
Definition within (f : Z → bool) (u : string) : bool :=
  str_forall (λ a, is_ascii_byte a && f (byte_val a)) u.
(** [f] rejects the next rune of [t], if there is one. *)
Definition stops (f : Z → bool) (t : string) : bool :=
  match t with "" => true | String a s => negb (f (decode_rune a s).1) end.

Lemma stops_ascii f a s : is_ascii_byte a = true → f (byte_val a) = false → stops f (String a s) = true.
Proof. intros Ha Hf. unfold stops. rewrite decode_rune_ascii by done. cbn [fst]. by rewrite Hf. Qed.

Lemma within_cons f a u :
  within f (String a u) = true ↔ is_ascii_byte a = true ∧ f (byte_val a) = true ∧ within f u = true.
Proof. unfold within. cbn [str_forall]. rewrite !andb_true_iff. naive_solver. Qed.

Section equations.
Context {R : Type}.
Implicit Types k : pos → captures → option R.

Lemma run_cls f pv a s c k :
  is_ascii_byte a = true →
  run (Cls f) (mkPos pv (String a s)) c k = if f (byte_val a) then k (mkPos (Some a) s) c else None.
Proof. intros Ha. cbn [run]. by rewrite next_ascii. Qed.

Lemma run_cls_stop f pv t c k : stops f t = true → run (Cls f) (mkPos pv t) c k = None.
Proof.
  cbn [run]. unfold next. cbn [rest]. destruct t as [|a s]; [done|]. cbn [stops].
  destruct (decode_rune a s) as [r u]. cbn [fst]. by intros ->%negb_true_iff.
Qed.

Lemma run_seq a b p c k : run (Seq a b) p c k = run a p c (λ q c', run b q c' k).
Proof. done. Qed.

Lemma run_cap n a p c k :
  run (Cap n a) p c k = run a p c (λ q c', k q ((n, text_between p q) :: c')).
Proof. done. Qed.

Lemma run_lit u : ∀ pv t c k,
  is_ascii u = true → run (lit u) (mkPos pv (u +:+ t)) c k = k (mkPos (last_of pv u) t) c.
Proof.
  induction u as [|a u IH]; intros pv t c k Hu; [done|].
  unfold is_ascii in *. cbn [str_forall] in Hu. apply andb_true_iff in Hu as [Ha Hu].
  assert (∀ pv t c k, run (R:=R) (Cls (r_is a)) (mkPos pv (String a t)) c k = k (mkPos (Some a) t) c) as H1.
  { intros. rewrite run_cls by done. unfold r_is. by rewrite Z.eqb_refl. }
  destruct u as [|b u]; [apply H1|].
  change (lit (String a (String b u))) with (Seq (Cls (r_is a)) (lit (String b u))).
  rewrite last_of_cons, <- (IH (Some a)) by done. cbn [run].
  change (run (Cls (r_is a)) (mkPos pv (String a (String b u +:+ t))) c
    (λ q c', run (lit (String b u)) q c' k) = run (lit (String b u)) (mkPos (Some a) (String b u +:+ t)) c k).
  by rewrite H1.
Qed.

Lemma star_greedy f u : ∀ fuel pv t c k x,
  within f u = true → stops f t = true → (String.length u ≤ fuel)%nat →
  k (mkPos (last_of pv u) t) c = Some x →
  star_loop (run (Cls f)) true k fuel (mkPos pv (u +:+ t)) c = Some x.
Proof.
  induction u as [|a u IH]; intros fuel pv t c k x Hu Ht Hf Hk.
  - cbn [String.append]. destruct fuel as [|n]; [done|]. cbn [star_loop].
    by rewrite run_cls_stop.
  - apply within_cons in Hu as (Ha & Hfa & Hu). cbn [String.length] in Hf.
    destruct fuel as [|n]; [lia|]. cbn [star_loop String.append].
    rewrite run_cls, Hfa by done.
    assert (shorter (mkPos (Some a) (u +:+ t)) (mkPos pv (String a (u +:+ t))) = true) as ->.
    { apply Nat.ltb_lt. cbn [rest String.length]. lia. }
    rewrite last_of_cons in Hk. by rewrite (IH n (Some a) t c k x) by (done || lia).
Qed.

Lemma run_star_greedy f u pv t c k x :
  within f u = true → stops f t = true →
  k (mkPos (last_of pv u) t) c = Some x →
  run (Star true (Cls f)) (mkPos pv (u +:+ t)) c k = Some x.
Proof.
  intros. cbn [run]. apply star_greedy; try done. cbn [rest]. rewrite str_length_app. lia.
Qed.

(** The same for a non-empty run, [f+]. *)
Lemma run_plus_greedy f u pv t c k x :
  u ≠ "" → within f u = true → stops f t = true →
  k (mkPos (last_of pv u) t) c = Some x →
  run (Plus (Cls f)) (mkPos pv (u +:+ t)) c k = Some x.
Proof.
  intros Hne Hu Ht Hk. destruct u as [|a u]; [done|].
  apply within_cons in Hu as (Ha & Hf & Hu). unfold Plus. rewrite run_seq.
  cbn [String.append]. rewrite run_cls, Hf by done.
  rewrite last_of_cons in Hk. by apply run_star_greedy.
Qed.

Lemma star_lazy f u : ∀ fuel pv t c k x,
  within f u = true → (String.length u ≤ fuel)%nat →
  (∀ pv a s c, f (byte_val a) = true → k (mkPos pv (String a s)) c = None) →
  k (mkPos (last_of pv u) t) c = Some x →
  star_loop (run (Cls f)) false k fuel (mkPos pv (u +:+ t)) c = Some x.
Proof.
  induction u as [|a u IH]; intros fuel pv t c k x Hu Hf Hno Hk.
  - cbn [String.append]. unfold last_of in Hk; simpl in Hk.
    destruct fuel as [|n]; [done|]. cbn [star_loop]. by rewrite Hk.
  - apply within_cons in Hu as (Ha & Hfa & Hu). cbn [String.length] in Hf.
    destruct fuel as [|n]; [lia|]. cbn [star_loop String.append].
    rewrite Hno by done. cbn [orelse]. rewrite run_cls, Hfa by done.
    assert (shorter (mkPos (Some a) (u +:+ t)) (mkPos pv (String a (u +:+ t))) = true) as ->.
    { apply Nat.ltb_lt. cbn [rest String.length]. lia. }
    rewrite last_of_cons in Hk. apply IH; try done. lia.
Qed.

(** [f+?]: the shortest non-empty run after which the rest matches. *)
Lemma run_plus_lazy f u pv t c k x :
  u ≠ "" → within f u = true →
  (∀ pv a s c, f (byte_val a) = true → k (mkPos pv (String a s)) c = None) →
  k (mkPos (last_of pv u) t) c = Some x →
  run (Seq (Cls f) (Star false (Cls f))) (mkPos pv (u +:+ t)) c k = Some x.
Proof.
  intros Hne Hu Hno Hk. destruct u as [|a u]; [done|].
  apply within_cons in Hu as (Ha & Hf & Hu). rewrite run_seq.
  cbn [String.append]. rewrite run_cls, Hf by done. cbn [run].
  rewrite last_of_cons in Hk. apply star_lazy; try done. cbn [rest]. rewrite str_length_app. lia.
Qed.
End equations.

Lemma find_from_here r p q c : match_here r p = Some (q, c) → find_from r p = Some (p, q, c).
Proof. unfold find_from. intros H. destruct (String.length (rest p)); simpl; by rewrite H. Qed.

(** ** What a match over ASCII classes looks like *)

Definition ascii_class (f : Z → bool) : Prop := ∀ r, f r = true → 0 ≤ r < 128.

Lemma low6_nonneg a : 0 ≤ low6 a.
Proof. unfold low6. apply Z.land_nonneg. right. lia. Qed.

Lemma byte_val_bounds a : 0 ≤ byte_val a < 256.
Proof. unfold byte_val. pose proof (Ascii.N_ascii_bounded a). lia. Qed.

Lemma shiftl_low6 a n : 0 ≤ Z.shiftl (low6 a) n.
Proof. apply Z.shiftl_nonneg, low6_nonneg. Qed.

Lemma two_byte_lead a : 194 ≤ byte_val a → byte_val a ≤ 223 → 128 ≤ Z.shiftl (Z.land (byte_val a) 31) 6.
Proof. destruct a as [[] [] [] [] [] [] [] []]; vm_compute; intros; congruence. Qed.
Lemma three_byte_lead a : 225 ≤ byte_val a → byte_val a ≤ 239 → 128 ≤ Z.shiftl (Z.land (byte_val a) 15) 12.
Proof. destruct a as [[] [] [] [] [] [] [] []]; vm_compute; intros; congruence. Qed.
Lemma four_byte_lead a : 241 ≤ byte_val a → byte_val a ≤ 244 → 128 ≤ Z.shiftl (Z.land (byte_val a) 7) 18.
Proof. destruct a as [[] [] [] [] [] [] [] []]; vm_compute; intros; congruence. Qed.
Lemma second_byte a n : (n = 6 ∨ n = 12) → 144 ≤ byte_val a → byte_val a ≤ 191 → 128 ≤ Z.shiftl (low6 a) n.
Proof. intros [-> | ->]; destruct a as [[] [] [] [] [] [] [] []]; vm_compute; intros; congruence. Qed.

(** A rune below 128 is one byte, the byte itself. *)
Lemma decode_rune_small a s : (decode_rune a s).1 < 128 → is_ascii_byte a = true.
Proof.
  pose proof (byte_val_bounds a) as Hb. unfold decode_rune, is_ascii_byte.
  destruct (Z.ltb_spec (byte_val a) 128) as [|Hge]; [done|].
  intros H. exfalso. revert H. unfold cont, in_range, RuneError.
  repeat match goal with
  | |- context [if ?b then _ else _] => destruct b eqn:?
  | |- context [match ?s with EmptyString => _ | String _ _ => _ end] => destruct s
  end; cbn [fst]; breflect; try lia;
  repeat match goal with
  | |- context [low6 ?x] => lazymatch goal with H : 0 ≤ low6 x |- _ => fail | _ => pose proof (low6_nonneg x) end
  | |- context [Z.shiftl (low6 ?x) ?n] =>
      lazymatch goal with H : 0 ≤ Z.shiftl (low6 x) n |- _ => fail | _ => pose proof (shiftl_low6 x n) end
  | |- context [Z.shiftl ?x ?n] =>
      lazymatch goal with H : 0 ≤ Z.shiftl x n |- _ => fail
      | _ => assert (0 ≤ Z.shiftl x n) by (apply Z.shiftl_nonneg, Z.land_nonneg; lia) end
  end;
  try (pose proof (two_byte_lead a); lia);
  try (pose proof (three_byte_lead a); lia);
  try (pose proof (four_byte_lead a); lia);
  match goal with b : ascii |- _ => pose proof (second_byte b 6); pose proof (second_byte b 12); lia end.
Qed.

Lemma matches_cls f p q :
  ascii_class f → matches (Cls f) p q →
  ∃ a, rest p = String a (rest q) ∧ f (byte_val a) = true ∧ is_ascii_byte a = true ∧ prev q = Some a.
Proof.
  intros Hf Hm. inversion Hm as [g p' x q' Hn Hx| | | | | | | ]; simplify_eq/=.
  destruct p as [pv s]. unfold next in Hn; cbn [rest] in *. destruct s as [|a s]; [done|].
  destruct (decode_rune a s) as [r t] eqn:D. injection Hn as <- <-.
  pose proof (decode_rune_small a s) as Ha. rewrite D in Ha. cbn [fst] in Ha.
  assert (is_ascii_byte a = true) as Hasc by (apply Ha; apply Hf in Hx; lia).
  rewrite decode_rune_ascii in D by done. injection D as <- <-.
  exists a. repeat split; try done. cbn [prev].
  change (String a s) with (String a "" +:+ s). by rewrite text_between_app.
Qed.

(** The text between two positions is [u]. *)
Definition covers (p q : pos) (u : string) : Prop :=
  rest p = u +:+ rest q ∧ prev q = last_of (prev p) u.

Lemma covers_nil p : covers p p "".
Proof. done. Qed.
Lemma covers_trans p q r u v : covers p q u → covers q r v → covers p r (u +:+ v).
Proof.
  intros [H1 H2] [H3 H4]. split; [by rewrite H1, H3, str_app_assoc|].
  by rewrite H4, H2, last_of_app.
Qed.
Lemma covers_text p q u : covers p q u → text_between p q = u.
Proof. destruct p, q. intros [H _]. cbn [rest] in H. subst. apply text_between_app. Qed.

Lemma within_app f u v : within f (u +:+ v) = within f u && within f v.
Proof. apply str_forall_app. Qed.

Lemma matches_cls_covers f p q :
  ascii_class f → matches (Cls f) p q →
  ∃ u, covers p q u ∧ within f u = true ∧ String.length u = 1%nat.
Proof.
  intros Hf Hm. destruct (matches_cls _ _ _ Hf Hm) as (a & Hr & Hx & Ha & Hp).
  exists (String a ""). repeat split; [done|done|].
  apply within_cons. done.
Qed.

Lemma matches_times f n : ∀ p q, ascii_class f → matches (Times n (Cls f)) p q →
  ∃ u, covers p q u ∧ within f u = true ∧ String.length u = n.
Proof.
  induction n as [|n IH]; intros p q Hf Hm.
  { inversion Hm; simplify_eq. exists "". eauto using covers_nil. }
  inversion Hm as [| |a b p' q1 q' Ha Hb| | | | |]; simplify_eq/=.
  apply matches_cls_covers in Ha as (u & Hu & Hwu & Hlu); [|done].
  apply IH in Hb as (v & Hv & Hwv & Hlv); [|done].
  exists (u +:+ v). rewrite within_app, Hwu, Hwv, str_length_app, Hlu, Hlv.
  split; [by apply covers_trans with q1|done].
Qed.

Lemma matches_upto f n : ∀ p q, ascii_class f → matches (UpTo n (Cls f)) p q →
  ∃ u, covers p q u ∧ within f u = true ∧ (String.length u ≤ n)%nat.
Proof.
  induction n as [|n IH]; intros p q Hf Hm.
  { inversion Hm; simplify_eq. exists "". eauto using covers_nil. }
  unfold UpTo, Opt in Hm; fold UpTo in Hm.
  inversion Hm as [| |a b p' q1 q' | a b p' q' H| a b p' q' H| | |]; simplify_eq/=.
  - inversion H as [| |a b p' q1 q' Ha Hb| | | | |]; simplify_eq/=.
    apply matches_cls_covers in Ha as (u & Hu & Hwu & Hlu); [|done].
    apply IH in Hb as (v & Hv & Hwv & Hlv); [|done].
    exists (u +:+ v). rewrite within_app, Hwu, Hwv, str_length_app.
    split; [by apply covers_trans with q1|split; [done|lia]].
  - inversion H; simplify_eq. exists "". repeat split; simpl; lia.
Qed.

Lemma matches_rep f n m p q :
  ascii_class f → (n ≤ m)%nat → matches (Rep n m (Cls f)) p q →
  ∃ u, covers p q u ∧ within f u = true ∧ (n ≤ String.length u ≤ m)%nat.
Proof.
  intros Hf Hnm Hm. inversion Hm as [| |a b p' q1 q' Ha Hb| | | | |]; simplify_eq/=.
  apply matches_times in Ha as (u & Hu & Hwu & Hlu); [|done].
  apply matches_upto in Hb as (v & Hv & Hwv & Hlv); [|done].
  exists (u +:+ v). rewrite within_app, Hwu, Hwv, str_length_app.
  split; [by apply covers_trans with q1|split; [done|lia]].
Qed.

Lemma matches_lit u : ∀ p q, is_ascii u = true → matches (lit u) p q → covers p q u.
Proof.
  assert (∀ a p q, is_ascii_byte a = true → matches (Cls (r_is a)) p q → covers p q (String a "")) as H1.
  { intros a p q Ha Hm. apply matches_cls in Hm as (b & Hr & Hx & Hb & Hp).
    - unfold r_is in Hx. apply Z.eqb_eq in Hx. unfold byte_val in Hx.
      apply N2Z.inj in Hx. assert (a = b) as ->; [|done].
      rewrite <- (Ascii.ascii_N_embedding a), <- Hx. apply Ascii.ascii_N_embedding.
    - intros r Hr. unfold r_is in Hr. apply Z.eqb_eq in Hr as ->.
      pose proof (byte_val_bounds a). unfold is_ascii_byte in Ha. apply Z.ltb_lt in Ha. lia. }
  induction u as [|a u IH]; intros p q Hu Hm.
  { inversion Hm; simplify_eq. apply covers_nil. }
  unfold is_ascii in *. cbn [str_forall] in Hu. apply andb_true_iff in Hu as [Ha Hu].
  destruct u as [|b u]; [by apply H1|].
  change (lit (String a (String b u))) with (Seq (Cls (r_is a)) (lit (String b u))) in Hm.
  inversion Hm as [| |x y p' q1 q' Hm1 Hm2| | | | |]; simplify_eq/=.
  apply H1 in Hm1; [|done]. apply IH in Hm2; [|done].
  exact (covers_trans _ _ _ _ _ Hm1 Hm2).
Qed.

(** ** Building a match *)

Lemma covers_match_cls f pv a t :
  is_ascii_byte a = true → f (byte_val a) = true →
  matches (Cls f) (mkPos pv (String a t)) (mkPos (Some a) t).
Proof. intros Ha Hf. econstructor; [by apply next_ascii|done]. Qed.

Lemma matches_star_intro f g u : ∀ pv t, within f u = true →
  matches (Star g (Cls f)) (mkPos pv (u +:+ t)) (mkPos (last_of pv u) t).
Proof.
  induction u as [|a u IH]; intros pv t Hu; [apply M_star_nil|].
  apply within_cons in Hu as (Ha & Hf & Hu). rewrite last_of_cons. cbn [String.append].
  eapply M_star_cons; [by apply covers_match_cls|by apply IH].
Qed.

Lemma r_fold_refl a : r_fold a (byte_val a) = true.
Proof. by destruct a as [[] [] [] [] [] [] [] []]. Qed.

Lemma matches_lit_intro (f : ascii → Z → bool) (l : string → regex) u :
  (∀ a, f a (byte_val a) = true) →
  (l "" = Eps) → (∀ a, l (String a "") = Cls (f a)) →
  (∀ a b s, l (String a (String b s)) = Seq (Cls (f a)) (l (String b s))) →
  ∀ pv t, is_ascii u = true → matches (l u) (mkPos pv (u +:+ t)) (mkPos (last_of pv u) t).
Proof.
  intros Hf H0 H1 H2. induction u as [|a u IH]; intros pv t Hu; [rewrite H0; by apply M_assert|].
  unfold is_ascii in *. cbn [str_forall] in Hu. apply andb_true_iff in Hu as [Ha Hu].
  rewrite last_of_cons. cbn [String.append]. destruct u as [|b u].
  - rewrite H1. by apply covers_match_cls.
  - rewrite H2. eapply M_seq; [by apply covers_match_cls|by apply IH].
Qed.

Lemma matches_lit_i u pv t : is_ascii u = true →
  matches (lit_i u) (mkPos pv (u +:+ t)) (mkPos (last_of pv u) t).
Proof. apply (matches_lit_intro r_fold); [apply r_fold_refl|done..]. Qed.

Lemma matches_lit_self u pv t : is_ascii u = true →
  matches (lit u) (mkPos pv (u +:+ t)) (mkPos (last_of pv u) t).
Proof. apply (matches_lit_intro r_is); [intros; apply Z.eqb_refl|done..]. Qed.

Lemma FindString_match r s : FindString r s ≠ "" → MatchString r s = true.
Proof.
  unfold FindString, MatchString. rewrite bool_decide_eq_true.
  destruct (find_from r (start s)) as [[[p q] c]|]; [eauto|done].
Qed.

(** What FindString returns is covered by the pattern. *)
Lemma FindString_covers r s : MatchString r s = true →
  ∃ p q, ahead (start s) p ∧ matches r p q ∧ FindString r s = text_between p q.
Proof.
  unfold FindString, MatchString. rewrite bool_decide_eq_true. intros [[[p q] c] E].
  rewrite E. apply find_from_sound in E as [? ?]. eauto.
Qed.

(** ** Captures *)

Lemma cap_here n t c : cap n ((n, t) :: c) = t.
Proof. unfold cap. cbn. by rewrite decide_True. Qed.

Lemma cap_there n m t c : n ≠ m → cap n ((m, t) :: c) = cap n c.
Proof. intros H. unfold cap. cbn. by rewrite decide_False by (cbn; congruence). Qed.

(** A group of a successful match is empty or what its pattern matched. *)
Lemma FindStringSubmatch_caps P r s m n :
  FindStringSubmatch r s = Some m → caps_in P r → n ≠ O → cap n m = "" ∨ P n (cap n m).
Proof.
  unfold FindStringSubmatch. destruct (find_from r (start s)) as [[[p q] c]|] eqn:E; [|done].
  intros [= <-] Hin Hn. assert (caps_ok P c) as Hc.
  { unfold find_from in E. revert E. generalize (start s), (String.length (rest (start s))). intros p0 fuel. revert p0.
    induction fuel as [|fuel IH]; intros p0; cbn [search]; unfold match_here;
      (destruct (run r p0 [] _) as [[q' c']|] eqn:Er;
       [intros [= <- <- <-]; apply (run_caps P) in Er as (q1 & c1 & _ & [= <- <-] & ?); [done|done|by intros ? ? ?%elem_of_nil]|]).
    - done.
    - destruct (next p0) as [[x p1]|]; [apply IH|done]. }
  rewrite cap_there by done. unfold cap.
  destruct (filter (λ x, x.1 = n) c) as [|[m t] l] eqn:Ef; [by left|right].
  assert ((m, t) ∈ filter (λ x, x.1 = n) c) as Hin' by (rewrite Ef; by left).
  apply list_elem_of_filter in Hin' as [Hm Ht]. cbn in Hm. subst. by apply Hc.
Qed.

(** ** More of what a match looks like *)

Lemma next_prev p x q : next p = Some (x, q) → ∃ c, prev q = Some c.
Proof.
  unfold next. destruct (rest p) as [|a s] eqn:E; [done|]. destruct (decode_rune a s) as [r t] eqn:D.
  intros [= <- <-]. cbn [prev]. pose proof (decode_rune_shorter a s) as H. rewrite D in H. cbn [snd] in H.
  unfold text_between. cbn [rest]. rewrite E. cbn [String.length].
  replace (S (String.length s) - String.length t)%nat with (S (String.length s - String.length t)) by lia.
  cbn [String.substring]. generalize (String.substring 0 (String.length s - String.length t) s) as u.
  intros u. revert a E D. induction u as [|b u IH]; intros a _ _; [by exists a|].
  change (str_last (String a (String b u))) with (str_last (String b u)).
  destruct u as [|d u]; [by exists b|]. clear. revert b d. induction u as [|e u IH]; intros b d; [by exists d|].
  apply (IH d e).
Qed.

Lemma matches_star_covers f g p q : ascii_class f → matches (Star g (Cls f)) p q →
  ∃ u, covers p q u ∧ within f u = true.
Proof.
  intros Hf Hm. remember (Star g (Cls f)) as r eqn:Er.
  induction Hm as [ | | | | |g' a p|g' a p q q' Ha _ Hs IH| ]; simplify_eq/=.
  - exists "". eauto using covers_nil.
  - apply matches_cls_covers in Ha as (u & Hu & Hwu & _); [|done].
    destruct (IH eq_refl) as (v & Hv & Hwv). exists (u +:+ v). rewrite within_app, Hwu, Hwv.
    eauto using covers_trans.
Qed.

Lemma digits_within u : str_forall is_digit_byte u = true → within r_digit u = true.
Proof.
  apply str_forall_impl. intros c Hc. unfold is_digit_byte, in_range in Hc. breflect.
  apply andb_true_iff. unfold is_ascii_byte, r_digit, rune_in. split; [apply Z.ltb_lt; lia|].
  apply andb_true_iff. rewrite !Z.leb_le. lia.
Qed.

Lemma within_digit_byte u : within r_digit u = true → str_forall is_digit_byte u = true.
Proof. apply str_forall_impl. intros c [_ Hc]%andb_true_iff. exact Hc. Qed.
