(* ===== verification/RegexLines.v ===== *)
(** * Line patterns: [(?m)^ body $]

    A pattern whose body consumes no newline, between [(?m)^] and [(?m)$],
    matches whole lines and nothing else.  On a text made of lines the search
    finds the first such line ([FindString_lines]) and a replacement rewrites
    every one of them and leaves the others alone ([ReplaceAll_lines]). *)

From S2P Require Import Prelude GoText Regex.

Definition not_newline (a : ascii) : bool := negb (byte_eqb newline a).
Definition one_line (s : string) : bool := str_forall not_newline s.
Definition nl : string := String newline "".

(** The body of a line pattern: it asserts nothing and consumes no newline. *)
Fixpoint local (r : regex) : Prop :=
  match r with
  | Cls f => f 10 = false
  | Eps => True
  | Seq a b | Alt a b => local a ∧ local b
  | Star _ a | Cap _ a => local a
  | _ => False
  end.

(** The end of a line, or of the text. *)
Definition line_end (t : string) : Prop := t = "" ∨ ∃ t', t = String newline t'.

(** ** Runes near the end of a line *)

Lemma decode_rune_split a s : ∃ u,
  s = u +:+ (decode_rune a s).2 ∧ str_forall (λ c, negb (is_ascii_byte c)) u = true.
Proof.
  assert (∀ lo hi c, 128 ≤ lo → cont lo hi c = true → negb (is_ascii_byte c) = true) as Hc.
  { unfold cont, in_range, is_ascii_byte. intros lo hi c ? ?. breflect.
    apply negb_true_iff, Z.ltb_ge. lia. }
  unfold decode_rune.
  repeat match goal with
  | |- context [if ?b then _ else _] => destruct b eqn:?
  | |- context [match ?s with EmptyString => _ | String _ _ => _ end] => destruct s
  end; cbn [snd]; breflect;
  first [ by exists ""
        | eexists (String _ ""); split; [reflexivity|]
        | eexists (String _ (String _ "")); split; [reflexivity|]
        | eexists (String _ (String _ (String _ ""))); split; [reflexivity|] ];
  cbn [str_forall]; rewrite ?andb_true_iff; repeat split; (eapply Hc; [|eassumption]; lia).
Qed.

Lemma cont_ascii lo hi c : is_ascii_byte c = true → 128 ≤ lo → cont lo hi c = false.
Proof.
  unfold is_ascii_byte, cont, in_range. intros Hc%Z.ltb_lt Hl. apply andb_false_iff. left. apply Z.leb_gt. lia.
Qed.
(** An ASCII byte that follows does not change how a rune is read. *)
Lemma decode_rune_before_ascii a s c t : is_ascii_byte c = true →
  decode_rune a (s +:+ String c t) = ((decode_rune a s).1, (decode_rune a s).2 +:+ String c t).
Proof.
  intros Hc. unfold decode_rune.
  destruct s as [|b [|d [|e s]]]; cbn [String.append];
    repeat (rewrite ?(cont_ascii _ _ c Hc) by lia; rewrite ?andb_false_r, ?andb_false_l; cbn [andb];
    match goal with
    | |- context [if ?b then _ else _] => destruct b eqn:?
    | |- context [match ?s with EmptyString => _ | String _ _ => _ end] => destruct s
    end); done.
Qed.
(** What follows the line does not change how a rune of the line is read. *)
Lemma decode_rune_local a s t : line_end t →
  decode_rune a (s +:+ t) = ((decode_rune a s).1, (decode_rune a s).2 +:+ t).
Proof.
  intros [-> | [t' ->]]; [rewrite !str_app_empty_r; by destruct (decode_rune a s)|].
  by apply decode_rune_before_ascii.
Qed.

(** ** A body stays inside its line *)

Lemma one_line_app u v : one_line (u +:+ v) = one_line u && one_line v.
Proof. apply str_forall_app. Qed.

Lemma next_covers p x q : next p = Some (x, q) →
  ∃ a u, covers p q (String a u) ∧ decode_rune a (u +:+ rest q) = (x, rest q) ∧
    str_forall (λ c, negb (is_ascii_byte c)) u = true.
Proof.
  destruct p as [pv s]. unfold next. cbn [rest]. destruct s as [|a s]; [done|].
  destruct (decode_rune_split a s) as (u & Hs & Hu).
  destruct (decode_rune a s) as [r t] eqn:D. cbn [snd] in Hs. intros [= <- <-]. cbn [rest].
  exists a, u. rewrite <- Hs. split; [|done]. split; cbn [rest prev]; [by rewrite Hs|].
  rewrite Hs. change (String a (u +:+ t)) with (String a u +:+ t). rewrite text_between_app.
  unfold last_of. destruct (str_last (String a u)) eqn:E; [done|].
  exfalso. clear -E. revert a E. induction u as [|b u IH]; intros a; [done|]. apply IH.
Qed.

Lemma high_one_line u : str_forall (λ c, negb (is_ascii_byte c)) u = true → one_line u = true.
Proof.
  apply str_forall_impl. intros c. unfold not_newline, byte_eqb. intros Hc.
  apply negb_true_iff, bool_decide_eq_false. by intros <-.
Qed.

Lemma newline_spec a : byte_val a = 10 → a = newline.
Proof.
  intros H. unfold byte_val in H. change 10 with (Z.of_N 10) in H. apply N2Z.inj in H.
  by rewrite <- (Ascii.ascii_N_embedding a), H.
Qed.

Lemma next_one_line p x q u :
  next p = Some (x, q) → x ≠ 10 → covers p q u → one_line u = true.
Proof.
  intros Hn Hx Hc. destruct (next_covers _ _ _ Hn) as (a & v & Hv & D & Hh).
  apply covers_text in Hc, Hv. rewrite <- Hc, Hv. unfold one_line; cbn [str_forall].
  apply andb_true_iff. split; [|by apply high_one_line]. unfold not_newline.
  apply negb_true_iff, bool_decide_eq_false. intros <-.
  rewrite decode_rune_ascii in D by done. by injection D as <-.
Qed.

Lemma local_covers r p q : matches r p q → local r → ∃ u, covers p q u ∧ one_line u = true.
Proof.
  induction 1 as [f p x q Hn Hf|r p Ha|a b p q q' _ IH1 _ IH2|a b p q _ IH|a b p q _ IH|
    |g a p q q' _ IH1 _ IH2|n a p q _ IH]; cbn [local]; intros Hl.
  - destruct (next_covers _ _ _ Hn) as (a & u & Hu & _). exists (String a u). split; [done|].
    eapply next_one_line; [done| |done]. by intros ->; congruence.
  - exists "". eauto using covers_nil.
  - destruct IH1 as (u & ? & Hu), IH2 as (v & ? & Hv); [apply Hl..|].
    exists (u +:+ v). rewrite one_line_app, Hu, Hv. eauto using covers_trans.
  - by apply IH, Hl.
  - by apply IH, Hl.
  - exists "". eauto using covers_nil.
  - destruct IH1 as (u & ? & Hu), IH2 as (v & ? & Hv); [done..|].
    exists (u +:+ v). rewrite one_line_app, Hu, Hv. eauto using covers_trans.
  - by apply IH.
Qed.

(** The same match with the rest of the text taken away. *)
Lemma local_shrink r p q t : matches r p q → local r → line_end t →
  ∀ l, rest p = l +:+ t → ∃ m, rest q = m +:+ t ∧ matches r (mkPos (prev p) l) (mkPos (prev q) m).
Proof.
  intros Hm Hl Ht. revert Hl.
  induction Hm as [f p x q Hn Hf|r p Ha|a b p q q' _ IH1 _ IH2|a b p q _ IH|a b p q _ IH|
    |g a p q q' _ IH1 _ IH2|n a p q _ IH]; cbn [local]; intros Hl l Hp.
  - destruct p as [pv s]. cbn [rest prev] in *. subst s. destruct l as [|a s].
    + destruct Ht as [-> | [t' ->]]; [done|].
      cbn [String.append] in Hn. rewrite next_ascii in Hn by done. injection Hn as <- <-.
      change (byte_val newline) with 10 in Hf. congruence.
    + unfold next in Hn. cbn [rest String.append] in Hn.
      rewrite (decode_rune_local a s t Ht) in Hn. injection Hn as <- <-. cbn [rest prev].
      destruct (decode_rune_split a s) as (u & Hs & _). eexists. split; [done|].
      econstructor; [|done]. unfold next. cbn [rest].
      destruct (decode_rune a s) as [r v] eqn:D. cbn [fst snd] in *. do 3 f_equal.
      rewrite Hs. change (String a (u +:+ v)) with (String a u +:+ v).
      change (String a ((u +:+ v) +:+ t)) with ((String a u +:+ v) +:+ t).
      rewrite <- str_app_assoc. by rewrite !text_between_app.
  - exists l. split; [done|]. destruct r; try done. by constructor.
  - destruct (IH1 (proj1 Hl) l Hp) as (m & Hq & ?).
    destruct (IH2 (proj2 Hl) m Hq) as (m' & ? & ?). eauto with hellbox.
  - destruct (IH (proj1 Hl) l Hp) as (m & ? & ?). eauto with hellbox.
  - destruct (IH (proj2 Hl) l Hp) as (m & ? & ?). eauto with hellbox.
  - exists l. eauto with hellbox.
  - destruct (IH1 Hl l Hp) as (m & Hq & ?).
    destruct (IH2 Hl m Hq) as (m' & ? & ?). eauto with hellbox.
  - destruct (IH Hl l Hp) as (m & ? & ?). eauto with hellbox.
Qed.

(** The same match with the rest of the text put after it. *)
Lemma local_grow r p q t : matches r p q → local r → line_end t →
  matches r (mkPos (prev p) (rest p +:+ t)) (mkPos (prev q) (rest q +:+ t)).
Proof.
  intros Hm Hl Ht. revert Hl.
  induction Hm as [f p x q Hn Hf|r p Ha| | | | | | ]; cbn [local]; intros Hl;
    try (destruct Hl); eauto with hellbox.
  - econstructor; [|done]. destruct p as [pv s]. unfold next in *. cbn [rest prev] in *.
    destruct s as [|a s]; [done|]. cbn [String.append]. rewrite (decode_rune_local a s t Ht).
    destruct (decode_rune_split a s) as (u & Hs & _).
    destruct (decode_rune a s) as [r v] eqn:D. cbn [fst snd] in *. injection Hn as <- <-.
    cbn [rest prev]. do 3 f_equal.
    rewrite Hs. change (String a (u +:+ v)) with (String a u +:+ v).
    change (String a ((u +:+ v) +:+ t)) with ((String a u +:+ v) +:+ t).
    rewrite <- str_app_assoc. by rewrite !text_between_app.
  - destruct r; try done. by constructor.
Qed.

(** ** Searching from a position, without its fuel *)

Lemma shorter_length q p : shorter q p = true ↔ (String.length (rest q) < String.length (rest p))%nat.
Proof. apply Nat.ltb_lt. Qed.

Lemma search_fuel r n : ∀ m p, (String.length (rest p) ≤ n)%nat → (String.length (rest p) ≤ m)%nat →
  search n r p = search m r p.
Proof.
  induction n as [|n IH]; intros [|m] p Hn Hm; cbn [search]; destruct (match_here r p) as [[q c]|]; try done.
  - destruct (next p) as [[x p']|] eqn:E; [|done]. apply next_shorter, shorter_length in E. lia.
  - destruct (next p) as [[x p']|] eqn:E; [|done]. apply next_shorter, shorter_length in E. lia.
  - destruct (next p) as [[x p']|] eqn:E; [|done]. apply next_shorter, shorter_length in E.
    apply IH; lia.
Qed.

Lemma find_from_step r p : match_here r p = None →
  find_from r p = match next p with Some (_, p') => find_from r p' | None => None end.
Proof.
  intros Hm. unfold find_from at 1. destruct (String.length (rest p)) as [|n] eqn:El; cbn [search]; rewrite Hm.
  - destruct (next p) as [[x p']|] eqn:E; [|done]. apply next_shorter, shorter_length in E. lia.
  - destruct (next p) as [[x p']|] eqn:E; [|done]. apply next_shorter, shorter_length in E.
    apply search_fuel; lia.
Qed.

Lemma ahead_covers p q : ahead p q → ∃ u, covers p q u.
Proof.
  induction 1 as [p|p x p' q Hn _ (u & Hu)]; [eauto using covers_nil|].
  destruct (next_covers _ _ _ Hn) as (a & v & Hv & _). eauto using covers_trans.
Qed.

Lemma pieces_fuel r n : ∀ m p, (String.length (rest p) < n)%nat → (String.length (rest p) < m)%nat →
  pieces n r p = pieces m r p.
Proof.
  induction n as [|n IH]; intros [|m] p Hn Hm; try lia. cbn [pieces].
  destruct (find_from r p) as [[[a b] c]|]; [|done]. destruct (shorter b p) eqn:Hs; [|done].
  apply shorter_length in Hs. by rewrite (IH m b) by lia.
Qed.

(** What a replacement makes of the text from [p] on. *)
Definition replace_from (r : regex) (new : string) (p : pos) : string :=
  let '(l, t) := pieces (S (String.length (rest p))) r p in
  foldr (λ x acc, x.1.1 +:+ new +:+ acc) t l.

Lemma replace_from_unfold r new p :
  replace_from r new p =
    match find_from r p with
    | Some (a, b, _) => if shorter b p then text_between p a +:+ new +:+ replace_from r new b else rest p
    | None => rest p
    end.
Proof.
  unfold replace_from at 1. cbn [pieces]. destruct (find_from r p) as [[[a b] c]|]; [|done].
  destruct (shorter b p) eqn:Hs; [|done]. apply shorter_length in Hs.
  rewrite (pieces_fuel r _ (S (String.length (rest b))) b) by lia.
  unfold replace_from. by destruct (pieces _ r b).
Qed.

(** ** Line patterns *)

Fixpoint consumes (r : regex) : bool :=
  match r with
  | Cls _ => true
  | Seq a b => consumes a || consumes b
  | Alt a b => consumes a && consumes b
  | Cap _ a => consumes a
  | _ => false
  end.

Lemma consumes_shorter r p q : matches r p q → consumes r = true → shorter q p = true.
Proof.
  assert (∀ x y z, y = z ∨ shorter z y = true → shorter y x = true → shorter z x = true) as H1.
  { intros x y z [-> | H] ?; [done|]. rewrite shorter_length in *. lia. }
  assert (∀ x y z, shorter z y = true → x = y ∨ shorter y x = true → shorter z x = true) as H2.
  { intros x y z ? [-> | H]; [done|]. rewrite shorter_length in *. lia. }
  induction 1 as [f p x q Hn _|r p Ha|a b p q q' Hm1 IH1 Hm2 IH2|a b p q _ IH|a b p q _ IH|
    |g a p q q' |n a p q _ IH]; cbn [consumes]; intros Hc; try done.
  - by eapply next_shorter.
  - by destruct r.
  - apply orb_true_iff in Hc as [Hc|Hc].
    + apply (H1 _ q); [by eapply matches_moves|auto].
    + apply (H2 _ q); [auto|by eapply matches_moves].
  - apply IH. by apply andb_true_iff in Hc as [? _].
  - apply IH. by apply andb_true_iff in Hc as [_ ?].
  - by apply IH.
Qed.

Lemma local_prev r p q : matches r p q → local r → ∀ pv,
  ∃ pv', matches r (mkPos pv (rest p)) (mkPos pv' (rest q)).
Proof.
  intros Hm Hl. revert Hl.
  induction Hm as [f p x q Hn Hf|r p Ha|a b p q q' _ IH1 _ IH2|a b p q _ IH|a b p q _ IH|
    |g a p q q' _ IH1 _ IH2|n a p q _ IH]; cbn [local]; intros Hl pv.
  - unfold next in Hn. destruct (rest p) as [|a s] eqn:Er; [done|].
    destruct (decode_rune a s) as [r t] eqn:D. injection Hn as <- <-. cbn [rest].
    eexists. econstructor; [|done]. unfold next. cbn [rest]. rewrite D. reflexivity.
  - exists pv. destruct r; try done. by constructor.
  - destruct (IH1 (proj1 Hl) pv) as [pv1 ?], (IH2 (proj2 Hl) pv1) as [pv2 ?]. eauto with hellbox.
  - destruct (IH (proj1 Hl) pv). eauto with hellbox.
  - destruct (IH (proj2 Hl) pv). eauto with hellbox.
  - exists pv. eauto with hellbox.
  - destruct (IH1 Hl pv) as [pv1 ?], (IH2 Hl pv1) as [pv2 ?]. eauto with hellbox.
  - destruct (IH Hl pv). eauto with hellbox.
Qed.

Section line_pattern.
Context (body : regex) (Hlocal : local body) (Hconsumes : consumes body = true).

Definition line_re : regex := Seq (Seq Bol body) Eol.

(** The pattern matches the line [l]. *)
Definition is_line (l : string) : bool := bool_decide (is_Some (match_here line_re (start l))).

Lemma line_re_matches p q :
  matches line_re p q ↔
  at_newline (prev p) = true ∧ matches body p q ∧ at_newline (str_head (rest q)) = true.
Proof.
  unfold line_re. split.
  - intros Hm.
    inversion Hm as [| |? ? ? q1 ? Hm1 He| | | | |]; simplify_eq.
    inversion Hm1 as [| |? ? ? q2 ? Hb Hm2| | | | |]; simplify_eq.
    inversion He; inversion Hb; simplify_eq/=. done.
  - intros (H1 & H2 & H3). econstructor; [econstructor; [|exact H2]|]; by constructor.
Qed.

Lemma line_head t : line_end t → at_newline (str_head t) = true.
Proof. intros [-> | [t' ->]]; [done|]. cbn. by apply bool_decide_eq_true. Qed.

Lemma line_split_unique l t u v :
  one_line l = true → one_line u = true → line_end t → line_end v → l +:+ t = u +:+ v → l = u ∧ t = v.
Proof.
  revert u. induction l as [|a l IH]; intros [|b u] Hl Hu Ht Hv E; cbn [String.append] in *; try done.
  - subst. destruct Ht as [? | [t' [= -> ->]]]; [done|].
    by destruct (negb (byte_eqb newline newline)) eqn:Hn; [vm_compute in Hn|].
  - subst. destruct Hv as [? | [t' [= -> ->]]]; [done|].
    by destruct (negb (byte_eqb newline newline)) eqn:Hn; [vm_compute in Hn|].
  - injection E as -> E. unfold one_line in *. cbn [str_forall] in *.
    apply andb_true_iff in Hl as [_ Hl], Hu as [_ Hu].
    destruct (IH u Hl Hu Ht Hv E) as [-> ->]. done.
Qed.

Lemma newline_head t : at_newline (str_head t) = true → line_end t.
Proof.
  destruct t as [|a t]; [by left|]. cbn. unfold byte_eqb. rewrite bool_decide_eq_true.
  intros <-. right. eauto.
Qed.

(** A match starting on the line [l] covers it exactly. *)
Lemma line_match_end pv l t q :
  one_line l = true → line_end t → matches line_re (mkPos pv (l +:+ t)) q →
  q = mkPos (last_of pv l) t ∧ l ≠ "".
Proof.
  intros Hl Ht (Hp & Hb & Hq)%line_re_matches.
  destruct (local_covers _ _ _ Hb Hlocal) as (u & [Hr Hpv] & Hu). cbn [rest prev] in *.
  destruct (line_split_unique l t u (rest q) Hl Hu Ht (newline_head _ Hq) Hr) as [-> ->].
  split; [by destruct q as [qp qr]; cbn [rest prev] in *; subst|]. intros ->.
  apply consumes_shorter, shorter_length in Hb; [|done]. cbn [rest String.append] in Hb. lia.
Qed.

Lemma line_match_iff pv l t :
  one_line l = true → line_end t → at_newline pv = true →
  is_Some (match_here line_re (mkPos pv (l +:+ t))) ↔ is_line l = true.
Proof.
  intros Hl Ht Hpv. unfold is_line. rewrite bool_decide_eq_true. split.
  - intros [[q c] Hm%match_here_sound]. pose proof Hm as [-> _]%line_match_end; [|done..].
    apply line_re_matches in Hm as (_ & Hb & _).
    destruct (local_shrink _ _ _ t Hb Hlocal Ht l eq_refl) as (m & E & Hb'). cbn [rest prev] in *.
    assert (m = "") as ->.
    { apply (f_equal String.length) in E. rewrite str_length_app in E. destruct m; [done|simpl in E; lia]. }
    destruct (local_prev _ _ _ Hb' Hlocal None) as [pv' Hb'']. cbn [rest] in Hb''.
    eapply match_here_complete, line_re_matches. eauto.
  - intros [[q c] Hm%match_here_sound]. unfold start in Hm. rewrite <- (str_app_empty_r l) in Hm.
    pose proof Hm as [-> _]%line_match_end; [|done|by left]. rewrite str_app_empty_r in Hm.
    apply line_re_matches in Hm as (_ & Hb & _).
    apply (local_grow _ _ _ t) in Hb; [|done..]. cbn [rest prev start] in Hb.
    destruct (local_prev _ _ _ Hb Hlocal pv) as [pv' Hb'']. cbn [rest] in Hb''.
    eapply match_here_complete, line_re_matches. cbn [rest prev]. split; [done|]. split; [exact Hb''|].
    cbn [rest String.append]. by apply line_head.
Qed.

(** The search passes over a line it does not match, and over the rest of one
    it is inside. *)
Lemma skip_line n : ∀ l pv t, (String.length l ≤ n)%nat →
  one_line l = true → line_end t → (at_newline pv = true → is_line l = false) →
  find_from line_re (mkPos pv (l +:+ t)) =
    match t with "" => None | String _ t' => find_from line_re (mkPos (Some newline) t') end.
Proof.
  induction n as [|n IH]; intros l pv t Hn Hl Ht Hno;
    (rewrite find_from_step; [|
      destruct (match_here line_re (mkPos pv (l +:+ t))) as [[q c]|] eqn:E; [|done];
      exfalso; assert (at_newline pv = true) as Hpv
        by (apply match_here_sound, line_re_matches in E as [? _]; done);
      specialize (Hno Hpv); apply eq_true_false_abs in Hno; [done|];
      apply (line_match_iff pv l t); [done..|by rewrite E]]).
  - destruct l; [|simpl in Hn; lia]. cbn [String.append].
    destruct Ht as [-> | [t' ->]]; [done|]. by rewrite next_ascii.
  - destruct l as [|a s].
    { cbn [String.append]. destruct Ht as [-> | [t' ->]]; [done|]. by rewrite next_ascii. }
    unfold next. cbn [rest String.append]. rewrite (decode_rune_local a s t Ht).
    destruct (decode_rune_split a s) as (u & Hs & Hu).
    destruct (decode_rune a s) as [r v] eqn:D. cbn [fst snd] in *.
    assert (one_line (String a u) = true ∧ one_line v = true) as [Ha Hv].
    { rewrite Hs in Hl. change (String a (u +:+ v)) with (String a u +:+ v) in Hl.
      rewrite one_line_app in Hl. by apply andb_true_iff in Hl. }
    apply IH; [|done|done|].
    + rewrite Hs in Hn. cbn [String.length] in Hn. rewrite str_length_app in Hn. lia.
    + rewrite Hs. change (String a ((u +:+ v) +:+ t)) with ((String a u +:+ v) +:+ t).
      rewrite <- str_app_assoc, text_between_app.
      assert (∀ w, one_line w = true → w ≠ "" → at_newline (str_last w) = false) as Hlast.
      { clear. induction w as [|b w IHw]; [done|]. intros Hw _. destruct w as [|d w].
        - unfold one_line in Hw. cbn [str_forall] in Hw. apply andb_true_iff in Hw as [Hw _].
          by apply negb_true_iff in Hw.
        - apply IHw; [|done]. unfold one_line in *. cbn [str_forall] in *.
          apply andb_true_iff in Hw as [_ Hw]. done. }
      by rewrite (Hlast (String a u)).
Qed.

(** A line it matches is the match. *)
Lemma find_line pv l t :
  one_line l = true → line_end t → at_newline pv = true → is_line l = true →
  ∃ c, find_from line_re (mkPos pv (l +:+ t)) = Some (mkPos pv (l +:+ t), mkPos (last_of pv l) t, c).
Proof.
  intros Hl Ht Hpv Hm. apply (line_match_iff pv l t) in Hm as [[q c] E]; [|done..].
  exists c. pose proof E as [-> _]%match_here_sound%line_match_end; [|done..].
  by apply find_from_here.
Qed.

Lemma is_line_nonempty l : one_line l = true → is_line l = true → l ≠ "".
Proof.
  intros Hl Hm. apply (line_match_iff None l "") in Hm as [[q c] E]; [|done|by left|done].
  by apply match_here_sound, line_match_end in E as [_ ?]; [|done|left].
Qed.

Lemma last_not_newline pv l : one_line l = true → l ≠ "" → at_newline (last_of pv l) = false.
Proof.
  revert pv. induction l as [|a l IH]; intros pv Hl Hne; [done|].
  rewrite last_of_cons. unfold one_line in *. cbn [str_forall] in Hl.
  apply andb_true_iff in Hl as [Ha Hl]. destruct l as [|b l]; [|by apply IH].
  by apply negb_true_iff in Ha.
Qed.

(** A replacement, line by line. *)
Definition replace_line (new l : string) : string := if is_line l then new else l.

Lemma replace_from_skip new pv l t :
  one_line l = true → line_end t → (at_newline pv = true → is_line l = false) →
  replace_from line_re new (mkPos pv (l +:+ t)) =
    l +:+ match t with "" => "" | String b t' => String b (replace_from line_re new (mkPos (Some newline) t')) end.
Proof.
  intros Hl Ht Hno. rewrite replace_from_unfold, (skip_line (String.length l)) by done.
  destruct Ht as [-> | [t' ->]]; [done|]. rewrite replace_from_unfold.
  destruct (find_from line_re (mkPos (Some newline) t')) as [[[a b] c]|] eqn:E; [|done].
  apply find_from_sound in E as [Ha Hm].
  apply ahead_covers in Ha as [u Hu].
  assert (shorter b a = true) as Hba.
  { apply line_re_matches in Hm as (_ & Hb & _). by eapply consumes_shorter. }
  pose proof Hu as [Hr _]. cbn [rest] in Hr.
  assert (shorter b (mkPos (Some newline) t') = true) as ->.
  { rewrite shorter_length in *. cbn [rest]. rewrite Hr, str_length_app. lia. }
  assert (shorter b (mkPos pv (l +:+ String newline t')) = true) as ->.
  { rewrite shorter_length in *. cbn [rest]. rewrite Hr, str_length_app. cbn [String.length].
    rewrite str_length_app. lia. }
  assert (text_between (mkPos pv (l +:+ String newline t')) a = l +:+ String newline u) as ->.
  { destruct a as [pa ra]. cbn [rest] in Hr. rewrite Hr.
    change (l +:+ String newline (u +:+ ra)) with (l +:+ (String newline u +:+ ra)).
    by rewrite str_app_assoc, text_between_app. }
  rewrite (covers_text _ _ _ Hu), <- str_app_assoc. done.
Qed.

Lemma replace_from_line new pv l t :
  one_line l = true → line_end t → at_newline pv = true →
  replace_from line_re new (mkPos pv (l +:+ t)) =
    replace_line new l +:+
      match t with "" => "" | String b t' => String b (replace_from line_re new (mkPos (Some newline) t')) end.
Proof.
  intros Hl Ht Hpv. unfold replace_line. destruct (is_line l) eqn:Hm; [|by apply replace_from_skip].
  destruct (find_line pv l t Hl Ht Hpv Hm) as [c E]. rewrite replace_from_unfold, E.
  pose proof (is_line_nonempty l Hl Hm) as Hne.
  assert (shorter (mkPos (last_of pv l) t) (mkPos pv (l +:+ t)) = true) as ->.
  { apply shorter_length. cbn [rest]. rewrite str_length_app. destruct l; [done|simpl; lia]. }
  assert (text_between (mkPos pv (l +:+ t)) (mkPos pv (l +:+ t)) = "") as ->
    by exact (text_between_app pv pv "" (l +:+ t)).
  cbn [String.append]. f_equal.
  exact (replace_from_skip new (last_of pv l) "" t eq_refl Ht
    ltac:(intros H; by rewrite last_not_newline in H)).
Qed.

(** On lines [ls], the whole text. *)
Lemma replace_from_lines new ls : ∀ pv,
  at_newline pv = true → Forall (λ l, one_line l = true) ls → ls ≠ [] →
  replace_from line_re new (mkPos pv (join nl ls)) = join nl (replace_line new <$> ls).
Proof.
  induction ls as [|l ls IH]; intros pv Hpv Hls Hne; [done|].
  inversion Hls as [|? ? Hl Hls']; subst. destruct ls as [|l' ls].
  - change (join nl [l]) with l. rewrite <- (str_app_empty_r l) at 1.
    rewrite replace_from_line by (done || by left). by rewrite str_app_empty_r.
  - change (join nl (l :: l' :: ls)) with (l +:+ String newline (join nl (l' :: ls))).
    rewrite replace_from_line by (done || (right; eauto)). rewrite IH by done. done.
Qed.

(** A replacement rewrites the lines the pattern matches and no others. *)
Lemma ReplaceAll_lines new ls :
  ls ≠ [] → Forall (λ l, one_line l = true) ls →
  ReplaceAllLiteralString line_re (join nl ls) new = join nl (replace_line new <$> ls).
Proof. intros. by rewrite <- (replace_from_lines new ls None). Qed.

(** The search finds the first line the pattern matches. *)
Definition first_line (ls : list string) : string := default "" (head (filter (λ l, is_line l = true) ls)).

Lemma find_from_lines ls : ∀ pv,
  at_newline pv = true → Forall (λ l, one_line l = true) ls → ls ≠ [] →
  match find_from line_re (mkPos pv (join nl ls)) with
  | Some (p, q, _) => text_between p q | None => "" end = first_line ls ∧
  (is_Some (find_from line_re (mkPos pv (join nl ls))) ↔ Exists (λ l, is_line l = true) ls).
Proof.
  induction ls as [|l ls IH]; intros pv Hpv Hls Hne; [done|].
  inversion Hls as [|? ? Hl Hls']; subst.
  set (t := match ls with [] => "" | _ => String newline (join nl ls) end).
  assert (join nl (l :: ls) = l +:+ t) as ->.
  { unfold t. destruct ls; [by rewrite str_app_empty_r|done]. }
  assert (line_end t) as Ht by (unfold t; destruct ls; [by left|right; eauto]).
  unfold first_line. rewrite filter_cons, Exists_cons. case_decide as Hm.
  - destruct (find_line pv l t Hl Ht Hpv Hm) as [c ->]. rewrite text_between_app.
    split; [done|]. naive_solver.
  - rewrite (skip_line (String.length l)); [|done..|by destruct (is_line l)].
    unfold t. destruct ls as [|l' ls].
    + split; [done|]. rewrite Exists_nil. naive_solver.
    + destruct (IH (Some newline) eq_refl Hls' ltac:(done)) as [-> Hiff]. split; [done|].
      rewrite Hiff. naive_solver.
Qed.

Lemma FindString_lines ls :
  ls ≠ [] → Forall (λ l, one_line l = true) ls → FindString line_re (join nl ls) = first_line ls.
Proof. intros. by apply find_from_lines. Qed.

Lemma MatchString_lines ls :
  ls ≠ [] → Forall (λ l, one_line l = true) ls →
  MatchString line_re (join nl ls) = true ↔ Exists (λ l, is_line l = true) ls.
Proof.
  intros. unfold MatchString. rewrite bool_decide_eq_true. by apply find_from_lines.
Qed.
End line_pattern.

(** Every text is made of lines. *)
Lemma text_lines s : s = join nl (split_on newline s) ∧ split_on newline s ≠ [] ∧
  Forall (λ l, one_line l = true) (split_on newline s).
Proof.
  split; [symmetry; apply join_split|]. split; [|apply split_at_pieces].
  unfold split_on. by destruct (split_at_cons (byte_eqb newline) s) as (w & ws & ->).
Qed.
