(* ===== verification/GoScan.v ===== *)
(** * bufio.Scanner

    A scanner hands the bytes it has read so far to a split function and asks
    for more when that finds no token.  [scanner] runs one over a list of
    reads; [Tokens_cut] proves that for a split function that cuts at
    delimiters the tokens are the pieces of the whole text, however it arrived
    in reads. *)

From S2P Require Import Prelude GoText.

(** A split function: how far to advance, and the token. *)
Definition splitter := string → bool → nat * option string.

Fixpoint str_drop (n : nat) (s : string) : string :=
  match n, s with O, _ => s | S n, String _ s' => str_drop n s' | _, "" => "" end.

(** [chunks] are the reads to come. *)
Fixpoint scanner (f : splitter) (fuel : nat) (buf : string) (chunks : list string) : list string :=
  match fuel with
  | O => []
  | S n =>
      let '(adv, tok) := f buf (bool_decide (chunks = [])) in
      match tok with
      | Some t => t :: scanner f n (str_drop adv buf) chunks
      | None => match chunks with c :: cs => scanner f n (buf +:+ c) cs | [] => [] end
      end
  end.
Definition total_length (chunks : list string) : nat := foldr (λ c n, (String.length c + n)%nat) O chunks.
(** Every step takes a byte or a read. *)
Definition Tokens (f : splitter) (chunks : list string) : list string :=
  scanner f (S (S (total_length chunks + length chunks))) "" chunks.

(** The position of the first byte satisfying [p]. *)
Fixpoint str_index (p : ascii → bool) (s : string) : option nat :=
  match s with
  | "" => None
  | String c s' => if p c then Some O else S <$> str_index p s'
  end.

(** A split function that cuts after each byte satisfying [p]; bufio.ScanLines
    and the decrypter's scanLinesOrReturns are of this shape. *)
Definition cut_at (p : ascii → bool) : splitter := λ data atEOF,
  if atEOF && bool_decide (data = "") then (O, None)
  else match str_index p data with
       | Some i => (S i, Some (String.substring 0 i data))
       | None => if atEOF then (String.length data, Some data) else (O, None)
       end.

(** The pieces between delimiters, without the empty one after the last. *)
Fixpoint drop_last_empty (l : list string) : list string :=
  match l with [] => [] | [s] => if bool_decide (s = "") then [] else [s] | s :: l' => s :: drop_last_empty l' end.
Definition pieces_at (p : ascii → bool) (s : string) : list string := drop_last_empty (split_at p s).

(** bufio.ScanLines: a carriage return at the end of a line is dropped. *)
Definition dropCR (s : string) : string := TrimSuffix s (String (byte_of 13) "").
(** The lines a Scanner over [s] gives, with [max] bytes of buffer: a longer
    line ends the scan. *)
Fixpoint upto_long (max : Z) (l : list string) : list string :=
  match l with [] => [] | s :: l' => if len s <? max then s :: upto_long max l' else [] end.
Definition scan_lines (max : Z) (s : string) : list string :=
  dropCR <$> upto_long max (pieces_at (byte_eqb newline) s).

Example scan_crlf : scan_lines 100 ("a" +:+ String (byte_of 13) (String newline "b")) = ["a"; "b"].
Proof. reflexivity. Qed.

(** ** Lemmas *)

Lemma str_index_split p s i : str_index p s = Some i →
  ∃ u c t, s = u +:+ String c t ∧ String.length u = i ∧ p c = true ∧ str_forall (λ x, negb (p x)) u = true.
Proof.
  revert i. induction s as [|c s IH]; intros i; [done|]. cbn [str_index].
  destruct (p c) eqn:Hc; [intros [= <-]; by exists "", c, s|].
  destruct (str_index p s) as [j|]; [|done]. intros [= <-].
  destruct (IH j eq_refl) as (u & d & t & -> & Hl & Hd & Hu). exists (String c u), d, t.
  cbn. by rewrite Hc, Hl, Hu.
Qed.

Lemma str_index_None p s : str_index p s = None → str_forall (λ x, negb (p x)) s = true.
Proof.
  induction s as [|c s IH]; [done|]. cbn. destruct (p c); [done|].
  destruct (str_index p s); [done|]. intros _. by apply IH.
Qed.

Lemma str_drop_app u t : str_drop (String.length u) (u +:+ t) = t.
Proof. by induction u. Qed.

Lemma substring_app u t : String.substring 0 (String.length u) (u +:+ t) = u.
Proof. induction u as [|c u IH]; cbn; [by destruct t|by rewrite IH]. Qed.

Lemma pieces_at_cut p u c t : str_forall (λ x, negb (p x)) u = true → p c = true →
  pieces_at p (u +:+ String c t) = u :: pieces_at p t.
Proof.
  intros Hu Hc. unfold pieces_at. rewrite split_at_app_sep by done.
  destruct (split_at_cons p t) as (w & ws & ->). done.
Qed.

Lemma pieces_at_tail p u : str_forall (λ x, negb (p x)) u = true → u ≠ "" → pieces_at p u = [u].
Proof. intros Hu Hne. unfold pieces_at. rewrite split_at_none by done. cbn. by rewrite bool_decide_eq_false_2. Qed.

Lemma scanner_cut p fuel : ∀ buf chunks,
  (String.length buf + total_length chunks + length chunks < fuel)%nat →
  scanner (cut_at p) fuel buf chunks = pieces_at p (buf +:+ join "" chunks).
Proof.
  assert (∀ cs, join "" cs = foldr String.append "" cs) as Hjoin.
  { unfold join. induction cs as [|c cs IH]; [done|]. destruct cs as [|d cs]; [by cbn; rewrite str_app_empty_r|].
    cbn [foldr] in *. rewrite <- IH. done. }
  induction fuel as [|n IH]; intros buf chunks Hf; [lia|].
  cbn [scanner]. unfold cut_at at 1.
  destruct (bool_decide (chunks = []) && bool_decide (buf = "")) eqn:Hend.
  { apply andb_true_iff in Hend as [->%bool_decide_eq_true ->%bool_decide_eq_true]. done. }
  destruct (str_index p buf) as [i|] eqn:Hi.
  - apply str_index_split in Hi as (u & c & t & -> & <- & Hc & Hu).
    rewrite substring_app. change (u +:+ String c t) with (u +:+ (String c "" +:+ t)).
    assert (str_drop (S (String.length u)) (u +:+ (String c "" +:+ t)) = t) as ->.
    { rewrite str_app_assoc.
      replace (S (String.length u)) with (String.length (u +:+ String c "")); [apply str_drop_app|].
      pose proof (len_app u (String c "")) as Hl. unfold len in Hl. cbn [String.length] in Hl. lia. }
    rewrite IH.
    + rewrite <- !str_app_assoc. cbn [String.append]. by rewrite pieces_at_cut.
    + pose proof (len_app u (String c t)) as Hl. unfold len in Hl. cbn [String.length] in Hl. lia.
  - apply str_index_None in Hi. destruct chunks as [|c cs].
    + rewrite bool_decide_eq_true_2 in * by done. cbn [andb] in Hend.
      apply bool_decide_eq_false in Hend. change (join "" []) with "". rewrite str_app_empty_r.
      rewrite (pieces_at_tail p buf) by done. f_equal.
      destruct n as [|n]; [done|]. cbn [scanner].
      assert (str_drop (String.length buf) buf = "") as ->; [|done].
      rewrite <- (str_app_empty_r buf) at 2. apply str_drop_app.
    + rewrite bool_decide_eq_false_2 by done. rewrite IH.
      * rewrite !Hjoin. cbn [foldr]. by rewrite <- str_app_assoc.
      * cbn [total_length foldr length] in Hf. fold (total_length cs) in Hf.
        pose proof (len_app buf c) as Hl. unfold len in Hl. lia.
Qed.

Lemma Tokens_cut p chunks : Tokens (cut_at p) chunks = pieces_at p (join "" chunks).
Proof. unfold Tokens. rewrite scanner_cut; [done|]. cbn. lia. Qed.
