(* ===== verification/Table.v ===== *)
(** * Rows and tables

    A SQL table is the list of its rows in rowid order.  INSERT appends with
    the next rowid, UPDATE ... WHERE maps, and INSERT ... ON CONFLICT DO UPDATE
    is [upsert]. *)

From S2P Require Import Prelude.

Section table.
Context {R : Type}.
Implicit Types (rows : list R) (p : R → bool) (f : R → R).

(** INTEGER PRIMARY KEY without AUTOINCREMENT: one above the largest rowid. *)
Definition next_rowid (key : R → Z) rows : Z := 1 + foldr Z.max 0 (map key rows).

Definition update_where p f rows : list R := map (λ r, if p r then f r else r) rows.

Definition upsert p f (new : R) rows : list R :=
  if existsb p rows then update_where p f rows else rows ++ [new].

(** SELECT ... WHERE p, at most one row expected. *)
Definition select1 p rows : option R := List.find p rows.

Definition count_where p rows : Z := Z.of_nat (length (List.filter p rows)).

(** SELECT ... ORDER BY key LIMIT 1: the first row no other row is below. *)
Fixpoint select_min (lt : R → R → bool) rows : option R :=
  match rows with
  | [] => None
  | r :: rows' =>
      match select_min lt rows' with
      | Some r' => Some (if lt r' r then r' else r)
      | None => Some r
      end
  end.

(** LIMIT n for a positive n. *)
Definition limit (n : Z) rows : list R := take (Z.to_nat n) rows.

(** ** Lemmas *)

Lemma next_rowid_fresh key rows r : r ∈ rows → key r < next_rowid key rows.
Proof.
  unfold next_rowid. induction rows as [|x rows IH]; [by intros ?%not_elem_of_nil|].
  intros [->|?%IH]%elem_of_cons; simpl; lia.
Qed.

Lemma next_rowid_pos key rows : 0 < next_rowid key rows.
Proof. unfold next_rowid. induction rows; simpl; lia. Qed.

Lemma update_where_length p f rows : length (update_where p f rows) = length rows.
Proof. apply length_map. Qed.

Lemma update_where_map {B} (g : R → B) p f rows :
  (∀ r, p r = true → g (f r) = g r) → map g (update_where p f rows) = map g rows.
Proof.
  intros Hg. unfold update_where. rewrite map_map. apply map_ext. intros r.
  destruct (p r) eqn:E; [by apply Hg|done].
Qed.

Lemma elem_of_update_where p f rows r :
  r ∈ update_where p f rows ↔ ∃ r0, r0 ∈ rows ∧ r = if p r0 then f r0 else r0.
Proof.
  unfold update_where.
  rewrite list_elem_of_In, in_map_iff. setoid_rewrite list_elem_of_In. naive_solver.
Qed.

Lemma update_where_twice p f g rows :
  (∀ r, p (g r) = p r) → update_where p f (update_where p g rows) = update_where p (λ r, f (g r)) rows.
Proof.
  intros Hp. unfold update_where. rewrite map_map. apply map_ext. intros r. destruct (p r) eqn:E; by rewrite ?Hp, E.
Qed.

Lemma update_where_none p f rows :
  Forall (λ r, p r = false) rows → update_where p f rows = rows.
Proof. unfold update_where. induction 1 as [|r rows Hr _ IH]; simpl; [done|]. by rewrite Hr, IH. Qed.

Lemma existsb_false_Forall p rows : existsb p rows = false ↔ Forall (λ r, p r = false) rows.
Proof.
  induction rows as [|r rows IH]; simpl; [by split|].
  rewrite orb_false_iff, Forall_cons, IH. done.
Qed.

Lemma existsb_true_elem p rows : existsb p rows = true ↔ ∃ r, r ∈ rows ∧ p r = true.
Proof. rewrite existsb_exists. by setoid_rewrite list_elem_of_In. Qed.

Lemma select1_Some p rows r : select1 p rows = Some r → r ∈ rows ∧ p r = true.
Proof. intros H%find_some. by rewrite list_elem_of_In. Qed.

Lemma select1_None p rows : select1 p rows = None → Forall (λ r, p r = false) rows.
Proof.
  intros H. apply Forall_forall. intros r Hr. apply list_elem_of_In in Hr.
  by eapply find_none.
Qed.

Lemma select1_is_Some p rows : existsb p rows = true ↔ is_Some (select1 p rows).
Proof.
  split.
  - intros (r & Hr & Hp)%existsb_true_elem. destruct (select1 p rows) eqn:E; [by eexists|].
    apply select1_None in E. rewrite Forall_forall in E. specialize (E r Hr). congruence.
  - intros [r [Hr Hp]%select1_Some]. apply existsb_true_elem. eauto.
Qed.

(** With a key no two rows share, a row is found by its key. *)
Lemma select1_unique {B} `{EqDecision B} (g : R → B) rows r :
  NoDup (map g rows) → r ∈ rows →
  select1 (λ x, bool_decide (g x = g r)) rows = Some r.
Proof.
  intros Hnd Hr. destruct (select1 _ rows) as [x|] eqn:E.
  - apply select1_Some in E as [Hx Hg%bool_decide_eq_true]. f_equal.
    induction rows as [|y rows IH]; [by apply not_elem_of_nil in Hr|].
    simpl in Hnd. apply NoDup_cons in Hnd as [Hy Hnd].
    apply elem_of_cons in Hx as [->|Hx], Hr as [->|Hr]; try done.
    + exfalso. apply Hy. rewrite Hg. apply list_elem_of_In, in_map, list_elem_of_In, Hr.
    + exfalso. apply Hy. rewrite <- Hg. apply list_elem_of_In, in_map, list_elem_of_In, Hx.
    + by apply IH.
  - apply select1_None in E. rewrite Forall_forall in E. specialize (E r Hr).
    apply bool_decide_eq_false in E. done.
Qed.

Lemma upsert_keys {B} (g : R → B) p f new rows :
  (∀ r, p r = true → g (f r) = g r) →
  (∀ r, r ∈ rows → p r = false → g r ≠ g new) →
  NoDup (map g rows) → NoDup (map g (upsert p f new rows)).
Proof.
  intros Hf Hn Hnd. unfold upsert. destruct (existsb p rows) eqn:E.
  - by rewrite update_where_map.
  - rewrite map_app. apply NoDup_app. split; [done|]. split; [|by apply NoDup_singleton].
    intros y Hy Hy'. apply list_elem_of_singleton in Hy' as ->.
    apply list_elem_of_In, in_map_iff in Hy as (r & Hg & Hr). apply list_elem_of_In in Hr.
    apply existsb_false_Forall in E. rewrite Forall_forall in E. by apply (Hn r Hr (E r Hr)).
Qed.

Lemma elem_of_upsert p f new rows r :
  r ∈ upsert p f new rows →
  r = new ∨ ∃ r0, r0 ∈ rows ∧ r = if p r0 then f r0 else r0.
Proof.
  unfold upsert. destruct (existsb p rows) eqn:E.
  - intros H%elem_of_update_where. by right.
  - intros [Hr| ->%list_elem_of_singleton]%elem_of_app; [right|by left].
    exists r. split; [done|]. apply existsb_false_Forall in E. rewrite Forall_forall in E.
    by rewrite E.
Qed.

Lemma select_min_elem lt rows r : select_min lt rows = Some r → r ∈ rows.
Proof.
  revert r; induction rows as [|x rows IH]; intros r; simpl; [done|].
  destruct (select_min lt rows) as [y|]; intros [= <-]; [|by constructor].
  destruct (lt y x); [right; by apply IH|by left].
Qed.

Lemma select_min_map lt (f : R → R) rows :
  (∀ a b, lt (f a) (f b) = lt a b) → select_min lt (map f rows) = f <$> select_min lt rows.
Proof.
  intros Hf. induction rows as [|r rows IH]; [done|]. cbn [map select_min]. rewrite IH.
  destruct (select_min lt rows) as [r'|]; [|done]. cbn [fmap option_fmap option_map]. rewrite Hf. by destruct (lt r' r).
Qed.

Lemma select_min_None lt rows : select_min lt rows = None ↔ rows = [].
Proof. destruct rows; simpl; [done|]. by destruct (select_min lt rows). Qed.

Lemma select_min_least lt rows r :
  (∀ a b c, lt a b = true → lt b c = true → lt a c = true) →
  (∀ a, lt a a = false) →
  (∀ a b c, lt a b = true → lt a c = true ∨ lt c b = true) →
  select_min lt rows = Some r → Forall (λ x, lt x r = false) rows.
Proof.
  intros Htr Hirr Hcot. revert r; induction rows as [|x rows IH]; intros r; simpl; [done|].
  destruct (select_min lt rows) as [y|] eqn:E.
  - specialize (IH y eq_refl). destruct (lt y x) eqn:Hyx; intros [= <-].
    + constructor; [|done]. destruct (lt x y) eqn:Hxy; [|done].
      specialize (Htr _ _ _ Hxy Hyx). by rewrite Hirr in Htr.
    + constructor; [done|]. eapply Forall_impl; [exact IH|]. intros z Hz; simpl in Hz.
      destruct (lt z x) eqn:Hzx; [|done]. destruct (Hcot _ _ y Hzx); congruence.
  - apply select_min_None in E as ->. intros [= <-]. by constructor.
Qed.

Lemma count_where_app p rows rows' : count_where p (rows ++ rows') = count_where p rows + count_where p rows'.
Proof. unfold count_where. rewrite List.filter_app, length_app. lia. Qed.

Lemma count_where_none p rows : Forall (λ r, p r = false) rows → count_where p rows = 0.
Proof.
  unfold count_where. induction 1 as [|r rows Hr _ IH]; simpl; [done|]. by rewrite Hr.
Qed.

Lemma count_where_ext p q rows :
  Forall (λ r, p r = q r) rows → count_where p rows = count_where q rows.
Proof.
  unfold count_where. induction 1 as [|r rows Hr _ IH]; simpl; [done|].
  rewrite Hr. destruct (q r); simpl; lia.
Qed.

Lemma count_where_map {Q} p (g : Q → R) (rows : list Q) :
  count_where p (map g rows) = Z.of_nat (length (List.filter (λ x, p (g x)) rows)).
Proof.
  unfold count_where. induction rows as [|x rows IH]; simpl; [done|].
  destruct (p (g x)); simpl; lia.
Qed.

Lemma count_where_nonneg p rows : 0 ≤ count_where p rows.
Proof. unfold count_where. lia. Qed.

(** ** Key columns *)

(** A rowid column: positive and unique. *)
Definition keys_ok (key : R → Z) rows : Prop :=
  NoDup (map key rows) ∧ Forall (λ r, 0 < key r) rows.

Lemma keys_ok_nil key : keys_ok key [].
Proof. split; constructor. Qed.

Lemma keys_ok_update key p f rows :
  (∀ r, key (f r) = key r) → keys_ok key rows → keys_ok key (update_where p f rows).
Proof.
  intros Hf [Hnd Hpos]. split; [by rewrite update_where_map by auto|].
  rewrite Forall_forall in *. intros r (r0 & Hr & ->)%elem_of_update_where.
  destruct (p r0); rewrite ?Hf; auto.
Qed.

Lemma keys_ok_insert key new rows :
  key new = next_rowid key rows → keys_ok key rows → keys_ok key (rows ++ [new]).
Proof.
  intros Hk [Hnd Hpos]. split.
  - rewrite map_app. apply NoDup_app. split; [done|]. split; [|apply NoDup_singleton].
    intros k Hin Hk'%list_elem_of_singleton. subst k.
    apply list_elem_of_fmap in Hin as (r & Hkr & Hr).
    pose proof (next_rowid_fresh key rows r Hr). lia.
  - apply Forall_app. split; [done|]. apply Forall_singleton. rewrite Hk. apply next_rowid_pos.
Qed.

Lemma keys_ok_upsert key p f new rows :
  (∀ r, key (f r) = key r) → key new = next_rowid key rows →
  keys_ok key rows → keys_ok key (upsert p f new rows).
Proof.
  intros. unfold upsert. destruct (existsb p rows); auto using keys_ok_update, keys_ok_insert.
Qed.

Lemma next_rowid_update key p f rows :
  (∀ r, key (f r) = key r) → next_rowid key (update_where p f rows) = next_rowid key rows.
Proof. intros Hf. unfold next_rowid. by rewrite update_where_map by auto. Qed.

Lemma next_rowid_app key rows rows' : next_rowid key rows ≤ next_rowid key (rows ++ rows').
Proof. unfold next_rowid. induction rows as [|r rows IH]; simpl; [|lia].
  induction rows'; simpl; lia.
Qed.

(** ** References between tables *)

Definition refers (col : R → Z) rows (ids : list Z) : Prop := Forall (λ r, col r ∈ ids) rows.

Lemma refers_update col p f rows ids :
  (∀ r, p r = true → col (f r) = col r) → refers col rows ids → refers col (update_where p f rows) ids.
Proof.
  unfold refers. rewrite !Forall_forall. intros Hf H r (r0 & Hr & ->)%elem_of_update_where.
  destruct (p r0) eqn:E; rewrite ?Hf by done; auto.
Qed.

Lemma refers_upsert col p f new rows ids :
  (∀ r, p r = true → col (f r) = col r) → (existsb p rows = false → col new ∈ ids) →
  refers col rows ids → refers col (upsert p f new rows) ids.
Proof.
  intros Hf Hn H. unfold upsert. destruct (existsb p rows) eqn:E; [by apply refers_update|].
  apply Forall_app. split; [done|]. apply Forall_singleton. auto.
Qed.

Lemma refers_mono col rows ids ids' :
  (∀ i, i ∈ ids → i ∈ ids') → refers col rows ids → refers col rows ids'.
Proof. intros Hi H. eapply Forall_impl; [exact H|]. simpl. auto. Qed.

Lemma upsert_ids_mono (key : R → Z) p f new rows i :
  (∀ r, key (f r) = key r) → i ∈ map key rows → i ∈ map key (upsert p f new rows).
Proof.
  intros Hf Hi. unfold upsert. destruct (existsb p rows).
  - by rewrite update_where_map by auto.
  - rewrite map_app, elem_of_app. by left.
Qed.

Lemma upsert_selected p f new rows :
  (∀ r, p r = true → p (f r) = true) → p new = true → existsb p (upsert p f new rows) = true.
Proof.
  intros Hf Hn. unfold upsert. destruct (existsb p rows) eqn:E.
  - apply existsb_true_elem in E as (r & Hr & Hp). apply existsb_true_elem.
    exists (f r). split; [|by apply Hf]. apply elem_of_update_where. exists r. by rewrite Hp.
  - rewrite existsb_app. simpl. by rewrite Hn, orb_true_r.
Qed.

Lemma existsb_key (key : R → Z) (i : Z) rows : existsb (λ r, key r =? i) rows = true ↔ i ∈ map key rows.
Proof.
  rewrite existsb_true_elem, list_elem_of_fmap. split.
  - intros (r & Hr & E%Z.eqb_eq). eauto.
  - intros (r & -> & Hr). exists r. split; [done|]. apply Z.eqb_refl.
Qed.

Lemma Forall_update_where (P : R → Prop) p f rows :
  (∀ r, P r → p r = true → P (f r)) → Forall P rows → Forall P (update_where p f rows).
Proof.
  rewrite !Forall_forall. intros Hf H r (r0 & Hr & ->)%elem_of_update_where.
  destruct (p r0) eqn:E; auto.
Qed.

Lemma Forall_upsert (P : R → Prop) p f new rows :
  (∀ r, P r → p r = true → P (f r)) → P new → Forall P rows → Forall P (upsert p f new rows).
Proof.
  intros Hf Hn H. unfold upsert. destruct (existsb p rows); [by apply Forall_update_where|].
  apply Forall_app. split; [done|]. by apply Forall_singleton.
Qed.

(** ** Reading back what was written *)

Lemma select1_update_same p f rows :
  (∀ r, p r = true → p (f r) = true) →
  select1 p (update_where p f rows) = f <$> select1 p rows.
Proof.
  intros Hf. unfold select1. induction rows as [|r rows IH]; simpl; [done|].
  destruct (p r) eqn:E; simpl; [by rewrite Hf|by rewrite E].
Qed.

(** A row found by a test the rewriting does not touch is found and rewritten. *)
Lemma select1_update q p f rows :
  (∀ r, q (f r) = q r) →
  select1 q (update_where p f rows) = (λ r, if p r then f r else r) <$> select1 q rows.
Proof.
  intros Hf. unfold select1. induction rows as [|r rows IH]; simpl; [done|].
  destruct (p r) eqn:E; rewrite ?Hf; destruct (q r) eqn:Eq; simpl; rewrite ?E; done.
Qed.

Lemma select1_update_other q p f rows :
  (∀ r, r ∈ rows → p r = true → q r = false ∧ q (f r) = false) →
  select1 q (update_where p f rows) = select1 q rows.
Proof.
  intros Hf. unfold select1. induction rows as [|r rows IH]; simpl; [done|].
  assert (∀ x, x ∈ rows → p x = true → q x = false ∧ q (f x) = false) as Hf'.
  { intros x Hx. apply Hf. by right. }
  destruct (p r) eqn:E; [destruct (Hf r ltac:(left) E) as [-> ->]; auto|]. destruct (q r); auto.
Qed.

Lemma select1_app p rows rows' :
  select1 p (rows ++ rows') = match select1 p rows with Some r => Some r | None => select1 p rows' end.
Proof. unfold select1. induction rows as [|r rows IH]; simpl; [done|]. by destruct (p r). Qed.

Lemma select1_upsert_same p f new rows :
  (∀ r, p r = true → p (f r) = true) → p new = true →
  select1 p (upsert p f new rows) = Some (match select1 p rows with Some r => f r | None => new end).
Proof.
  intros Hf Hn. unfold upsert. destruct (existsb p rows) eqn:E.
  - rewrite select1_update_same by done. apply select1_is_Some in E as [r ->]. done.
  - rewrite select1_app. destruct (select1 p rows) eqn:Es.
    + assert (is_Some (select1 p rows)) as H%select1_is_Some by eauto. congruence.
    + unfold select1. simpl. by rewrite Hn.
Qed.

Lemma select1_upsert_other q p f new rows :
  (∀ r, r ∈ rows → p r = true → q r = false ∧ q (f r) = false) → q new = false →
  select1 q (upsert p f new rows) = select1 q rows.
Proof.
  intros Hf Hn. unfold upsert. destruct (existsb p rows); [by apply select1_update_other|].
  rewrite select1_app. destruct (select1 q rows); [done|]. unfold select1. simpl. by rewrite Hn.
Qed.

(** Two tests that hold of the same row agree when the keys are unique. *)
Lemma key_inj {B} (g : R → B) rows r r' :
  NoDup (map g rows) → r ∈ rows → r' ∈ rows → g r = g r' → r = r'.
Proof.
  induction rows as [|x rows IH]; simpl; [by intros _ ?%not_elem_of_nil|].
  rewrite NoDup_cons. intros [Hx Hnd] [->|Hr]%elem_of_cons [->|Hr']%elem_of_cons Heq; auto.
  - destruct Hx. rewrite Heq. by apply (list_elem_of_fmap_2 g).
  - destruct Hx. rewrite <- Heq. by apply (list_elem_of_fmap_2 g).
Qed.

Lemma select1_only p rows r :
  r ∈ rows → p r = true → (∀ x, x ∈ rows → p x = true → x = r) → select1 p rows = Some r.
Proof.
  intros Hr Hp Hu. destruct (select1 p rows) as [x|] eqn:E.
  - apply select1_Some in E as [Hx Hpx]. by rewrite (Hu x Hx Hpx).
  - apply select1_None in E. rewrite Forall_forall in E. specialize (E r Hr). congruence.
Qed.

Lemma select1_key (key : R → Z) rows r :
  NoDup (map key rows) → r ∈ rows → select1 (λ x, key x =? key r) rows = Some r.
Proof.
  intros Hnd Hr. apply select1_only; [done|apply Z.eqb_refl|].
  intros x Hx E%Z.eqb_eq. by eapply key_inj.
Qed.

Lemma count_where_update p q f rows :
  (∀ r, q r = true → p (f r) = p r) → count_where p (update_where q f rows) = count_where p rows.
Proof.
  intros Hf. unfold count_where, update_where. f_equal. induction rows as [|r rows IH]; simpl; [done|].
  destruct (q r) eqn:E; rewrite ?Hf by done; destruct (p r); simpl; lia.
Qed.
End table.

#[export] Hint Resolve next_rowid_pos count_where_nonneg : hellbox.
