(* ===== verification/Drive.v ===== *)
(** * The optical drive: SCSI answers and what they mean (internal/drive)

    Decoding of TEST UNIT READY sense data, GET CONFIGURATION profiles, the
    copyright descriptor and the RPC region state, and the judgements the
    daemon makes from them.  Bytes are [Z] in [0, 256).  The kernel's SG_IO
    and CDROM ioctls are the fields of [Device]. *)

From S2P Require Import Prelude GoText.

(** [b[i]] of a slice already known to be long enough. *)
Definition byte_at (b : list Z) (i : nat) : Z := default 0 (b !! i).

(** ** Tray and disc state *)

Inductive Status :=
| StatusUnknown
| StatusNoDisc
| StatusTrayOpen
| StatusNotReady
| StatusDiscOK
| StatusIncompatible.
#[global] Instance Status_eq_dec : EqDecision Status.
Proof. solve_decision. Defined.

(** ** Sense data (sense.go) *)

Record senseResult := mkSense {
  good : bool;
  senseKey : Z;
  asc : Z;
  ascq : Z;
}.
#[global] Instance senseResult_eq_dec : EqDecision senseResult.
Proof. solve_decision. Defined.

Definition parseSense (b : list Z) : senseResult :=
  if (length b <? 3)%nat then mkSense false 0 0 0
  else
    let fmt := Z.land (byte_at b 0) 0x7f in
    if (fmt =? 0x72) || (fmt =? 0x73) then
      if (length b <? 4)%nat then mkSense false 0 0 0
      else mkSense false (Z.land (byte_at b 1) 0x0f) (byte_at b 2) (byte_at b 3)
    else
      if (length b <? 14)%nat then mkSense false (Z.land (byte_at b 2) 0x0f) 0 0
      else mkSense false (Z.land (byte_at b 2) 0x0f) (byte_at b 12) (byte_at b 13).

Definition ascNotReady : Z := 0x04.
Definition ascIncompatibleMedia : Z := 0x30.
Definition ascMediumNotPresent : Z := 0x3a.

Definition statusFromSense (r : senseResult) : Status :=
  if good r then StatusDiscOK
  else if asc r =? ascMediumNotPresent then
    if ascq r =? 0x02 then StatusTrayOpen else StatusNoDisc
  else if asc r =? ascIncompatibleMedia then StatusIncompatible
  else if asc r =? ascNotReady then StatusNotReady
  else if senseKey r =? 0x02 then StatusNotReady
  else StatusUnknown.

(** ** Profiles (profile.go) *)

Inductive DiscKind := DiscNone | DiscCD | DiscDVD | DiscBluRay | DiscUnknown.
#[global] Instance DiscKind_eq_dec : EqDecision DiscKind.
Proof. solve_decision. Defined.

Definition profiles : gmap Z DiscKind :=
  list_to_map [
    (0x0000, DiscNone);
    (0x0008, DiscCD); (0x0009, DiscCD); (0x000A, DiscCD);
    (0x0010, DiscDVD); (0x0011, DiscDVD); (0x0012, DiscDVD); (0x0013, DiscDVD);
    (0x0014, DiscDVD); (0x0015, DiscDVD); (0x0016, DiscDVD); (0x0017, DiscDVD);
    (0x001A, DiscDVD); (0x001B, DiscDVD); (0x002A, DiscDVD); (0x002B, DiscDVD);
    (0x0040, DiscBluRay); (0x0041, DiscBluRay); (0x0042, DiscBluRay);
    (0x0043, DiscBluRay); (0x0050, DiscBluRay)].

Definition kindFromConfig (b : list Z) : outcome string (DiscKind * Z) :=
  if (length b <? 8)%nat then Err "short GET CONFIGURATION response"
  else
    let p := Z.lor (Z.shiftl (byte_at b 6) 8) (byte_at b 7) in
    match profiles !! p with
    | Some k => Ok (k, p)
    | None => Ok (DiscUnknown, p)
    end.

(** ** Region state (region.go) *)

Definition RPC1 : Z := 0.
Definition RPC2 : Z := 1.

Record Region := mkRegion {
  Scheme : Z;
  TypeCode : Z;
  Mask : Z;
  UserChanges : Z;
  VendorResets : Z;
}.

Definition IsSet (r : Region) : bool := negb (TypeCode r =? 0) && negb (Mask r =? 0xff).

(** The regions whose bit is clear in a mask, numbered from 1. *)
Definition clear_bits (mask : Z) : list Z :=
  filter (λ n, Z.land mask (Z.shiftl 1 (n - 1)) = 0) (seqZ 1 8).

Definition region_Regions (r : Region) : list Z :=
  if IsSet r then clear_bits (Mask r) else [].

Definition CanDecryptCSS (r : Region) : bool := negb (Scheme r =? RPC2) || IsSet r.

Definition parseRPCState (b : list Z) : Region :=
  if (length b <? 7)%nat then mkRegion 0 0 0 0 0
  else {|
    TypeCode := Z.land (Z.shiftr (byte_at b 4) 6) 0x03;
    VendorResets := Z.land (Z.shiftr (byte_at b 4) 3) 0x07;
    UserChanges := Z.land (byte_at b 4) 0x07;
    Mask := byte_at b 5;
    Scheme := byte_at b 6;
  |}.

(** fmt's [%v] of an []int. *)
Definition show_ints (l : list Z) : string := "[" +:+ join " " (map itoa l) +:+ "]".

Definition region_String (r : Region) : string :=
  let scheme := if Scheme r =? RPC2 then "RPC-2" else "RPC-1" in
  if negb (IsSet r) then
    scheme +:+ ", no region set (" +:+ itoa (UserChanges r) +:+ " changes available)"
  else
    scheme +:+ ", region " +:+ show_ints (region_Regions r) +:+
    " (" +:+ itoa (UserChanges r) +:+ " changes left)".

(** ** Copy protection (protection.go) *)

Record Protection := mkProtection { System : Z; RegionMask : Z }.

Definition Protected (p : Protection) : bool := negb (System p =? 0).
Definition RegionFree (p : Protection) : bool := RegionMask p =? 0.
Definition protection_Regions (p : Protection) : list Z := clear_bits (RegionMask p).

Definition PlayableIn (p : Protection) (r : Region) : bool :=
  if negb (Protected p) then true
  else if negb (CanDecryptCSS r) then false
  else if RegionFree p || negb (Scheme r =? RPC2) then true
  else negb (Z.ldiff (Z.lxor 0xff (RegionMask p)) (Mask r) =? 0).

Definition protection_String (p : Protection) : string :=
  if negb (Protected p) then "unprotected"
  else
    let system :=
      if System p =? 2 then "CPRM"
      else if System p =? 1 then "CSS"
      else "protection type " +:+ itoa (System p) in
    if RegionFree p then system +:+ ", all regions"
    else system +:+ ", region " +:+ show_ints (protection_Regions p).

Definition parseCopyright (b : list Z) : Protection :=
  if (length b <? 6)%nat then mkProtection 0 0
  else mkProtection (byte_at b 4) (byte_at b 5).

(** ** The commands (scsi_linux.go, profile_linux.go, region_linux.go,
    protection_linux.go, ioctl_linux.go) *)

(** What the kernel wrote back into [sgIOHdr] and its buffers. *)
Record sgReply := mkReply {
  errno : Z;
  hdr_status : Z;
  hostStatus : Z;
  driverStatus : Z;
  sbLenWr : nat;
  sense_buf : list Z;
  data_buf : list Z;
}.

(** The kernel's side of one drive: whether it opens, its SG_IO answers to a
    command block, and its CDROM ioctls. *)
Record Device := mkDevice {
  dev_opens : bool;
  sg_io : list Z → sgReply;
  drive_status_errno : Z;
  drive_status : Z;
  cdrom_eject_errno : Z;
  cdrom_close_errno : Z;
}.

Definition testUnitReady (d : Device) : outcome string senseResult :=
  if negb (dev_opens d) then Err "open"
  else
    let hdr := sg_io d [0; 0; 0; 0; 0; 0] in
    if negb (errno hdr =? 0) then Err "SG_IO"
    else if (hdr_status hdr =? 0) && (hostStatus hdr =? 0)
            && (Z.land (driverStatus hdr) 0x0f =? 0) then Ok (mkSense true 0 0 0)
    else if (sbLenWr hdr <? 14)%nat then Err "no sense data"
    else Ok (parseSense (take (sbLenWr hdr) (sense_buf hdr))).

Definition queryStatusIoctl (d : Device) : outcome string Status :=
  if negb (dev_opens d) then Err "open"
  else if negb (drive_status_errno d =? 0) then Err "CDROM_DRIVE_STATUS"
  else Ok (if drive_status d =? 1 then StatusNoDisc
           else if drive_status d =? 2 then StatusTrayOpen
           else if drive_status d =? 3 then StatusNotReady
           else if drive_status d =? 4 then StatusDiscOK
           else StatusUnknown).

Definition queryStatus (d : Device) : outcome string Status :=
  match testUnitReady d with
  | Ok r => Ok (statusFromSense r)
  | Err _ => queryStatusIoctl d
  end.

Definition ReadDiscKind (d : Device) : outcome string (DiscKind * Z) :=
  if negb (dev_opens d) then Err "open"
  else
    let hdr := sg_io d [0x46; 0x01; 0; 0; 0; 0; 0; 0; 8; 0] in
    if negb (errno hdr =? 0) then Err "GET CONFIGURATION"
    else if negb (hdr_status hdr =? 0) then Err "GET CONFIGURATION: scsi status"
    else kindFromConfig (data_buf hdr).

Definition ReadRegion (d : Device) : outcome string Region :=
  if negb (dev_opens d) then Err "open"
  else
    let hdr := sg_io d [0xa4; 0; 0; 0; 0; 0; 0; 0; 0; 8; 0x08; 0] in
    if negb (errno hdr =? 0) then Err "REPORT KEY"
    else if negb (hdr_status hdr =? 0) then Err "REPORT KEY: scsi status"
    else Ok (parseRPCState (data_buf hdr)).

Definition ReadProtection (d : Device) : outcome string Protection :=
  if negb (dev_opens d) then Err "open"
  else
    let hdr := sg_io d [0xad; 0; 0; 0; 0; 0; 0; 0x01; 0; 8; 0; 0] in
    if negb (errno hdr =? 0) then Err "READ DISC STRUCTURE"
    else if negb (hdr_status hdr =? 0) then Err "READ DISC STRUCTURE: scsi status"
    else Ok (parseCopyright (data_buf hdr)).

Definition eject (d : Device) : outcome string unit :=
  if negb (dev_opens d) then Err "open"
  else if negb (cdrom_eject_errno d =? 0) then Err "CDROMEJECT" else Ok ().

Definition closeTray (d : Device) : outcome string unit :=
  if negb (dev_opens d) then Err "open"
  else if negb (cdrom_close_errno d =? 0) then Err "CDROMCLOSETRAY" else Ok ().

(** ** Lemmas *)

Lemma statusFromSense_disc_ok r : statusFromSense r = StatusDiscOK ↔ good r = true.
Proof. unfold statusFromSense. split; intros; go_cases. Qed.

Lemma queryStatusIoctl_disc_ok d :
  queryStatusIoctl d = Ok StatusDiscOK ↔
    dev_opens d = true ∧ drive_status_errno d = 0 ∧ drive_status d = 4.
Proof.
  unfold queryStatusIoctl. split.
  - intros H. go_cases; breflect; done.
  - intros (-> & -> & ->). reflexivity.
Qed.

Lemma parseSense_not_good b : good (parseSense b) = false.
Proof. unfold parseSense. by go_cases. Qed.

(** A byte mask has a clear bit exactly where [clear_bits] lists a region. *)
Lemma land_shiftl1_testbit m n :
  0 ≤ n → Z.land m (Z.shiftl 1 n) = 0 ↔ Z.testbit m n = false.
Proof.
  intros Hn. rewrite Z.shiftl_1_l. split.
  - intros H. pose proof (f_equal (λ z, Z.testbit z n) H) as Hb; simpl in Hb.
    rewrite Z.land_spec, Z.pow2_bits_true, andb_true_r, Z.bits_0 in Hb by done. done.
  - intros H. apply Z.bits_inj'. intros k Hk.
    rewrite Z.land_spec, Z.bits_0, Z.pow2_bits_eqb by done.
    destruct (Z.eqb_spec n k); subst; [by rewrite H | by rewrite andb_false_r].
Qed.

Lemma elem_of_clear_bits mask n :
  n ∈ clear_bits mask ↔ 1 ≤ n ≤ 8 ∧ Z.testbit mask (n - 1) = false.
Proof.
  unfold clear_bits. rewrite list_elem_of_filter, elem_of_seqZ.
  split; intros [? ?]; (split; [lia || (apply land_shiftl1_testbit; (done || lia))|]);
    [apply land_shiftl1_testbit; (done || lia) | lia].
Qed.

Lemma testbit_255 n : 0 ≤ n → Z.testbit 255 n = (n <? 8).
Proof.
  intros. change 255 with (Z.ones 8).
  destruct (Z.ltb_spec n 8); [apply Z.ones_spec_low | apply Z.ones_spec_high]; lia.
Qed.

Lemma byte_testbit_high m n : 0 ≤ m < 256 → 8 ≤ n → Z.testbit m n = false.
Proof.
  intros Hm Hn. destruct (decide (m = 0)) as [->|]; [by rewrite Z.bits_0|].
  apply Z.bits_above_log2; [lia|].
  apply Z.lt_le_trans with 8; [apply Z.log2_lt_pow2; simpl; lia | done].
Qed.

(** Two region masks leave a common region playable exactly when the bit
    arithmetic of [PlayableIn] is non-zero. *)
Lemma common_region_bits p r :
  0 ≤ p < 256 →
  Z.ldiff (Z.lxor 0xff p) r ≠ 0 ↔ ∃ n, n ∈ clear_bits p ∧ n ∈ clear_bits r.
Proof.
  intros Hp. setoid_rewrite elem_of_clear_bits. split.
  - intros H.
    assert (∃ k, 0 ≤ k < 8 ∧ Z.testbit (Z.ldiff (Z.lxor 255 p) r) k = true) as (k & Hk & Hb).
    { destruct (decide (Exists (λ k, Z.testbit (Z.ldiff (Z.lxor 255 p) r) k = true) (seqZ 0 8)))
        as [(k & Hk%elem_of_seqZ & Hb)%Exists_exists|Hno]; [exists k; split; [lia|done]|].
      exfalso. apply H, Z.bits_inj'. intros k Hk. rewrite Z.bits_0.
      destruct (Z.testbit _ k) eqn:E; [|done]. exfalso. apply Hno, Exists_exists. exists k.
      split; [|done]. apply elem_of_seqZ. destruct (decide (k < 8)); [lia|].
      rewrite Z.ldiff_spec, Z.lxor_spec, testbit_255, (byte_testbit_high p) in E by lia.
      destruct (Z.ltb_spec k 8); [lia|done]. }
    rewrite Z.ldiff_spec, Z.lxor_spec, testbit_255 in Hb by lia.
    destruct (Z.ltb_spec k 8); [|lia].
    apply andb_true_iff in Hb as [H1 H2%negb_true_iff].
    exists (k + 1). replace (k + 1 - 1) with k by lia.
    destruct (Z.testbit p k); simpl in *; [done|]. repeat split; (lia || done).
  - intros (n & [Hn Hp0] & [_ Hr0]) H.
    apply (f_equal (λ z, Z.testbit z (n - 1))) in H.
    rewrite Z.ldiff_spec, Z.lxor_spec, testbit_255, Hp0, Hr0, Z.bits_0 in H by lia.
    destruct (Z.ltb_spec (n - 1) 8); [done|lia].
Qed.

(** The eight bytes REPORT KEY returns for a region state. *)
Definition rpc_bytes (r : Region) : list Z :=
  [0; 6; 0; 0;
   Z.lor (Z.shiftl (TypeCode r) 6) (Z.lor (Z.shiftl (VendorResets r) 3) (UserChanges r));
   Mask r; Scheme r; 0].
Definition region_wf (r : Region) : bool :=
  (0 <=? TypeCode r) && (TypeCode r <? 4) && (0 <=? VendorResets r) && (VendorResets r <? 8)
  && (0 <=? UserChanges r) && (UserChanges r <? 8).

(** The sense block of a check condition in the two formats SPC defines. *)
Definition fixed_sense (key c q : Z) : list Z :=
  [0x70; 0; key; 0; 0; 0; 0; 10; 0; 0; 0; 0; c; q; 0; 0; 0; 0].
Definition descriptor_sense (key c q : Z) : list Z := [0x72; key; c; q; 0; 0; 0; 0].

(** ** Theorems *)

(** a drive is reported as holding a readable disc exactly when it opens
    and TEST UNIT READY came back GOOD, or, only where SG_IO gave no usable
    answer at all, when the kernel's CDROM_DRIVE_STATUS says disc-ok.  Sense
    data never yields a disc, so the ioctl that misreports an empty tray
    cannot override a drive that answered. *)
Theorem queryStatus_disc_ok d :
  queryStatus d = Ok StatusDiscOK ↔
    dev_opens d = true ∧
    let h := sg_io d [0; 0; 0; 0; 0; 0] in
    if errno h =? 0 then
      (hdr_status h = 0 ∧ hostStatus h = 0 ∧ Z.land (driverStatus h) 0x0f = 0) ∨
      ((sbLenWr h < 14)%nat ∧ drive_status_errno d = 0 ∧ drive_status d = 4)
    else drive_status_errno d = 0 ∧ drive_status d = 4.
Proof.
  cbv zeta. unfold queryStatus, testUnitReady.
  destruct (dev_opens d) eqn:Ho; simpl.
  2:{ rewrite queryStatusIoctl_disc_ok, Ho. split; by intros []. }
  set (h := sg_io d _). destruct (Z.eqb_spec (errno h) 0); simpl.
  2:{ by rewrite queryStatusIoctl_disc_ok, Ho. }
  destruct (_ && _) eqn:Hg.
  - breflect. split; [intros _; split; [done|]; left; tauto | done].
  - assert (¬ (hdr_status h = 0 ∧ hostStatus h = 0 ∧ Z.land (driverStatus h) 15 = 0)).
    { intros (E1 & E2 & E3). rewrite E1, E2, E3 in Hg. done. }
    destruct (Nat.ltb_spec (sbLenWr h) 14).
    + rewrite queryStatusIoctl_disc_ok, Ho. tauto.
    + split; [|intros [_ [?|[? _]]]; [tauto|lia]].
      intros [= Hs]. apply statusFromSense_disc_ok in Hs. by rewrite parseSense_not_good in Hs.
Qed.

(** whether a drive can play a disc.  A protected disc is playable
    exactly when the drive can authenticate at all and the disc is
    region-free, the drive does not enforce regions, or some region is allowed
    by both the disc's and the drive's mask, read as the lists [Regions]
    returns. *)
Theorem PlayableIn_common_region p r :
  0 ≤ RegionMask p < 256 →
  PlayableIn p r = true ↔
    Protected p = false ∨
    (CanDecryptCSS r = true ∧
     (RegionFree p = true ∨ Scheme r ≠ RPC2 ∨
      ∃ n, n ∈ protection_Regions p ∧ n ∈ region_Regions r)).
Proof.
  intros Hm. unfold PlayableIn, protection_Regions, region_Regions.
  destruct (Protected p); simpl; [|naive_solver].
  destruct (CanDecryptCSS r) eqn:Hc; simpl; [|naive_solver].
  destruct (RegionFree p); simpl; [naive_solver|].
  unfold CanDecryptCSS in Hc.
  destruct (Z.eqb_spec (Scheme r) RPC2); simpl in *; [|naive_solver].
  rewrite Hc, negb_true_iff, Z.eqb_neq, common_region_bits by done. naive_solver.
Qed.

Lemma PlayableIn_common_region_witness :
  PlayableIn (mkProtection 1 0xfe) (mkRegion 1 1 0xfe 4 4) = true ∧
  PlayableIn (mkProtection 1 0xfe) (mkRegion 1 1 0xfd 4 4) = false.
Proof.
  split; [|reflexivity].
  apply PlayableIn_common_region; [simpl; lia|].
  right. split; [reflexivity|]. right. right. exists 1. split; vm_compute; by left.
Defined.

(** the packed RPC state survives the trip through REPORT KEY: decoding
    the bytes of a well-formed region state gives the state back. *)
Theorem parseRPCState_roundtrip r : region_wf r = true → parseRPCState (rpc_bytes r) = r.
Proof.
  destruct r as [sch tc mask uc vr]. unfold region_wf, rpc_bytes, parseRPCState; simpl.
  intros H. breflect. unfold byte_at; simpl.
  assert (tc = 0 ∨ tc = 1 ∨ tc = 2 ∨ tc = 3) as Ht by lia.
  assert (uc = 0 ∨ uc = 1 ∨ uc = 2 ∨ uc = 3 ∨ uc = 4 ∨ uc = 5 ∨ uc = 6 ∨ uc = 7) as Hu by lia.
  assert (vr = 0 ∨ vr = 1 ∨ vr = 2 ∨ vr = 3 ∨ vr = 4 ∨ vr = 5 ∨ vr = 6 ∨ vr = 7) as Hv by lia.
  destruct Ht as [->|[->|[->| ->]]], Hu as [->|[->|[->|[->|[->|[->|[->| ->]]]]]]],
    Hv as [->|[->|[->|[->|[->|[->|[->| ->]]]]]]]; reflexivity.
Qed.

Lemma parseRPCState_roundtrip_witness :
  parseRPCState (rpc_bytes (mkRegion 1 2 0xfd 3 4)) = mkRegion 1 2 0xfd 3 4.
Proof. apply parseRPCState_roundtrip. reflexivity. Defined.
