(* ===== verification/Monitor.v ===== *)
(** * Polling a drive (internal/drive/monitor.go)

    The body of the polling goroutine as a step function on its four local
    variables; a run folds it over the timed readings of the ticker.  Times
    are nanoseconds on the clock [time.Now] reads. *)

From S2P Require Import Prelude Drive.

Record Event := mkEvent {
  ev_From : Status;
  ev_To : Status;
  ev_At : Z;
  ev_Err : option string;
}.

Record MonState := mkMon {
  current : Status;
  pending : Status;
  pendingAt : Z;
  started : bool;
}.

Record Monitor := mkMonitor { interval : Z; settle : Z }.

Definition second : Z := 1000000000.
Definition NewMonitor (iv : Z) : Monitor :=
  mkMonitor (if iv <=? 0 then 2 * second else iv) (3 * second).

(** One reading of the drive, at a time. *)
Definition reading : Type := Z * outcome string Status.

Definition mon_init : MonState := mkMon StatusUnknown StatusUnknown 0 false.

Definition transient (s : Status) : bool :=
  bool_decide (s = StatusNotReady) || bool_decide (s = StatusUnknown).

(** One turn of the loop: the reading taken, the state left, the event sent. *)
Definition poll (m : Monitor) (rd : reading) (st : MonState) : MonState * option Event :=
  let '(now, r) := rd in
  match r with
  | Err err =>
      if negb (bool_decide (current st = StatusUnknown)) || negb (started st) then
        (mkMon StatusUnknown StatusUnknown (pendingAt st) true,
         Some (mkEvent (current st) StatusUnknown now (Some err)))
      else (mkMon (current st) StatusUnknown (pendingAt st) (started st), None)
  | Ok status =>
      if negb (started st) then
        (mkMon status status (pendingAt st) true,
         Some (mkEvent StatusUnknown status now None))
      else if decide (status = current st) then
        (mkMon (current st) status (pendingAt st) true, None)
      else if transient status && negb (bool_decide (pending st = status)) then
        (mkMon (current st) status now true, None)
      else if transient status && (now - pendingAt st <? settle m) then (st, None)
      else
        (mkMon status status (pendingAt st) true,
         Some (mkEvent (current st) status now None))
  end.

Fixpoint run (m : Monitor) (rds : list reading) (st : MonState) : MonState * list Event :=
  match rds with
  | [] => (st, [])
  | rd :: rds' =>
      let '(st1, ev) := poll m rd st in
      let '(st2, evs) := run m rds' st1 in
      (st2, option_list ev ++ evs)
  end.

(** ** Lemmas *)

Lemma run_app m r1 r2 st :
  run m (r1 ++ r2) st =
    let '(st1, e1) := run m r1 st in
    let '(st2, e2) := run m r2 st1 in (st2, e1 ++ e2).
Proof.
  revert st; induction r1 as [|rd r1 IH]; intros st; simpl.
  - by destruct (run m r2 st).
  - destruct (poll m rd st) as [st1 ev]. rewrite IH.
    destruct (run m r1 st1) as [st2 e1], (run m r2 st2) as [st3 e2].
    by rewrite (assoc (++)).
Qed.

(** Each event starts where the previous one ended. *)
Fixpoint chained (cur : Status) (evs : list Event) : Prop :=
  match evs with
  | [] => True
  | e :: evs' => ev_From e = cur ∧ chained (ev_To e) evs'
  end.

Lemma poll_started m rd st : started (poll m rd st).1 = true.
Proof.
  unfold poll. destruct rd as [now [s|e]]; go_cases; breflect; try done.
  all: by destruct (started st).
Qed.

Lemma poll_event m rd st st' ev :
  poll m rd st = (st', ev) →
  (started st = false → current st = StatusUnknown) →
  match ev with
  | Some e => ev_From e = current st ∧ ev_To e = current st' ∧
              (started st = true → ev_From e ≠ ev_To e)
  | None => current st' = current st
  end.
Proof.
  intros Hp Hi. unfold poll in Hp.
  destruct rd as [now [s|err]]; go_cases; breflect; try done.
  all: repeat match goal with
    | H : started _ = _ |- _ => rewrite H in *; clear H
    | H : _ || _ = true |- _ => apply orb_true_iff in H as [?|?]
    end; try (repeat split; try done; intuition congruence).
Qed.

Lemma run_chained m rds st st' evs :
  run m rds st = (st', evs) →
  (started st = false → current st = StatusUnknown) →
  chained (current st) evs ∧
  (match last evs with Some e => ev_To e | None => current st end) = current st' ∧
  Forall (λ e, ev_From e ≠ ev_To e) (if started st then evs else tail evs).
Proof.
  revert st st' evs; induction rds as [|rd rds IH]; intros st st' evs; simpl.
  { intros [= <- <-] _. split_and!; try done. by destruct (started st). }
  destruct (poll m rd st) as [st1 ev] eqn:Hp. intros Hr Hi.
  destruct (run m rds st1) as [st2 evs2] eqn:Hr2. injection Hr as <- <-.
  pose proof (poll_event _ _ _ _ _ Hp Hi) as Hev.
  assert (Hs1 : started st1 = true) by (pose proof (poll_started m rd st) as H; by rewrite Hp in H).
  destruct (IH _ _ _ Hr2 ltac:(by rewrite Hs1)) as (Hc & Hl & Hf). rewrite Hs1 in Hf.
  destruct ev as [e|]; simpl.
  - destruct Hev as (Hfrom & Hto & Hne). rewrite <- Hto in Hc, Hl. split; [by split|]. split.
    + rewrite last_cons. by destruct (last evs2).
    + destruct (started st); [|done]. constructor; [auto|done].
  - rewrite Hev in Hc, Hl. split_and!; try done.
    destruct (started st); [done|]. destruct evs2; [done|]. by inversion Hf.
Qed.

(** The settling window: while a transient state is pending but not yet
    believed, every reading since [pendingAt] has been that state. *)
Definition window (m : Monitor) (rds : list reading) (st : MonState) : Prop :=
  started st = true →
  pending st ≠ current st →
  transient (pending st) = true →
  ∃ pre w, rds = pre ++ w ∧ w ≠ [] ∧
    Forall (λ rd, rd.2 = Ok (pending st)) w ∧ (fst <$> head w) = Some (pendingAt st).

Lemma poll_window m rds rd st :
  window m rds st → window m (rds ++ [rd]) (poll m rd st).1.
Proof.
  intros Hw. unfold window, poll in *. destruct rd as [now [s|err]].
  2:{ destruct (negb _ || negb _) eqn:E; simpl; [done|].
      apply orb_false_iff in E as [E%negb_false_iff%bool_decide_eq_true _]. intros; congruence. }
  destruct (started st) eqn:Hs; simpl; [|done].
  case_decide; simpl; [intros _ Hne; congruence|].
  destruct (transient s) eqn:Ht; simpl; [|intros _ Hne; congruence].
  destruct (bool_decide_reflect (pending st = s)) as [Heq|Hne]; simpl.
  - destruct (now - pendingAt st <? settle m); simpl; [|intros _ Hne; congruence].
    intros _ Hne Htr. destruct (Hw eq_refl Hne Htr) as (pre & w & -> & Hnil & Hall & Hhd).
    exists pre, (w ++ [(now, Ok s)]). split_and!.
    + by rewrite (assoc (++)).
    + by destruct w.
    + apply Forall_app. split; [done|]. constructor; [simpl; by f_equal|constructor].
    + by destruct w.
  - intros _ _ _. exists rds, [(now, Ok s)]. split_and!; try done.
    constructor; [done|constructor].
Qed.

Lemma run_window m rds : window m rds (run m rds mon_init).1.
Proof.
  induction rds as [|rd rds IH] using rev_ind; [done|].
  rewrite run_app. destruct (run m rds mon_init) as [st evs] eqn:E. simpl.
  pose proof (poll_window m rds rd st IH) as Hp. destruct (poll m rd st). done.
Qed.

(** ** Theorems *)

(** the event stream a worker sees.  Whatever the drive answers, each
    event begins in the state the previous one ended in, the first begins in
    Unknown, every later event is a real change, and the last event's target
    is the state the monitor believes. *)
Theorem monitor_events_chain m rds :
  let '(st, evs) := run m rds mon_init in
  chained StatusUnknown evs ∧
  from_option ev_To StatusUnknown (last evs) = current st ∧
  Forall (λ e, ev_From e ≠ ev_To e) (tail evs).
Proof.
  destruct (run m rds mon_init) as [st evs] eqn:E.
  destruct (run_chained _ _ _ _ _ E) as (H1 & H2 & H3); [done|].
  split_and!; [done| |done]. by destruct (last evs).
Qed.

(** transient states are believed only once they settle.  If a reading
    after the first one makes the monitor report NotReady or Unknown without
    an error, then the readings ending in this one include a run of nothing
    but that state that began at least the settle time ago. *)
Theorem monitor_settles m rds now s st evs e :
  run m rds mon_init = (st, evs) →
  started st = true →
  transient s = true →
  (poll m (now, Ok s) st).2 = Some e →
  ∃ pre w t0, rds = pre ++ w ∧ (fst <$> head w) = Some t0 ∧
    Forall (λ rd, rd.2 = Ok s) w ∧ settle m ≤ now - t0.
Proof.
  intros Hr Hs Ht He. pose proof (run_window m rds) as Hw. rewrite Hr in Hw; simpl in Hw.
  unfold poll in He. rewrite Hs, Ht in He; simpl in He.
  case_decide; [done|].
  destruct (bool_decide_reflect (pending st = s)) as [Heq|]; [|done]. simpl in He.
  destruct (Z.ltb_spec (now - pendingAt st) (settle m)); [done|].
  destruct (Hw Hs ltac:(congruence) ltac:(congruence)) as (pre & w & -> & Hnil & Hall & Hhd).
  exists pre, w, (pendingAt st). split_and!; try done. by rewrite Heq in Hall.
Qed.

Lemma monitor_settles_witness :
  let m := NewMonitor 0 in
  let rds := [(0, Ok StatusDiscOK); (2 * second, Ok StatusNotReady); (4 * second, Ok StatusNotReady)] in
  ∃ pre w t0, rds = pre ++ w ∧ (fst <$> head w) = Some t0 ∧
    Forall (λ rd : reading, rd.2 = Ok StatusNotReady) w ∧ settle m ≤ 6 * second - t0.
Proof.
  eapply monitor_settles; [vm_compute; reflexivity | reflexivity | reflexivity |].
  vm_compute. reflexivity.
Defined.

(** settled readings are believed at once.  After any history, a reading
    of tray-open, no-disc, disc-ok or incompatible leaves the monitor
    believing exactly that, and a drive that cannot be read leaves it
    believing Unknown. *)
Theorem monitor_tracks_settled m st now :
  (started st = false → current st = StatusUnknown) →
  (∀ s, transient s = false → current (poll m (now, Ok s) st).1 = s) ∧
  (∀ err, current (poll m (now, Err err) st).1 = StatusUnknown).
Proof.
  intros Hi. split.
  - intros s Ht. unfold poll. rewrite Ht. simpl. by go_cases.
  - intros err. unfold poll. destruct (negb _ || negb _) eqn:E; [done|].
    apply orb_false_iff in E as [E%negb_false_iff%bool_decide_eq_true _]. done.
Qed.

Lemma monitor_tracks_settled_witness :
  current (poll (NewMonitor 0) (5, Ok StatusTrayOpen) mon_init).1 = StatusTrayOpen.
Proof. apply monitor_tracks_settled; [intros _; reflexivity | reflexivity]. Defined.
