(* ===== verification/Discover.v ===== *)
(** * Finding the drives (internal/drive/drive.go)

    What sysfs and /dev/disk say is the record [Machine]: directory listings,
    link targets and the identity strings of each device.  [Discover] names
    each drive by something stable.

    [Discover_spec]: every sr device is listed once, in the order of the stable
    ids.  [preferredID_spec]: a readable id is chosen when there is one.
    [twins_share_an_id] is a limit: drives without links that report the same
    model get the same id. *)

From S2P Require Import Prelude GoText GoPath Regex Drive.

Record DriveInfo := mkDriveInfo { di_StableID : string; di_DevicePath : string; di_Vendor : string; di_Model : string }.

(** Links of a directory with the base name of what each resolves to; [None]
    where EvalSymlinks fails. *)
Notation links := (list (string * option string)).
Record Machine := mkMachine {
  sys_block : outcome string (list string);
  by_id : outcome string links;
  by_path : outcome string links;
  sys_attr : string → string → option string;
}.

(** sort.Strings *)
Definition str_le (a b : string) : Prop := String.leb a b = true.
#[global] Instance str_le_dec : RelDecision str_le.
Proof. intros a b. unfold str_le. apply _. Defined.
Definition sort_strings : list string → list string := merge_sort str_le.

(** ^sr[0-9]+$ *)
Definition srPattern : regex := Seq BeginText (Seq (lit "sr") (Seq (Plus (Cls r_digit)) EndText)).
Definition is_sr (name : string) : bool := MatchString srPattern name.

Definition opticalDeviceNames (m : Machine) : outcome string (list string) :=
  match sys_block m with
  | Err e => Err ("read /sys/block: " +:+ e)
  | Ok names => Ok (sort_strings (filter (λ n, is_sr n = true) names))
  end.

(** The links that resolve to the device [dev]. *)
Definition links_to (dev : string) (l : links) : list string :=
  (λ x, x.1) <$> filter (λ x, x.2 = Some dev) l.
(** preferredID, of a non-empty list. *)
Definition preferredID (ids : list string) : string :=
  let sorted := sort_strings ids in
  match filter (λ i, has_prefix i "wwn-" = false) sorted with
  | i :: _ => i
  | [] => hd "" sorted
  end.
(** stableIDsByDevice, looked up at a device. *)
Definition stableID_of (m : Machine) (dev : string) : option string :=
  match by_id m with
  | Err _ => None
  | Ok l => if is_sr dev then match links_to dev l with [] => None | ids => Some (preferredID ids) end else None
  end.

Section discover.
Context {U : Unicode}.

Definition deviceIdentity (m : Machine) (name : string) : string * string :=
  let read attr := match sys_attr m name attr with Some s => TrimSpace s | None => "" end in
  (read "vendor", read "model").

(** strings.ReplaceAll(s, " ", "_") *)
Definition underscores (s : string) : string := str_map (λ c, if byte_eqb " "%char c then "_"%char else c) s.

Definition syntheticStableID (m : Machine) (name vendor model : string) : string :=
  let paths := match by_path m with Ok l => links_to name l | Err _ => [] end in
  match sort_strings paths with
  | p :: _ => "path-" +:+ p
  | [] =>
      let ident := TrimSpace (vendor +:+ "_" +:+ model) in
      if bool_decide (ident = "_") || bool_decide (ident = "") then "dev-" +:+ name
      else "hw-" +:+ underscores ident
  end.

Definition drive_of (m : Machine) (name : string) : DriveInfo :=
  let '(vendor, model) := deviceIdentity m name in
  let id := match stableID_of m name with Some id => id | None => syntheticStableID m name vendor model end in
  mkDriveInfo id (Join ["/dev"; name]) vendor model.

Definition by_stable_id (a b : DriveInfo) : Prop := String.leb (di_StableID a) (di_StableID b) = true.
#[global] Instance by_stable_id_dec : RelDecision by_stable_id.
Proof. intros a b. unfold by_stable_id. apply _. Defined.

Definition Discover (m : Machine) : outcome string (list DriveInfo) :=
  names <-? opticalDeviceNames m ;;
  Ok (merge_sort by_stable_id (drive_of m <$> names)).

Definition drive_Describe (d : DriveInfo) : string :=
  let name := TrimSpace (di_Vendor d +:+ " " +:+ di_Model d) in
  (if bool_decide (name = "") then di_StableID d else name) +:+ " (" +:+ di_DevicePath d +:+ ")".

(** strings.ToUpper on the ASCII bytes: no rune outside ASCII has one of the
    letters looked for as its upper case. *)
Definition upper_ascii (s : string) : string := str_map upper_byte s.
Definition ReadsBluRay (d : DriveInfo) : bool :=
  existsb (contains (upper_ascii (di_Vendor d +:+ " " +:+ di_Model d)))
    ["BD-RE"; "BD-R"; "BD-ROM"; "BDRE"; "BLU-RAY"; "BLURAY"; "UHD"].

(** VolumeLabel (label.go): [out] is what blkid printed, or its error. *)
Definition isPrintable (s : string) : bool :=
  str_forall (λ c, negb ((byte_val c <? 32) || (byte_val c =? 127))) s.
Definition VolumeLabel (path : string) (out : outcome string string) : outcome string string :=
  match out with
  | Err _ => Ok ""
  | Ok out =>
      let label := TrimSpace out in
      if bool_decide (label = "") then Ok ""
      else if negb (isPrintable label) then Err ("unreadable volume label on " +:+ path) else Ok label
  end.
End discover.

(** ** Names *)

#[global] Instance by_stable_id_total : Total by_stable_id.
Proof. intros a b. apply String.leb_total. Qed.

Lemma is_sr_iff name : is_sr name = true ↔ ∃ u, name = "sr" +:+ u ∧ u ≠ "" ∧ str_forall is_digit_byte u = true.
Proof.
  assert (ascii_class r_digit) as Hcl by (intros r; unfold r_digit, rune_in; intros; breflect; lia).
  unfold is_sr. rewrite MatchString_iff. split.
  - intros (p & q & Ha & Hm). unfold srPattern in Hm.
    inversion Hm as [| |? ? ? q1 ? Hb Hm1| | | | |]; simplify_eq.
    inversion Hb as [|? ? _ Hh| | | | | | ]; simplify_eq. cbn [holds_here] in Hh.
    apply bool_decide_eq_true in Hh.
    assert (q1 = start name) as ->.
    { destruct Ha as [|p0 x p' q' Hn Ha]; [done|]. exfalso. clear Hm Hm1 Hb.
      assert (∀ p q, ahead p q → prev p ≠ None → prev q ≠ None) as Hprev.
      { induction 1 as [|p1 y p1' q1' Hn1 _ IH]; [done|]. intros _. apply IH.
        destruct (next_prev _ _ _ Hn1) as [c Hc]. by rewrite Hc. }
      destruct (next_prev _ _ _ Hn) as [c Hc]. eapply Hprev; [done| |done]. by rewrite Hc. }
    inversion Hm1 as [| |? ? ? q2 ? Hs Hm2| | | | |]; simplify_eq.
    apply (matches_lit "sr") in Hs; [|done].
    inversion Hm2 as [| |? ? ? q3 ? Hd He| | | | |]; simplify_eq.
    inversion He as [|? ? _ Hend| | | | | | ]; simplify_eq. cbn [holds_here] in Hend.
    apply bool_decide_eq_true in Hend.
    inversion Hd as [| |? ? ? q4 ? H1 H2| | | | |]; simplify_eq.
    apply matches_cls_covers in H1 as (u1 & Hu1 & Hw1 & Hl1); [|done].
    apply matches_star_covers in H2 as (u2 & Hu2 & Hw2); [|done].
    exists (u1 +:+ u2).
    pose proof (covers_trans _ _ _ _ _ Hs (covers_trans _ _ _ _ _ Hu1 Hu2)) as [Hr _].
    cbn [rest start] in Hr. rewrite Hend, str_app_empty_r in Hr. split; [done|].
    split; [by destruct u1|]. rewrite str_forall_app, !within_digit_byte; done.
  - intros (u & -> & Hne & Hu). exists (start ("sr" +:+ u)), (mkPos (last_of (last_of None "sr") u) "").
    split; [constructor|]. unfold srPattern.
    eapply M_seq; [by apply M_assert|]. eapply M_seq; [apply (matches_lit_self "sr" None u); done|].
    eapply M_seq; [|by apply M_assert]. destruct u as [|a u]; [done|].
    cbn [str_forall] in Hu. apply andb_true_iff in Hu as [Ha Hu].
    assert (is_ascii_byte a = true ∧ r_digit (byte_val a) = true) as [Ha1 Ha2].
    { unfold is_digit_byte, in_range in Ha. breflect. unfold is_ascii_byte, r_digit, rune_in.
      split; [apply Z.ltb_lt; lia|]. apply andb_true_iff. rewrite !Z.leb_le. lia. }
    eapply M_seq; [by apply covers_match_cls|]. rewrite last_of_cons.
    rewrite <- (str_app_empty_r u) at 1. apply matches_star_intro. by apply digits_within.
Qed.

#[global] Instance str_le_total : Total str_le.
Proof. intros a b. apply String.leb_total. Qed.

Section discover_facts.
Context {U : Unicode}.

(** which id names a drive among its links.  It is one of them; a readable
    one whenever there is one, and then the first of those in byte order. *)
Theorem preferredID_spec ids : ids ≠ [] →
  preferredID ids ∈ ids ∧
  (∀ i, i ∈ ids → has_prefix i "wwn-" = false →
     has_prefix (preferredID ids) "wwn-" = false ∧ str_le (preferredID ids) i).
Proof.
  intros Hne. unfold preferredID, sort_strings.
  assert (∀ i, i ∈ merge_sort str_le ids ↔ i ∈ ids) as Hin by (intros; by rewrite merge_sort_Permutation).
  pose proof (Sorted_merge_sort str_le ids) as Hs.
  destruct (filter (λ i, has_prefix i "wwn-" = false) (merge_sort str_le ids)) as [|j l] eqn:E.
  - split.
    + destruct (merge_sort str_le ids) as [|j l] eqn:Em.
      * pose proof (merge_sort_Permutation str_le ids) as Hp. rewrite Em in Hp. by apply Permutation_nil in Hp.
      * apply Hin. by left.
    + intros i Hi Hw. assert (i ∈ filter (λ i, has_prefix i "wwn-" = false) (merge_sort str_le ids)) as H
        by (apply list_elem_of_filter; split; [done|by apply Hin]).
      rewrite E in H. by apply elem_of_nil in H.
  - assert (j ∈ filter (λ i, has_prefix i "wwn-" = false) (merge_sort str_le ids)) as Hj by (rewrite E; by left).
    apply list_elem_of_filter in Hj as [Hj1 Hj2]. split; [by apply Hin|]. intros i Hi Hw. split; [done|].
    assert (i ∈ j :: l) as Hil by (rewrite <- E; apply list_elem_of_filter; split; [done|by apply Hin]).
    assert (Transitive str_le) as Htr.
    { intros a b c. apply leb_trans. }
    apply Sorted_StronglySorted in Hs; [|done].
    assert (StronglySorted str_le (j :: l)) as Hsl.
    { rewrite <- E. clear -Hs. induction Hs as [|x k Hs IH Hall]; [constructor|].
      rewrite filter_cons. case_decide; [|done]. constructor; [done|]. by apply Forall_filter_keep. }
    inversion Hsl as [|? ? _ Hall]; subst. apply elem_of_cons in Hil as [->|Hil].
    + unfold str_le. destruct (String.leb_total j j); done.
    + rewrite Forall_forall in Hall. by apply Hall.
Qed.

(** discovery lists every optical drive once.  The drives found are those of
    the sr devices in sysfs, one each, in the order of their stable ids. *)
Theorem Discover_spec m ds names :
  sys_block m = Ok names → Discover m = Ok ds →
  ds ≡ₚ (drive_of m <$> filter (λ n, is_sr n = true) names) ∧
  Sorted by_stable_id ds ∧
  ∀ d, d ∈ ds → ∃ u, ("sr" +:+ u) ∈ names ∧ u ≠ "" ∧ str_forall is_digit_byte u = true ∧
    di_DevicePath d = Join ["/dev"; "sr" +:+ u].
Proof.
  unfold Discover, opticalDeviceNames. intros ->. cbn [obind]. intros [= <-].
  assert (merge_sort by_stable_id (drive_of m <$> sort_strings (filter (λ n, is_sr n = true) names)) ≡ₚ
    (drive_of m <$> filter (λ n, is_sr n = true) names)) as Hp.
  { rewrite merge_sort_Permutation. apply fmap_Permutation. unfold sort_strings. by rewrite merge_sort_Permutation. }
  split; [done|]. split; [apply (Sorted_merge_sort _)|]. intros d Hd. rewrite Hp in Hd.
  apply list_elem_of_fmap in Hd as (n & -> & [Hn Hin]%list_elem_of_filter).
  apply is_sr_iff in Hn as (u & -> & Hne & Hu). exists u. repeat split; try done.
Qed.

(** Without links a drive's id is its vendor and model. *)
Lemma twins_share_an_id m a b e e' :
  by_id m = Err e → by_path m = Err e' →
  deviceIdentity m a = deviceIdentity m b →
  TrimSpace ((deviceIdentity m a).1 +:+ "_" +:+ (deviceIdentity m a).2) ≠ "_" →
  TrimSpace ((deviceIdentity m a).1 +:+ "_" +:+ (deviceIdentity m a).2) ≠ "" →
  di_StableID (drive_of m a) = di_StableID (drive_of m b).
Proof.
  intros H1 H2 Hab Hn1 Hn2. unfold drive_of. rewrite <- Hab in *. destruct (deviceIdentity m a) as [v mo].
  cbn [fst snd] in *. unfold stableID_of. rewrite H1. cbn [di_StableID]. unfold syntheticStableID. rewrite H2.
  change (sort_strings []) with (@nil string). cbv iota.
  by rewrite !bool_decide_eq_false_2.
Qed.
End discover_facts.

Definition two_drives : Machine := mkMachine
  (Ok ["sda"; "sr1"; "sr0"]) (Ok [("usb-ASUS_1", Some "sr0"); ("wwn-0x5", Some "sr1"); ("ata-HL-DT_2", Some "sr1"); ("x", None)])
  (Err "none") (λ n a, Some (if bool_decide (a = "vendor") then "ASUS    " else "BW-16D1HT")).
Lemma preferredID_spec_witness : preferredID ["wwn-0x5"; "usb-b"; "ata-c"] ∈ ["wwn-0x5"; "usb-b"; "ata-c"].
Proof. apply (preferredID_spec ["wwn-0x5"; "usb-b"; "ata-c"]). done. Defined.
Lemma Discover_spec_witness : ∃ ds, @Discover caseless two_drives = Ok ds ∧
  (di_StableID <$> ds) = ["ata-HL-DT_2"; "usb-ASUS_1"] ∧ Sorted by_stable_id ds.
Proof.
  eexists. split; [vm_compute; reflexivity|]. split; [reflexivity|].
  eapply (@Discover_spec caseless two_drives); vm_compute; reflexivity.
Defined.
