(* ===== verification/Config.v ===== *)
(** * Configuration (internal/config/config.go)

    The one configuration record, its defaults, its validation and its
    loading.  The TOML decoder is third-party code and a parameter of [Load];
    it decodes into the record it is given, as the code relies on.

    [Validate_iff]: the tests Validate makes one after the other are the
    conditions of [coherent].  [Default_valid]: the daemon starts with no file. *)

From S2P Require Import Prelude GoText GoPath GoBase.

Record DriveConfig := mkDriveConfig { dc_StableID : string; dc_Label : string; dc_Disabled : bool }.

Record Config := mkConfig {
  c_RipsDir : string;
  c_WorkDir : string;
  c_LibraryDir : string;
  c_TranscodedDir : string;
  c_StatePath : string;
  c_SocketPath : string;
  c_HTTPAddr : string;
  c_NativeDVD : bool;
  c_DVDPreindex : bool;
  c_MinTitleSeconds : Z;
  c_MinOutputBytes : Z;
  c_MaxRipAttempts : Z;
  c_ScanAttempts : Z;
  c_ScanRetryDelay : Z;
  c_ScanTimeout : Z;
  c_DecryptFallback : bool;
  c_DVDBackupBin : string;
  c_RipStallTimeout : Z;
  c_Transcode : bool;
  c_TranscodeQuality : Z;
  c_TranscodeMaxKbps : Z;
  c_TranscodeMaxHeight : Z;
  c_PreferredLanguage : string;
  c_AudioKbps : Z;
  c_SoftwarePreset : string;
  c_FFmpegBin : string;
  c_VAAPIDevice : string;
  c_FileToLibrary : bool;
  c_EjectOnSuccess : bool;
  c_EjectOnFailure : bool;
  c_PollInterval : Z;
  c_MakeMKVBin : string;
  c_MakeMKVSettingsPath : string;
  c_AutoRefreshKey : bool;
  c_BetaKeyURL : string;
  c_KeyRefreshInterval : Z;
  c_Drives : list DriveConfig;
}.

Definition Default : Config := {|
  c_RipsDir := "/srv/media/rips";
  c_WorkDir := "/srv/media/work";
  c_LibraryDir := "/srv/media/library";
  c_TranscodedDir := "/srv/media/transcoded";
  c_StatePath := "/var/lib/hellbox/state.db";
  c_SocketPath := "/run/hellbox/hellbox.sock";
  c_HTTPAddr := "127.0.0.1:9494";
  c_NativeDVD := true;
  c_DVDPreindex := false;
  c_MinTitleSeconds := 60;
  c_MinOutputBytes := Z.shiftl 10 20;
  c_MaxRipAttempts := 2;
  c_ScanAttempts := 3;
  c_ScanRetryDelay := 15 * Second;
  c_ScanTimeout := 0;
  c_DecryptFallback := true;
  c_DVDBackupBin := "";
  c_RipStallTimeout := 10 * Minute;
  c_Transcode := true;
  c_TranscodeQuality := 20;
  c_TranscodeMaxKbps := 6000;
  c_TranscodeMaxHeight := 0;
  c_PreferredLanguage := "eng";
  c_AudioKbps := 640;
  c_SoftwarePreset := "medium";
  c_FFmpegBin := "";
  c_VAAPIDevice := "auto";
  c_FileToLibrary := false;
  c_EjectOnSuccess := true;
  c_EjectOnFailure := false;
  c_PollInterval := 2 * Second;
  c_MakeMKVBin := "makemkvcon";
  c_MakeMKVSettingsPath := "";
  c_AutoRefreshKey := true;
  c_BetaKeyURL := "";
  c_KeyRefreshInterval := 6 * Hour;
  c_Drives := [];
|}.

(** filepath.IsAbs *)
Definition IsAbs (p : string) : bool := is_rooted p.

(** The first of the required paths that is missing or relative. *)
Fixpoint check_paths (quote : string → string) (l : list (string * string)) : option string :=
  match l with
  | [] => None
  | (name, value) :: l' =>
      if bool_decide (value = "") then Some (name +:+ " must be set")
      else if negb (IsAbs value) then Some (name +:+ " must be an absolute path, got " +:+ quote value)
      else check_paths quote l'
  end.

Definition when (b : bool) (msg : string) (k : option string) : option string := if b then Some msg else k.

(** Validate: the first complaint; [quote] is fmt's [%q]. *)
Definition Validate (quote : string → string) (c : Config) : option string :=
  match check_paths quote [("rips_dir", c_RipsDir c); ("state_path", c_StatePath c); ("socket_path", c_SocketPath c)] with
  | Some e => Some e
  | None =>
      when (c_MinTitleSeconds c <? 0) "min_title_seconds must not be negative" (
      when (c_MaxRipAttempts c <? 1) "max_rip_attempts must be at least 1" (
      when (c_ScanAttempts c <? 1) "scan_attempts must be at least 1" (
      when ((1 <? c_ScanAttempts c) && (c_ScanRetryDelay c <=? 0))
        "scan_retry_delay must be positive when scan_attempts is above 1" (
      when (c_ScanTimeout c <? 0) "scan_timeout must not be negative" (
      when (c_RipStallTimeout c <? 0) "rip_stall_timeout must not be negative" (
      when (c_FileToLibrary c && (bool_decide (c_LibraryDir c = "") || negb (IsAbs (c_LibraryDir c))))
        ("library_dir must be an absolute path when file_to_library is on, got " +:+ quote (c_LibraryDir c)) (
      when (c_Transcode c && (bool_decide (c_TranscodedDir c = "") || negb (IsAbs (c_TranscodedDir c))))
        ("transcoded_dir must be an absolute path when transcode is on, got " +:+ quote (c_TranscodedDir c)) (
      when (c_Transcode c && (c_TranscodeMaxHeight c <? 0)) "transcode_max_height must not be negative" (
      when (c_Transcode c && (c_TranscodeMaxKbps c <? 0)) "transcode_max_kbps must not be negative" (
      when (c_Transcode c && ((c_TranscodeQuality c <? 0) || (51 <? c_TranscodeQuality c)))
        ("transcode_quality must be between 0 and 51, got " +:+ itoa (c_TranscodeQuality c)) (
      when (c_PollInterval c <=? 0) "poll_interval must be positive" (
      when (c_AutoRefreshKey c && (c_KeyRefreshInterval c <=? 0))
        "key_refresh_interval must be positive when auto_refresh_key is set" (
      when (negb (bool_decide (c_MakeMKVSettingsPath c = "")) && negb (IsAbs (c_MakeMKVSettingsPath c)))
        ("makemkv_settings_path must be an absolute path, got " +:+ quote (c_MakeMKVSettingsPath c))
        None)))))))))))))
  end.

(** os.ReadFile of the configuration *)
Inductive cfgFile := CNotExist | CErr (e : string) | CContents (b : string).

(** Load: the configuration and the error. *)
Definition Load (quote : string → string) (unmarshal : string → Config → Config * option string)
    (path : string) (f : cfgFile) : Config * option string :=
  match f with
  | CNotExist => (Default, Validate quote Default)
  | CErr e => (Default, Some ("read " +:+ path +:+ ": " +:+ e))
  | CContents b =>
      let '(c, err) := unmarshal b Default in
      match err with
      | Some e => (c, Some ("parse " +:+ path +:+ ": " +:+ e))
      | None => (c, Validate quote c)
      end
  end.

Definition DriveFor (c : Config) (stableID : string) : option DriveConfig :=
  head (filter (λ d, dc_StableID d = stableID) (c_Drives c)).

(** ** Validation *)

(** An absolute path. *)
Definition absolute (p : string) : Prop := IsAbs p = true.
(** What the daemon relies on of its configuration. *)
Definition coherent (c : Config) : Prop :=
  absolute (c_RipsDir c) ∧ absolute (c_StatePath c) ∧ absolute (c_SocketPath c) ∧
  0 ≤ c_MinTitleSeconds c ∧ 1 ≤ c_MaxRipAttempts c ∧ 1 ≤ c_ScanAttempts c ∧
  (1 < c_ScanAttempts c → 0 < c_ScanRetryDelay c) ∧ 0 ≤ c_ScanTimeout c ∧ 0 ≤ c_RipStallTimeout c ∧
  (c_FileToLibrary c = true → absolute (c_LibraryDir c)) ∧
  (c_Transcode c = true → absolute (c_TranscodedDir c) ∧ 0 ≤ c_TranscodeMaxHeight c ∧
     0 ≤ c_TranscodeMaxKbps c ∧ 0 ≤ c_TranscodeQuality c ≤ 51) ∧
  0 < c_PollInterval c ∧ (c_AutoRefreshKey c = true → 0 < c_KeyRefreshInterval c) ∧
  (c_MakeMKVSettingsPath c = "" ∨ absolute (c_MakeMKVSettingsPath c)).

Lemma when_None b msg k : when b msg k = None ↔ b = false ∧ k = None.
Proof. unfold when. destruct b; naive_solver. Qed.

Lemma IsAbs_nonempty p : IsAbs p = true → p ≠ "".
Proof. by intros H ->. Qed.

Lemma path_ok p : bool_decide (p = "") || negb (IsAbs p) = false ↔ absolute p.
Proof.
  unfold absolute. rewrite orb_false_iff, negb_false_iff, bool_decide_eq_false. split; [by intros [_ ?]|].
  intros H. split; [by apply IsAbs_nonempty|done].
Qed.

Lemma check_paths_None quote l : check_paths quote l = None ↔ Forall (λ x, absolute x.2) l.
Proof.
  induction l as [|[name v] l IH]; cbn [check_paths]; [split; [constructor|done]|].
  rewrite Forall_cons, <- IH. cbn [snd]. pose proof (path_ok v) as Hv.
  destruct (bool_decide (v = "")); cbn [orb] in Hv; [naive_solver|].
  destruct (negb (IsAbs v)); naive_solver.
Qed.

Lemma guard_false a b : a && b = false ↔ (a = true → b = false).
Proof. destruct a, b; naive_solver. Qed.

(** a configuration passes Validate exactly when it is coherent, every
    path the daemon needs being absolute and every number in its range. *)
Theorem Validate_iff quote c : Validate quote c = None ↔ coherent c.
Proof.
  unfold Validate, coherent. destruct (check_paths _ _) as [e|] eqn:E.
  - split; [done|]. intros (H1 & H2 & H3 & _).
    assert (check_paths quote [("rips_dir", c_RipsDir c); ("state_path", c_StatePath c); ("socket_path", c_SocketPath c)] = None)
      as H by (apply check_paths_None; by repeat constructor). congruence.
  - apply check_paths_None in E. rewrite !Forall_cons in E. cbn [snd] in E. destruct E as (H1 & H2 & H3 & _).
    rewrite !when_None, !guard_false, !path_ok, !orb_false_iff, !Z.ltb_ge, !Z.leb_gt, Z.ltb_lt,
      negb_true_iff, negb_false_iff, bool_decide_eq_false.
    fold (absolute (c_MakeMKVSettingsPath c)).
    assert ((c_MakeMKVSettingsPath c ≠ "" → absolute (c_MakeMKVSettingsPath c)) ↔
      (c_MakeMKVSettingsPath c = "" ∨ absolute (c_MakeMKVSettingsPath c))) as ->.
    { destruct (decide (c_MakeMKVSettingsPath c = "")); naive_solver. }
    naive_solver.
Qed.

(** C1: a first start needs no setup: the defaults are coherent, and a daemon
    without a configuration file runs on them. *)
Theorem Default_valid quote unmarshal path :
  coherent Default ∧ Load quote unmarshal path CNotExist = (Default, None).
Proof.
  assert (Validate quote Default = None) as H by reflexivity.
  split; [by apply (Validate_iff quote)|]. unfold Load. by rewrite H.
Qed.
