(* ===== verification/Sha256.v ===== *)
(** * SHA-256 (crypto/sha256) and hexadecimal (encoding/hex)

    FIPS 180-4 on byte lists, executable, with 32-bit words as [Z]. *)

From S2P Require Import Prelude GoText.

Definition w32 (x : Z) : Z := Z.land x 0xffffffff.
Definition rotr (n x : Z) : Z := Z.lor (Z.shiftr x n) (w32 (Z.shiftl x (32 - n))).
Definition ch (x y z : Z) : Z := Z.lxor (Z.land x y) (Z.land (Z.lxor x 0xffffffff) z).
Definition maj (x y z : Z) : Z := Z.lxor (Z.land x y) (Z.lxor (Z.land x z) (Z.land y z)).
Definition bsig0 (x : Z) : Z := Z.lxor (rotr 2 x) (Z.lxor (rotr 13 x) (rotr 22 x)).
Definition bsig1 (x : Z) : Z := Z.lxor (rotr 6 x) (Z.lxor (rotr 11 x) (rotr 25 x)).
Definition ssig0 (x : Z) : Z := Z.lxor (rotr 7 x) (Z.lxor (rotr 18 x) (Z.shiftr x 3)).
Definition ssig1 (x : Z) : Z := Z.lxor (rotr 17 x) (Z.lxor (rotr 19 x) (Z.shiftr x 10)).

(** The constants are the leading fractional bits of roots of the first
    primes: cube roots for the rounds, square roots for the initial state. *)
Definition is_prime (n : Z) : bool := forallb (λ d, negb (n mod d =? 0)) (seqZ 2 (n - 2)).
Definition primes64 : list Z := filter (λ n, is_prime n = true) (seqZ 2 310).
Fixpoint cbrt_search (fuel : nat) (lo hi n : Z) : Z :=
  match fuel with
  | O => lo
  | S f =>
      let mid := (lo + hi) / 2 in
      if mid * mid * mid <=? n then cbrt_search f mid hi n else cbrt_search f lo mid n
  end.
Definition cbrt (n : Z) : Z := cbrt_search 40 0 (2 ^ 40) n.
Definition round_constants : list Z := Eval vm_compute in
  map (λ p, w32 (cbrt (Z.shiftl p 96))) primes64.
Definition h_words : list Z := Eval vm_compute in
  map (λ p, w32 (Z.sqrt (Z.shiftl p 64))) (take 8 primes64).

Record hstate := mkH { ha : Z; hb : Z; hc : Z; hd : Z; he : Z; hf : Z; hg : Z; hh : Z }.
Definition word_at (b : list Z) (i : nat) : Z := default 0 (b !! i).
Definition h_init : hstate :=
  let w := word_at h_words in mkH (w 0%nat) (w 1%nat) (w 2%nat) (w 3%nat) (w 4%nat) (w 5%nat) (w 6%nat) (w 7%nat).

Fixpoint words_of (n : nat) (b : list Z) : list Z :=
  match n with
  | O => []
  | S n' =>
      (Z.shiftl (word_at b 0) 24 + Z.shiftl (word_at b 1) 16
       + Z.shiftl (word_at b 2) 8 + word_at b 3) :: words_of n' (drop 4 b)
  end.

(** The message schedule, kept newest first: the last sixteen words are enough. *)
Fixpoint extend (n : nat) (w : list Z) : list Z :=
  match n with
  | O => w
  | S n' =>
      extend n' (w32 (ssig1 (word_at w 1) + word_at w 6 + ssig0 (word_at w 14) + word_at w 15) :: w)
  end.
Definition schedule (block : list Z) : list Z := reverse (extend 48 (reverse (words_of 16 block))).

Definition sha_step (s : hstate) (kw : Z * Z) : hstate :=
  let t1 := hh s + bsig1 (he s) + ch (he s) (hf s) (hg s) + kw.1 + kw.2 in
  let t2 := bsig0 (ha s) + maj (ha s) (hb s) (hc s) in
  mkH (w32 (t1 + t2)) (ha s) (hb s) (hc s) (w32 (hd s + t1)) (he s) (hf s) (hg s).

Definition compress (s : hstate) (block : list Z) : hstate :=
  let r := foldl sha_step s (zip round_constants (schedule block)) in
  mkH (w32 (ha s + ha r)) (w32 (hb s + hb r)) (w32 (hc s + hc r)) (w32 (hd s + hd r))
      (w32 (he s + he r)) (w32 (hf s + hf r)) (w32 (hg s + hg r)) (w32 (hh s + hh r)).

Fixpoint blocks (n : nat) (b : list Z) : list (list Z) :=
  match n with O => [] | S n' => take 64 b :: blocks n' (drop 64 b) end.

Fixpoint be_bytes (n : nat) (x : Z) : list Z :=
  match n with O => [] | S n' => Z.land (Z.shiftr x (8 * Z.of_nat n')) 0xff :: be_bytes n' x end.

Definition pad_len (n : nat) : nat := ((119 - n mod 64) mod 64)%nat.
Definition padded (b : list Z) : list Z :=
  b ++ 0x80 :: replicate (pad_len (length b)) 0 ++ be_bytes 8 (8 * Z.of_nat (length b)).

(** sha256.New, Write, Sum(nil). *)
Definition sha256 (b : list Z) : list Z :=
  let m := padded b in
  let s := foldl compress h_init (blocks (length m / 64) m) in
  mjoin (map (be_bytes 4) [ha s; hb s; hc s; hd s; he s; hf s; hg s; hh s]).

Definition hex_digit (n : Z) : ascii :=
  if n <? 10 then byte_of (48 + n) else byte_of (87 + n).
(** hex.EncodeToString. *)
Definition hex_encode (b : list Z) : string :=
  String.string_of_list_ascii
    (mjoin (map (λ x, [hex_digit (Z.shiftr x 4); hex_digit (Z.land x 15)]) b)).

Definition bytes_of (s : string) : list Z := map byte_val (String.list_ascii_of_string s).

(** FIPS 180-4's one-block and two-block examples. *)
Example sha256_abc :
  hex_encode (sha256 (bytes_of "abc")) =
  "ba7816bf8f01cfea414140de5dae2223b00361a396177a9cb410ff61f20015ad".
Proof. vm_compute. reflexivity. Qed.

Example sha256_two_blocks :
  hex_encode (sha256 (bytes_of "abcdbcdecdefdefgefghfghighijhijkijkljklmklmnlmnomnopnopq")) =
  "248d6a61d20638b8e5c026930c3e6039a33ce45964ff2167f6ecedd419db06c1".
Proof. vm_compute. reflexivity. Qed.

(** ** Lemmas *)

Definition is_byte (x : Z) : Prop := 0 ≤ x < 256.

Lemma be_bytes_spec n x : Forall is_byte (be_bytes n x) ∧ length (be_bytes n x) = n.
Proof.
  induction n as [|n [IH1 IH2]]; simpl; [by repeat constructor|]. split; [|lia].
  constructor; [|done]. unfold is_byte. change 255 with (Z.ones 8).
  rewrite Z.land_ones by lia. change (2 ^ 8) with 256. apply Z.mod_pos_bound. lia.
Qed.

Lemma mjoin_be_bytes n xs :
  Forall is_byte (mjoin (map (be_bytes n) xs)) ∧
  length (mjoin (map (be_bytes n) xs)) = (n * length xs)%nat.
Proof.
  induction xs as [|x xs [IH1 IH2]]; [split; [constructor|simpl; lia]|].
  change (mjoin (map (be_bytes n) (x :: xs))) with (be_bytes n x ++ mjoin (map (be_bytes n) xs)).
  destruct (be_bytes_spec n x). rewrite Forall_app, length_app, IH2. simpl. split; [done|lia].
Qed.

Lemma sha256_bytes b : Forall is_byte (sha256 b) ∧ length (sha256 b) = 32%nat.
Proof. unfold sha256. apply mjoin_be_bytes. Qed.

Lemma hex_digit_inj x y : 0 ≤ x < 16 → 0 ≤ y < 16 → hex_digit x = hex_digit y → x = y.
Proof.
  intros Hx Hy E.
  assert (∀ z, 0 ≤ z < 16 → byte_val (hex_digit z) = if z <? 10 then 48 + z else 87 + z) as Hv.
  { intros z Hz. unfold hex_digit, byte_val, byte_of.
    destruct (z <? 10); rewrite Ascii.N_ascii_embedding by lia; lia. }
  apply (f_equal byte_val) in E. rewrite !Hv in E by done.
  destruct (Z.ltb_spec x 10), (Z.ltb_spec y 10); lia.
Qed.

Lemma nibbles x : is_byte x →
  0 ≤ Z.shiftr x 4 < 16 ∧ 0 ≤ Z.land x 15 < 16 ∧ x = 16 * Z.shiftr x 4 + Z.land x 15.
Proof.
  unfold is_byte. intros Hx. rewrite Z.shiftr_div_pow2 by lia.
  change 15 with (Z.ones 4). rewrite Z.land_ones by lia. change (2 ^ 4) with 16.
  pose proof (Z.div_mod x 16). pose proof (Z.mod_pos_bound x 16).
  split_and!; lia.
Qed.

Lemma hex_encode_inj b1 b2 :
  Forall is_byte b1 → Forall is_byte b2 → hex_encode b1 = hex_encode b2 → b1 = b2.
Proof.
  unfold hex_encode. intros H1 H2 E.
  apply (f_equal String.list_ascii_of_string) in E.
  rewrite !String.list_ascii_of_string_of_list_ascii in E.
  revert b2 H2 E. induction H1 as [|x b1 Hx H1 IH]; intros [|y b2] H2 E; simpl in E; try done.
  inversion H2 as [|? ? Hy Hb2]; subst. injection E as E1 E2 E.
  destruct (nibbles x Hx) as (? & ? & Ex), (nibbles y Hy) as (? & ? & Ey).
  apply hex_digit_inj in E1, E2; try done. f_equal; [congruence|by apply IH].
Qed.

Lemma bytes_of_inj s t : bytes_of s = bytes_of t → s = t.
Proof.
  unfold bytes_of. intros E.
  rewrite <- (String.string_of_list_ascii_of_string s), <- (String.string_of_list_ascii_of_string t).
  f_equal. revert E. apply list_fmap_eq_inj. intros a b Hab. unfold byte_val in Hab.
  rewrite <- (Ascii.ascii_N_embedding a), <- (Ascii.ascii_N_embedding b). f_equal. lia.
Qed.

Definition is_hex_byte (c : ascii) : bool := is_digit_byte c || in_range 97 102 c.

Lemma hex_encode_shape b :
  Forall is_byte b →
  str_forall is_hex_byte (hex_encode b) = true ∧
  String.length (hex_encode b) = (2 * length b)%nat.
Proof.
  unfold hex_encode. induction 1 as [|x b Hx Hb [IH1 IH2]]; simpl; [done|].
  destruct (nibbles x Hx) as (Hn1 & Hn2 & _).
  assert (∀ z, 0 ≤ z < 16 → is_hex_byte (hex_digit z) = true) as Hd.
  { intros z Hz. unfold is_hex_byte, is_digit_byte, in_range, hex_digit, byte_val, byte_of.
    destruct (Z.ltb_spec z 10); rewrite Ascii.N_ascii_embedding, Z2N.id by lia.
    - destruct (Z.leb_spec 48 (48 + z)), (Z.leb_spec (48 + z) 57); (done || lia).
    - destruct (Z.leb_spec 97 (87 + z)), (Z.leb_spec (87 + z) 102); lia. }
  rewrite !Hd, IH1 by done. split; [done|]. rewrite IH2. lia.
Qed.
