(* ===== verification/Disc.v ===== *)
(** * Discs, titles and fingerprints (internal/disc/disc.go)

    The description of a physical disc, the fingerprint it is recognised by,
    and the names its files get.  A scan time is the day it formats to
    ([None] is Go's zero time), since the day is all the code uses of it. *)

From S2P Require Import Prelude GoText Sha256.

(** [TypeZero] is the empty string a Disc starts with. *)
Inductive DiscType := TypeDVD | TypeBluRay | TypeUnknown | TypeZero.
#[global] Instance DiscType_eq_dec : EqDecision DiscType.
Proof. solve_decision. Defined.
Definition type_string (t : DiscType) : string :=
  match t with
  | TypeDVD => "dvd" | TypeBluRay => "bluray" | TypeUnknown => "unknown" | TypeZero => ""
  end.

Record Stream := mkStream {
  s_Index : Z;
  s_Kind : string;
  s_Codec : string;
  s_Language : string;
  s_LangName : string;
  s_Channels : Z;
  s_SampleRate : string;
  s_Resolution : string;
  s_AspectRatio : string;
  s_FrameRate : string;
  s_Bitrate : string;
  s_Flags : string;
  s_Name : string;
  s_Attrs : gmap Z string;
}.

Record Title := mkTitle {
  t_Index : Z;
  t_DurationSecs : Z;
  t_Chapters : Z;
  t_SizeBytes : Z;
  t_SourceFile : string;
  t_SegmentsCount : Z;
  t_SegmentsMap : string;
  t_Name : string;
  t_OutputFile : string;
  t_SuggestedName : string;
  t_Streams : list Stream;
  t_Attrs : gmap Z string;
}.

Record Disc := mkDisc {
  d_Fingerprint : string;
  d_VolumeLabel : string;
  d_DiscName : string;
  d_Type : DiscType;
  d_TotalBytes : Z;
  d_ScannedAt : option string;
  d_DriveStableID : string;
  d_DriveModel : string;
  d_MakeMKVVersion : string;
  d_Titles : list Title;
}.

Definition with_titles (d : Disc) (ts : list Title) (bytes : Z) : Disc :=
  mkDisc (d_Fingerprint d) (d_VolumeLabel d) (d_DiscName d) (d_Type d) bytes
    (d_ScannedAt d) (d_DriveStableID d) (d_DriveModel d) (d_MakeMKVVersion d) ts.

(** ** Fingerprint *)

(** The sort key of [sort.Slice] in ComputeFingerprint: duration, then size. *)
Definition entry : Type := Z * Z.
Definition entry_le (a b : entry) : Prop := a.1 < b.1 ∨ (a.1 = b.1 ∧ a.2 ≤ b.2).
#[global] Instance entry_le_dec : RelDecision entry_le.
Proof. intros a b. unfold entry_le. apply _. Defined.
#[global] Instance entry_le_total : Total entry_le.
Proof. intros a b. unfold entry_le. lia. Qed.
#[global] Instance entry_le_trans : Transitive entry_le.
Proof. intros a b c. unfold entry_le. lia. Qed.
#[global] Instance entry_le_antisymm : AntiSymm (=) entry_le.
Proof. intros [a1 a2] [b1 b2]. unfold entry_le; simpl. intros. f_equal; lia. Qed.

Definition title_entry (t : Title) : entry := (t_DurationSecs t, t_SizeBytes t).

Definition nul_str : string := String nul "".
Definition entry_text (e : entry) : string := itoa e.1 +:+ ":" +:+ itoa e.2 +:+ nul_str.
Fixpoint entries_text (es : list entry) : string :=
  match es with [] => "" | e :: es' => entry_text e +:+ entries_text es' end.

Section with_unicode.
Context {U : Unicode}.

(** The bytes written to the hash. *)
Definition fingerprint_preimage (volumeLabel : string) (titles : list Title) : string :=
  TrimSpace volumeLabel +:+ nul_str +:+ itoa (Z.of_nat (length titles)) +:+ nul_str +:+
  entries_text (merge_sort entry_le (map title_entry titles)).

Definition ComputeFingerprint (volumeLabel : string) (titles : list Title) : string :=
  hex_encode (sha256 (bytes_of (fingerprint_preimage volumeLabel titles))).

(** ** Names *)

Fixpoint str_take (n : nat) (s : string) : string :=
  match n, s with
  | S n', String c s' => String c (str_take n' s')
  | _, _ => ""
  end.

Definition Short (fingerprint : string) : string :=
  if len fingerprint <? 12 then fingerprint else str_take 12 fingerprint.

Definition genericLabels : list string :=
  [""; "dvd_video"; "dvdvideo"; "logical_volume_id"; "unknown"; "untitled";
   "new_volume"; "bd_rom"; "bluray"].
Definition is_generic (s : string) : bool :=
  bool_decide (ToLower (TrimSpace s) ∈ genericLabels).

(** The loop of Slug.  The source ranges over runes; every rune outside ASCII
    takes the default branch, and so does each of its bytes, the first
    writing the dash and the rest nothing, so walking bytes is the same. *)
Definition is_slug_byte (c : ascii) : bool := is_lower_byte c || is_digit_byte c.
Fixpoint slug_loop (lastDash : bool) (s : string) : string :=
  match s with
  | "" => ""
  | String c s' =>
      if is_slug_byte c then String c (slug_loop false s')
      else if lastDash then slug_loop true s'
      else String dash (slug_loop true s')
  end.
Definition trim_dashes (s : string) : string := trim (byte_eqb dash) s.
Definition Slug (s : string) : string :=
  let out := trim_dashes (slug_loop true (ToLower (TrimSpace s))) in
  if 40 <? len out then trim_dashes (str_take 40 out) else out.

(** [today] is what time.Now formats to. *)
Definition DirName (today : string) (d : Disc) : string :=
  let slug := Slug (d_VolumeLabel d) in
  let slug :=
    if is_generic (d_VolumeLabel d) || bool_decide (slug = "") then
      let s := Slug (d_DiscName d) in
      if negb (bool_decide (s = "")) && negb (is_generic (d_DiscName d)) then s else "unlabeled"
    else slug in
  default today (d_ScannedAt d) +:+ "--" +:+ slug +:+ "--" +:+ Short (d_Fingerprint d).
End with_unicode.

Definition TitleFileName (index : Z) : string := "title_" +:+ itoa02 index +:+ ".mkv".

(** Seconds. *)
Definition TotalDuration (d : Disc) : Z := sumZ (map t_DurationSecs (d_Titles d)).

(** ** Lemmas *)

Definition slug_alphabet (c : ascii) : bool := is_slug_byte c || byte_eqb dash c.
Fixpoint no_double_dash (s : string) : bool :=
  match s with
  | "" => true
  | String c s' =>
      negb (byte_eqb dash c && match str_head s' with Some d => byte_eqb dash d | None => false end)
      && no_double_dash s'
  end.

Lemma byte_eqb_refl c : byte_eqb c c = true.
Proof. unfold byte_eqb. by rewrite bool_decide_eq_true_2. Qed.
#[global] Hint Rewrite byte_eqb_refl : hellbox.

Lemma slug_byte_not_dash c : is_slug_byte c = true → byte_eqb dash c = false.
Proof.
  intros H. apply bool_decide_eq_false. intros <-. by vm_compute in H.
Qed.

Lemma slug_loop_alphabet b s : str_forall slug_alphabet (slug_loop b s) = true.
Proof.
  revert b; induction s as [|c s IH]; intros b; simpl; [done|].
  unfold slug_alphabet. destruct (is_slug_byte c) eqn:Hc; simpl.
  - unfold slug_alphabet in IH. by rewrite Hc, IH.
  - destruct b; simpl; [apply IH|]. apply IH.
Qed.

Lemma slug_loop_no_dd b s :
  no_double_dash (slug_loop b s) = true ∧
  (b = true → str_head (slug_loop b s) ≠ Some dash).
Proof.
  revert b; induction s as [|c s IH]; intros b; simpl; [done|].
  destruct (is_slug_byte c) eqn:Hc; simpl.
  - destruct (IH false) as [-> _]. rewrite (slug_byte_not_dash _ Hc). split; [done|].
    intros _ [= ->]. by apply slug_byte_not_dash in Hc.
  - destruct (IH true) as [H1 H2]. destruct b; [done|]. simpl. rewrite H1. split; [|done].
    specialize (H2 eq_refl). destruct (str_head _) as [d|] eqn:E; [|done].
    destruct (byte_eqb dash d) eqn:Ed; [|done].
    apply bool_decide_eq_true in Ed as <-. done.
Qed.

Lemma no_dd_trim_left p s : no_double_dash s = true → no_double_dash (trim_left p s) = true.
Proof.
  induction s as [|c s IH]; simpl; [done|]. intros H.
  destruct (p c); [|done]. apply andb_true_iff in H as [_ H]. auto.
Qed.

Lemma no_dd_trim_right p s : no_double_dash s = true → no_double_dash (trim_right p s) = true.
Proof.
  induction s as [|c s IH]; simpl; [done|]. intros [H1 H2]%andb_true_iff.
  specialize (IH H2). pose proof (trim_right_head p s) as Hh.
  destruct (trim_right p s) as [|d t] eqn:E.
  - destruct (p c); simpl; [done|]. by rewrite andb_false_r.
  - destruct Hh as [Hh|Hh]; [done|]. change (negb (byte_eqb dash c &&
      match str_head (String d t) with Some d => byte_eqb dash d | None => false end)
      && no_double_dash (String d t) = true). by rewrite Hh, H1, IH.
Qed.

Lemma no_dd_take n s : no_double_dash s = true → no_double_dash (str_take n s) = true.
Proof.
  revert n; induction s as [|c s IH]; intros [|n]; simpl; try done.
  intros [H1 H2]%andb_true_iff. rewrite IH by done. rewrite andb_true_r.
  destruct n, s; simpl in *; try done; by rewrite andb_false_r.
Qed.

Lemma str_take_forall p n s : str_forall p s = true → str_forall p (str_take n s) = true.
Proof.
  revert n; induction s as [|c s IH]; intros [|n]; simpl; try done.
  intros [-> ?]%andb_true_iff. simpl. by apply IH.
Qed.

Lemma str_take_length n s : (String.length (str_take n s) ≤ n)%nat.
Proof. revert n; induction s; intros [|n]; simpl; try lia. specialize (IHs n). lia. Qed.

Lemma trim_left_length p s : (String.length (trim_left p s) ≤ String.length s)%nat.
Proof. induction s as [|c s IH]; simpl; [lia|]. destruct (p c); simpl; lia. Qed.

Lemma trim_right_length p s : (String.length (trim_right p s) ≤ String.length s)%nat.
Proof.
  induction s as [|c s IH]; simpl; [lia|].
  destruct (trim_right p s); [destruct (p c)|]; simpl in *; lia.
Qed.

Lemma trim_length p s : (String.length (trim p s) ≤ String.length s)%nat.
Proof.
  unfold trim. pose proof (trim_left_length p s).
  pose proof (trim_right_length p (trim_left p s)). lia.
Qed.

Lemma trim_dashes_ok s :
  str_forall slug_alphabet s = true → no_double_dash s = true →
  str_forall slug_alphabet (trim_dashes s) = true ∧ no_double_dash (trim_dashes s) = true ∧
  str_head (trim_dashes s) ≠ Some dash ∧ str_last (trim_dashes s) ≠ Some dash.
Proof.
  intros Ha Hd. unfold trim_dashes. pose proof (trim_edges (byte_eqb dash) s) as [H1 H2].
  split_and!.
  - unfold trim. by apply trim_right_forall, trim_left_forall.
  - unfold trim. by apply no_dd_trim_right, no_dd_trim_left.
  - intros E. specialize (H1 _ E). by rewrite byte_eqb_refl in H1.
  - intros E. specialize (H2 _ E). by rewrite byte_eqb_refl in H2.
Qed.

Lemma fingerprint_sort_perm {U : Unicode} (ts1 ts2 : list Title) :
  map title_entry ts1 ≡ₚ map title_entry ts2 →
  merge_sort entry_le (map title_entry ts1) = merge_sort entry_le (map title_entry ts2).
Proof.
  intros Hp. apply (Sorted_unique entry_le).
  - apply (Sorted_merge_sort _).
  - apply (Sorted_merge_sort _).
  - by rewrite !merge_sort_Permutation.
Qed.

Lemma numeral_no (c : ascii) n :
  is_numeral_byte c = false → str_forall (λ x, negb (byte_eqb c x)) (itoa n) = true.
Proof.
  intros Hc. eapply str_forall_impl; [|apply itoa_numeral]. intros x Hx.
  apply negb_true_iff, bool_decide_eq_false. congruence.
Qed.

Lemma str_app_sep_inj c (s1 s2 t1 t2 : string) :
  str_forall (λ x, negb (byte_eqb c x)) s1 = true →
  str_forall (λ x, negb (byte_eqb c x)) s2 = true →
  s1 +:+ String c "" +:+ t1 = s2 +:+ String c "" +:+ t2 → s1 = s2 ∧ t1 = t2.
Proof. intros H1 H2 E. eapply (str_app_delim_inj (byte_eqb c)); eauto using byte_eqb_refl. Qed.

Lemma entries_text_inj es1 es2 : entries_text es1 = entries_text es2 → es1 = es2.
Proof.
  revert es2. induction es1 as [|[d1 z1] es1 IH]; intros [|[d2 z2] es2];
    cbn [entries_text]; unfold entry_text, nul_str; cbn [fst snd]; try done.
  - by destruct (itoa d2).
  - by destruct (itoa d1).
  - rewrite <- !str_app_assoc. intros E.
    apply str_app_sep_inj in E as [Ed E]; [|by apply numeral_no..].
    apply str_app_sep_inj in E as [Ez E]; [|by apply numeral_no..].
    apply itoa_inj in Ed as ->. apply itoa_inj in Ez as ->. f_equal. auto.
Qed.

Lemma preimage_inj {U : Unicode} l1 l2 ts1 ts2 :
  str_forall (λ x, negb (byte_eqb nul x)) (TrimSpace l1) = true →
  str_forall (λ x, negb (byte_eqb nul x)) (TrimSpace l2) = true →
  fingerprint_preimage l1 ts1 = fingerprint_preimage l2 ts2 →
  TrimSpace l1 = TrimSpace l2 ∧ map title_entry ts1 ≡ₚ map title_entry ts2.
Proof.
  unfold fingerprint_preimage, nul_str. intros H1 H2 E.
  apply str_app_sep_inj in E as [El E]; [|done..].
  apply str_app_sep_inj in E as [_ E]; [|by apply numeral_no..].
  split; [done|]. apply entries_text_inj in E.
  by rewrite <- (merge_sort_Permutation entry_le (map title_entry ts1)), E, merge_sort_Permutation.
Qed.

(** The characters of a rip directory name. *)
Definition path_byte (c : ascii) : bool := slug_alphabet c.
Definition disc_wf (d : Disc) : Prop :=
  str_forall is_hex_byte (d_Fingerprint d) = true ∧
  from_option (str_forall path_byte) true (d_ScannedAt d) = true.

Lemma hex_is_path c : is_hex_byte c = true → path_byte c = true.
Proof.
  unfold is_hex_byte, path_byte, slug_alphabet, is_slug_byte, is_lower_byte, is_digit_byte, in_range.
  lia.
Qed.

Lemma Slug_shape {U : Unicode} s :
  str_forall slug_alphabet (Slug s) = true ∧ no_double_dash (Slug s) = true ∧
  str_head (Slug s) ≠ Some dash ∧ str_last (Slug s) ≠ Some dash ∧ len (Slug s) ≤ 40.
Proof.
  unfold Slug. set (t := ToLower _).
  destruct (trim_dashes_ok (slug_loop true t)) as (H1 & H2 & H3 & H4);
    [apply slug_loop_alphabet | apply slug_loop_no_dd |].
  set (out := trim_dashes _) in *. destruct (Z.ltb_spec 40 (len out)); [|by repeat split].
  destruct (trim_dashes_ok (str_take 40 out)) as (K1 & K2 & K3 & K4);
    [by apply str_take_forall | by apply no_dd_take |].
  repeat split; try done. unfold len, trim_dashes.
  pose proof (trim_length (byte_eqb dash) (str_take 40 out)).
  pose proof (str_take_length 40 out). lia.
Qed.

(** A computed fingerprint is sixty-four lower-case hex digits. *)
Lemma ComputeFingerprint_hex {U : Unicode} l ts :
  str_forall is_hex_byte (ComputeFingerprint l ts) = true ∧ len (ComputeFingerprint l ts) = 64.
Proof.
  unfold ComputeFingerprint, len.
  destruct (sha256_bytes (bytes_of (fingerprint_preimage l ts))) as [Hb Hl].
  destruct (hex_encode_shape _ Hb) as [H1 H2]. by rewrite H1, H2, Hl.
Qed.
#[export] Hint Resolve ComputeFingerprint_hex : hellbox.

(** ** Theorems *)

Section theorems.
Context {U : Unicode}.

(** C27: what a fingerprint identifies.  Two scans whose trimmed labels hold
    no NUL byte get the same fingerprint exactly when the trimmed labels are
    equal and the titles have the same durations and sizes in some order,
    unless their preimages are a SHA-256 collision: the enumeration order of
    titles cannot change it, and nothing else can make two discs agree. *)
Theorem fingerprint_identifies l1 l2 ts1 ts2 :
  str_forall (λ x, negb (byte_eqb nul x)) (TrimSpace l1) = true →
  str_forall (λ x, negb (byte_eqb nul x)) (TrimSpace l2) = true →
  (ComputeFingerprint l1 ts1 = ComputeFingerprint l2 ts2 ↔
    (TrimSpace l1 = TrimSpace l2 ∧ map title_entry ts1 ≡ₚ map title_entry ts2) ∨
    (bytes_of (fingerprint_preimage l1 ts1) ≠ bytes_of (fingerprint_preimage l2 ts2) ∧
     sha256 (bytes_of (fingerprint_preimage l1 ts1)) =
     sha256 (bytes_of (fingerprint_preimage l2 ts2)))).
Proof.
  intros H1 H2. unfold ComputeFingerprint. split.
  - intros E. apply hex_encode_inj in E; [|apply sha256_bytes..].
    destruct (decide (bytes_of (fingerprint_preimage l1 ts1)
                      = bytes_of (fingerprint_preimage l2 ts2))) as [Eq|]; [|by right].
    left. apply bytes_of_inj in Eq. by apply preimage_inj.
  - intros [[El Hp]|[_ ->]]; [|done]. do 3 f_equal. unfold fingerprint_preimage.
    rewrite El, (fingerprint_sort_perm _ _ Hp). do 4 f_equal.
    apply Permutation_length in Hp. rewrite !length_map in Hp. by rewrite Hp.
Qed.

(** slugs are filesystem safe whatever the label: only lower-case
    letters, digits and single dashes, no dash at either end, and at most
    forty bytes. *)
Theorem Slug_safe s :
  str_forall slug_alphabet (Slug s) = true ∧ no_double_dash (Slug s) = true ∧
  str_head (Slug s) ≠ Some dash ∧ str_last (Slug s) ≠ Some dash ∧ len (Slug s) ≤ 40.
Proof. apply Slug_shape. Qed.

(** the rip directory of a scanned disc is one path component: no
    separator, no dot, nothing but lower-case letters, digits and dashes, for
    every label and disc name. *)
Theorem DirName_safe today d :
  disc_wf d → str_forall path_byte today = true →
  str_forall path_byte (DirName today d) = true.
Proof.
  intros [Hf Hs] Ht. unfold DirName. rewrite !str_forall_app.
  assert (str_forall path_byte (default today (d_ScannedAt d)) = true) as ->
    by (by destruct (d_ScannedAt d)).
  assert (str_forall path_byte (Short (d_Fingerprint d)) = true) as ->.
  { unfold Short. eapply str_forall_impl; [apply hex_is_path|].
    destruct (len _ <? 12); [done|]. by apply str_take_forall. }
  assert (∀ s, str_forall path_byte (Slug s) = true) as Hslug by (intros; apply Slug_shape).
  go_cases; rewrite ?Hslug; done.
Qed.
End theorems.

#[local] Existing Instance caseless.

Lemma fingerprint_identifies_witness :
  let a := mkTitle 0 5400 10 100 "" 0 "" "" "" "" [] ∅ in
  let b := mkTitle 1 600 2 7 "" 0 "" "" "" "" [] ∅ in
  ComputeFingerprint " ROMAN_HOLIDAY " [a; b] = ComputeFingerprint "ROMAN_HOLIDAY" [b; a].
Proof.
  apply fingerprint_identifies; [reflexivity | reflexivity |].
  left. split; [reflexivity|]. apply perm_swap.
Defined.

Lemma DirName_safe_witness :
  str_forall path_byte (DirName "2026-07-28"
    (mkDisc "a3f9c2e10b47aa" "Still Game: Series 1/Disc 1" "" TypeDVD 0 None "" "" "" [])) = true.
Proof. apply DirName_safe; [split; reflexivity | reflexivity]. Defined.

(** distinct titles never share a file name. *)
Theorem TitleFileName_inj i j :
  0 ≤ i → 0 ≤ j → i ≠ j → TitleFileName i ≠ TitleFileName j.
Proof.
  unfold TitleFileName. intros Hi Hj Hne E. apply Hne. apply str_app_inv_head in E.
  apply itoa02_inj; try done.
  assert (∀ n, 0 ≤ n → str_forall (λ x, negb (byte_eqb "."%char x)) (itoa02 n) = true) as Hd.
  { intros n Hn. unfold itoa02. destruct (_ && _); simpl; rewrite (numeral_no "."%char); done. }
  destruct (str_app_sep_inj "."%char (itoa02 i) (itoa02 j) "mkv" "mkv"); auto.
Qed.

Lemma TitleFileName_inj_witness :
  TitleFileName 7 = "title_07.mkv" ∧ TitleFileName 7 ≠ TitleFileName 112.
Proof. split; [reflexivity|]. apply TitleFileName_inj; lia. Defined.
