(* ===== verification/Failure.v ===== *)
(** * Why a disc did not make it through (internal/disc/failure.go)

    Failure messages are grouped by the first known fragment they contain,
    after the lines known to be harmless noise are removed. *)

From S2P Require Import Prelude GoText.

Inductive FailureKind :=
| FailureAACSKey
| FailureBDPlus
| FailureRegion
| FailureUnreadable
| FailureStalled
| FailureSpace
| FailureTooling
| FailureCancelled
| FailureMismatch
| FailureOther.
#[global] Instance FailureKind_eq_dec : EqDecision FailureKind.
Proof. solve_decision. Defined.

Definition kind_string (k : FailureKind) : string :=
  match k with
  | FailureAACSKey => "aacs-key"
  | FailureBDPlus => "bd-plus"
  | FailureRegion => "region"
  | FailureUnreadable => "unreadable"
  | FailureStalled => "stalled"
  | FailureSpace => "no-space"
  | FailureTooling => "tooling"
  | FailureCancelled => "cancelled"
  | FailureMismatch => "title-mismatch"
  | FailureOther => "other"
  end.

Definition failurePatterns : list (FailureKind * string) := [
  (FailureCancelled, "cancelled");
  (FailureCancelled, "context canceled");
  (FailureAACSKey, "aacs");
  (FailureAACSKey, "no valid processing key");
  (FailureAACSKey, "unit key");
  (FailureAACSKey, "vuk");
  (FailureBDPlus, "bd+");
  (FailureBDPlus, "bdplus");
  (FailureRegion, "region");
  (FailureRegion, "scrambled sector");
  (FailureRegion, "css");
  (FailureStalled, "no progress for");
  (FailureStalled, "did not finish within");
  (FailureSpace, "no space left");
  (FailureSpace, "disk full");
  (FailureTooling, "failed to execute external program");
  (FailureTooling, "not on path");
  (FailureTooling, "executable file not found");
  (FailureTooling, "no such file or directory");
  (FailureUnreadable, "the disc is probably damaged");
  (FailureUnreadable, "a dvd vob cannot exceed");
  (FailureUnreadable, "medium not present");
  (FailureUnreadable, "input/output error");
  (FailureUnreadable, "failed to open disc");
  (FailureUnreadable, "no titles found");
  (FailureUnreadable, "cannot read");
  (FailureUnreadable, "unreadable");
  (FailureMismatch, "refusing to rip a partial disc");
  (FailureMismatch, "produced no output file");
  (FailureMismatch, "titles saved, 1 failed");
  (FailureMismatch, "was therefore skipped")].

Definition benignFragments : list string := [
  "error cracking css key";
  "can't read name block";
  "probably not a dvd-rom device";
  "bd-j check: failed to load jvm";
  "vm configuration not found"].

Section with_unicode.
Context {U : Unicode}.

Definition IsBenign (line : string) : bool :=
  let l := ToLower line in existsb (contains l) benignFragments.

Definition StripBenign (message : string) : string :=
  join (String newline "") (filter (λ l, IsBenign l = false) (split_on newline message)).

Definition ClassifyFailure (message : string) : FailureKind :=
  let m := ToLower (StripBenign message) in
  match list_find (λ p, contains m p.2 = true) failurePatterns with
  | Some (_, (k, _)) => k
  | None => FailureOther
  end.
End with_unicode.

Definition FailureAdvice (k : FailureKind) : string :=
  match k with
  | FailureAACSKey => "the disc is not in the AACS key database; try a newer KEYDB.cfg"
  | FailureBDPlus => "the disc uses BD+, which libbdplus handles incompletely"
  | FailureRegion => "the drive has no region set, so it will not decrypt this disc"
  | FailureSpace => "free some space and try again"
  | FailureTooling => "a program hellbox depends on is missing"
  | FailureStalled => "the disc stopped being read; it may be damaged"
  | FailureUnreadable => "the drive could not read the disc; it may be dirty or damaged"
  | FailureMismatch => "the scan and the ripped source disagreed about the titles"
  | FailureCancelled => "stopped deliberately; nothing is wrong with the disc"
  | FailureOther => ""
  end.

(** ** Lemmas *)

Definition one_line (w : string) : bool := str_forall (λ x, negb (byte_eqb newline x)) w.

Lemma split_lines ls : ls ≠ [] → Forall (λ w, one_line w = true) ls →
  split_on newline (join (String newline "") ls) = ls.
Proof. intros. by apply split_join. Qed.

Lemma IsBenign_empty {U : Unicode} : IsBenign "" = false.
Proof. reflexivity. Qed.

(** What is left of a message after stripping. *)
Lemma StripBenign_lines {U : Unicode} ls :
  ls ≠ [] → Forall (λ w, one_line w = true) ls →
  StripBenign (join (String newline "") ls) =
    join (String newline "") (filter (λ l, IsBenign l = false) ls).
Proof. intros. unfold StripBenign. by rewrite split_lines. Qed.

Lemma StripBenign_insert {U : Unicode} pre post b :
  Forall (λ w, one_line w = true) (pre ++ b :: post) → IsBenign b = true →
  StripBenign (join (String newline "") (pre ++ b :: post)) =
  StripBenign (join (String newline "") (pre ++ post)).
Proof.
  intros Hl Hb. rewrite StripBenign_lines; [|by destruct pre|done].
  rewrite !filter_app, filter_cons_False by (by rewrite Hb). rewrite <- filter_app.
  destruct (decide (pre ++ post = [])) as [->|Hne]; [reflexivity|].
  rewrite StripBenign_lines; [done|done|].
  apply Forall_app in Hl as [? [_ ?]%Forall_cons]. by apply Forall_app.
Qed.

(** ** Theorems *)

(** harmless noise never decides the group.  A benign line inserted
    anywhere in a message leaves its classification unchanged, and a message
    made only of benign lines is grouped as other. *)
Theorem ClassifyFailure_ignores_benign {U : Unicode} pre b post :
  Forall (λ w, one_line w = true) (pre ++ b :: post) →
  IsBenign b = true →
  ClassifyFailure (join (String newline "") (pre ++ b :: post)) =
    ClassifyFailure (join (String newline "") (pre ++ post)) ∧
  (Forall (λ w, IsBenign w = true) (pre ++ post) →
   ClassifyFailure (join (String newline "") (pre ++ b :: post)) = FailureOther).
Proof.
  intros Hl Hb. unfold ClassifyFailure. rewrite StripBenign_insert by done. split; [done|].
  intros Hall. destruct (decide (pre ++ post = [])) as [->|Hne]; [reflexivity|].
  rewrite StripBenign_lines; [|done|].
  - rewrite filter_none; [reflexivity|]. eapply Forall_impl; [done|]. intros w Hw.
    by rewrite Hw.
  - apply Forall_app in Hl as [? [_ ?]%Forall_cons]. by apply Forall_app.
Qed.

#[local] Existing Instance caseless.

Lemma ClassifyFailure_ignores_benign_witness :
  let noise := "libdvdread: Error cracking CSS key for /VIDEO_TS/VTS_01_1.VOB" in
  ClassifyFailure (join (String newline "") ([] ++ noise :: ["no space left on device"]))
    = FailureSpace.
Proof.
  intros noise.
  assert (Hl : Forall (λ w, one_line w = true) ([] ++ noise :: ["no space left on device"]))
    by (repeat constructor).
  destruct (ClassifyFailure_ignores_benign [] noise ["no space left on device"] Hl eq_refl)
    as [-> _]. reflexivity.
Defined.

(** a job interrupted by a restart is grouped as other.  The store marks
    such jobs cancelled with the message it writes in
    ReclaimUnfinishedJobs, and no pattern of the cancelled group, nor of any
    group, matches it. *)
Theorem restart_message_is_other {U : Unicode} :
  ClassifyFailure "interrupted by a restart" = FailureOther.
Proof. reflexivity. Qed.
