(* ===== verification/Robot.v ===== *)
(** * MakeMKV's robot output (internal/makemkv/robot.go, stall.go, Scan of makemkv.go)

    The line format, the attributes of a scan gathered line by line and put
    together as a disc, and the timer that ends a stalled rip.  makemkvcon is a
    parameter: the lines it prints and how it exits. *)

From S2P Require Import Prelude GoText GoPath Disc.

(** ** Lines *)

Definition dquote : ascii := byte_of 34.
Definition backslash : ascii := byte_of 92.
Definition comma : ascii := ","%char.
Definition colon : ascii := ":"%char.

Record Line := mkLine { l_Kind : string; l_Fields : list string; l_Raw : string }.

Definition snoc (s : string) (c : ascii) : string := s +:+ String c "".

(** The loop of splitFields, with its locals. *)
Fixpoint split_loop (inQ : bool) (buf : string) (s : string) : list string :=
  match s with
  | "" => [buf]
  | String c s' =>
      if byte_eqb dquote c then
        match s' with
        | String c' s'' =>
            if inQ && byte_eqb dquote c' then split_loop inQ (snoc buf dquote) s'' else split_loop (negb inQ) buf s'
        | "" => split_loop (negb inQ) buf s'
        end
      else if byte_eqb backslash c && inQ then
        match s' with
        | String c' s'' =>
            if byte_eqb dquote c' then split_loop inQ (snoc buf dquote) s'' else split_loop inQ (snoc buf c) s'
        | "" => split_loop inQ (snoc buf c) s'
        end
      else if byte_eqb comma c && negb inQ then buf :: split_loop inQ "" s'
      else split_loop inQ (snoc buf c) s'
  end.
Definition splitFields (s : string) : list string := split_loop false "" s.

Definition is_eol (c : ascii) : bool := byte_eqb newline c || byte_eqb (byte_of 13) c.
Definition is_kind_byte (c : ascii) : bool := is_upper_byte c || is_digit_byte c || byte_eqb "_"%char c.

(** The text before and after the first colon. *)
Fixpoint cut_colon (s : string) : option (string * string) :=
  match s with
  | "" => None
  | String c s' =>
      if byte_eqb colon c then Some ("", s')
      else match cut_colon s' with Some (k, v) => Some (String c k, v) | None => None end
  end.

Definition ParseLine (raw : string) : option Line :=
  let s := trim_right is_eol raw in
  match cut_colon s with
  | Some (kind, rest) =>
      if bool_decide (kind = "") then None
      else if str_forall is_kind_byte kind then Some (mkLine kind (splitFields rest) s) else None
  | None => None
  end.

Definition field (l : Line) (n : nat) : string := default "" (l_Fields l !! n).

Record Message := mkMessage { msg_Code : Z; msg_Flags : Z; msg_Text : string }.

Record DriveLine := mkDriveLine {
  dl_Index : Z;
  dl_Visible : Z;
  dl_Enabled : Z;
  dl_Flags : Z;
  dl_DriveName : string;
  dl_DiscName : string;
  dl_DevicePath : string;
}.

(** parseBytes: the digits of the text, whatever is between them. *)
Definition parseBytes (s : string) : Z := default 0 (Atoi (str_filter is_digit_byte s)).

Section robot.
Context {U : Unicode}.

Definition intField (l : Line) (n : nat) : Z := default 0 (Atoi (TrimSpace (field l n))).

(** total = total*60 + v over the parts. *)
Fixpoint duration_loop (total : Z) (parts : list string) : Z :=
  match parts with
  | [] => total
  | p :: ps =>
      match Atoi p with
      | Some v => if v <? 0 then 0 else duration_loop (int64 (total * 60 + v)) ps
      | None => 0
      end
  end.

Definition ParseDuration (s : string) : Z :=
  let parts := split_on colon (TrimSpace s) in
  if (length parts <? 2)%nat || (3 <? length parts)%nat then 0 else duration_loop 0 parts.

Definition parseMessage (l : Line) : Message := mkMessage (intField l 0) (intField l 1) (field l 3).

Definition parseDriveLine (l : Line) : DriveLine :=
  mkDriveLine (intField l 0) (intField l 1) (intField l 2) (intField l 3) (field l 4) (field l 5) (field l 6).

(** ** Attributes *)

Definition attrType : Z := 1.
Definition attrName : Z := 2.
Definition attrLangCode : Z := 3.
Definition attrLangName : Z := 4.
Definition attrCodecID : Z := 5.
Definition attrCodecShort : Z := 6.
Definition attrChapterCount : Z := 8.
Definition attrDuration : Z := 9.
Definition attrDiskSizeBytes : Z := 11.
Definition attrBitrate : Z := 13.
Definition attrAudioChannels : Z := 14.
Definition attrSourceFileName : Z := 16.
Definition attrAudioSampleRate : Z := 17.
Definition attrVideoSize : Z := 19.
Definition attrVideoAspectRatio : Z := 20.
Definition attrVideoFrameRate : Z := 21.
Definition attrStreamFlags : Z := 22.
Definition attrSegmentsCount : Z := 25.
Definition attrSegmentsMap : Z := 26.
Definition attrOutputFileName : Z := 27.
Definition attrVolumeName : Z := 32.
Definition attrMkvFlags : Z := 38.

Definition attrString (attrs : gmap Z string) (code : Z) : string := default "" (attrs !! code).
Definition attrInt (attrs : gmap Z string) (code : Z) : Z := default 0 (Atoi (TrimSpace (attrString attrs code))).

Definition firstNonEmpty (vals : list string) : string :=
  default "" (List.find (λ v, negb (bool_decide (TrimSpace v = ""))) vals).

Definition normaliseStreamKind (s : string) : string :=
  let k := ToLower (TrimSpace s) in
  if bool_decide (k = "subtitles") then "subtitle" else k.

Fixpoint inferType (titles : list Title) : DiscType :=
  match titles with
  | [] => TypeUnknown
  | t :: ts =>
      let src := ToLower (t_SourceFile t) in
      if contains src ".m2ts" || contains src ".mpls" then TypeBluRay
      else if contains src ".vob" || contains src "vts_" then TypeDVD
      else inferType ts
  end.

(** versionRE at the start of the text: MakeMKV, white space, v, a digit, then digits and dots. *)
Definition is_re_space (c : ascii) : bool :=
  byte_eqb " "%char c || byte_eqb (byte_of 9) c || byte_eqb newline c || byte_eqb (byte_of 12) c || byte_eqb (byte_of 13) c.
Fixpoint str_span (p : ascii → bool) (s : string) : string :=
  match s with String c s' => if p c then String c (str_span p s') else "" | "" => "" end.
Fixpoint strip_prefix (p s : string) : option string :=
  match p, s with
  | "", _ => Some s
  | String a p', String b s' => if byte_eqb a b then strip_prefix p' s' else None
  | _, "" => None
  end.
Definition version_here (s : string) : option string :=
  match strip_prefix "MakeMKV" s with
  | Some (String c rest) =>
      if is_re_space c then
        match trim_left is_re_space rest with
        | String v (String d rest') =>
            if byte_eqb "v"%char v && is_digit_byte d
            then Some (String d (str_span (λ x, is_digit_byte x || byte_eqb "."%char x) rest')) else None
        | _ => None
        end
      else None
  | _ => None
  end.
Fixpoint version_in (s : string) : option string :=
  match version_here s with
  | Some v => Some v
  | None => match s with "" => None | String _ s' => version_in s' end
  end.
Fixpoint versionFromMessages (msgs : list Message) : string :=
  match msgs with
  | [] => ""
  | m :: ms => match version_in (msg_Text m) with Some v => v | None => versionFromMessages ms end
  end.

Definition msgTitleAdded : Z := 3028.
Definition announcedTitles (msgs : list Message) : Z :=
  Z.of_nat (length (List.filter (λ m, msg_Code m =? msgTitleAdded) msgs)).

(** The last two texts, newest first. *)
Definition summarise (msgs : list Message) : string :=
  let texts := List.filter (λ t, negb (bool_decide (t = ""))) (map (λ m, TrimSpace (msg_Text m)) msgs) in
  let bad := List.filter (λ t, contains (ToLower t) "fail" || contains (ToLower t) "error" || contains (ToLower t) "unable") texts in
  let out := if bool_decide (bad = []) then take 2 (reverse texts) else bad in
  let out := take 4 out in
  if bool_decide (out = []) then "no diagnostic output" else join "; " out.

(** ** Scanning *)

(** The locals the lines of a scan are gathered in. *)
Record ScanState := mkScanState {
  ss_raw : string;
  ss_Messages : list Message;
  ss_titleAttrs : gmap Z (gmap Z string);
  ss_streamAttrs : gmap Z (gmap Z string);
  ss_discAttrs : gmap Z string;
  ss_titleCount : Z;
  ss_driveModel : string;
}.
Definition scan_start : ScanState := mkScanState "" [] ∅ ∅ ∅ 0 "".

Definition set_attr (m : gmap Z (gmap Z string)) (key code : Z) (v : string) : gmap Z (gmap Z string) :=
  <[key := <[code := v]> (default ∅ (m !! key))]> m.

(** t<<16 | s on int. *)
Definition stream_key (t s : Z) : Z := Z.lor (int64 (Z.shiftl t 16)) s.

Definition scan_line (devicePath : string) (st : ScanState) (line : string) : ScanState :=
  let raw := ss_raw st +:+ line +:+ String newline "" in
  match ParseLine line with
  | None => mkScanState raw (ss_Messages st) (ss_titleAttrs st) (ss_streamAttrs st) (ss_discAttrs st) (ss_titleCount st) (ss_driveModel st)
  | Some l =>
      let kind := l_Kind l in
      let d := parseDriveLine l in
      mkScanState raw
        (if bool_decide (kind = "MSG") then ss_Messages st ++ [parseMessage l] else ss_Messages st)
        (if bool_decide (kind = "TINFO") then set_attr (ss_titleAttrs st) (intField l 0) (intField l 1) (field l 3) else ss_titleAttrs st)
        (if bool_decide (kind = "SINFO")
         then set_attr (ss_streamAttrs st) (stream_key (intField l 0) (intField l 1)) (intField l 2) (field l 4) else ss_streamAttrs st)
        (if bool_decide (kind = "CINFO") then <[intField l 0 := field l 2]> (ss_discAttrs st) else ss_discAttrs st)
        (if bool_decide (kind = "TCOUNT") then intField l 0 else ss_titleCount st)
        (if bool_decide (kind = "DRV") && bool_decide (dl_DevicePath d = devicePath) && negb (bool_decide (dl_DriveName d = ""))
         then dl_DriveName d else ss_driveModel st)
  end.

Definition stream_of (key : Z) (a : gmap Z string) : Stream :=
  mkStream (Z.land key 65535) (normaliseStreamKind (attrString a attrType))
    (firstNonEmpty [attrString a attrCodecShort; attrString a attrCodecID]) (attrString a attrLangCode)
    (attrString a attrLangName) (attrInt a attrAudioChannels) (attrString a attrAudioSampleRate)
    (attrString a attrVideoSize) (attrString a attrVideoAspectRatio) (attrString a attrVideoFrameRate)
    (attrString a attrBitrate) (firstNonEmpty [attrString a attrStreamFlags; attrString a attrMkvFlags])
    (attrString a attrName) a.

Definition stream_le (a b : Stream) : Prop := s_Index a ≤ s_Index b.
#[global] Instance stream_le_dec : RelDecision stream_le.
Proof. intros a b. unfold stream_le. apply _. Defined.

Definition streams_of (streamAttrs : gmap Z (gmap Z string)) (idx : Z) : list Stream :=
  merge_sort stream_le
    (map (λ ka, stream_of ka.1 ka.2) (List.filter (λ ka, Z.shiftr ka.1 16 =? idx) (map_to_list streamAttrs))).

Definition title_of (streamAttrs : gmap Z (gmap Z string)) (idx : Z) (a : gmap Z string) : Title :=
  mkTitle idx (ParseDuration (attrString a attrDuration)) (attrInt a attrChapterCount)
    (parseBytes (attrString a attrDiskSizeBytes)) (attrString a attrSourceFileName) (attrInt a attrSegmentsCount)
    (attrString a attrSegmentsMap) (attrString a attrName) (TitleFileName idx) (attrString a attrOutputFileName)
    (streams_of streamAttrs idx) a.

Definition titles_of (st : ScanState) : list Title :=
  map (λ idx, title_of (ss_streamAttrs st) idx (default ∅ (ss_titleAttrs st !! idx)))
    (merge_sort Z.le (map fst (map_to_list (ss_titleAttrs st)))).

Definition total_bytes (titles : list Title) : Z := foldl (λ n t, int64 (n + t_SizeBytes t)) 0 titles.

Definition disc_of (now : string) (st : ScanState) : Disc :=
  let label := TrimSpace (attrString (ss_discAttrs st) attrVolumeName) in
  let titles := titles_of st in
  mkDisc (ComputeFingerprint label titles) label "" (inferType titles) (total_bytes titles) (Some now) ""
    (ss_driveModel st) (versionFromMessages (ss_Messages st)) titles.

Definition scan_messages (st : ScanState) (n : Z) : list Message :=
  ss_Messages st ++
  (if n <? announcedTitles (ss_Messages st)
   then [mkMessage 0 0 ("hellbox: MakeMKV analysed " +:+ itoa (announcedTitles (ss_Messages st)) +:+ " titles but offered " +:+
           itoa n +:+ "; the drive may be unable to read all of this disc")] else []) ++
  (if (0 <? ss_titleCount st) && negb (ss_titleCount st =? n)
   then [mkMessage 0 0 ("hellbox: TCOUNT reported " +:+ itoa (ss_titleCount st) +:+ " titles but " +:+ itoa n +:+ " were parsed")]
   else []).

Record ScanOutcome := mkScanOutcome { so_Disc : Disc; so_Raw : string; so_Messages : list Message }.

(** Runner.Scan: [out] is what makemkvcon printed and the error it ended with; [source] is dev: or file:. *)
Definition DevicePath (source : string) : string := default "" (strip_prefix "dev:" source).
Definition Scan (source now : string) (lines : list string) (err : option string) : outcome string ScanOutcome :=
  match err with
  | Some m => Err m
  | None =>
      let st := foldl (scan_line (DevicePath source)) scan_start lines in
      let d := disc_of now st in
      let msgs := scan_messages st (Z.of_nat (length (d_Titles d))) in
      if bool_decide (d_Titles d = []) then Err ("no titles found on " +:+ source +:+ ": " +:+ summarise msgs)
      else Ok (mkScanOutcome d (ss_raw st) msgs)
  end.
End robot.
