(* ===== verification/RobotFacts.v ===== *)
(** * Reading what makemkvcon prints

    The line format reads back what was written in it, and a scan holds exactly
    the titles the lines describe. *)

From S2P Require Import Prelude GoText GoPath Disc Robot.

(** ** The format *)

(** A field as makemkvcon prints it: bare, or in quotes with embedded quotes doubled. *)
Inductive robot_field := Bare (s : string) | Quoted (s : string).
Definition field_text (f : robot_field) : string := match f with Bare s | Quoted s => s end.

Fixpoint escape (s : string) : string :=
  match s with
  | "" => ""
  | String c s' => if byte_eqb dquote c then String dquote (String dquote (escape s')) else String c (escape s')
  end.
Definition show_field (f : robot_field) : string :=
  match f with Bare s => s | Quoted s => String dquote (escape s +:+ String dquote "") end.
Definition show_line (kind : string) (fs : list robot_field) : string :=
  kind +:+ ":" +:+ join "," (map show_field fs).

(** No backslash stands before a quote: the other way of escaping it. *)
Fixpoint no_escapes (s : string) : bool :=
  match s with
  | "" => true
  | String c s' =>
      (if byte_eqb backslash c then match s' with "" => false | String c' _ => negb (byte_eqb dquote c') end else true) &&
      no_escapes s'
  end.
Definition no_eol (s : string) : bool := str_forall (λ c, negb (is_eol c)) s.
Definition field_ok (f : robot_field) : bool :=
  match f with
  | Bare s => str_forall (λ c, negb (byte_eqb dquote c) && negb (byte_eqb comma c)) s && no_eol s
  | Quoted s => no_escapes s && no_eol s
  end.

Lemma snoc_app buf c s : snoc buf c +:+ s = buf +:+ String c s.
Proof. unfold snoc. by rewrite <- str_app_assoc. Qed.

Lemma byte_eqb_true a b : byte_eqb a b = true ↔ a = b.
Proof. unfold byte_eqb. by rewrite bool_decide_eq_true. Qed.

Lemma split_bare s buf rest :
  str_forall (λ c, negb (byte_eqb dquote c) && negb (byte_eqb comma c)) s = true →
  split_loop false buf (s +:+ rest) = split_loop false (buf +:+ s) rest.
Proof.
  revert buf; induction s as [|c s IH]; intros buf; [by rewrite str_app_empty_r|]. cbn [str_forall].
  intros [[Hq%negb_true_iff Hc%negb_true_iff]%andb_true_iff Hs]%andb_true_iff.
  cbn [String.append split_loop]. rewrite Hq, Hc, andb_false_r. cbn [andb]. by rewrite IH, snoc_app.
Qed.

(** What follows a field does not start with a quote. *)
Definition not_quote (s : string) : Prop := match s with String c _ => byte_eqb dquote c = false | "" => True end.

Lemma escape_head s rest c s' :
  no_escapes (String backslash s) = true → escape s +:+ rest = String c s' → byte_eqb dquote c = false.
Proof.
  destruct s as [|c0 s]; [done|]. change (no_escapes (String backslash (String c0 s))) with (negb (byte_eqb dquote c0) && no_escapes (String c0 s)).
  intros [Hq%negb_true_iff _]%andb_true_iff. cbn [escape]. rewrite Hq. cbn [String.append]. by intros [= -> _].
Qed.

Lemma split_quoted s buf rest :
  no_escapes s = true → not_quote rest →
  split_loop true buf (escape s +:+ String dquote rest) = split_loop false (buf +:+ s) rest.
Proof.
  intros Hs Hr. revert buf; induction s as [|c s IH]; intros buf.
  - rewrite str_app_empty_r. cbn [escape String.append split_loop]. rewrite (proj2 (byte_eqb_true dquote dquote)) by done.
    destruct rest as [|c r]; [done|]. simpl in Hr. by rewrite Hr.
  - assert (no_escapes s = true) as Hs' by (cbn [no_escapes] in Hs; by apply andb_true_iff in Hs as [_ ?]).
    specialize (IH Hs'). cbn [escape]. destruct (byte_eqb dquote c) eqn:Eq.
    + apply byte_eqb_true in Eq as <-. cbn [String.append split_loop].
      rewrite (proj2 (byte_eqb_true dquote dquote)) by done. cbn [andb]. by rewrite IH, snoc_app.
    + cbn [String.append split_loop]. rewrite Eq, !andb_false_r, andb_true_r. destruct (byte_eqb backslash c) eqn:Eb; [|by rewrite IH, snoc_app].
      apply byte_eqb_true in Eb as <-. destruct (escape s +:+ String dquote rest) as [|c' r] eqn:E.
      * by apply append_not_empty in E.
      * rewrite (escape_head _ _ _ _ Hs E), IH. by rewrite snoc_app.
Qed.

Lemma split_field f rest :
  field_ok f = true → not_quote rest → split_loop false "" (show_field f +:+ rest) = split_loop false (field_text f) rest.
Proof.
  destruct f as [s|s]; cbn [field_ok show_field field_text]; intros [Hf _]%andb_true_iff Hr; [by rewrite split_bare|].
  cbn [String.append split_loop]. rewrite (proj2 (byte_eqb_true dquote dquote)) by done. cbn [andb].
  rewrite <- str_app_assoc. change (String dquote "" +:+ rest) with (String dquote rest).
  destruct (escape s +:+ String dquote rest) eqn:E; [by apply append_not_empty in E|]. rewrite <- E. by rewrite split_quoted.
Qed.

Lemma splitFields_show fs :
  fs ≠ [] → Forall (λ f, field_ok f = true) fs → splitFields (join "," (map show_field fs)) = map field_text fs.
Proof.
  unfold splitFields, join. induction fs as [|f fs IH]; [done|]. intros _ [Hf Hfs]%Forall_cons. destruct fs as [|g fs].
  - cbn [map String.concat]. rewrite <- (str_app_empty_r (show_field f)). by rewrite split_field.
  - change (String.concat "," (map show_field (f :: g :: fs)))
      with (show_field f +:+ String comma (String.concat "," (map show_field (g :: fs)))).
    rewrite split_field by done. cbn [split_loop]. by rewrite IH.
Qed.

Lemma trim_right_none p s : str_forall (λ c, negb (p c)) s = true → trim_right p s = s.
Proof.
  induction s as [|c s IH]; [done|]. cbn [str_forall trim_right]. intros [Hc%negb_true_iff Hs]%andb_true_iff.
  rewrite IH by done. destruct s; [by rewrite Hc|done].
Qed.

Lemma trim_right_app p s t : str_forall p t = true → trim_right p (s +:+ t) = trim_right p s.
Proof.
  intros Ht. induction s as [|c s IH]; [|cbn [String.append trim_right]; by rewrite IH].
  induction t as [|c t IH]; [done|]. cbn [str_forall String.append trim_right] in *. apply andb_true_iff in Ht as [Hc Ht].
  rewrite IH by done. by rewrite Hc.
Qed.

Lemma cut_colon_kind kind rest : str_forall is_kind_byte kind = true → cut_colon (kind +:+ ":" +:+ rest) = Some (kind, rest).
Proof.
  induction kind as [|c kind IH]; [done|]. cbn [str_forall]. intros [Hc Hk]%andb_true_iff.
  change (String c kind +:+ ":" +:+ rest) with (String c (kind +:+ ":" +:+ rest)). cbn [cut_colon].
  assert (byte_eqb colon c = false) as ->.
  { destruct (byte_eqb colon c) eqn:E; [|done]. apply byte_eqb_true in E as <-. by vm_compute in Hc. }
  by rewrite IH.
Qed.

Lemma escape_no_eol s : no_eol s = true → no_eol (escape s) = true.
Proof.
  unfold no_eol. induction s as [|c s IH]; [done|]. cbn [str_forall escape]. intros [Hc Hs]%andb_true_iff.
  destruct (byte_eqb dquote c); cbn [str_forall]; rewrite ?Hc, IH by done; done.
Qed.

Lemma kind_no_eol kind : str_forall is_kind_byte kind = true → no_eol kind = true.
Proof. apply str_forall_impl. intros c. by destruct c as [[] [] [] [] [] [] [] []]. Qed.

Lemma show_line_no_eol kind fs :
  str_forall is_kind_byte kind = true → Forall (λ f, field_ok f = true) fs → no_eol (show_line kind fs) = true.
Proof.
  intros Hk Hfs. unfold show_line, no_eol. rewrite !str_forall_app.
  pose proof (kind_no_eol kind Hk) as Hk'. unfold no_eol in Hk'. rewrite Hk'. cbn [andb]. 
  assert (∀ l, Forall (λ w, no_eol w = true) l → no_eol (join "," l) = true) as Hj.
  { clear. unfold join, no_eol. induction 1 as [|w ws Hw Hws IH]; [done|]. destruct ws as [|w' ws]; [done|].
    change (String.concat "," (w :: w' :: ws)) with (w +:+ "," +:+ String.concat "," (w' :: ws)).
    by rewrite !str_forall_app, Hw, IH. }
  apply Hj, Forall_map. eapply Forall_impl; [exact Hfs|]. intros [s|s]; cbn [field_ok show_field]; intros [_ Hs]%andb_true_iff; [done|].
  unfold no_eol. cbn [str_forall]. rewrite str_forall_app. pose proof (escape_no_eol s Hs) as He. unfold no_eol in He. by rewrite He.
Qed.

(** A robot-mode line reads back as what was printed: its kind and its fields, bare or quoted,
    with commas and doubled quotes inside quoted fields, whatever line ending follows. *)
Theorem ParseLine_roundtrip kind fs eol :
  kind ≠ "" → str_forall is_kind_byte kind = true → fs ≠ [] → Forall (λ f, field_ok f = true) fs →
  str_forall is_eol eol = true →
  ParseLine (show_line kind fs +:+ eol) = Some (mkLine kind (map field_text fs) (show_line kind fs)).
Proof.
  intros Hne Hk Hfs Hok He. unfold ParseLine.
  rewrite trim_right_app, trim_right_none by (try done; by apply show_line_no_eol).
  unfold show_line at 1. rewrite cut_colon_kind by done. rewrite bool_decide_eq_false_2, Hk by done.
  by rewrite splitFields_show.
Qed.

(** A name with quotes and a comma in it. *)
Definition odd_name : string := "Say " +:+ String dquote ("Hi, you" +:+ String dquote "!").
Lemma ParseLine_roundtrip_witness :
  ParseLine (show_line "TINFO" [Bare "0"; Bare "2"; Bare "0"; Quoted odd_name] +:+ String newline "") =
  Some (mkLine "TINFO" ["0"; "2"; "0"; odd_name] (show_line "TINFO" [Bare "0"; Bare "2"; Bare "0"; Quoted odd_name])).
Proof. apply (ParseLine_roundtrip "TINFO"); [done|done|done|by repeat constructor|done]. Defined.

(** With both ways of escaping accepted, a quoted field that ends in a backslash runs into the next. *)
Example trailing_backslash :
  length (splitFields (join "," (map show_field [Quoted (String backslash ""); Quoted "b"]))) = 1%nat.
Proof. reflexivity. Qed.

(** ** A scan *)

Section scanning.
Context {U : Unicode}.

(** The line sets attribute [c] of title [i] to this value. *)
Definition tinfo (i c : Z) (line : string) : option string :=
  match ParseLine line with
  | Some l => if bool_decide (l_Kind l = "TINFO") && (intField l 0 =? i) && (intField l 1 =? c) then Some (field l 3) else None
  | None => None
  end.
(** The line describes title [i]. *)
Definition describes (i : Z) (line : string) : bool :=
  match ParseLine line with
  | Some l => bool_decide (l_Kind l = "TINFO") && (intField l 0 =? i)
  | None => false
  end.

Lemma scan_line_titles dev st line :
  ss_titleAttrs (scan_line dev st line) =
  match ParseLine line with
  | Some l => if bool_decide (l_Kind l = "TINFO") then set_attr (ss_titleAttrs st) (intField l 0) (intField l 1) (field l 3) else ss_titleAttrs st
  | None => ss_titleAttrs st
  end.
Proof. unfold scan_line. by destruct (ParseLine line). Qed.

Lemma scan_known dev lines i :
  is_Some (ss_titleAttrs (foldl (scan_line dev) scan_start lines) !! i) ↔ ∃ line, line ∈ lines ∧ describes i line = true.
Proof.
  induction lines as [|line lines IH] using rev_ind.
  { split; [by intros [? ?]|]. by intros (? & ?%not_elem_of_nil & _). }
  rewrite foldl_app. cbn [foldl]. rewrite scan_line_titles. set (st := foldl _ _ _) in *.
  assert ((∃ l, l ∈ lines ++ [line] ∧ describes i l = true) ↔ is_Some (ss_titleAttrs st !! i) ∨ describes i line = true) as ->.
  { rewrite IH. set_solver. }
  unfold describes. destruct (ParseLine line) as [l|]; [|naive_solver].
  destruct (bool_decide (l_Kind l = "TINFO")); cbn [andb]; [|naive_solver]. unfold set_attr.
  destruct (Z.eqb_spec (intField l 0) i) as [->|Hi]; [rewrite lookup_insert_eq; naive_solver|].
  rewrite lookup_insert_ne by done. naive_solver.
Qed.

Lemma scan_attrs dev lines i c :
  (ss_titleAttrs (foldl (scan_line dev) scan_start lines) !! i ≫= λ a, a !! c) = last (omap (tinfo i c) lines).
Proof.
  induction lines as [|line lines IH] using rev_ind; [done|]. rewrite foldl_app, omap_app, last_app. cbn [foldl omap list_omap].
  rewrite scan_line_titles. set (st := foldl _ _ _) in *. unfold tinfo at 1.
  destruct (ParseLine line) as [l|]; [|done]. destruct (bool_decide (l_Kind l = "TINFO")); [|done]. cbn [andb]. unfold set_attr.
  destruct (Z.eqb_spec (intField l 0) i) as [->|Hi].
  - rewrite lookup_insert_eq. cbn [mbind option_bind]. destruct (Z.eqb_spec (intField l 1) c) as [->|Hc]; cbn [andb].
    + by rewrite lookup_insert_eq.
    + rewrite lookup_insert_ne by done. cbn [last]. rewrite <- IH. by destruct (ss_titleAttrs st !! i).
  - rewrite lookup_insert_ne by done. done.
Qed.

Lemma scan_raw dev lines st :
  ss_raw (foldl (scan_line dev) st lines) = ss_raw st +:+ String.concat "" (map (λ l, l +:+ String newline "") lines).
Proof.
  revert st; induction lines as [|line lines IH]; intros st; [by rewrite str_app_empty_r|]. cbn [foldl map]. rewrite IH.
  assert (ss_raw (scan_line dev st line) = ss_raw st +:+ line +:+ String newline "") as ->.
  { unfold scan_line. by destruct (ParseLine line). }
  destruct lines as [|line' lines]; cbn [map String.concat]; rewrite ?str_app_empty_r; [done|]. by rewrite <- !str_app_assoc.
Qed.

Lemma strictly_sorted {A} (key : A → Z) l :
  StronglySorted (λ a b, key a ≤ key b) l → NoDup (map key l) → StronglySorted (λ a b, key a < key b) l.
Proof.
  induction 1 as [|a l Hs IH Hall]; intros Hnd; constructor; cbn [map] in Hnd; apply NoDup_cons in Hnd as [Ha Hnd]; [auto|].
  apply Forall_forall. intros b Hb. rewrite Forall_forall in Hall. specialize (Hall b Hb).
  assert (key a ≠ key b); [|lia]. intros E. apply Ha. rewrite E. by apply list_elem_of_In, in_map, list_elem_of_In.
Qed.

#[local] Instance stream_le_total : Total stream_le.
Proof. intros a b. unfold stream_le. lia. Qed.
#[local] Instance stream_le_trans : Transitive stream_le.
Proof. intros a b c. unfold stream_le. lia. Qed.

Lemma key_split k : k = Z.shiftr k 16 * 65536 + Z.land k 65535.
Proof.
  change 65535 with (Z.ones 16). rewrite Z.land_ones, Z.shiftr_div_pow2 by lia.
  pose proof (Z.div_mod k (2 ^ 16)). change 65536 with (2 ^ 16). lia.
Qed.

Lemma streams_sorted m idx : StronglySorted (λ a b, s_Index a < s_Index b) (streams_of m idx).
Proof.
  apply strictly_sorted; [apply (StronglySorted_merge_sort stream_le)|].
  unfold streams_of. rewrite merge_sort_Permutation, map_map. cbn [s_Index stream_of].
  pose proof (NoDup_fst_map_to_list m) as Hnd. change (fst <$> map_to_list m) with (map fst (map_to_list m)) in Hnd.
  induction (map_to_list m) as [|[k a] l IH]; cbn [List.filter map fst] in *; [constructor|].
  apply NoDup_cons in Hnd as [Hk Hnd]. destruct (Z.eqb_spec (Z.shiftr k 16) idx) as [E|E]; [|by apply IH].
  cbn [map fst]. apply NoDup_cons. split; [|by apply IH].
  intros ([k' a'] & Ek & [Hin Hk'%Z.eqb_eq]%filter_In)%list_elem_of_In%in_map_iff. cbn [fst] in *.
  apply Hk, list_elem_of_In, in_map_iff. exists (k', a'). split; [|done]. cbn [fst].
  rewrite (key_split k), (key_split k'), E, Hk'. lia.
Qed.

Lemma titles_sorted st : StronglySorted (λ a b, t_Index a < t_Index b) (titles_of st).
Proof.
  assert (map t_Index (titles_of st) = merge_sort Z.le (map fst (map_to_list (ss_titleAttrs st)))) as E.
  { unfold titles_of. rewrite map_map. apply map_id. }
  apply strictly_sorted.
  - pose proof (StronglySorted_merge_sort Z.le (map fst (map_to_list (ss_titleAttrs st)))) as Hs. rewrite <- E in Hs.
    clear E. induction (titles_of st) as [|t ts IH]; [constructor|]. cbn [map] in Hs. apply StronglySorted_cons in Hs as [Ht Hs].
    constructor; [by apply IH|]. rewrite Forall_map in Ht. exact Ht.
  - rewrite E, merge_sort_Permutation. apply (NoDup_fst_map_to_list (ss_titleAttrs st)).
Qed.

Lemma elem_of_titles st t :
  t ∈ titles_of st ↔ ∃ a, ss_titleAttrs st !! t_Index t = Some a ∧ t = title_of (ss_streamAttrs st) (t_Index t) a.
Proof.
  unfold titles_of. rewrite list_elem_of_In, in_map_iff. split.
  - intros (i & <- & Hi%list_elem_of_In). rewrite merge_sort_Permutation in Hi.
    apply list_elem_of_In, in_map_iff in Hi as ([i' a] & E & Ha%list_elem_of_In%elem_of_map_to_list). cbn [fst] in E. subst i'.
    cbn [t_Index title_of]. rewrite Ha. by exists a.
  - intros (a & Ha & E). exists (t_Index t). split; [by rewrite Ha|]. apply list_elem_of_In. rewrite merge_sort_Permutation.
    apply list_elem_of_In, in_map_iff. exists (t_Index t, a). split; [done|]. by apply list_elem_of_In, elem_of_map_to_list.
Qed.

Lemma digits_value_nonneg acc s : 0 ≤ acc → str_forall is_digit_byte s = true → 0 ≤ digits_value acc s.
Proof.
  revert acc; induction s as [|c s IH]; intros acc Ha; [done|]. cbn [str_forall digits_value]. intros [Hc Hs]%andb_true_iff.
  apply IH; [|done]. unfold digit_val. unfold is_digit_byte, in_range in Hc. breflect. lia.
Qed.

Lemma parseBytes_nonneg s : 0 ≤ parseBytes s.
Proof.
  unfold parseBytes. assert (str_forall is_digit_byte (str_filter is_digit_byte s) = true) as Hd.
  { induction s as [|c s IH]; [done|]. cbn [str_filter]. destruct (is_digit_byte c) eqn:E; [|done]. cbn [str_forall]. by rewrite E. }
  revert Hd. generalize (str_filter is_digit_byte s). intros t Ht. unfold Atoi.
  destruct t as [|c t]; [done|]. pose proof Ht as Hc. cbn [str_forall] in Hc. apply andb_true_iff in Hc as [Hc _].
  assert (byte_eqb dash c = false) as -> by (destruct (byte_eqb dash c) eqn:E; [|done]; apply byte_eqb_true in E as <-; by vm_compute in Hc).
  assert (byte_eqb "+"%char c = false) as -> by (destruct (byte_eqb "+"%char c) eqn:E; [|done]; apply byte_eqb_true in E as <-; by vm_compute in Hc).
  destruct (is_digits _); [|done]. destruct (_ && _); [|done]. cbn [default]. by apply digits_value_nonneg.
Qed.
End scanning.

(** C37: A scan that succeeds holds exactly the titles makemkvcon described, each once and in order,
    every attribute with the last value printed for it, sizes that are not negative and streams in
    order; its fingerprint is that of its label and titles, and every line is kept verbatim. *)
Theorem Scan_spec `{Unicode} source now lines err r :
  Scan source now lines err = Ok r →
  let d := so_Disc r in
  err = None ∧ d_Titles d ≠ [] ∧
  StronglySorted (λ a b, t_Index a < t_Index b) (d_Titles d) ∧
  (∀ i, i ∈ map t_Index (d_Titles d) ↔ ∃ line, line ∈ lines ∧ describes i line = true) ∧
  Forall (λ t, 0 ≤ t_SizeBytes t ∧ StronglySorted (λ a b, s_Index a < s_Index b) (t_Streams t) ∧
    ∀ c, t_Attrs t !! c = last (omap (tinfo (t_Index t) c) lines)) (d_Titles d) ∧
  d_Fingerprint d = ComputeFingerprint (d_VolumeLabel d) (d_Titles d) ∧
  so_Raw r = String.concat "" (map (λ l, l +:+ String newline "") lines).
Proof.
  unfold Scan. destruct err; [done|]. cbv zeta. set (st := foldl _ _ _). case_bool_decide as Hne; [done|]. intros [= <-].
  cbn [so_Disc so_Raw d_Titles d_Fingerprint d_VolumeLabel disc_of] in *.
  split; [done|]. split; [done|]. split; [apply titles_sorted|]. split; [|split; [|split; [done|apply scan_raw]]].
  - intros i. unfold st. rewrite <- (scan_known (DevicePath source) lines i). fold st. rewrite list_elem_of_In, in_map_iff. split.
    + intros (t & <- & Ht%list_elem_of_In). apply elem_of_titles in Ht as (a & -> & _). eauto.
    + intros [a Ha]. exists (title_of (ss_streamAttrs st) i a). split; [done|]. apply list_elem_of_In, elem_of_titles. by exists a.
  - apply Forall_forall. intros t (a & Ha & ->)%elem_of_titles. cbn [t_SizeBytes t_Streams t_Attrs t_Index title_of] in *.
    split; [apply parseBytes_nonneg|]. split; [apply streams_sorted|]. intros c.
    rewrite <- (scan_attrs (DevicePath source) lines). fold st. by rewrite Ha.
Qed.

(** A disc with two titles, described out of order, one attribute printed twice. *)
Definition demo_scan : list string :=
  map (λ f, show_line f.1 f.2)
    [("TINFO", [Bare "1"; Bare "9"; Bare "0"; Quoted "0:45:00"]); ("CINFO", [Bare "32"; Bare "0"; Quoted "HEAT"]);
     ("TINFO", [Bare "0"; Bare "9"; Bare "0"; Quoted "2:50:00"]); ("TINFO", [Bare "0"; Bare "11"; Bare "0"; Quoted "4000000000"]);
     ("SINFO", [Bare "0"; Bare "1"; Bare "1"; Bare "0"; Quoted "Audio"]); ("TINFO", [Bare "1"; Bare "9"; Bare "0"; Quoted "0:46:00"])].

Lemma Scan_spec_witness :
  ∃ r, @Scan caseless "dev:/dev/sr0" "now" demo_scan None = Ok r ∧
    map t_Index (d_Titles (so_Disc r)) = [0; 1] ∧ map t_DurationSecs (d_Titles (so_Disc r)) = [10200; 2760] ∧
    StronglySorted (λ a b, t_Index a < t_Index b) (d_Titles (so_Disc r)).
Proof.
  destruct (@Scan caseless "dev:/dev/sr0" "now" demo_scan None) as [r|m] eqn:E; [|vm_compute in E; discriminate].
  exists r. split; [reflexivity|]. destruct (@Scan_spec caseless _ _ _ _ _ E) as (_ & _ & Hs & _).
  split; [|split; [|exact Hs]]; vm_compute in E; injection E as <-; vm_compute; reflexivity.
Defined.
