(* ===== verification/Key.v ===== *)
(** * The MakeMKV registration key (internal/makemkv/key.go)

    The beta key is read from a forum page and put into settings.conf.  The
    page is text and the regular expressions of the source are run on it; the
    settings file is edited by the steps of WriteSettingsKey, each of which
    may break off, on a map from paths to contents.

    [ParseBetaKey_shape]: what is taken from a page is a key.
    [WriteSettingsKey_atomic]: at every moment settings.conf is the old file or
    the whole new one.  [WriteSettingsKey_roundtrip]: the new file gives the
    key back, and keeps every other setting.  [RefreshBetaKey_idempotent]: a
    key that is in place is left alone. *)

From S2P Require Import Prelude GoText GoPath Regex RegexLines.

Definition quot_mark : ascii := byte_of 34.
Definition quoted (s : string) : string := String quot_mark (s +:+ String quot_mark "").

(** fmt's [%q] on a byte of an ASCII string. *)
Definition hex_digit (n : Z) : ascii := byte_of (if n <? 10 then 48 + n else 87 + n).
Definition quote_byte (c : ascii) : string :=
  let b := byte_val c in
  let esc (d : ascii) := String (byte_of 92) (String d "") in
  if (b =? 34) || (b =? 92) then esc c
  else if b =? 7 then esc "a"%char else if b =? 8 then esc "b"%char
  else if b =? 9 then esc "t"%char else if b =? 10 then esc "n"%char
  else if b =? 11 then esc "v"%char else if b =? 12 then esc "f"%char
  else if b =? 13 then esc "r"%char
  else if (b <? 32) || (b =? 127) then
    esc "x"%char +:+ String (hex_digit (Z.shiftr b 4)) (String (hex_digit (Z.land b 15)) "")
  else String c "".
Fixpoint quote_ascii (s : string) : string :=
  match s with "" => "" | String c s' => quote_byte c +:+ quote_ascii s' end.

(** ** The page *)

Definition key_rune (r : Z) : bool := r_upper r || r_lower r || r_digit r || r_one_of "@_+/*-" r.
(** \bT-[A-Za-z0-9@_+/*-]{40,120}\b *)
Definition keyRE : regex := Seq WordB (Seq (lit "T-") (Seq (Rep 40 120 (Cls key_rune)) WordB)).
(** (?is)<code[^>]*>(.*?)</code> *)
Definition codeBlockRE : regex :=
  Seq (lit_i "<code") (Seq (Star true (Cls (λ r, negb (r_is ">" r)))) (Seq (lit ">")
    (Seq (Cap 1 (Star false (Cls (λ _, true)))) (lit_i "</code>")))).
(** (?i)valid until ([^.<]{1,60}) *)
Definition validUntilRE : regex :=
  Seq (lit_i "valid until ") (Cap 1 (Rep 1 60 (Cls (λ r, negb (r_one_of ".<" r))))).
(** (?mi)^[ \t]*app_Key[ \t]*=.*$ *)
Definition r_blank (r : Z) : bool := (r =? 32) || (r =? 9).
Definition settingsKey_body : regex :=
  Seq (Star true (Cls r_blank)) (Seq (lit_i "app_Key")
    (Seq (Star true (Cls r_blank)) (Seq (lit "=") (Star true (Cls r_dot))))).
Definition settingsKeyRE : regex := line_re settingsKey_body.

Record BetaKey := mkBetaKey { Key : string; ValidUntil : string }.

Definition min2 (a b : Z) : Z := if a <? b then a else b.
Definition max2 (a b : Z) : Z := if b <? a then a else b.
Definition ellipsis : string := String (byte_of 226) (String (byte_of 128) (String (byte_of 166) "")).
(** BetaKey.String: the payload is elided. *)
Definition betaKey_String (b : BetaKey) : string :=
  if bool_decide (Key b = "") then "(no key)"
  else
    let n := len (Key b) in
    let suffix := if bool_decide (ValidUntil b = "") then "" else ", valid until " +:+ ValidUntil b in
    String.substring 0 (Z.to_nat (min2 6 n)) (Key b) +:+ ellipsis +:+
    String.substring (Z.to_nat (max2 0 (n - 4))) (Z.to_nat (n - max2 0 (n - 4))) (Key b) +:+
    " (" +:+ itoa n +:+ " chars" +:+ suffix +:+ ")".

(** os.ReadFile *)
Inductive readFile := RNotExist | RErr (e : string) | RContents (s : string).
(** A response: its status and the body, or the error reading it. *)
Record response := mkResponse { StatusCode : Z; Body : outcome string string }.

(** strings.Cut for a one-byte separator. *)
Fixpoint Cut (sep : ascii) (s : string) : option (string * string) :=
  match s with
  | "" => None
  | String c s' =>
      if byte_eqb sep c then Some ("", s')
      else match Cut sep s' with Some (a, b) => Some (String c a, b) | None => None end
  end.

(** ** The settings file *)

(** Contents and permission bits by path. *)
Notation Files := (gmap string (string * Z)).
Inductive fop :=
| MkdirAll (dir : string)
| WriteFile (path contents : string) (mode : Z)
| CreateTemp (path : string)
| WriteTemp (path contents : string)
| Chmod (path : string) (mode : Z)
| CloseTemp (path : string)
| Rename (from to : string)
| Remove (path : string).
(** A step of the edit is done, or fails and may leave a write half made. *)
Inductive fstep := Did (o : fop) | Broke (o : fop).

Definition fop_done (o : fop) (fs : Files) : Files :=
  match o with
  | MkdirAll _ | CloseTemp _ => fs
  | WriteFile p s m => <[p := (s, match fs !! p with Some (_, m') => m' | None => m end)]> fs
  | CreateTemp p => <[p := ("", 384)]> fs
  | WriteTemp p s => <[p := (s, match fs !! p with Some (_, m') => m' | None => 384 end)]> fs
  | Chmod p m => match fs !! p with Some (s, _) => <[p := (s, m)]> fs | None => fs end
  | Rename a b => match fs !! a with Some x => <[b := x]> (delete a fs) | None => fs end
  | Remove p => delete p fs
  end.
(** The states an operation that is interrupted, or that fails, can leave. *)
Definition fop_broken (o : fop) (fs fs' : Files) : Prop :=
  fs' = fs ∨
  match o with
  | WriteFile p s m => ∃ part, String.prefix part s = true ∧ fop_done (WriteFile p part m) fs = fs'
  | WriteTemp p s => ∃ part, String.prefix part s = true ∧ fop_done (WriteTemp p part) fs = fs'
  | _ => False
  end.
Inductive fsteps : list fstep → Files → Files → Prop :=
| fs_nil fs : fsteps [] fs fs
| fs_did o l fs fs' : fsteps l (fop_done o fs) fs' → fsteps (Did o :: l) fs fs'
| fs_broke o l fs fs1 fs' : fop_broken o fs fs1 → fsteps l fs1 fs' → fsteps (Broke o :: l) fs fs'.

(** The process dies somewhere in the steps, possibly in the middle of one. *)
Inductive crash : list fstep → Files → Files → Prop :=
| cr_here l fs : crash l fs fs
| cr_inside o l fs fs' : fop_broken o fs fs' → crash (Did o :: l) fs fs'
| cr_did o l fs fs' : crash l (fop_done o fs) fs' → crash (Did o :: l) fs fs'
| cr_broke o l fs fs1 fs' : fop_broken o fs fs1 → crash l fs1 fs' → crash (Broke o :: l) fs fs'.

(** What can go wrong, and the name the temporary file gets. *)
Record SettingsEnv := mkSettingsEnv {
  sv_mkdir : option string;
  sv_read : option string;
  sv_stat : option string;
  sv_backup : option string;
  sv_createTemp : option string;
  sv_write : option string;
  sv_chmod : option string;
  sv_close : option string;
  sv_rename : option string;
  sv_tmp : string;
}.
Definition no_faults (tmp : string) : SettingsEnv :=
  mkSettingsEnv None None None None None None None None None tmp.

Section key.
Context {U : Unicode}.
(** html.UnescapeString: a table of entities. *)
Context (unescape : string → string).
(** fmt's [%q] on a string with a non-ASCII byte: the tables of printable runes. *)
Context (quote_other : string → string).

Definition ParseBetaKey (page : string) : outcome string BetaKey :=
  let candidates := (λ m, TrimSpace (unescape (cap 1 m))) <$> FindAllStringSubmatch codeBlockRE page in
  let in_block := match filter (λ c, MatchString keyRE c = true) candidates with
                  | c :: _ => FindString keyRE c | [] => "" end in
  let key := if bool_decide (in_block = "") then FindString keyRE (unescape page) else in_block in
  if bool_decide (key = "") then Err "no MakeMKV key found on the page; its layout may have changed"
  else Ok (mkBetaKey key
    (match FindStringSubmatch validUntilRE page with Some m => TrimSpace (cap 1 m) | None => "" end)).

Definition BetaKeyURL : string := "https://forum.makemkv.com/forum/viewtopic.php?t=1053".
(** io.LimitReader(body, 4<<20) *)
Definition limit_body (s : string) : string :=
  if len s <=? 4194304 then s else String.substring 0 (Z.to_nat 4194304) s.

(** FetchBetaKey: [get] makes the request. *)
Definition FetchBetaKey (get : string → outcome string response) (url : string) : outcome string BetaKey :=
  let url := if bool_decide (url = "") then BetaKeyURL else url in
  match get url with
  | Err e => Err ("fetch " +:+ url +:+ ": " +:+ e)
  | Ok resp =>
      if negb (StatusCode resp =? 200) then Err ("fetch " +:+ url +:+ ": HTTP " +:+ itoa (StatusCode resp))
      else match Body resp with
           | Err e => Err ("read " +:+ url +:+ ": " +:+ e)
           | Ok body => ParseBetaKey (limit_body body)
           end
  end.

(** DefaultSettingsPath: [home] is os.UserHomeDir. *)
Definition DefaultSettingsPath (home : outcome string string) : string :=
  match home with
  | Err _ => ""
  | Ok h => if bool_decide (h = "") then "" else Join [h; ".MakeMKV"; "settings.conf"]
  end.

Definition settings_value (line : string) : string :=
  match Cut "="%char line with
  | Some (_, value) => trim (byte_eqb quot_mark) (TrimSpace value)
  | None => ""
  end.
Definition ReadSettingsKey (path : string) (f : readFile) : outcome string string :=
  match f with
  | RErr e => Err ("read " +:+ path +:+ ": " +:+ e)
  | RNotExist => Ok ""
  | RContents b =>
      let line := FindString settingsKeyRE b in
      if bool_decide (line = "") then Ok "" else Ok (settings_value line)
  end.

(** What os.ReadFile gives for a path of the store. *)
Definition read_of (fs : Files) (fault : option string) (path : string) : readFile :=
  match fault with
  | Some e => RErr e
  | None => match fs !! path with Some (s, _) => RContents s | None => RNotExist end
  end.

(** fmt's [%q]. *)
Definition quote (s : string) : string := if is_ascii s then quoted (quote_ascii s) else quote_other s.
Definition app_Key_line (key : string) : string := "app_Key = " +:+ quote key.
Definition updated_settings (existing key : string) : string :=
  let line := app_Key_line key in
  if MatchString settingsKeyRE existing then ReplaceAllLiteralString settingsKeyRE existing line
  else if bool_decide (existing = "") then line +:+ nl
  else trim_right (byte_eqb newline) existing +:+ nl +:+ line +:+ nl.

(** One operation after another until one fails, then the deferred removal. *)
Fixpoint attempt (l : list (fop * option string * string)) : list fstep * outcome string unit :=
  match l with
  | [] => ([], Ok tt)
  | (o, fault, what) :: l' =>
      match fault with
      | Some e => ([Broke o], Err (what +:+ ": " +:+ e))
      | None => let '(s, r) := attempt l' in (Did o :: s, r)
      end
  end.

Definition WriteSettingsKey (v : SettingsEnv) (fs : Files) (path key : string) : list fstep * outcome string unit :=
  if negb (MatchString keyRE key) then ([], Err "refusing to write a value that is not a MakeMKV key")
  else
    let dir := Dir path in
    let '(s0, r0) := attempt [(MkdirAll dir, sv_mkdir v, "create " +:+ dir)] in
    match r0 with
    | Err e => (s0, Err e)
    | Ok _ =>
        match read_of fs (sv_read v) path with
        | RErr e => (s0, Err ("read " +:+ path +:+ ": " +:+ e))
        | f =>
            let '(existing, mode, backup) :=
              match f with
              | RContents s =>
                  let mode := match sv_stat v, fs !! path with None, Some (_, m) => m | _, _ => 384 end in
                  (s, mode, [(WriteFile (path +:+ ".bak") s mode, sv_backup v, "back up " +:+ path)])
              | _ => ("", 384, [])
              end in
            let '(s1, r1) := attempt backup in
            match r1 with
            | Err e => (s0 ++ s1, Err e)
            | Ok _ =>
                let tmp := sv_tmp v in
                match sv_createTemp v with
                | Some e => (s0 ++ s1, Err ("create temporary settings file: " +:+ e))
                | None =>
                    let '(s2, r2) := attempt [
                      (WriteTemp tmp (updated_settings existing key), sv_write v, "write temporary settings file");
                      (Chmod tmp mode, sv_chmod v, "set permissions on temporary settings file");
                      (CloseTemp tmp, sv_close v, "close temporary settings file");
                      (Rename tmp path, sv_rename v, "install " +:+ path)] in
                    (s0 ++ s1 ++ [Did (CreateTemp tmp)] ++ s2 ++ [Did (Remove tmp)], r2)
                end
            end
        end
    end.

Record RefreshResult := mkRefresh { Fetched : BetaKey; Changed : bool; rf_Path : string }.

Definition RefreshBetaKey (v : SettingsEnv) (get : string → outcome string response) (fs : Files)
    (url settingsPath : string) : list fstep * outcome string RefreshResult :=
  if bool_decide (settingsPath = "") then
    ([], Err "no MakeMKV settings path; set makemkv_settings_path in the config")
  else
    match FetchBetaKey get url with
    | Err e => ([], Err e)
    | Ok fetched =>
        match ReadSettingsKey settingsPath (read_of fs (sv_read v) settingsPath) with
        | Err e => ([], Err e)
        | Ok current =>
            if bool_decide (current = Key fetched) then ([], Ok (mkRefresh fetched false settingsPath))
            else
              let '(s, r) := WriteSettingsKey v fs settingsPath (Key fetched) in
              match r with
              | Err e => (s, Err e)
              | Ok _ => (s, Ok (mkRefresh fetched true settingsPath))
              end
        end
    end.
End key.

(** ** A key *)

Definition key_shaped (k : string) : Prop :=
  ∃ body, k = "T-" +:+ body ∧ within key_rune body = true ∧ (40 ≤ String.length body ≤ 120)%nat.

Lemma key_rune_ascii : ascii_class key_rune.
Proof.
  intros r. unfold key_rune, r_upper, r_lower, r_digit, rune_in, r_one_of. cbn [str_exists].
  rewrite !orb_true_iff, !andb_true_iff, !Z.leb_le, !Z.eqb_eq.
  repeat match goal with |- context [byte_val ?a] => let v := eval vm_compute in (byte_val a) in change (byte_val a) with v end.
  intuition lia.
Qed.

Lemma keyRE_covers p q : matches keyRE p q → ∃ k, covers p q k ∧ key_shaped k.
Proof.
  unfold keyRE. intros Hm.
  inversion Hm as [| |? ? ? q1 ? Hw Hm1| | | | |]; simplify_eq.
  inversion Hm1 as [| |? ? ? q2 ? Ht Hm2| | | | |]; simplify_eq.
  inversion Hm2 as [| |? ? ? q3 ? Hb He| | | | |]; simplify_eq.
  inversion Hw; inversion He; simplify_eq.
  apply (matches_lit "T-") in Ht; [|done].
  apply matches_rep in Hb as (body & Hc & Hb & Hl); [|apply key_rune_ascii|lia].
  exists ("T-" +:+ body). split; [exact (covers_trans _ _ _ _ _ Ht Hc)|]. by exists body.
Qed.

Lemma keyRE_shaped s : MatchString keyRE s = true → key_shaped (FindString keyRE s).
Proof.
  intros (p & q & _ & Hm & ->)%FindString_covers.
  apply keyRE_covers in Hm as (k & Hc & Hk). by rewrite (covers_text _ _ _ Hc).
Qed.

Lemma key_byte c : key_rune (byte_val c) = true →
  quote_byte c = String c "" ∧ byte_eqb quot_mark c = false ∧ byte_eqb newline c = false ∧
  is_space_byte c = false.
Proof. destruct c as [[] [] [] [] [] [] [] []]; vm_compute; intros; repeat split; congruence. Qed.

Lemma within_byte f u : within f u = true → str_forall (λ a, f (byte_val a)) u = true ∧ is_ascii u = true.
Proof.
  intros Hu. split; (eapply str_forall_impl; [|exact Hu]); intros c [? ?]%andb_true_iff; done.
Qed.

Lemma quote_within u : within key_rune u = true → quote_ascii u = u.
Proof.
  induction u as [|c u IH]; [done|]. intros (_ & Hc & Hu)%within_cons.
  cbn [quote_ascii]. destruct (key_byte c Hc) as (-> & _). by rewrite IH.
Qed.

Lemma within_forall (p : ascii → bool) u :
  (∀ c, key_rune (byte_val c) = true → p c = true) → within key_rune u = true → str_forall p u = true.
Proof. intros Hp Hu. apply within_byte in Hu as [Hu _]. eapply str_forall_impl; [exact Hp|exact Hu]. Qed.

Lemma key_shaped_within k : key_shaped k → within key_rune k = true ∧ k ≠ "".
Proof. intros (b & -> & Hb & _). split; [by rewrite within_app, Hb|done]. Qed.

Section key_facts.
Context {U : Unicode} (quote_other : string → string).
Implicit Types fs : Files.

Lemma ParseBetaKey_shaped unescape page b :
  ParseBetaKey unescape page = Ok b → key_shaped (Key b).
Proof.
  unfold ParseBetaKey. destruct (bool_decide _) eqn:Hk; [done|]. intros [= <-]. cbn [Key].
  apply bool_decide_eq_false in Hk. revert Hk.
  destruct (bool_decide (_ = "")) eqn:Hb.
  - intros Hk. by apply keyRE_shaped, FindString_match.
  - intros Hk. destruct (filter _ _) as [|c l] eqn:E; [done|].
    apply keyRE_shaped. by apply FindString_match.
Qed.

Lemma FetchBetaKey_shape unescape get url b : FetchBetaKey unescape get url = Ok b → key_shaped (Key b).
Proof.
  unfold FetchBetaKey. destruct (get _) as [resp|]; [|done]. destruct (negb _); [done|].
  destruct (Body resp); [|done]. apply ParseBetaKey_shaped.
Qed.

(** ** The settings line *)

Lemma body_local : local settingsKey_body.
Proof. repeat split. Qed.
Lemma body_consumes : consumes settingsKey_body = true.
Proof. done. Qed.

Lemma quote_key k : key_shaped k → quote quote_other k = quoted k.
Proof.
  intros [Hk _]%key_shaped_within. unfold quote.
  by rewrite (proj2 (within_byte _ _ Hk)), quote_within.
Qed.

Lemma quoted_forall p s : p quot_mark = true → str_forall p s = true → str_forall p (quoted s) = true.
Proof.
  intros Hq Hs. unfold quoted. cbn [str_forall]. rewrite str_forall_app, Hs. cbn [str_forall].
  by rewrite Hq.
Qed.

Lemma app_Key_line_one_line k : key_shaped k → one_line (app_Key_line quote_other k) = true.
Proof.
  intros Hk. unfold app_Key_line. rewrite one_line_app, quote_key by done.
  apply andb_true_iff. split; [done|]. apply quoted_forall; [done|].
  apply key_shaped_within in Hk as [Hk _]. eapply within_forall; [|exact Hk].
  intros c Hc. unfold not_newline. by destruct (key_byte c Hc) as (_ & _ & -> & _).
Qed.

Lemma app_Key_line_matches k : key_shaped k → is_line settingsKey_body (app_Key_line quote_other k) = true.
Proof.
  intros Hk. unfold is_line. rewrite bool_decide_eq_true. unfold app_Key_line. rewrite quote_key by done.
  set (v := quoted k).
  assert (within r_dot (" " +:+ v) = true) as Hv.
  { unfold within. rewrite str_forall_app. apply andb_true_iff. split; [done|].
    apply quoted_forall; [done|]. apply key_shaped_within in Hk as [Hk _].
    eapply str_forall_impl; [|exact Hk]. intros c [Ha Hc]%andb_true_iff. rewrite Ha. cbn [andb].
    destruct (key_byte c Hc) as (_ & _ & Hn & _). unfold r_dot. apply negb_true_iff, Z.eqb_neq.
    intros Hz. apply newline_spec in Hz as ->. done. }
  eapply match_here_complete, line_re_matches. split; [done|]. split.
  - change (start ("app_Key = " +:+ v)) with (mkPos None ("" +:+ "app_Key = " +:+ v)).
    unfold settingsKey_body. eapply M_seq; [by apply matches_star_intro|].
    eapply M_seq; [apply (matches_lit_i "app_Key" _ (" = " +:+ v)); done|].
    eapply M_seq; [apply (matches_star_intro _ _ " " _ ("= " +:+ v)); done|].
    eapply M_seq; [apply (matches_lit_self "=" _ (" " +:+ v)); done|].
    rewrite <- (str_app_empty_r (" " +:+ v)). by apply matches_star_intro.
  - done.
Qed.

Lemma str_last_snoc u c : str_last (u +:+ String c "") = Some c.
Proof. induction u as [|d u IH]; [done|]. cbn [String.append]. by destruct (u +:+ String c "") eqn:E; [destruct u|]. Qed.

Lemma trim_right_snoc p u c : str_forall (λ x, negb (p x)) u = true → p c = true →
  trim_right p (u +:+ String c "") = u.
Proof.
  intros Hu Hc. induction u as [|d u IH]; cbn [String.append trim_right]; [by rewrite Hc|].
  cbn [str_forall] in Hu. apply andb_true_iff in Hu as [Hd%negb_true_iff Hu].
  rewrite IH by done. destruct u; [by rewrite Hd|done].
Qed.

Lemma settings_value_line k : key_shaped k → settings_value (app_Key_line quote_other k) = k.
Proof.
  intros Hk. unfold app_Key_line. rewrite quote_key by done. unfold settings_value.
  change (Cut "=" ("app_Key = " +:+ quoted k)) with (Some ("app_Key ", " " +:+ quoted k)).
  cbv beta iota.
  assert (TrimSpace (" " +:+ quoted k) = quoted k) as ->.
  { unfold TrimSpace. cbv zeta.
    assert (trim_left is_space_byte (" " +:+ quoted k) = quoted k) as -> by reflexivity.
    assert (trim_right is_space_byte (quoted k) = quoted k) as ->.
    { by apply (trim_right_id _ _ quot_mark); [apply (str_last_snoc (String quot_mark k))|]. }
    change (str_head (quoted k)) with (Some quot_mark). cbv iota.
    change (str_last (quoted k)) with (str_last (String quot_mark k +:+ String quot_mark "")).
    by rewrite str_last_snoc. }
  unfold trim. pose proof Hk as [Hw Hne]%key_shaped_within.
  assert (trim_left (byte_eqb quot_mark) (quoted k) = k +:+ String quot_mark "") as ->.
  { unfold quoted. cbn [trim_left]. change (byte_eqb quot_mark quot_mark) with true. cbv iota.
    destruct k as [|c k]; [done|]. apply within_cons in Hw as (_ & Hc & _). cbn [String.append trim_left].
    by destruct (key_byte c Hc) as (_ & -> & _). }
  apply trim_right_snoc; [|done]. eapply within_forall; [|exact Hw]. intros c Hc.
  by destruct (key_byte c Hc) as (_ & -> & _).
Qed.

(** ** The settings file, line by line *)

Definition is_key_line (l : string) : Prop := is_line settingsKey_body l = true.
(** The settings other than the key. *)
Definition other_settings (s : string) : list string :=
  filter (λ l, is_line settingsKey_body l = false ∧ l ≠ "") (split_on newline s).

Lemma split_app_newlines s n :
  split_on newline (s +:+ join "" (replicate n nl)) = split_on newline s ++ replicate n "".
Proof.
  assert (∀ n, split_on newline (join "" (replicate n nl)) = replicate (S n) "") as Hn.
  { clear. induction n as [|n IH]; [done|]. destruct n as [|n]; [done|].
    change (join "" (replicate (S (S n)) nl)) with (String newline (join "" (replicate (S n) nl))).
    unfold split_on in *. cbn [split_at]. by rewrite IH. }
  unfold split_on in *. induction s as [|c s IH]; [by cbn [String.append]; rewrite Hn|].
  cbn [String.append split_at]. rewrite IH. destruct (byte_eqb newline c); [done|].
  by destruct (split_at_cons (byte_eqb newline) s) as (w & ws & ->).
Qed.

Lemma trim_right_newlines s : ∃ n, s = trim_right (byte_eqb newline) s +:+ join "" (replicate n nl).
Proof.
  induction s as [|c s [n IH]]; [by exists O|]. cbn [trim_right].
  destruct (trim_right _ s) as [|d t] eqn:E.
  - cbn [String.append] in IH. destruct (byte_eqb newline c) eqn:Hc; [|exists n; cbn; by rewrite <- IH].
    apply bool_decide_eq_true in Hc as <-. exists (S n). destruct n; [by rewrite IH|].
    by rewrite IH.
  - exists n. cbn [String.append] in *. by rewrite <- IH.
Qed.

Lemma other_settings_trim s :
  ∃ n, split_on newline s = split_on newline (trim_right (byte_eqb newline) s) ++ replicate n "".
Proof.
  destruct (trim_right_newlines s) as [n Hs]. exists n. rewrite Hs at 1. apply split_app_newlines.
Qed.

Lemma split_text ls : ls ≠ [] → Forall (λ l, one_line l = true) ls → split_on newline (join nl ls) = ls.
Proof. intros. by apply split_join. Qed.

Lemma join_app ls a l : ls ≠ [] → join nl (ls ++ a :: l) = join nl ls +:+ nl +:+ join nl (a :: l).
Proof.
  induction ls as [|x ls IH]; [done|]. intros _. destruct ls as [|y ls].
  - change (join nl (x :: a :: l)) with (x +:+ nl +:+ join nl (a :: l)). done.
  - change (join nl ((x :: y :: ls) ++ a :: l)) with (x +:+ nl +:+ join nl ((y :: ls) ++ a :: l)).
    rewrite IH by done. change (join nl (x :: y :: ls)) with (x +:+ nl +:+ join nl (y :: ls)).
    by rewrite !str_app_assoc.
Qed.

(** Rewriting the lines that match by one that matches. *)
Lemma replaced_lines line ls : one_line line = true → is_line settingsKey_body line = true →
  Forall (λ l, one_line l = true) ls →
  Forall (λ l, one_line l = true) (replace_line settingsKey_body line <$> ls) ∧
  filter (λ l, is_line settingsKey_body l = false ∧ l ≠ "") (replace_line settingsKey_body line <$> ls) =
    filter (λ l, is_line settingsKey_body l = false ∧ l ≠ "") ls ∧
  (Exists (λ l, is_line settingsKey_body l = true) ls →
   first_line settingsKey_body (replace_line settingsKey_body line <$> ls) = line).
Proof.
  intros H1 Hm. induction 1 as [|l ls Hl _ (IH1 & IH2 & IH3)]; [split; [done|]; split; [done|by intros ?%Exists_nil]|].
  rewrite fmap_cons. assert (replace_line settingsKey_body line l = if is_line settingsKey_body l then line else l) as -> by done.
  unfold first_line in *. destruct (is_line settingsKey_body l) eqn:E.
  - split; [by constructor|]. split; [|by rewrite filter_cons_True].
    by rewrite !filter_cons, IH2, !decide_False by (rewrite ?Hm, ?E; naive_solver).
  - split; [by constructor|]. split; [by rewrite !filter_cons, IH2|]. intros [Hex|Hex]%Exists_cons; [congruence|].
    rewrite filter_cons_False by congruence. by apply IH3.
Qed.
(** A matching line put after lines that do not match. *)
Lemma appended_line line existing : one_line line = true → is_line settingsKey_body line = true → existing ≠ "" →
  ¬ Exists (λ l, is_line settingsKey_body l = true) (split_on newline existing) →
  let body := split_on newline (trim_right (byte_eqb newline) existing) in
  Forall (λ l, one_line l = true) (body ++ [line; ""]) ∧ first_line settingsKey_body (body ++ [line; ""]) = line ∧
  filter (λ l, is_line settingsKey_body l = false ∧ l ≠ "") (body ++ [line; ""]) = other_settings existing.
Proof.
  intros H1 Hm He Hno body. destruct (other_settings_trim existing) as [n Hn]. fold body in Hn.
  rewrite Hn, Exists_app in Hno. split; [|split].
  - apply Forall_app. split; [unfold body, split_on; apply split_at_pieces|]. by repeat constructor.
  - unfold first_line. rewrite filter_app, (filter_none _ body); [by rewrite filter_cons_True|].
    apply Forall_forall. intros l Hl Hil. apply Hno. left. apply Exists_exists. eauto.
  - unfold other_settings. rewrite Hn, !filter_app. f_equal.
    rewrite filter_cons_False by (rewrite Hm; naive_solver).
    rewrite filter_cons_False by naive_solver. symmetry. apply filter_none.
    apply Forall_forall. intros l ->%elem_of_replicate_inv. naive_solver.
Qed.

(** The lines of the new file. *)
Lemma updated_settings_lines existing k : key_shaped k → ∃ ls,
  updated_settings quote_other existing k = join nl ls ∧ ls ≠ [] ∧ Forall (λ l, one_line l = true) ls ∧
  first_line settingsKey_body ls = app_Key_line quote_other k ∧
  filter (λ l, is_line settingsKey_body l = false ∧ l ≠ "") ls = other_settings existing.
Proof.
  intros Hk. pose proof (app_Key_line_one_line k Hk) as H1. pose proof (app_Key_line_matches k Hk) as Hm.
  set (line := app_Key_line quote_other k) in *.
  destruct (text_lines existing) as (Ht & Hne & Hall). unfold updated_settings, settingsKeyRE; fold line.
  pose proof (MatchString_lines _ body_local body_consumes _ Hne Hall) as Hiff. rewrite <- Ht in Hiff.
  destruct (MatchString _ existing) eqn:Hms.
  - exists (replace_line settingsKey_body line <$> split_on newline existing).
    rewrite Ht at 1. rewrite (ReplaceAll_lines _ body_local body_consumes) by done.
    destruct (replaced_lines line _ H1 Hm Hall) as (Hf & Hs & Hfirst).
    split; [done|]. split; [by destruct (split_on newline existing)|]. split; [done|]. split; [|done].
    apply Hfirst. by apply Hiff.
  - assert (¬ Exists (λ l, is_line settingsKey_body l = true) (split_on newline existing)) as Hno
      by (rewrite <- Hiff; done).
    destruct (bool_decide_reflect (existing = "")) as [->|He].
    + exists [line; ""]. repeat split; [done|by repeat constructor| |].
      * unfold first_line. by rewrite filter_cons_True.
      * rewrite filter_cons_False by (rewrite Hm; naive_solver).
        by rewrite filter_cons_False by naive_solver.
    + pose proof (appended_line line existing H1 Hm He Hno) as (Hf & Hfirst & Hs).
      set (body := split_on newline (trim_right (byte_eqb newline) existing)) in *.
      assert (body ≠ []) as Hbne.
      { unfold body, split_on. by destruct (split_at_cons (byte_eqb newline) (trim_right (byte_eqb newline) existing)) as (w & ws & ->). }
      exists (body ++ [line; ""]). split; [|split; [by destruct body|done]].
      rewrite join_app by done. unfold body. by rewrite (join_split newline).
Qed.

(** ** The edit, step by step *)

(** A step that leaves the file at [path] as it is. *)
Definition quiet (path : string) (s : fstep) : Prop :=
  match s with
  | Broke (Rename _ _) => True
  | Did o | Broke o =>
      match o with
      | MkdirAll _ | CloseTemp _ => True
      | WriteFile p _ _ | CreateTemp p | WriteTemp p _ | Chmod p _ | Remove p => p ≠ path
      | Rename a b => a ≠ path ∧ b ≠ path
      end
  end.

Lemma quiet_done path o fs : quiet path (Did o) → fop_done o fs !! path = fs !! path.
Proof.
  destruct o; cbn [quiet fop_done]; intros Hq; try done;
    rewrite ?lookup_insert_ne, ?lookup_delete_ne by done; try done.
  - destruct (fs !! path0) as [[? ?]|]; [by rewrite lookup_insert_ne|done].
  - destruct (fs !! from) as [?|]; [|done]. destruct Hq.
    by rewrite lookup_insert_ne, lookup_delete_ne by done.
Qed.

Lemma quiet_broken path o fs fs' :
  quiet path (Broke o) → fop_broken o fs fs' → fs' !! path = fs !! path.
Proof.
  intros Hq [->|Hb]; [done|]. destruct o; try done; destruct Hb as (part & _ & <-);
    by apply quiet_done.
Qed.

Lemma quiet_did_broke path o : quiet path (Did o) → quiet path (Broke o).
Proof. by destruct o. Qed.

Lemma quiet_steps path l fs fs' :
  Forall (quiet path) l → fsteps l fs fs' → fs' !! path = fs !! path.
Proof.
  intros Hq Hs. induction Hs as [fs|o l fs fs' _ IH|o l fs fs1 fs' Hb _ IH]; [done|..];
    inversion Hq; subst; rewrite IH by done; [by apply quiet_done|by eapply quiet_broken].
Qed.

Lemma quiet_crash path l fs fs' :
  Forall (quiet path) l → crash l fs fs' → fs' !! path = fs !! path.
Proof.
  intros Hq Hs. induction Hs as [l fs|o l fs fs' Hb|o l fs fs' _ IH|o l fs fs1 fs' Hb _ IH]; [done|..];
    inversion Hq; subst.
  - eapply quiet_broken; [|done]. by apply quiet_did_broke.
  - rewrite IH by done. by apply quiet_done.
  - rewrite IH by done. by eapply quiet_broken.
Qed.

Lemma crash_app l k fs fs' : crash (l ++ k) fs fs' →
  crash l fs fs' ∨ ∃ fs1, fsteps l fs fs1 ∧ crash k fs1 fs'.
Proof.
  revert fs. induction l as [|s l IH]; intros fs H; [right; exists fs; by split; [constructor|]|].
  cbn [app] in H. inversion H as [|o l' fs0 fs1 Hb|o l' fs0 fs1 Hc|o l' fs0 fs1 fs2 Hb Hc]; subst.
  - left. constructor.
  - left. by constructor.
  - apply IH in Hc as [Hc|(fs1 & ? & ?)]; [left; by constructor|right]. exists fs1. split; [by constructor|done].
  - apply IH in Hc as [Hc|(fs2 & ? & ?)]; [left; by econstructor|right]. exists fs2. split; [by econstructor|done].
Qed.

Lemma fsteps_app l k fs fs' : fsteps (l ++ k) fs fs' ↔ ∃ fs1, fsteps l fs fs1 ∧ fsteps k fs1 fs'.
Proof.
  revert fs. induction l as [|s l IH]; intros fs; cbn [app]; split.
  - intros. exists fs. split; [constructor|done].
  - intros (fs1 & H & ?). by inversion H; subst.
  - intros H. inversion H; subst.
    + match goal with H : fsteps (l ++ k) _ _ |- _ => apply IH in H as (fs1 & ? & ?) end.
      exists fs1. split; [by constructor|done].
    + match goal with H : fsteps (l ++ k) _ _ |- _ => apply IH in H as (fs2 & ? & ?) end.
      exists fs2. split; [by econstructor|done].
  - intros (fs1 & H & Hk). inversion H; subst; [constructor|econstructor; [eassumption|]];
      apply IH; eauto.
Qed.

(** The contents WriteSettingsKey starts from, and the mode it gives the file. *)
Definition old_contents fs path : string := match fs !! path with Some (s, _) => s | None => "" end.
Definition new_mode v fs path : Z :=
  match sv_stat v, fs !! path with None, Some (_, m) => m | _, _ => 384 end.
Definition installing v fs path k : list fstep :=
  let tmp := sv_tmp v in
  [Did (CreateTemp tmp); Did (WriteTemp tmp (updated_settings quote_other (old_contents fs path) k));
   Did (Chmod tmp (new_mode v fs path)); Did (CloseTemp tmp); Did (Rename tmp path); Did (Remove tmp)].

Lemma path_bak path : path +:+ ".bak" ≠ path.
Proof.
  intros E. apply (f_equal String.length) in E. rewrite str_length_app in E. cbn in E. lia.
Qed.

(** Either the edit fails and every step leaves settings.conf alone, or it
    ends by installing the new file. *)
Lemma WriteSettingsKey_steps v fs path k steps r :
  sv_tmp v ≠ path → WriteSettingsKey quote_other v fs path k = (steps, r) →
  (is_ok r = false ∧ Forall (quiet path) steps) ∨
  (r = Ok tt ∧ ∃ pre, Forall (quiet path) pre ∧ steps = pre ++ installing v fs path k ∧
     (∀ s m, fs !! path = Some (s, m) → Did (WriteFile (path +:+ ".bak") s (new_mode v fs path)) ∈ pre)).
Proof.
  intros Htmp. pose proof (path_bak path) as Hbak. unfold WriteSettingsKey, installing, old_contents, new_mode, read_of.
  destruct (negb (MatchString keyRE k)); [intros [= <- <-]; by left|].
  destruct (sv_mkdir v); cbn [attempt]; [intros [= <- <-]; left; by repeat constructor|].
  destruct (sv_read v); [intros [= <- <-]; left; by repeat constructor|].
  destruct (fs !! path) as [[s m]|] eqn:Ef; cbn [attempt];
    [destruct (sv_backup v); [intros [= <- <-]; left; by repeat constructor|]|];
    (destruct (sv_createTemp v); [intros [= <- <-]; left; by repeat constructor|];
     destruct (sv_write v); cbn [attempt]; [intros [= <- <-]; left; by repeat constructor|];
     destruct (sv_chmod v); cbn [attempt]; [intros [= <- <-]; left; by repeat constructor|];
     destruct (sv_close v); cbn [attempt]; [intros [= <- <-]; left; by repeat constructor|];
     destruct (sv_rename v); cbn [attempt]; intros [= <- <-]; [left; by repeat constructor|right; split; [done|]]).
  - eexists [_; _]. split; [|split; [reflexivity|]]; [by repeat constructor|].
    intros s' m' [= <- <-]. apply elem_of_cons. right. by apply elem_of_cons; left.
  - eexists [_]. split; [|split; [destruct (sv_stat v); reflexivity|done]]. by repeat constructor.
Qed.

Lemma did_steps o l fs fs' : fsteps (Did o :: l) fs fs' ↔ fsteps l (fop_done o fs) fs'.
Proof. split; [by inversion 1|by constructor]. Qed.

Lemma installing_result v fs fs0 path k fs' :
  sv_tmp v ≠ path → fsteps (installing v fs path k) fs0 fs' →
  fs' !! path = Some (updated_settings quote_other (old_contents fs path) k, new_mode v fs path).
Proof.
  intros Htmp. unfold installing. rewrite !did_steps. intros H. inversion H; subst. clear H.
  cbn [fop_done]. rewrite lookup_insert_eq. repeat (rewrite lookup_insert_eq; cbn [fop_done]).
  rewrite lookup_delete_ne by done. by rewrite lookup_insert_eq.
Qed.

Lemma installing_crash v fs fs0 path k fs' :
  sv_tmp v ≠ path → crash (installing v fs path k) fs0 fs' →
  fs' !! path = fs0 !! path ∨
  fs' !! path = Some (updated_settings quote_other (old_contents fs path) k, new_mode v fs path).
Proof.
  intros Htmp Hc. unfold installing in Hc.
  change ([Did (CreateTemp (sv_tmp v)); Did (WriteTemp (sv_tmp v) (updated_settings quote_other (old_contents fs path) k));
    Did (Chmod (sv_tmp v) (new_mode v fs path)); Did (CloseTemp (sv_tmp v)); Did (Rename (sv_tmp v) path); Did (Remove (sv_tmp v))])
    with ([Did (CreateTemp (sv_tmp v)); Did (WriteTemp (sv_tmp v) (updated_settings quote_other (old_contents fs path) k));
    Did (Chmod (sv_tmp v) (new_mode v fs path)); Did (CloseTemp (sv_tmp v))] ++ [Did (Rename (sv_tmp v) path); Did (Remove (sv_tmp v))]) in Hc.
  apply crash_app in Hc as [Hc|(fs1 & Hs & Hc)].
  { left. eapply quiet_crash; [|done]. by repeat constructor. }
  pose proof Hs as Hq. apply (quiet_steps path) in Hq; [|by repeat constructor]. rewrite <- Hq.
  rewrite !did_steps in Hs. inversion Hs; subst. clear Hs.
  inversion Hc as [|? ? ? ? Hb|? ? ? ? Hc'|]; subst.
  - by left.
  - destruct Hb as [-> | []]. by left.
  - right. assert (fs' !! path = fop_done (Rename (sv_tmp v) path) (fop_done (CloseTemp (sv_tmp v))
      (fop_done (Chmod (sv_tmp v) (new_mode v fs path)) (fop_done (WriteTemp (sv_tmp v)
      (updated_settings quote_other (old_contents fs path) k)) (fop_done (CreateTemp (sv_tmp v)) fs0)))) !! path) as ->.
    { eapply quiet_crash; [|done]. by repeat constructor. }
    cbn [fop_done]. by rewrite !lookup_insert_eq.
Qed.

(** ** Properties *)

(** what is taken from the forum page is a key: T- and 40 to 120 of the
    characters keys are made of, whatever the page holds. *)
Theorem ParseBetaKey_shape unescape page b :
  ParseBetaKey unescape page = Ok b → key_shaped (Key b).
Proof. apply ParseBetaKey_shaped. Qed.

(** C33: the settings file is replaced whole or not at all: wherever the edit is
    cut short, settings.conf is the old file or the complete new one, and an
    edit that reports an error has left it as it was. *)
Theorem WriteSettingsKey_atomic v fs path k steps r :
  sv_tmp v ≠ path → WriteSettingsKey quote_other v fs path k = (steps, r) →
  (∀ fs', crash steps fs fs' →
    fs' !! path = fs !! path ∨
    ∃ mode, fs' !! path = Some (updated_settings quote_other (old_contents fs path) k, mode)) ∧
  (∀ fs', fsteps steps fs fs' → is_ok r = false → fs' !! path = fs !! path).
Proof.
  intros Htmp Hw.
  destruct (WriteSettingsKey_steps _ _ _ _ _ _ Htmp Hw) as [[Hr Hq]|(-> & pre & Hq & -> & _)];
    (split; intros fs' Hs).
  - left. by eapply quiet_crash.
  - intros _. by eapply quiet_steps.
  - apply crash_app in Hs as [Hs|(fs1 & Hs & Hc)]; [left; by eapply quiet_crash|].
    apply (quiet_steps path) in Hs; [|done]. apply installing_crash in Hc as [Hc|Hc]; [|eauto|done].
    left. congruence.
  - done.
Qed.

Lemma WriteSettingsKey_installs v fs path k steps fs' :
  sv_tmp v ≠ path → WriteSettingsKey quote_other v fs path k = (steps, Ok tt) → fsteps steps fs fs' →
  fs' !! path = Some (updated_settings quote_other (old_contents fs path) k, new_mode v fs path).
Proof.
  intros Htmp Hw Hs.
  destruct (WriteSettingsKey_steps _ _ _ _ _ _ Htmp Hw) as [[? _]|(_ & pre & _ & -> & _)]; [done|].
  apply fsteps_app in Hs as (fs1 & _ & Hs). by eapply installing_result.
Qed.

Lemma ReadSettingsKey_updated path existing k : key_shaped k →
  ReadSettingsKey path (RContents (updated_settings quote_other existing k)) = Ok k ∧
  other_settings (updated_settings quote_other existing k) = other_settings existing.
Proof.
  intros Hk. destruct (updated_settings_lines existing k Hk) as (ls & -> & Hne & Hall & Hfst & Hoth).
  split; [|unfold other_settings at 1; by rewrite split_text].
  unfold ReadSettingsKey, settingsKeyRE.
  rewrite (FindString_lines _ body_local body_consumes), Hfst by done.
  rewrite bool_decide_eq_false_2 by done. by rewrite settings_value_line.
Qed.

(** a key that was installed is the key that is read back, and the other
    settings of the file are kept, in their order. *)
Theorem WriteSettingsKey_roundtrip v fs path k steps fs' :
  key_shaped k → sv_tmp v ≠ path →
  WriteSettingsKey quote_other v fs path k = (steps, Ok tt) → fsteps steps fs fs' →
  ReadSettingsKey path (read_of fs' None path) = Ok k ∧
  other_settings (old_contents fs' path) = other_settings (old_contents fs path).
Proof.
  intros Hk Htmp Hw Hs. pose proof (WriteSettingsKey_installs _ _ _ _ _ _ Htmp Hw Hs) as Hp.
  unfold read_of. unfold old_contents at 1. rewrite Hp. by apply ReadSettingsKey_updated.
Qed.

(** refreshing twice changes nothing the second time: after a refresh that
    reports success, the same page finds its key in place and no file is
    touched. *)
Theorem RefreshBetaKey_idempotent unescape v get fs url path steps res fs' v' :
  sv_tmp v ≠ path → sv_read v' = None →
  RefreshBetaKey unescape quote_other v get fs url path = (steps, Ok res) → fsteps steps fs fs' →
  RefreshBetaKey unescape quote_other v' get fs' url path = ([], Ok (mkRefresh (Fetched res) false path)).
Proof.
  intros Htmp Hv'. unfold RefreshBetaKey. destruct (bool_decide (path = "")); [done|].
  destruct (FetchBetaKey unescape get url) as [b|e] eqn:Hf; [|done].
  apply FetchBetaKey_shape in Hf. rewrite Hv'.
  destruct (ReadSettingsKey path (read_of fs (sv_read v) path)) as [cur|e] eqn:Hr; [|done].
  destruct (bool_decide_reflect (cur = Key b)) as [->|Hne].
  - intros [= <- <-] Hs. inversion Hs; subst. cbn [Fetched].
    unfold read_of in *. destruct (sv_read v); [done|]. rewrite Hr. by rewrite bool_decide_eq_true_2.
  - destruct (WriteSettingsKey quote_other v fs path (Key b)) as [s r] eqn:Hw.
    destruct r as [[]|]; [|done]. intros [= <- <-] Hs. cbn [Fetched].
    pose proof (WriteSettingsKey_installs _ _ _ _ _ _ Htmp Hw Hs) as Hp.
    unfold read_of. rewrite Hp. rewrite (proj1 (ReadSettingsKey_updated _ _ _ Hf)).
    by rewrite bool_decide_eq_true_2.
Qed.
End key_facts.

(** ** Witnesses *)

Definition sample_key : string := "T-abcdefghijklmnopqrstuvwxyzABCDEFGHIJKLMNOP_1".
Definition sample_page : string :=
  "<p>Hello</p><code class=x>" +:+ sample_key +:+ "</code> valid until end of July 2026.".
Definition sample_settings : string := "app_foo = 1" +:+ nl +:+ "  APP_KEY = 3 " +:+ nl +:+ "z".
Definition sample_files : Files := <["/m/settings.conf" := (sample_settings, 416)]> ∅.
Definition sample_get (_ : string) : outcome string response := Ok (mkResponse 200 (Ok sample_page)).

Lemma sample_key_shaped : key_shaped sample_key.
Proof.
  exists "abcdefghijklmnopqrstuvwxyzABCDEFGHIJKLMNOP_1".
  split; [reflexivity|]. split; [vm_compute; reflexivity|vm_compute; lia].
Qed.

Lemma ParseBetaKey_shape_witness : key_shaped sample_key.
Proof.
  apply (@ParseBetaKey_shape caseless id sample_page (mkBetaKey sample_key "end of July 2026")).
  vm_compute. reflexivity.
Defined.

Lemma WriteSettingsKey_atomic_witness :
  ∃ steps r, WriteSettingsKey id (no_faults "/m/t") sample_files "/m/settings.conf" sample_key = (steps, r) ∧
  ∀ fs', crash steps sample_files fs' →
    fs' !! "/m/settings.conf" = sample_files !! "/m/settings.conf" ∨
    ∃ mode, fs' !! "/m/settings.conf" =
      Some (updated_settings id (old_contents sample_files "/m/settings.conf") sample_key, mode).
Proof.
  do 2 eexists. split; [vm_compute; reflexivity|].
  eapply (WriteSettingsKey_atomic id (no_faults "/m/t") sample_files "/m/settings.conf" sample_key);
    [done|vm_compute; reflexivity].
Defined.

Lemma WriteSettingsKey_roundtrip_witness :
  ∃ fs', @ReadSettingsKey caseless "/m/settings.conf" (read_of fs' None "/m/settings.conf") = Ok sample_key ∧
    other_settings (old_contents fs' "/m/settings.conf") = ["app_foo = 1"; "z"].
Proof.
  eexists. change ["app_foo = 1"; "z"] with (other_settings sample_settings).
  change sample_settings with (old_contents sample_files "/m/settings.conf").
  eapply (@WriteSettingsKey_roundtrip caseless id (no_faults "/m/t") sample_files "/m/settings.conf" sample_key);
    [apply sample_key_shaped|done|vm_compute; reflexivity|repeat constructor].
Defined.

Lemma RefreshBetaKey_idempotent_witness :
  ∃ fs', @RefreshBetaKey caseless id id (no_faults "/m/u") sample_get fs' "" "/m/settings.conf" =
    ([], Ok (mkRefresh (mkBetaKey sample_key "end of July 2026") false "/m/settings.conf")).
Proof.
  eexists. eapply (@RefreshBetaKey_idempotent caseless id id (no_faults "/m/t") sample_get sample_files
    "" "/m/settings.conf" _ (mkRefresh (mkBetaKey sample_key "end of July 2026") true "/m/settings.conf"));
    [done|done|vm_compute; reflexivity|repeat constructor].
Defined.
