(* ===== verification/Attrs.v ===== *)
(** * Describing attributes (describeAttrs in internal/makemkv/robot.go)

    The codes of an attribute map, whose order is that of Go's map iteration,
    are sorted in place by insertion and written with their values.

    [sort_codes_sorts]: the in-place sort sorts; [describeAttrs_stable]: the
    text depends on the attributes only, not on the order they are walked
    in. *)

From S2P Require Import Prelude GoText Key.
#[local] Open Scope Z_scope.

(** The inner loop: the code at j moves down past larger ones. *)
Fixpoint sift (j : nat) (codes : list Z) : list Z :=
  match j with
  | O => codes
  | S j' =>
      match codes !! j, codes !! j' with
      | Some a, Some b => if a <? b then sift j' (<[j' := a]> (<[j := b]> codes)) else codes
      | _, _ => codes
      end
  end.
Definition sort_codes (codes : list Z) : list Z := foldl (λ c i, sift i c) codes (seq 1 (length codes - 1)).

Section describe.
(** strconv.Quote outside ASCII *)
Context (quote_other : string → string).
Definition attr_text (attrs : gmap Z string) (c : Z) : string := itoa c +:+ "=" +:+ quote quote_other (default "" (attrs !! c)).
(** [walk] is the order the map's keys are walked in. *)
Definition describeAttrs (walk : list Z) (attrs : gmap Z string) : string :=
  if decide (size attrs = 0%nat) then "(none)" else join " " (attr_text attrs <$> sort_codes walk).
End describe.

(** ** The sort *)

Definition sorted (l : list Z) : Prop := StronglySorted Z.le l.
(** x put into its place in front of the last codes. *)
Fixpoint slip (x : Z) (l : list Z) : list Z :=
  match l with [] => [x] | y :: l => if x <? y then x :: y :: l else y :: slip x l end.

Lemma slip_perm x l : slip x l ≡ₚ x :: l.
Proof. induction l as [|y l IH]; [done|]. cbn. case_match; [done|]. rewrite IH. apply Permutation_swap. Qed.
Lemma slip_sorted x l : sorted l → sorted (slip x l).
Proof.
  induction 1 as [|y l Hl IH Hy]; cbn; [by repeat constructor|]. case_match eqn:E.
  - apply Z.ltb_lt in E. constructor; [by constructor|]. constructor; [lia|]. eapply Forall_impl; [exact Hy|]. cbn. lia.
  - apply Z.ltb_ge in E. constructor; [done|]. rewrite slip_perm. constructor; [lia|done].
Qed.
Lemma slip_snoc x l y : sorted (l ++ [y]) → slip x (l ++ [y]) = if x <? y then slip x l ++ [y] else l ++ [y; x].
Proof.
  induction l as [|z l IH]; intros Hs; [cbn; by case_match|]. change ((z :: l) ++ [y]) with (z :: (l ++ [y])) in *.
  apply StronglySorted_inv in Hs as [Hs Hz]. cbn [slip]. rewrite IH by done.
  rewrite Forall_app, Forall_singleton in Hz. destruct Hz as [_ Hz].
  destruct (Z.ltb_spec x y), (Z.ltb_spec x z); try done. lia.
Qed.

Lemma sift_slip s x r : sorted s → sift (length s) (s ++ x :: r) = slip x s ++ r.
Proof.
  revert r. induction s as [|y s IH] using rev_ind; intros r Hs; [done|].
  rewrite slip_snoc by done. rewrite length_app, Nat.add_1_r. cbn [sift].
  rewrite <- app_assoc. cbn [app].
  rewrite (lookup_app_r s _ (S (length s))), (lookup_app_r s _ (length s)) by lia.
  replace (S (length s) - length s)%nat with 1%nat by lia. rewrite Nat.sub_diag. cbn.
  destruct (Z.ltb_spec x y) as [H|H]; [|by rewrite <- app_assoc].
  rewrite insert_app_r_alt by lia. replace (S (length s) - length s)%nat with 1%nat by lia. cbn.
  rewrite insert_app_r_alt by lia. rewrite Nat.sub_diag. cbn.
  rewrite IH; [by rewrite <- app_assoc|].
  clear -Hs. induction s as [|z s IH]; [constructor|]. apply StronglySorted_inv in Hs as [Hs Hz]. apply Forall_app in Hz as [Hz _].
  constructor; [by apply IH|done].
Qed.

Lemma sift_all r : ∀ s, sorted s → ∃ s', foldl (λ c i, sift i c) (s ++ r) (seq (length s) (length r)) = s' ∧ sorted s' ∧ s' ≡ₚ s ++ r.
Proof.
  induction r as [|x r IH]; intros s Hs; cbn [seq length foldl]; [exists s; by rewrite app_nil_r|].
  rewrite sift_slip by done.
  destruct (IH (slip x s)) as (s' & E & Hs' & Hp); [by apply slip_sorted|].
  assert (length (slip x s) = S (length s)) as El by (by rewrite slip_perm). rewrite El in E. exists s'. split; [exact E|]. split; [done|].
  rewrite Hp, slip_perm. cbn. by rewrite Permutation_middle.
Qed.
(** The sort in place: the same codes, in order. *)
Lemma sort_codes_sorts l : sorted (sort_codes l) ∧ sort_codes l ≡ₚ l.
Proof.
  unfold sort_codes. destruct l as [|x l]; [split; [constructor|done]|].
  destruct (sift_all l [x]) as (s' & E & Hs & Hp); [by repeat constructor|]. cbn [length] in *. rewrite Nat.sub_succ, Nat.sub_0_r.
  rewrite <- E in Hs, Hp. split; [exact Hs|exact Hp].
Qed.

(** the text of an attribute map does not depend on the order its keys are
    walked in: two walks of the same map are written the same. *)
Theorem describeAttrs_stable quote_other walk walk' attrs :
  walk ≡ₚ walk' → describeAttrs quote_other walk attrs = describeAttrs quote_other walk' attrs.
Proof.
  intros Hw. unfold describeAttrs. case_decide; [done|]. do 2 f_equal.
  destruct (sort_codes_sorts walk) as [Hs Hp], (sort_codes_sorts walk') as [Hs' Hp'].
  apply (StronglySorted_unique Z.le); [done..|]. by rewrite Hp, Hp'.
Qed.
Lemma describeAttrs_stable_witness :
  describeAttrs id [9; 2; 27] (<[2 := "HEAT"]> (<[9 := "1:42:08"]> (<[27 := "t00.mkv"]> ∅))) =
  describeAttrs id [27; 9; 2] (<[2 := "HEAT"]> (<[9 := "1:42:08"]> (<[27 := "t00.mkv"]> ∅))).
Proof. apply describeAttrs_stable. apply (bool_decide_unpack _). vm_compute. exact I. Defined.
