(* ===== verification/MakeMkv.v ===== *)
(** * Running makemkvcon (internal/makemkv/makemkv.go, stall.go)

    One rip is a list of events: the lines makemkvcon prints and the ticks of
    the watchdog, each at its time, in whatever order they fall.  The stall
    timer and the parsing of the lines are folded over them; RipTitle then
    decides on what the command left.  The files it touches are a trace of
    operations.

    [stall_exact] says when the watchdog stops a rip: exactly when a tick finds
    that no reading has changed for the timeout.  MakeMkvFacts says what a rip
    puts where. *)

From Stdlib Require Import QArith_base.
From S2P Require Import Prelude GoText GoPath GoBase Regex Disc Robot Key.
#[local] Open Scope Z_scope.

(** ** Sources and progress *)

Inductive Source := DeviceSource (dev : string) | FolderSource (path : string).
Definition IsFolder (s : Source) : bool := match s with FolderSource _ => true | DeviceSource _ => false end.
Definition source_string (s : Source) : string :=
  match s with DeviceSource d => "dev:" +:+ d | FolderSource p => "file:" +:+ p end.

Record Progress := mkProg {
  pg_Current : string;
  pg_Total : string;
  pg_Value : Z;
  pg_TotalVal : Z;
  pg_Max : Z;
  pg_HasValues : bool;
}.
Definition Fraction (p : Progress) : Q :=
  if negb (pg_HasValues p) || (pg_Max p <=? 0) then 0%Q
  else if pg_TotalVal p <? 0 then 0%Q
  else if pg_Max p <? pg_TotalVal p then 1%Q
  else pg_TotalVal p # Z.to_pos (pg_Max p).

Record RipProgress := mkProgress { rp_TitleIndex : Z; rp_Fraction : Q; rp_Operation : string }.
Record RipResult := mkRipResult {
  rr_TitleIndex : Z;
  rr_Path : string;
  rr_SizeBytes : Z;
  rr_Raw : string;
  rr_Messages : list Message;
  rr_Elapsed : Z;
}.

(** ** The stall timer *)

Record stallTimer := mkStall {
  st_timeout : Z;
  st_last : Z;
  st_fired : bool;
  st_marker : Z * Z * Z;
  st_seen : bool;
}.
Definition newStallTimer (timeout now : Z) : stallTimer := mkStall timeout now false (0, 0, 0) false.
Definition observe (s : stallTimer) (value total max now : Z) : stallTimer :=
  let m := (value, total, max) in
  if st_seen s && bool_decide (m = st_marker s) then s
  else mkStall (st_timeout s) now (st_fired s) m true.
Definition expired (s : stallTimer) (now : Z) : bool * stallTimer :=
  if st_timeout s <=? 0 then (false, s)
  else if st_fired s || (now - st_last s <? st_timeout s) then (false, s)
  else (true, mkStall (st_timeout s) (st_last s) true (st_marker s) (st_seen s)).
Definition stalled (s : stallTimer) : bool := st_fired s.
Definition checkInterval (s : stallTimer) : Z :=
  if st_timeout s <=? 0 then 0
  else
    let d := Z.quot (st_timeout s) 10 in
    if d <? 30 * Second then if d <? Second then Second else d else 30 * Second.

(** ** The runner *)

Record Runner := mkRunner { Bin : string; SettingsPath : string; StallTimeout : Z }.
Definition New (home : outcome string string) (bin settingsPath : string) : Runner :=
  mkRunner (if bool_decide (bin = "") then "makemkvcon" else bin)
    (if bool_decide (settingsPath = "") then DefaultSettingsPath home else settingsPath) 0.
Definition homeDir (r : Runner) : string :=
  if bool_decide (SettingsPath r = "") then "" else Dir (Dir (SettingsPath r)).

(** How a command ended: the error of Start, of Wait, and what it said. *)
Record cmdEnd := mkEnd { ce_start : option goerr; ce_wait : option string; ce_stderr : string }.
(** How the lines of a command ended a run; [done] is whether its context was. *)
Definition run_error {U : Unicode} (r : Runner) (e : cmdEnd) (done : bool) : option goerr :=
  match ce_start e with
  | Some m => Some (wrapf ("start " +:+ Bin r +:+ ": ") m "")
  | None =>
      match ce_wait e with
      | None => None
      | Some m =>
          if done then Some ctxCanceled
          else
            let s := TrimSpace (ce_stderr e) in
            if bool_decide (s = "") then Some (errorf m) else Some (errorf (m +:+ ": " +:+ s))
      end
  end.

(** ** Ripping a title *)

Inductive ripEvent := LineAt (now : Z) (line : string) | Tick (now : Z).

(** What the lines build up: the timer, the progress, what was said and reported. *)
Record ripState := mkRipState {
  rs_stall : stallTimer;
  rs_prog : Progress;
  rs_raw : string;
  rs_msgs : list Message;
  rs_reports : list RipProgress;
}.

Section rip.
Context {U : Unicode}.

Definition rip_line (titleIndex now : Z) (st : ripState) (line : string) : ripState :=
  let '(mkRipState sl p raw msgs reps) := st in
  let raw := raw +:+ line +:+ String newline "" in
  match ParseLine line with
  | None => mkRipState sl p raw msgs reps
  | Some l =>
      if bool_decide (l_Kind l = "MSG") then mkRipState sl p raw (msgs ++ [parseMessage l]) reps
      else if bool_decide (l_Kind l = "PRGC") then
        mkRipState sl (mkProg (field l 2) (pg_Total p) (pg_Value p) (pg_TotalVal p) (pg_Max p) (pg_HasValues p)) raw msgs reps
      else if bool_decide (l_Kind l = "PRGT") then
        mkRipState sl (mkProg (pg_Current p) (field l 2) (pg_Value p) (pg_TotalVal p) (pg_Max p) (pg_HasValues p)) raw msgs reps
      else if bool_decide (l_Kind l = "PRGV") then
        let p := mkProg (pg_Current p) (pg_Total p) (intField l 0) (intField l 1) (intField l 2) true in
        let op := if bool_decide (pg_Current p = "") then pg_Total p else pg_Current p in
        mkRipState (observe sl (pg_Value p) (pg_TotalVal p) (pg_Max p) now) p raw msgs
          (reps ++ [mkProgress titleIndex (Fraction p) op])
      else mkRipState sl p raw msgs reps
  end.

Definition rip_event (titleIndex : Z) (st : ripState) (e : ripEvent) : ripState :=
  match e with
  | LineAt now line => rip_line titleIndex now st line
  | Tick now => mkRipState (expired (rs_stall st) now).2 (rs_prog st) (rs_raw st) (rs_msgs st) (rs_reports st)
  end.
Definition rip_start (timeout started : Z) : ripState :=
  mkRipState (newStallTimer timeout started) (mkProg "" "" 0 0 0 false) "" [] [].
Definition rip_run (timeout started titleIndex : Z) (es : list ripEvent) : ripState :=
  foldl (rip_event titleIndex) (rip_start timeout started) es.

(** The files a rip touches, and the command it runs. *)
Inductive ripOp :=
| MkDirs (dir : string)
| MkTemp (dir : string)
| Exec (args : list string)
| ReadDir (dir : string)
| Move (from to : string)
| StatFile (path : string)
| RemoveAll (dir : string).

(** What the machine answers a rip; [rv_cancelled]: the caller's context ended. *)
Record RipEnv := mkRipEnv {
  rv_mkdir : option string;
  rv_staging : outcome string string;
  rv_started : Z;
  rv_events : list ripEvent;
  rv_end : cmdEnd;
  rv_cancelled : bool;
  rv_ended : Z;
  rv_entries : outcome string (list (string * bool));
  rv_rename : option string;
  rv_stat : outcome string Z;
}.

(** The files of the staging directory that are no directories and end in .mkv. *)
Definition mkv_files (dir : string) (entries : list (string * bool)) : list string :=
  (λ e, Join [dir; e.1]) <$> filter (λ e, negb e.2 && EqualFold (Ext e.1) ".mkv" = true) entries.
Definition singleMKV (dir : string) (entries : outcome string (list (string * bool))) : outcome string string :=
  match entries with
  | Err e => Err ("read staging dir: " +:+ e)
  | Ok es =>
      match mkv_files dir es with
      | [f] => Ok f
      | [] => Err "makemkvcon produced no output file"
      | l => Err ("makemkvcon produced " +:+ itoa (Z.of_nat (length l)) +:+ " output files, expected 1")
      end
  end.

Definition rip_args (src : Source) (titleIndex minLengthSecs : Z) (staging : string) : list string :=
  ["-r"; "--progress=-same"; "--cache=1024"; "--minlength=" +:+ itoa minLengthSecs; "mkv";
   source_string src; itoa titleIndex; staging].

Record ripDone := mkDone {
  rd_ops : list ripOp;
  rd_reports : list RipProgress;
  rd_result : option RipResult;
  rd_err : option goerr;
}.

Definition RipTitle (r : Runner) (v : RipEnv) (src : Source) (titleIndex : Z) (destDir : string)
    (minLengthSecs : Z) : ripDone :=
  match rv_mkdir v with
  | Some e => mkDone [MkDirs destDir] [] None (Some (errorf ("create " +:+ destDir +:+ ": " +:+ e)))
  | None =>
      match rv_staging v with
      | Err e => mkDone [MkDirs destDir; MkTemp destDir] [] None (Some (errorf ("create staging dir: " +:+ e)))
      | Ok staging =>
          let st := rip_run (StallTimeout r) (rv_started v) titleIndex (rv_events v) in
          let msgs := rs_msgs st in
          let hung := stalled (rs_stall st) in
          let err := run_error r (rv_end v) (rv_cancelled v || hung) in
          let ops := [MkDirs destDir; MkTemp destDir; Exec (rip_args src titleIndex minLengthSecs staging)] in
          let res path size := Some (mkRipResult titleIndex path size (rs_raw st) msgs (rv_ended v - rv_started v)) in
          let title := "rip title " +:+ itoa titleIndex +:+ ": " in
          let fail more e := mkDone (ops ++ more ++ [RemoveAll staging]) (rs_reports st) (res "" 0) (Some e) in
          if hung then
            fail [] (errorf (title +:+ "no progress for " +:+ Duration_String (StallTimeout r) +:+
              ", so it was stopped; a drive with no region set stalls like this on a region-coded disc: " +:+
              summarise msgs))
          else match err with
          | Some e => fail [] (wrapf title e (": " +:+ summarise msgs))
          | None =>
              match singleMKV staging (rv_entries v) with
              | Err e => fail [ReadDir staging] (errorf (title +:+ e +:+ ": " +:+ summarise msgs))
              | Ok produced =>
                  let final := Join [destDir; TitleFileName titleIndex] in
                  match rv_rename v with
                  | Some e => fail [ReadDir staging; Move produced final]
                                (errorf ("move title " +:+ itoa titleIndex +:+ " into place: " +:+ e))
                  | None =>
                      let ops' := [ReadDir staging; Move produced final; StatFile final] in
                      match rv_stat v with
                      | Err e => fail ops' (errorf ("stat " +:+ final +:+ ": " +:+ e))
                      | Ok size =>
                          mkDone (ops ++ ops' ++ [RemoveAll staging]) (rs_reports st) (res final size) None
                      end
                  end
              end
          end
      end
  end.

(** ** The registration key *)

Record KeyStatus := mkKeyStatus { Present : bool; Expired : bool; Detail : string; VersionTooOld : bool }.
Definition msgKeyInvalid : Z := 5020.
Definition msgKeyRequired : Z := 5021.
Definition versionTooOldRE : regex := alts (lit_i <$> ["version is too old"; "download the latest version"]).
Definition keyExpiredRE : regex :=
  alts (lit_i <$> ["expired"; "evaluation period"; "out of date"; "too old"; "no longer valid"]).
Definition keyMissingRE : regex :=
  alts [lit_i "registration key"; lit_i "activation key";
        Seq (lit_i "enter") (Seq (Star true (Cls r_dot)) (lit_i "key"));
        lit_i "not registered"; lit_i "invalid key"; lit_i "shareware"].

Fixpoint status_by_code (msgs : list Message) : option KeyStatus :=
  match msgs with
  | [] => None
  | m :: ms =>
      if (msg_Code m =? msgKeyInvalid) || (msg_Code m =? msgKeyRequired) then
        Some (mkKeyStatus true true (msg_Text m) (MatchString versionTooOldRE (msg_Text m)))
      else status_by_code ms
  end.
Fixpoint status_by_prose (msgs : list Message) : KeyStatus :=
  match msgs with
  | [] => mkKeyStatus true false "" false
  | m :: ms =>
      if MatchString keyExpiredRE (msg_Text m) then mkKeyStatus true true (msg_Text m) false
      else if MatchString keyMissingRE (msg_Text m) then mkKeyStatus false false (msg_Text m) false
      else status_by_prose ms
  end.
Definition keyStatusFromMessages (msgs : list Message) : KeyStatus :=
  match status_by_code msgs with Some s => s | None => status_by_prose msgs end.

(** The messages of a command's lines. *)
Definition messages_of (lines : list string) : list Message :=
  omap (λ line, match ParseLine line with
                | Some l => if bool_decide (l_Kind l = "MSG") then Some (parseMessage l) else None
                | None => None
                end) lines.

Definition Version (r : Runner) (lines : list string) (e : cmdEnd) (done : bool) : outcome goerr string :=
  let v := versionFromMessages (messages_of lines) in
  if bool_decide (v = "") then
    match run_error r e done with
    | Some err => Err (wrapf "could not determine makemkvcon version: " err "")
    | None => Err (errorf "could not determine makemkvcon version")
    end
  else Ok v.

(** CheckKey: the settings file first, then what makemkvcon says. *)
Definition CheckKey (r : Runner) (file : readFile) (lines : list string) (e : cmdEnd) (done : bool) : outcome goerr KeyStatus :=
  let ask :=
    let msgs := messages_of lines in
    match msgs, run_error r e done with
    | [], Some err => Err (wrapf "could not query makemkvcon: " err "")
    | _, _ => Ok (keyStatusFromMessages msgs)
    end in
  if bool_decide (SettingsPath r = "") then ask
  else match ReadSettingsKey (SettingsPath r) file with
       | Err m => Ok (mkKeyStatus false false m false)
       | Ok key =>
           if bool_decide (key = "") then
             Ok (mkKeyStatus false false ("no registration key in " +:+ SettingsPath r) false)
           else ask
       end.
End rip.

(** ** The timer over a run *)

Section stall_facts.
Context {U : Unicode}.

(** The progress reading of a line. *)
Definition reading (line : string) : option (Z * Z * Z) :=
  match ParseLine line with
  | Some l => if bool_decide (l_Kind l = "PRGV") then Some (intField l 0, intField l 1, intField l 2) else None
  | None => None
  end.
Definition timer_event (t : stallTimer) (e : ripEvent) : stallTimer :=
  match e with
  | Tick now => (expired t now).2
  | LineAt now line => match reading line with Some (a, b, c) => observe t a b c now | None => t end
  end.

Lemma rip_event_stall i st e : rs_stall (rip_event i st e) = timer_event (rs_stall st) e.
Proof.
  destruct e as [now line|now]; [|done]. destruct st as [sl p raw msgs reps].
  cbn [rip_event rip_line timer_event rs_stall]. unfold reading.
  destruct (ParseLine line) as [l|]; [|done].
  destruct (bool_decide_reflect (l_Kind l = "MSG")) as [->|]; [done|].
  destruct (bool_decide_reflect (l_Kind l = "PRGC")) as [->|]; [done|].
  destruct (bool_decide_reflect (l_Kind l = "PRGT")) as [->|]; [done|].
  by case_bool_decide.
Qed.

Lemma rip_run_stall timeout started i es :
  rs_stall (rip_run timeout started i es) = foldl timer_event (newStallTimer timeout started) es.
Proof.
  unfold rip_run. change (newStallTimer timeout started) with (rs_stall (rip_start timeout started)).
  generalize (rip_start timeout started) as st.
  induction es as [|e es IH]; intros st; cbn [foldl]; [done|]. by rewrite IH, rip_event_stall.
Qed.

(** When the reading last changed: [t0], with [m] the reading before the events. *)
Fixpoint last_change (t0 : Z) (m : option (Z * Z * Z)) (es : list ripEvent) : Z :=
  match es with
  | [] => t0
  | Tick _ :: es => last_change t0 m es
  | LineAt now line :: es =>
      match reading line with
      | Some r => if bool_decide (m = Some r) then last_change t0 m es else last_change now (Some r) es
      | None => last_change t0 m es
      end
  end.
Definition marker_of (t : stallTimer) : option (Z * Z * Z) := if st_seen t then Some (st_marker t) else None.

Lemma timer_fires es : ∀ t,
  st_fired (foldl timer_event t es) = true ↔
  st_fired t = true ∨ (0 < st_timeout t ∧ ∃ pre now post, es = pre ++ Tick now :: post ∧
    st_timeout t ≤ now - last_change (st_last t) (marker_of t) pre).
Proof.
  induction es as [|e es IH]; intros t; cbn [foldl].
  { split; [by left|]. intros [?|(_ & pre & now & post & E & _)]; [done|by destruct pre]. }
  rewrite IH. clear IH. destruct e as [now line|now]; cbn [timer_event].
  - set (t' := match reading line with Some (a, b, c) => observe t a b c now | None => t end).
    assert (st_fired t' = st_fired t ∧ st_timeout t' = st_timeout t ∧
      ∀ pre, last_change (st_last t') (marker_of t') pre = last_change (st_last t) (marker_of t) (LineAt now line :: pre))
      as (-> & -> & Hlast).
    { unfold t'. cbn [last_change]. destruct (reading line) as [[[a b] c]|]; [|done].
      unfold observe, marker_of. destruct (st_seen t) eqn:Es; cbn [andb].
      - destruct (bool_decide_reflect ((a, b, c) = st_marker t)) as [E|E].
        + split; [done|]. split; [done|]. intros pre. by rewrite Es, bool_decide_eq_true_2 by congruence.
        + split; [done|]. split; [done|]. intros pre. by rewrite bool_decide_eq_false_2 by congruence.
      - done. }
    split; (intros [?|(? & pre & n & post & E & ?)]; [by left|right; split; [done|]]).
    + exists (LineAt now line :: pre), n, post. rewrite <- Hlast, E. done.
    + destruct pre as [|e pre]; [done|]. injection E as <- ->. exists pre, n, post. by rewrite Hlast.
  - assert (st_timeout (expired t now).2 = st_timeout t ∧ st_last (expired t now).2 = st_last t ∧
      marker_of (expired t now).2 = marker_of t) as (-> & -> & ->).
    { unfold expired. destruct (st_timeout t <=? 0); [done|].
      by destruct (st_fired t || (now - st_last t <? st_timeout t)). }
    assert (st_fired (expired t now).2 = true ↔
      st_fired t = true ∨ (0 < st_timeout t ∧ st_timeout t ≤ now - st_last t)) as ->.
    { unfold expired. destruct (Z.leb_spec (st_timeout t) 0); [split; [auto|intros [?|?]; [done|lia]]|].
      destruct (st_fired t) eqn:Ef; cbn [orb]; [cbn [snd]; rewrite Ef; naive_solver|].
      destruct (Z.ltb_spec (now - st_last t) (st_timeout t)); cbn [snd st_fired]; rewrite ?Ef.
      - split; [done|]. intros [?|?]; [done|lia].
      - split; [|done]. intros _. right. lia. }
    split.
    + intros [[?|[? ?]]|(? & pre & n & post & -> & ?)]; [by left|right|right]; (split; [done|]).
      * exists [], now, es. done.
      * exists (Tick now :: pre), n, post. done.
    + intros [?|(? & pre & n & post & E & ?)]; [by left; left|].
      destruct pre as [|e pre]; cbn [app] in E; injection E as <- ->; [left; right; done|].
      right. split; [done|]. exists pre, n, post. done.
Qed.

(** the watchdog stops a rip exactly when some tick finds that the reading
    has not changed for the timeout: output that repeats a reading does not
    put it off, and a rip that makes progress is never stopped. *)
Theorem stall_exact timeout started i es :
  stalled (rs_stall (rip_run timeout started i es)) = true ↔
  0 < timeout ∧ ∃ pre now post, es = pre ++ Tick now :: post ∧
    timeout ≤ now - last_change started None pre.
Proof.
  rewrite rip_run_stall. unfold stalled. rewrite timer_fires. cbn. naive_solver.
Qed.

(** Ticks that come at least every [iv]. *)
Fixpoint ticks_within (iv t : Z) (ts : list Z) : Prop :=
  match ts with [] => True | u :: ts => u ≤ t + iv ∧ ticks_within iv u ts end.

Lemma first_late_tick iv bound ts : ∀ t,
  ticks_within iv t ts → t < bound → Exists (λ u, bound ≤ u) ts →
  ∃ pre u post, ts = pre ++ u :: post ∧ bound ≤ u < bound + iv ∧ Forall (λ u, u < bound) pre.
Proof.
  induction ts as [|u ts IH]; intros t Ht Hb Hex; [by apply Exists_nil in Hex|].
  destruct Ht as [Hu Ht]. destruct (decide (bound ≤ u)).
  - exists [], u, ts. repeat split; [lia..|constructor].
  - apply Exists_cons in Hex as [?|Hex]; [lia|].
    destruct (IH u Ht ltac:(lia) Hex) as (pre & x & post & -> & ? & ?).
    exists (u :: pre), x, post. repeat split; [lia..|]. constructor; [lia|done].
Qed.

(** a stall is found in time.  The watchdog looks every checkInterval,
    which is between a second and thirty; when makemkvcon says nothing more,
    the rip is stopped at a tick less than one interval after the timeout. *)
Theorem stall_latency timeout started i ts :
  0 < timeout → let iv := checkInterval (newStallTimer timeout started) in
  ticks_within iv started ts → Exists (λ u, started + timeout ≤ u) ts →
  Second ≤ iv ≤ 30 * Second ∧
  ∃ pre now post, ts = pre ++ now :: post ∧
    started + timeout ≤ now < started + timeout + iv ∧
    stalled (rs_stall (rip_run timeout started i (Tick <$> pre))) = false ∧
    stalled (rs_stall (rip_run timeout started i (Tick <$> (pre ++ [now])))) = true.
Proof.
  intros Hpos iv Hts Hex. split.
  { unfold iv, checkInterval, newStallTimer. cbn [st_timeout]. rewrite (proj2 (Z.leb_gt _ _)) by done.
    unfold Second. repeat case_match; breflect; lia. }
  destruct (first_late_tick iv (started + timeout) ts started Hts ltac:(lia) Hex) as (pre & now & post & -> & Hnow & Hpre).
  assert (∀ l, last_change started None (Tick <$> l) = started) as Hlc by (induction l; done).
  exists pre, now, post. repeat split; [lia..| |].
  - apply not_true_iff_false. rewrite rip_run_stall. unfold stalled. rewrite timer_fires. cbn.
    intros [?|(_ & p & n & q & E & H)]; [done|].
    apply fmap_app_inv in E as (p' & q' & -> & Eq & Epre). destruct q' as [|x q']; [done|].
    injection Eq as -> _. subst. rewrite Forall_app, Forall_cons in Hpre.
    rewrite Hlc in H. destruct Hpre as (_ & ? & _). lia.
  - rewrite rip_run_stall. unfold stalled. rewrite timer_fires. right. cbn. split; [done|].
    exists (Tick <$> pre), now, []. rewrite fmap_app. split; [done|]. rewrite Hlc. lia.
Qed.
End stall_facts.
