(* ===== verification/MakeMkvFacts.v ===== *)
(** * What a rip leaves, and what the key check says (MakeMkv) *)

From Stdlib Require Import QArith_base.
From S2P Require Import Prelude GoText GoPath GoBase Regex Disc Robot Key MakeMkv.
#[local] Open Scope Z_scope.

(** ** Progress *)

Lemma Fraction_unit p : (0 <= Fraction p)%Q ∧ (Fraction p <= 1)%Q.
Proof.
  unfold Fraction. destruct (negb _ || _) eqn:E; [split; discriminate|]. breflect.
  destruct (Z.ltb_spec (pg_TotalVal p) 0); [split; discriminate|].
  destruct (Z.ltb_spec (pg_Max p) (pg_TotalVal p)); [split; discriminate|].
  unfold Qle. cbn [Qnum Qden]. rewrite Z2Pos.id by done. split; lia.
Qed.

Section rip_facts.
Context {U : Unicode}.
Implicit Types (r : Runner) (v : RipEnv).

Lemma rip_event_reports i st e :
  Forall (λ p, (0 <= rp_Fraction p)%Q ∧ (rp_Fraction p <= 1)%Q ∧ rp_TitleIndex p = i) (rs_reports st) →
  Forall (λ p, (0 <= rp_Fraction p)%Q ∧ (rp_Fraction p <= 1)%Q ∧ rp_TitleIndex p = i) (rs_reports (rip_event i st e)).
Proof.
  destruct e as [now line|now]; [|done]. destruct st as [sl p raw msgs reps].
  cbn [rip_event rip_line rs_reports]. intros H. destruct (ParseLine line) as [l|]; [|done].
  destruct (bool_decide (l_Kind l = "MSG")); [done|]. destruct (bool_decide (l_Kind l = "PRGC")); [done|].
  destruct (bool_decide (l_Kind l = "PRGT")); [done|]. destruct (bool_decide (l_Kind l = "PRGV")); [|done].
  cbn [rs_reports]. apply Forall_app. split; [done|]. constructor; [|constructor].
  cbn [rp_Fraction rp_TitleIndex]. by pose proof (Fraction_unit
    (mkProg (pg_Current p) (pg_Total p) (intField l 0) (intField l 1) (intField l 2) true)) as [? ?].
Qed.

Lemma rip_run_reports timeout started i es :
  Forall (λ p, (0 <= rp_Fraction p)%Q ∧ (rp_Fraction p <= 1)%Q ∧ rp_TitleIndex p = i)
    (rs_reports (rip_run timeout started i es)).
Proof.
  unfold rip_run. assert (Forall (λ p, (0 <= rp_Fraction p)%Q ∧ (rp_Fraction p <= 1)%Q ∧ rp_TitleIndex p = i)
    (rs_reports (rip_start timeout started))) as H by constructor.
  revert H. generalize (rip_start timeout started).
  induction es as [|e es IH]; intros st H; cbn [foldl]; [done|]. by apply IH, rip_event_reports.
Qed.

(** C1: whatever MakeMKV prints, every progress report of a rip is a fraction
    between 0 and 1, of the title being ripped. *)
Theorem RipTitle_reports r v src i dest min :
  Forall (λ p, (0 <= rp_Fraction p)%Q ∧ (rp_Fraction p <= 1)%Q ∧ rp_TitleIndex p = i)
    (rd_reports (RipTitle r v src i dest min)).
Proof.
  unfold RipTitle. destruct (rv_mkdir v); [constructor|]. destruct (rv_staging v); [|constructor].
  destruct (stalled _); [apply rip_run_reports|].
  destruct (run_error _ _ _); [apply rip_run_reports|].
  destruct (singleMKV _ _); [|apply rip_run_reports].
  destruct (rv_rename v); [apply rip_run_reports|].
  destruct (rv_stat v); apply rip_run_reports.
Qed.

(** ** Where the file goes *)

Definition rip_hung r v i : bool := stalled (rs_stall (rip_run (StallTimeout r) (rv_started v) i (rv_events v))).
Definition ran_clean v : Prop := ce_start (rv_end v) = None ∧ ce_wait (rv_end v) = None.

Lemma run_error_None r e c : run_error r e c = None ↔ ce_start e = None ∧ ce_wait e = None.
Proof.
  unfold run_error. destruct (ce_start e); [naive_solver|]. destruct (ce_wait e); [|naive_solver].
  destruct c; [naive_solver|]. cbv zeta. case_bool_decide; naive_solver.
Qed.

Lemma singleMKV_ok dir es f : singleMKV dir es = Ok f ↔ ∃ l, es = Ok l ∧ mkv_files dir l = [f].
Proof.
  unfold singleMKV. destruct es as [l|e]; [|split; [done|by intros (? & ? & _)]].
  destruct (mkv_files dir l) as [|x [|y k]] eqn:E;
    (split; [intros [= <-] || done|intros (? & [= <-] & ?); congruence]). eauto.
Qed.

(** nothing but a finished rip takes a title's name.  A file is moved to
    title_NN.mkv only when makemkvcon ended without an error, the watchdog did
    not stop it, and it left exactly one .mkv, which is the file moved; and
    every way a rip ends, its staging directory is removed last. *)
Theorem RipTitle_places r v src i dest min :
  let d := RipTitle r v src i dest min in
  (∀ a b, Move a b ∈ rd_ops d →
     b = Join [dest; TitleFileName i] ∧ ran_clean v ∧ rip_hung r v i = false ∧
     ∃ staging entries, rv_staging v = Ok staging ∧ rv_entries v = Ok entries ∧ mkv_files staging entries = [a]) ∧
  (∀ staging, rv_mkdir v = None → rv_staging v = Ok staging → last (rd_ops d) = Some (RemoveAll staging)).
Proof.
  cbv zeta. unfold RipTitle, rip_hung, ran_clean.
  destruct (rv_mkdir v); [split; [|done]; intros a b; cbn; set_solver|].
  destruct (rv_staging v) as [staging|]; [|split; [|done]; intros a b; cbn; set_solver].
  destruct (stalled _) eqn:Hh; [split; [intros a b; cbn; set_solver|intros ? _ [= <-]; done]|].
  destruct (run_error _ _ _) eqn:He; [split; [intros a b; cbn; set_solver|intros ? _ [= <-]; done]|].
  apply run_error_None in He.
  destruct (singleMKV _ _) as [f|] eqn:Hf; [|split; [intros a b; cbn; set_solver|intros ? _ [= <-]; done]].
  apply singleMKV_ok in Hf as (es & ? & ?).
  destruct (rv_rename v) as [re|]; [|destruct (rv_stat v) as [size|se]];
    (split; [|intros ? _ [= <-]; done]); intros a b; cbn; rewrite !elem_of_cons, elem_of_nil;
    intros Hab; (assert (a = f ∧ b = Join [dest; TitleFileName i]) as [-> ->] by naive_solver);
    eauto 10.
Qed.

(** a rip that reports no error has put its title in place: it ran to its
    end, left one .mkv, and the result names the file with its size. *)
Theorem RipTitle_success r v src i dest min :
  let d := RipTitle r v src i dest min in
  rd_err d = None →
  ran_clean v ∧ rip_hung r v i = false ∧
  ∃ staging produced size res, rv_staging v = Ok staging ∧
    rd_ops d = [MkDirs dest; MkTemp dest; Exec (rip_args src i min staging); ReadDir staging;
                Move produced (Join [dest; TitleFileName i]); StatFile (Join [dest; TitleFileName i]);
                RemoveAll staging] ∧
    rv_stat v = Ok size ∧ rd_result d = Some res ∧
    rr_Path res = Join [dest; TitleFileName i] ∧ rr_SizeBytes res = size ∧ rr_TitleIndex res = i.
Proof.
  cbv zeta. unfold RipTitle, rip_hung, ran_clean.
  destruct (rv_mkdir v); [done|]. destruct (rv_staging v) as [staging|]; [|done].
  destruct (stalled _) eqn:Hh; [done|]. destruct (run_error _ _ _) eqn:He; [done|].
  apply run_error_None in He. destruct (singleMKV _ _) as [f|] eqn:Hf; [|done].
  destruct (rv_rename v); [done|]. destruct (rv_stat v) as [size|]; [|done]. intros _.
  split; [done|]. split; [done|]. exists staging, f, size. eexists. repeat split.
Qed.

(** a stall is told apart from a cancellation.  A rip the watchdog stopped
    fails with an error of its own that is not context.Canceled, although it was
    ended by a cancellation; a rip the caller cancelled fails with
    context.Canceled. *)
Theorem RipTitle_stall_is_not_cancel r v src i dest min staging :
  rv_mkdir v = None → rv_staging v = Ok staging → ce_start (rv_end v) = None →
  (rip_hung r v i = true → ∃ e, rd_err (RipTitle r v src i dest min) = Some e ∧ is_ctxCanceled e = false ∧
     contains (e_text e) ("no progress for " +:+ Duration_String (StallTimeout r)) = true) ∧
  (rip_hung r v i = false → rv_cancelled v = true → is_Some (ce_wait (rv_end v)) →
     ∃ e, rd_err (RipTitle r v src i dest min) = Some e ∧ is_ctxCanceled e = true).
Proof.
  intros Hm Hs Hst. unfold RipTitle, rip_hung. rewrite Hm, Hs. split.
  - intros Hh. rewrite Hh. eexists. split; [done|]. split; [done|]. cbn [e_text errorf].
    apply contains_spec. exists ("rip title " +:+ itoa i +:+ ": "). eexists.
    rewrite <- (str_app_assoc "no progress for "). reflexivity.
  - intros Hh Hc [w Hw]. rewrite Hh. unfold run_error. rewrite Hst, Hw, Hc. cbn [orb]. eauto.
Qed.

(** ** The key *)

Definition key_code (m : Message) : Prop := msg_Code m = msgKeyInvalid ∨ msg_Code m = msgKeyRequired.

Lemma status_by_code_first pre m post :
  Forall (λ x, ¬ key_code x) pre → key_code m →
  status_by_code (pre ++ m :: post) =
    Some (mkKeyStatus true true (msg_Text m) (MatchString versionTooOldRE (msg_Text m))).
Proof.
  intros Hpre Hm. induction Hpre as [|x pre Hx _ IH]; cbn [app status_by_code].
  - by rewrite (proj2 (orb_true_iff _ _)) by (rewrite !Z.eqb_eq; exact Hm).
  - destruct (_ || _) eqn:E; [|done]. apply orb_true_iff in E. rewrite !Z.eqb_eq in E. done.
Qed.

Lemma status_by_code_None msgs : status_by_code msgs = None ↔ Forall (λ x, ¬ key_code x) msgs.
Proof.
  induction msgs as [|x msgs IH]; cbn [status_by_code]; [split; [constructor|done]|].
  rewrite Forall_cons, <- IH. unfold key_code. rewrite <- !Z.eqb_eq, <- orb_true_iff.
  destruct (_ || _); naive_solver.
Qed.

(** C1: MakeMKV's key codes outrank its prose.  The first message with code
    5020 or 5021 decides: the key is reported expired with that message's
    text, and the program as too old exactly when the text says so; only
    without such a code is any other wording read. *)
Theorem keyStatus_codes_first msgs :
  (∃ pre m post, msgs = pre ++ m :: post ∧ Forall (λ x, ¬ key_code x) pre ∧ key_code m ∧
     keyStatusFromMessages msgs =
       mkKeyStatus true true (msg_Text m) (MatchString versionTooOldRE (msg_Text m))) ∨
  (Forall (λ x, ¬ key_code x) msgs ∧ keyStatusFromMessages msgs = status_by_prose msgs).
Proof.
  assert ((∃ pre m post, msgs = pre ++ m :: post ∧ Forall (λ x, ¬ key_code x) pre ∧ key_code m) ∨
    Forall (λ x, ¬ key_code x) msgs) as [(pre & m & post & -> & Hpre & Hm)|Hno].
  { induction msgs as [|x msgs IH]; [by right; constructor|].
    assert (Decision (key_code x)) as Hdec by (unfold key_code; apply _).
    destruct (decide (key_code x)) as [Hx|Hx]; [left; exists [], x, msgs; by split; [|split; [constructor|]]|].
    destruct IH as [(pre & m & post & -> & ? & ?)|?]; [left|right; by constructor].
    exists (x :: pre), m, post. split; [done|]. split; [by constructor|done]. }
  - left. exists pre, m, post. unfold keyStatusFromMessages. by rewrite status_by_code_first.
  - right. unfold keyStatusFromMessages. by rewrite (proj2 (status_by_code_None msgs)).
Qed.

(** a machine that was never registered is not reported as registered:
    CheckKey says a key is present only when the settings file holds one. *)
Theorem CheckKey_needs_a_key r file lines e done st :
  SettingsPath r ≠ "" → CheckKey r file lines e done = Ok st → Present st = true →
  ∃ key, ReadSettingsKey (SettingsPath r) file = Ok key ∧ key ≠ "".
Proof.
  intros Hp. unfold CheckKey. rewrite bool_decide_eq_false_2 by done.
  destruct (ReadSettingsKey _ _) as [key|m]; [|by intros [= <-]].
  destruct (bool_decide_reflect (key = "")); [by intros [= <-]|]. eauto.
Qed.
End rip_facts.

(** ** Witnesses *)

Definition prgv (now v : Z) : ripEvent := LineAt now ("PRGV:" +:+ itoa v +:+ "," +:+ itoa v +:+ ",65536").
Definition demo_runner : Runner := mkRunner "makemkvcon" "/h/.MakeMKV/settings.conf" (20 * Second).
Definition demo_rip (events : list ripEvent) (wait : option string) (cancelled : bool) : RipEnv :=
  mkRipEnv None (Ok "/rips/d/.rip-1") 0 events (mkEnd None wait "") cancelled (90 * Second)
    (Ok [("title_t00.mkv", false); ("log.txt", false)]) None (Ok 4000000000).

Example rip_ok :
  rd_err (@RipTitle caseless demo_runner (demo_rip [prgv 1 10; Tick (10 * Second); prgv (19 * Second) 20; Tick (30 * Second)] None false)
    (DeviceSource "/dev/sr0") 3 "/rips/d" 120) = None.
Proof. vm_compute. reflexivity. Qed.
Example rip_repeats_a_reading :
  @rip_hung caseless demo_runner (demo_rip [prgv 1 10; prgv (19 * Second) 10; Tick (21 * Second)] None false) 3 = true.
Proof. vm_compute. reflexivity. Qed.

Definition demo_ticks : list Z := (λ s, s * Second) <$> [2; 4; 6; 8; 10; 12; 14; 16; 18; 20; 22].
Lemma stall_latency_witness :
  ∃ pre now post, demo_ticks = pre ++ now :: post ∧ 20 * Second ≤ now < 22 * Second ∧
    stalled (rs_stall (@rip_run caseless (20 * Second) 0 3 (Tick <$> (pre ++ [now])))) = true.
Proof.
  destruct (@stall_latency caseless (20 * Second) 0 3 demo_ticks)
    as (_ & pre & now & post & E & Hnow & _ & H).
  - done.
  - vm_compute. repeat split; discriminate.
  - apply Exists_exists. exists (20 * Second). split; [|vm_compute; discriminate].
    apply list_elem_of_fmap. exists 20. split; [done|]. set_solver.
  - exists pre, now, post. split; [exact E|]. split; [exact Hnow|exact H].
Defined.

Lemma RipTitle_success_witness :
  ∃ size, rv_stat (demo_rip [prgv 1 10] None false) = Ok size ∧
    is_Some (rd_result (@RipTitle caseless demo_runner (demo_rip [prgv 1 10] None false) (DeviceSource "/dev/sr0") 3 "/rips/d" 120)).
Proof.
  destruct (@RipTitle_success caseless demo_runner (demo_rip [prgv 1 10] None false) (DeviceSource "/dev/sr0") 3 "/rips/d" 120)
    as (_ & _ & staging & produced & size & res & _ & _ & Hsize & Hres & _).
  - vm_compute. reflexivity.
  - exists size. split; [exact Hsize|by exists res].
Defined.

Lemma RipTitle_stall_is_not_cancel_witness :
  (∃ e, rd_err (@RipTitle caseless demo_runner (demo_rip [prgv 1 10; Tick (21 * Second)] (Some "signal: interrupt") false)
          (DeviceSource "/dev/sr0") 3 "/rips/d" 120) = Some e ∧ is_ctxCanceled e = false) ∧
  (∃ e, rd_err (@RipTitle caseless demo_runner (demo_rip [prgv 1 10] (Some "signal: interrupt") true)
          (DeviceSource "/dev/sr0") 3 "/rips/d" 120) = Some e ∧ is_ctxCanceled e = true).
Proof.
  split.
  - destruct (@RipTitle_stall_is_not_cancel caseless demo_runner (demo_rip [prgv 1 10; Tick (21 * Second)] (Some "signal: interrupt") false)
      (DeviceSource "/dev/sr0") 3 "/rips/d" 120 "/rips/d/.rip-1" eq_refl eq_refl eq_refl) as [H _].
    destruct H as (e & He & Hc & _); [vm_compute; reflexivity|]. by exists e.
  - destruct (@RipTitle_stall_is_not_cancel caseless demo_runner (demo_rip [prgv 1 10] (Some "signal: interrupt") true)
      (DeviceSource "/dev/sr0") 3 "/rips/d" 120 "/rips/d/.rip-1" eq_refl eq_refl eq_refl) as [_ H].
    apply H; [vm_compute; reflexivity|reflexivity|]. by eexists.
Defined.

Lemma CheckKey_needs_a_key_witness :
  ∃ key, @ReadSettingsKey caseless "/h/.MakeMKV/settings.conf" (RContents sample_settings) = Ok key ∧ key ≠ "".
Proof.
  apply (@CheckKey_needs_a_key caseless demo_runner (RContents sample_settings) [] (mkEnd None None "") false
    (mkKeyStatus true false "" false)); [done|vm_compute; reflexivity|reflexivity].
Defined.
