(* ===== verification/Hub.v ===== *)
(** * The event hub and its HTTP stream (internal/api/hub.go, server.go)

    A ring of recent events with monotonic ids, fanned out to subscriber
    channels, and the Server-Sent-Events handler that replays it.  A channel
    is its buffered contents and a closed flag; the mutex makes each operation
    one step, except that [release] closes its channel after unlocking, which
    is a step of its own. *)

From S2P Require Import Prelude GoText.

Section hub.
Context {A : Type}.

Record Event := mkEv { ev_ID : Z; ev_Kind : string; ev_At : Z; ev_Data : A }.

Definition ringSize : nat := 4096.
Definition chanCap : nat := 256.
Definition u64 (x : Z) : Z := x mod 2 ^ 64.

Record Chan := mkChan { buf : list Event; closed : bool }.

Record Hub := mkHub {
  nextID : Z;
  ring : list Event;
  start : nat;
  full : bool;
  subs : gset nat;
  chans : gmap nat Chan;
}.

Definition NewHub : Hub := mkHub 0 [] 0 false ∅ ∅.

(** The ring fields [h.append] touches. *)
Definition append (ev : Event) (h : Hub) : Hub :=
  if (length (ring h) <? ringSize)%nat then
    mkHub (nextID h) (ring h ++ [ev]) (start h) (full h) (subs h) (chans h)
  else
    mkHub (nextID h) (<[start h := ev]> (ring h)) ((start h + 1) mod ringSize) true
      (subs h) (chans h).

(** A non-blocking send: dropped when the buffer is full; a send on a closed
    channel panics. *)
Definition try_send (ev : Event) (c : Chan) : option Chan :=
  if closed c then None
  else Some (if (length (buf c) <? chanCap)%nat then mkChan (buf c ++ [ev]) false else c).

Definition fanout_one (ev : Event) (c : nat) (acc : option (gmap nat Chan))
    : option (gmap nat Chan) :=
  m ← acc; ch ← m !! c; ch' ← try_send ev ch; Some (<[c := ch']> m).
Definition fanout (ev : Event) (ss : list nat) (m : gmap nat Chan) : option (gmap nat Chan) :=
  foldr (fanout_one ev) (Some m) ss.

(** [None] is a panic. *)
Definition Publish (kind : string) (data : A) (now : Z) (h : Hub) : option (Hub * Event) :=
  let id := u64 (nextID h + 1) in
  let ev := mkEv id kind now data in
  let h1 := append ev (mkHub id (ring h) (start h) (full h) (subs h) (chans h)) in
  m ← fanout ev (elements (subs h1)) (chans h1);
  Some (mkHub (nextID h1) (ring h1) (start h1) (full h1) (subs h1) m, ev).

Definition LastID (h : Hub) : Z := nextID h.

Definition orderedLocked (h : Hub) : list Event :=
  if negb (full h) then ring h else drop (start h) (ring h) ++ take (start h) (ring h).

Definition Since (id : Z) (h : Hub) : list Event * bool :=
  let ordered := orderedLocked h in
  match ordered with
  | [] => ([], (id =? 0) || (id =? nextID h))
  | e :: _ =>
      (filter (λ ev, id < ev_ID ev) ordered,
       (ev_ID e <=? u64 (id + 1)) || (nextID h <=? id))
  end.

(** The new channel is a fresh key. *)
Definition Subscribe (h : Hub) : Hub * nat :=
  let c := fresh (dom (chans h)) in
  (mkHub (nextID h) (ring h) (start h) (full h) ({[c]} ∪ subs h) (<[c := mkChan [] false]> (chans h)), c).

(** [release]: under the lock the channel leaves the set ... *)
Definition release_delete (c : nat) (h : Hub) : Hub :=
  mkHub (nextID h) (ring h) (start h) (full h) (subs h ∖ {[c]}) (chans h).
(** ... and then, unlocked, it is closed. *)
Definition release_close (c : nat) (h : Hub) : Hub :=
  mkHub (nextID h) (ring h) (start h) (full h) (subs h)
    (alter (λ ch, mkChan (buf ch) true) c (chans h)).

Definition Subscribers (h : Hub) : nat := size (subs h).

(** ** The stream handler (server.go, events) *)

Inductive frame :=
| Reconcile (last : Z)
| Hello (last : Z)
| Ev (ev : Event).

(** The loop over the channel: what already went out is skipped. *)
Fixpoint live_loop (sent : Z) (evs : list Event) : list frame :=
  match evs with
  | [] => []
  | ev :: evs' =>
      if ev_ID ev <=? sent then live_loop sent evs'
      else Ev ev :: live_loop (ev_ID ev) evs'
  end.

Definition last_sent (from : Z) (missed : list Event) : Z :=
  foldl (λ _ ev, ev_ID ev) from missed.

(** [h] is the hub when Since runs, [live] what is then read from the channel
    subscribed just before. *)
Definition events (from : Z) (h : Hub) (live : list Event) : list frame :=
  let '(missed, complete) := Since from h in
  (if complete then [] else [Reconcile (LastID h)]) ++ [Hello (LastID h)]
  ++ map Ev missed ++ live_loop (last_sent from missed) live.

Definition lastEventID {U : Unicode} (header query : string) : Z :=
  let raw := if bool_decide (header = "") then query else header in
  default 0 (ParseUint64 (TrimSpace raw)).
End hub.
Arguments Event : clear implicits.
Arguments Hub : clear implicits.
Arguments Chan : clear implicits.
Arguments frame : clear implicits.

(** ** The abstract log the ring implements

    Everything ever published, oldest first, numbered from one. *)
Section spec.
Context {A : Type}.
Implicit Types (h : Hub A) (log : list (Event A)).

Definition numbered log : Prop :=
  ∀ i e, log !! i = Some e → ev_ID e = Z.of_nat i + 1.

(** The newest [ringSize] events of the log. *)
Definition recent log : list (Event A) := drop (length log - ringSize) log.

Record ring_repr h log : Prop := {
  rr_next : nextID h = Z.of_nat (length log);
  rr_bound : Z.of_nat (length log) < 2 ^ 64;
  rr_ids : numbered log;
  rr_ordered : orderedLocked h = recent log;
  rr_size : length (ring h) = (length log `min` ringSize)%nat;
  rr_start : if full h then (start h < ringSize)%nat ∧ (ringSize ≤ length log)%nat
             else start h = 0%nat ∧ (length log ≤ ringSize)%nat;
}.

(** Channels: no subscriber is closed. *)
Definition subs_open h : Prop :=
  ∀ c, c ∈ subs h → ∃ ch, chans h !! c = Some ch ∧ closed ch = false.

Lemma ringSize_pos : (0 < ringSize)%nat.
Proof. unfold ringSize. lia. Qed.
#[local] Opaque ringSize.

(** *** Rotation of a full ring *)

Lemma rotate_insert {B} (r : list B) s x :
  (s < length r)%nat →
  let s' := ((s + 1) mod length r)%nat in
  drop s' (<[s := x]> r) ++ take s' (<[s := x]> r) = tail (drop s r ++ take s r) ++ [x].
Proof.
  intros Hs s'. destruct (lookup_lt_is_Some_2 r s Hs) as [y Hy].
  pose proof (take_drop_middle r s y Hy) as Hr.
  assert (Hl : length (take s r) = s) by (rewrite length_take; lia).
  assert (Hi : <[s:=x]> r = take s r ++ x :: drop (S s) r).
  { rewrite <- Hr at 1. rewrite insert_app_r_alt by lia. by rewrite Hl, Nat.sub_diag. }
  rewrite (drop_S _ _ _ Hy). simpl. unfold s'. rewrite Hi.
  destruct (decide (s + 1 = length r)%nat) as [E|E].
  - rewrite E, Nat.Div0.mod_same. simpl.
    assert (drop (S s) r = []) as -> by (apply drop_ge; lia). by rewrite app_nil_r.
  - rewrite Nat.mod_small by lia.
    rewrite drop_app_ge, take_app_ge by lia.
    replace (s + 1 - length (take s r))%nat with 1%nat by lia. simpl.
    by rewrite drop_0, take_0, (assoc (++)).
Qed.

Lemma recent_snoc_small log e :
  (length log < ringSize)%nat → recent (log ++ [e]) = log ++ [e].
Proof.
  intros. unfold recent. rewrite length_app. simpl.
  by replace (length log + 1 - ringSize)%nat with 0%nat by lia.
Qed.

Lemma recent_snoc_large log e :
  (ringSize ≤ length log)%nat → recent (log ++ [e]) = tail (recent log) ++ [e].
Proof.
  intros H. unfold recent. rewrite length_app. simpl.
  pose proof ringSize_pos. rewrite drop_app_le by lia. f_equal.
  rewrite tail_drop. f_equal. lia.
Qed.

Lemma recent_small log : (length log ≤ ringSize)%nat → recent log = log.
Proof. intros. unfold recent. by replace (length log - ringSize)%nat with 0%nat by lia. Qed.

Lemma numbered_snoc log e :
  numbered log → ev_ID e = Z.of_nat (length log) + 1 → numbered (log ++ [e]).
Proof.
  intros Hn He i e' [H|[Hi H]]%lookup_app_Some; [by apply Hn|].
  apply list_lookup_singleton_Some in H as [H ->]. lia.
Qed.

Lemma append_repr h log kind now (data : A) :
  ring_repr h log → Z.of_nat (length log) + 1 < 2 ^ 64 →
  let ev := mkEv (u64 (nextID h + 1)) kind now data in
  ring_repr (append ev (mkHub (u64 (nextID h + 1)) (ring h) (start h) (full h) (subs h) (chans h)))
    (log ++ [ev]).
Proof.
  intros [Hn Hb Hids Ho Hs Hst] Hlt. cbv zeta.
  assert (Hid : u64 (nextID h + 1) = Z.of_nat (length log) + 1)
    by (unfold u64; rewrite Hn, Z.mod_small; lia).
  rewrite Hid. set (ev := mkEv _ _ _ _).
  assert (numbered (log ++ [ev])) by (by apply numbered_snoc).
  unfold append; cbn [ring start full subs chans nextID].
  destruct (Nat.ltb_spec (length (ring h)) ringSize) as [Hr|Hr].
  - assert ((length log < ringSize)%nat) by lia.
    destruct (full h) eqn:Hf; [lia|]. unfold orderedLocked in Ho. rewrite Hf in Ho; simpl in Ho.
    rewrite recent_small in Ho by lia.
    split; cbn [ring start full nextID]; rewrite ?length_app; simpl; try done; try lia.
    + rewrite recent_snoc_small by done. unfold orderedLocked; simpl. by rewrite Ho.
  - assert ((ringSize ≤ length log)%nat) by lia.
    assert (length (ring h) = ringSize) as Hlen by lia.
    split; cbn [ring start full nextID]; rewrite ?length_app, ?length_insert; cbn [length];
      try done; try lia.
    + rewrite recent_snoc_large, <- Ho by done. unfold orderedLocked; cbn [full start ring negb].
      assert (Hsl : (start h < length (ring h))%nat) by (pose proof ringSize_pos; destruct (full h); lia).
      pose proof (rotate_insert (ring h) (start h) ev Hsl) as Hrot. rewrite Hlen in Hrot.
      rewrite Hrot. f_equal. f_equal. destruct (full h); simpl; [done|].
      destruct Hst as [-> _]. by rewrite drop_0, take_0, app_nil_r.
    + split; [|lia]. apply Nat.mod_upper_bound. pose proof ringSize_pos. lia.
Qed.

(** *** Fan-out *)

Lemma try_send_open (ev : Event A) c : closed c = false → ∃ c', try_send ev c = Some c' ∧ closed c' = false.
Proof. unfold try_send. intros H. rewrite H. case_match; eauto. Qed.

Definition open_in (m : gmap nat (Chan A)) (c : nat) : Prop :=
  ∃ ch, m !! c = Some ch ∧ closed ch = false.

Lemma fanout_open (ev : Event A) ss m :
  (∀ c, c ∈ ss → open_in m c) →
  ∃ m', fanout ev ss m = Some m' ∧ ∀ c, open_in m c → open_in m' c.
Proof.
  unfold fanout. induction ss as [|c ss IH]; simpl; intros Hs; [by eauto|].
  destruct IH as (m' & -> & Hm'); [intros; apply Hs; by constructor|]. simpl.
  destruct (Hm' c) as (ch & Hch & Hcl); [apply Hs; by constructor|].
  rewrite Hch. simpl. destruct (try_send_open ev ch Hcl) as (ch' & -> & Hcl'). simpl.
  eexists; split; [done|]. intros d Hd%Hm'. destruct (decide (c = d)) as [->|].
  - exists ch'. by rewrite lookup_insert_eq.
  - unfold open_in. by rewrite lookup_insert_ne.
Qed.

Lemma append_subs ev h :
  subs (append ev h) = subs h ∧ chans (append ev h) = chans h ∧ nextID (append ev h) = nextID h.
Proof. unfold append. by case_match. Qed.

Lemma Publish_open h kind (data : A) now :
  subs_open h →
  ∃ h' ev, Publish kind data now h = Some (h', ev) ∧ subs h' = subs h ∧
    (∀ c, open_in (chans h) c → open_in (chans h') c) ∧
    let id := u64 (nextID h + 1) in
    let h1 := append (mkEv id kind now data) (mkHub id (ring h) (start h) (full h) (subs h) (chans h)) in
    ev = mkEv id kind now data ∧ nextID h' = nextID h1 ∧ ring h' = ring h1 ∧
    start h' = start h1 ∧ full h' = full h1.
Proof.
  intros Ho. unfold Publish. set (ev := mkEv _ _ _ _). set (h1 := append _ _).
  destruct (append_subs ev (mkHub (u64 (nextID h + 1)) (ring h) (start h) (full h) (subs h) (chans h)))
    as (E1 & E2 & E3). fold h1 in E1, E2, E3. simpl in E1, E2, E3.
  destruct (fanout_open ev (elements (subs h1)) (chans h1)) as (m & Hm & Hop).
  { intros c Hc%elem_of_elements. rewrite E2. apply Ho. congruence. }
  rewrite Hm. simpl. rewrite E2 in Hop. do 2 eexists. split; [done|]. by repeat split.
Qed.

(** *** Interleavings

    The steps the lock serialises, and the unlocked close: [rel] holds the
    channels whose release has deleted them and not yet closed them. *)
Inductive hub_step : Hub A * gset nat → Hub A * gset nat → Prop :=
| step_publish h rel kind data now h' ev :
    Publish kind data now h = Some (h', ev) → hub_step (h, rel) (h', rel)
| step_subscribe h rel : hub_step (h, rel) ((Subscribe h).1, rel)
| step_release_delete h rel c :
    c ∈ subs h → hub_step (h, rel) (release_delete c h, {[c]} ∪ rel)
| step_release_close h rel c :
    c ∈ rel → hub_step (h, rel) (release_close c h, rel ∖ {[c]})
| step_receive h rel c ev b cl :
    chans h !! c = Some (mkChan (ev :: b) cl) →
    hub_step (h, rel)
      (mkHub (nextID h) (ring h) (start h) (full h) (subs h) (<[c := mkChan b cl]> (chans h)), rel).

Definition hub_inv (cfg : Hub A * gset nat) : Prop :=
  subs_open cfg.1 ∧ subs cfg.1 ## cfg.2 ∧ cfg.2 ⊆ dom (chans cfg.1).

Lemma fanout_dom (ev : Event A) ss m m' : fanout ev ss m = Some m' → dom m ⊆ dom m'.
Proof.
  unfold fanout. revert m'. induction ss as [|c ss IH]; simpl; intros m' Hm'.
  { by injection Hm' as <-. }
  destruct (foldr _ _ ss) as [m1|]; simpl in Hm'; [|done].
  destruct (m1 !! c) as [ch|]; simpl in Hm'; [|done].
  destruct (try_send _ ch); simpl in Hm'; [|done]. injection Hm' as <-.
  rewrite dom_insert. specialize (IH _ eq_refl). set_solver.
Qed.

Lemma Publish_dom h kind (data : A) now h' ev :
  Publish kind data now h = Some (h', ev) → dom (chans h) ⊆ dom (chans h').
Proof.
  unfold Publish. set (e := mkEv _ _ _ _). set (h1 := append _ _).
  destruct (fanout _ _ _) as [m|] eqn:Hf; simpl; [|done]. intros [= <- <-]. simpl.
  apply fanout_dom in Hf. subst h1. by rewrite (proj1 (proj2 (append_subs _ _))) in Hf.
Qed.

Lemma hub_step_inv cfg cfg' : hub_step cfg cfg' → hub_inv cfg → hub_inv cfg'.
Proof.
  intros Hstep (Ho & Hd & Hdom). destruct Hstep as
    [h rel kind data now h' ev Hp|h rel|h rel c Hc|h rel c Hc|h rel c ev b cl Hc];
    unfold hub_inv, subs_open in *; simpl in *.
  - destruct (Publish_open h kind data now Ho) as (h2 & ev2 & Hp2 & Hs & Hop & _).
    rewrite Hp in Hp2. injection Hp2 as <- <-. rewrite Hs. split_and!; try done.
    + intros c Hc. by apply Hop, Ho.
    + apply Publish_dom in Hp. set_solver.
  - pose proof (is_fresh (dom (chans h))) as Hf. set (c := fresh _) in *. split_and!.
    + intros d [->%elem_of_singleton|Hd']%elem_of_union.
      * exists (mkChan [] false). by rewrite lookup_insert_eq.
      * destruct (Ho d Hd') as (ch & Hch & ?). exists ch.
        rewrite lookup_insert_ne; [done|]. intros <-. apply Hf, elem_of_dom. by exists ch.
    + assert (c ∉ rel) by set_solver. set_solver.
    + rewrite dom_insert. set_solver.
  - split_and!.
    + intros d [Hd' _]%elem_of_difference. by apply Ho.
    + set_solver.
    + destruct (Ho c Hc) as (ch & Hch & _). apply elem_of_dom_2 in Hch. set_solver.
  - split_and!.
    + intros d Hd'. rewrite lookup_alter_ne by set_solver. by apply Ho.
    + set_solver.
    + rewrite dom_alter. set_solver.
  - split_and!.
    + intros d Hd'. destruct (decide (c = d)) as [->|].
      * destruct (Ho d Hd') as (ch & Hch & Hcl). rewrite Hc in Hch. injection Hch as <-.
        simpl in Hcl. subst. exists (mkChan b false). by rewrite lookup_insert_eq.
      * rewrite lookup_insert_ne by done. by apply Ho.
    + done.
    + rewrite dom_insert. set_solver.
Qed.

Lemma hub_reachable_inv cfg : rtc hub_step (NewHub, ∅) cfg → hub_inv cfg.
Proof.
  intros H. assert (hub_inv (@NewHub A, ∅)) as Hi.
  { unfold hub_inv, subs_open; simpl. split_and!; set_solver. }
  revert Hi. induction H; [done|]. intros Hi. eauto using hub_step_inv.
Qed.

(** *** Replay *)

Lemma filter_numbered log id :
  numbered log → 0 ≤ id → filter (λ ev, id < ev_ID ev) log = drop (Z.to_nat id) log.
Proof.
  intros Hn Hid. rewrite <- (take_drop (Z.to_nat id) log) at 1. rewrite filter_app.
  rewrite filter_none, filter_all; [done| |].
  - apply Forall_forall. intros e [i Hi]%list_elem_of_lookup.
    rewrite lookup_drop in Hi. apply Hn in Hi. lia.
  - apply Forall_forall. intros e [i Hi]%list_elem_of_lookup.
    apply lookup_take_Some in Hi as [Hi ?]. apply Hn in Hi. lia.
Qed.

Lemma filter_recent log id :
  numbered log → 0 ≤ id →
  filter (λ ev, id < ev_ID ev) (recent log) =
    drop (Z.to_nat id `max` (length log - ringSize)) log.
Proof.
  intros Hn Hid. unfold recent. set (k := (length log - ringSize)%nat). clearbody k.
  rewrite <- (take_drop (Z.to_nat id - k) (drop k log)), filter_app.
  rewrite filter_none, filter_all; simpl.
  - rewrite drop_drop. f_equal. lia.
  - apply Forall_forall. intros e [i Hi]%list_elem_of_lookup.
    rewrite !lookup_drop in Hi. apply Hn in Hi. lia.
  - apply Forall_forall. intros e [i Hi]%list_elem_of_lookup.
    apply lookup_take_Some in Hi as [Hi ?]. rewrite lookup_drop in Hi. apply Hn in Hi. lia.
Qed.

Lemma recent_head log e es :
  numbered log → recent log = e :: es → ev_ID e = Z.of_nat (length log - ringSize) + 1.
Proof.
  intros Hn Hr. apply Hn. rewrite <- (Nat.add_0_r (length log - ringSize)), <- lookup_drop.
  fold (recent log). by rewrite Hr.
Qed.

(** What Since computes, in terms of the log. *)
Lemma Since_log h log id :
  ring_repr h log → 0 ≤ id < 2 ^ 64 - 1 →
  Since id h =
    (drop (Z.to_nat id `max` (length log - ringSize)) log,
     match log with
     | [] => id =? 0
     | _ => (Z.of_nat (length log) - Z.of_nat ringSize <=? id)
     end).
Proof.
  intros [Hn Hb Hids Ho Hs Hst] Hid. unfold Since. cbv zeta. rewrite Ho.
  destruct (recent log) as [|e es] eqn:Hr.
  - assert (log = []) as ->.
    { destruct log; [done|]. exfalso. apply (f_equal length) in Hr.
      unfold recent in Hr. rewrite length_drop in Hr. pose proof ringSize_pos. simpl in Hr. lia. }
    simpl in Hn. rewrite Hn, orb_diag, drop_nil. done.
  - rewrite <- Hr. rewrite filter_recent by (done || lia).
    rewrite (recent_head _ _ _ Hids Hr), Hn. f_equal.
    assert (log ≠ []) by (intros ->; by destruct es).
    destruct log as [|e0 log0]; [done|]. set (log := e0 :: log0) in *.
    unfold u64. rewrite Z.mod_small by lia.
    assert (0 < length log)%nat by (simpl; lia).
    pose proof ringSize_pos.
    destruct (Z.leb_spec (Z.of_nat (length log - ringSize) + 1) (id + 1)),
      (Z.leb_spec (Z.of_nat (length log)) id),
      (Z.leb_spec (Z.of_nat (length log) - Z.of_nat ringSize) id); try done; lia.
Qed.
End spec.

(** ** Theorems *)

Section theorems.
Context {A : Type}.
Implicit Types (h : Hub A) (log : list (Event A)).

Lemma ring_repr_ext h h' log :
  nextID h' = nextID h → ring h' = ring h → start h' = start h → full h' = full h →
  ring_repr h log → ring_repr h' log.
Proof.
  destruct h, h'; simpl. intros -> -> -> -> [Hn Hb Hi Ho Hs Hst]. by split.
Qed.

Lemma Publish_logs h log kind (data : A) now :
  ring_repr h log → subs_open h → Z.of_nat (length log) + 1 < 2 ^ 64 →
  ∃ h' ev, Publish kind data now h = Some (h', ev) ∧
    ev = mkEv (Z.of_nat (length log) + 1) kind now data ∧
    ring_repr h' (log ++ [ev]) ∧ subs_open h'.
Proof.
  intros Hr Ho Hlt. destruct (Publish_open h kind data now Ho)
    as (h' & ev & Hp & Hs & Hop & -> & E1 & E2 & E3 & E4).
  pose proof (append_repr h log kind now data Hr Hlt) as Ha. cbv zeta in Ha.
  assert (u64 (nextID h + 1) = Z.of_nat (length log) + 1) as Hid.
  { destruct Hr as [-> ? ? ? ? ?]. unfold u64. apply Z.mod_small. lia. }
  exists h', (mkEv (u64 (nextID h + 1)) kind now data). split_and!; [done|by rewrite Hid| |].
  - by eapply ring_repr_ext, Ha.
  - intros c Hc. rewrite Hs in Hc. by apply Hop, Ho.
Qed.

(** C21: the ring implements an append-only log.  From a hub that represents a
    log, Publish never panics, gives the event the next id, and leaves a hub
    that represents the log with the event added, whether or not the ring has
    wrapped. *)
Theorem Publish_refines_log h log kind (data : A) now :
  ring_repr h log → subs_open h → Z.of_nat (length log) + 1 < 2 ^ 64 →
  ∃ h' ev, Publish kind data now h = Some (h', ev) ∧
    ev = mkEv (Z.of_nat (length log) + 1) kind now data ∧
    ring_repr h' (log ++ [ev]) ∧ subs_open h'.
Proof. apply Publish_logs. Qed.

(** replay is honest.  For a client inside the daemon's lifetime, Since
    returns the newest part of the log after the client's id, and its
    completeness flag is true exactly when that is everything published after
    the id, so a gap is never handed over silently. *)
Theorem Since_complete_iff h log id :
  ring_repr h log → log ≠ [] → 0 ≤ id < 2 ^ 64 - 1 →
  let '(evs, complete) := Since id h in
  evs `suffix_of` drop (Z.to_nat id) log ∧
  (complete = true ↔ evs = drop (Z.to_nat id) log).
Proof.
  intros Hr Hne Hid. rewrite (Since_log _ _ _ Hr Hid). destruct log as [|e0 log0]; [done|].
  set (log := e0 :: log0). set (k := (length log - ringSize)%nat). split.
  - replace (Z.to_nat id `max` k)%nat with (Z.to_nat id + (k - Z.to_nat id))%nat by lia.
    rewrite <- drop_drop. apply suffix_drop.
  - rewrite Z.leb_le. split.
    + intros. f_equal. lia.
    + intros E. apply (f_equal length) in E. rewrite !length_drop in E.
      destruct (decide (k ≤ Z.to_nat id)%nat); [lia|].
      assert (k ≤ length log)%nat by lia. lia.
Qed.

(** no interleaving of publishing, subscribing, receiving and releasing,
    where release closes its channel after letting go of the lock, ever sends
    on a closed channel. *)
Theorem hub_never_panics h rel :
  rtc hub_step (NewHub, ∅) (h, rel) →
  ∀ kind (data : A) now, is_Some (Publish kind data now h).
Proof.
  intros [Ho _]%hub_reachable_inv kind data now.
  destruct (Publish_open h kind data now Ho) as (h' & ev & -> & _). by eexists.
Qed.

Lemma live_loop_numbered (l : list (Event A)) (n sent : nat) :
  (∀ i e, l !! i = Some e → ev_ID e = Z.of_nat (n + i) + 1) → (n ≤ sent)%nat →
  live_loop (Z.of_nat sent) l = map Ev (drop (sent - n) l).
Proof.
  revert n sent. induction l as [|e l IH]; intros n sent Hl Hn; simpl; [by rewrite drop_nil|].
  pose proof (Hl 0%nat e eq_refl) as He.
  assert (Hl' : ∀ i e', l !! i = Some e' → ev_ID e' = Z.of_nat (S n + i) + 1).
  { intros i e' Hi. rewrite (Hl (S i) e' Hi). lia. }
  destruct (Z.leb_spec (ev_ID e) (Z.of_nat sent)).
  - rewrite (IH (S n) sent Hl') by lia. by replace (sent - n)%nat with (S (sent - S n)) by lia.
  - replace (sent - n)%nat with 0%nat by lia. simpl.
    replace (ev_ID e) with (Z.of_nat (S n)) by lia. rewrite (IH (S n) (S n) Hl') by lia.
    by rewrite Nat.sub_diag, drop_0.
Qed.

Lemma last_sent_last (from : Z) (l : list (Event A)) :
  last_sent from l = from_option ev_ID from (last l).
Proof.
  unfold last_sent. induction l as [|x l _] using rev_ind; [done|].
  by rewrite foldl_snoc, last_snoc.
Qed.

Lemma last_sent_drop log from :
  numbered log → 0 ≤ from ≤ Z.of_nat (length log) →
  last_sent from (drop (Z.to_nat from) log) = Z.of_nat (length log).
Proof.
  intros Hn Hf. rewrite last_sent_last, last_lookup, length_drop, lookup_drop.
  destruct (log !! _) as [e|] eqn:E; simpl.
  - apply Hn in E as Hid. apply lookup_lt_Some in E. lia.
  - apply lookup_ge_None in E. lia.
Qed.

Lemma events_resumed h log more from n :
  ring_repr h log → log ≠ [] → numbered (log ++ more) →
  0 ≤ from ≤ Z.of_nat (length log) → Z.of_nat (length log) - Z.of_nat ringSize ≤ from →
  (n ≤ length log)%nat → Z.of_nat (length log) < 2 ^ 64 - 1 →
  events from h (drop n (log ++ more)) =
    Hello (Z.of_nat (length log)) :: map Ev (drop (Z.to_nat from) (log ++ more)).
Proof.
  intros Hr Hne Hnum Hf Hw Hn Hlt. pose proof Hr as [Hnext Hb Hids _ _ _].
  unfold events. rewrite (Since_log _ _ _ Hr) by lia. destruct log as [|e0 log0]; [done|].
  set (log := e0 :: log0) in *. assert ((Z.of_nat (length log) - Z.of_nat ringSize <=? from) = true)
    as -> by lia. unfold LastID. rewrite Hnext. cbn [app]. f_equal.
  replace (Z.to_nat from `max` (length log - ringSize))%nat with (Z.to_nat from) by lia.
  rewrite last_sent_drop by done.
  rewrite (live_loop_numbered _ n); [|intros i e Hi; rewrite lookup_drop in Hi; by apply Hnum|done].
  rewrite drop_drop. replace (n + (length log - n))%nat with (length log) by lia.
  rewrite (drop_app_le log more (Z.to_nat from)), map_app by lia. by rewrite drop_app_length.
Qed.

(** a stream delivers every event exactly once, in order.  A client that
    resumes from an id the hub still holds gets a hello and then precisely the
    events after its id, even though the events between subscribing (when the
    log had [n] events) and replaying arrive twice. *)
Theorem events_exactly_once h log more from n :
  ring_repr h log → log ≠ [] → numbered (log ++ more) →
  0 ≤ from ≤ Z.of_nat (length log) → Z.of_nat (length log) - Z.of_nat ringSize ≤ from →
  (n ≤ length log)%nat → Z.of_nat (length log) < 2 ^ 64 - 1 →
  events from h (drop n (log ++ more)) =
    Hello (Z.of_nat (length log)) :: map Ev (drop (Z.to_nat from) (log ++ more)).
Proof. apply events_resumed. Qed.

(** a cursor from an earlier daemon gets nothing.  Ids restart with the
    daemon; a client whose id is beyond the hub's newest is told the replay is
    complete, and every live event up to that id is skipped. *)
Theorem stale_cursor_starves h log from live :
  ring_repr h log → log ≠ [] → Z.of_nat (length log) < from < 2 ^ 64 - 1 →
  Forall (λ e, ev_ID e ≤ from) live →
  events from h live = [Hello (Z.of_nat (length log))].
Proof.
  intros Hr Hne Hf Hl. pose proof Hr as [Hnext Hb Hids _ _ _].
  unfold events. rewrite (Since_log _ _ _ Hr) by lia. destruct log as [|e0 log0]; [done|].
  set (log := e0 :: log0) in *. assert ((Z.of_nat (length log) - Z.of_nat ringSize <=? from) = true)
    as -> by (apply Z.leb_le; pose proof (Nat2Z.is_nonneg ringSize); lia). unfold LastID. rewrite Hnext. rewrite drop_ge by (apply Nat.max_le_iff; left; lia). simpl. f_equal.
  unfold last_sent; simpl. induction Hl as [|e l He Hl IH]; simpl; [done|].
  by destruct (Z.leb_spec (ev_ID e) from); [|lia].
Qed.
End theorems.

(** *** A small hub, for evaluation *)

Definition ev1 : Event unit := mkEv 1 "drives" 0 ().
Definition ev2 : Event unit := mkEv 2 "log" 0 ().
Definition hub1 : Hub unit := mkHub 1 [ev1] 0 false ∅ ∅.

Lemma numbered12 : numbered [ev1; ev2].
Proof. intros [|[|i]] e H; simplify_eq/=; done. Qed.

Lemma hub1_repr : ring_repr hub1 [ev1].
Proof.
  split; try (vm_compute; done).
  - intros [|i] e H; simplify_eq/=; done.
  - simpl. split; [done|]. apply ringSize_pos.
Qed.

Lemma Publish_refines_log_witness :
  ∃ h' ev, Publish "log" () 0 hub1 = Some (h', ev) ∧
    ev = mkEv (Z.of_nat 1 + 1) "log" 0 () ∧ ring_repr h' ([ev1] ++ [ev]) ∧ subs_open h'.
Proof.
  apply (Publish_refines_log hub1 [ev1] "log" () 0); [apply hub1_repr | | vm_compute; reflexivity].
  intros c Hc. exfalso. set_solver.
Defined.

Lemma Since_complete_iff_witness :
  let '(evs, complete) := Since 0 hub1 in
  evs `suffix_of` drop (Z.to_nat 0) [ev1] ∧ (complete = true ↔ evs = drop (Z.to_nat 0) [ev1]).
Proof. apply (Since_complete_iff hub1 [ev1] 0); [apply hub1_repr | discriminate | lia]. Defined.

Lemma hub_never_panics_witness :
  is_Some (Publish "log" () 0 (release_close 0 (release_delete 0 (Subscribe (@NewHub unit)).1))).
Proof.
  eapply hub_never_panics. eapply rtc_l; [apply step_subscribe|].
  eapply rtc_l; [apply (step_release_delete _ _ 0%nat); set_solver|].
  eapply rtc_l; [apply (step_release_close _ _ 0%nat); set_solver|]. apply rtc_refl.
Defined.

Lemma events_exactly_once_witness :
  events 0 hub1 (drop 0 ([ev1] ++ [ev2])) = Hello 1 :: map Ev (drop (Z.to_nat 0) ([ev1] ++ [ev2])).
Proof.
  apply (events_exactly_once hub1 [ev1] [ev2] 0 0);
    [apply hub1_repr | discriminate | apply numbered12 | simpl; lia
    | vm_compute; discriminate | simpl; lia | simpl; lia].
Defined.

Lemma stale_cursor_starves_witness : events 5000 hub1 [ev2] = [Hello 1].
Proof.
  apply (stale_cursor_starves hub1 [ev1]); [apply hub1_repr | discriminate | simpl; lia |].
  repeat constructor; simpl; lia.
Defined.
