(* ===== verification/Store.v ===== *)
(** * The state database (internal/store/store.go, internal/store/schema.sql)

    The tables as lists of rows in rowid order, a statement monad over them,
    and one definition per method of Store.  A statement that fails leaves the
    tables as they were; a transaction that fails is rolled back.  A clock
    reading is an argument [now].  Columns every INSERT of the program fills
    are plain values, columns that can hold NULL are options. *)

From S2P Require Import Prelude GoText Table Disc Failure.

(** ** Schema *)

Record driveRow := mkDriveRow {
  dr_id : Z;
  dr_stable_id : string;
  dr_device_path : string;
  dr_label : string;
  dr_vendor_model : string;
  dr_first_seen : Z;
  dr_last_seen : Z;
}.

Record discRow := mkDiscRow {
  di_id : Z;
  di_fingerprint : string;
  di_volume_label : string;
  di_disc_type : string;
  di_title_count : Z;
  di_total_bytes : Z;
  di_first_seen : Z;
  di_rip_dir : option string;
  di_makemkv_info : string;
  di_forgotten_after_job : option Z;
  di_read_path : option string;
  di_disc_name : option string;
}.

Inductive JobState :=
| JobPending | JobScanning | JobRipping | JobVerifying
| JobComplete | JobFailed | JobDuplicate | JobCancelled.
#[global] Instance JobState_eq_dec : EqDecision JobState.
Proof. solve_decision. Defined.

Definition job_state_string (st : JobState) : string :=
  match st with
  | JobPending => "pending" | JobScanning => "scanning" | JobRipping => "ripping"
  | JobVerifying => "verifying" | JobComplete => "complete" | JobFailed => "failed"
  | JobDuplicate => "duplicate" | JobCancelled => "cancelled"
  end.

Record jobRow := mkJobRow {
  j_id : Z;
  j_disc_id : Z;
  j_drive_id : Z;
  j_state : JobState;
  j_attempt : Z;
  j_created_at : Z;
  j_started_at : option Z;
  j_ended_at : option Z;
  j_error : option string;
  j_titles_total : Z;
  j_titles_done : Z;
}.

Inductive TranscodeState :=
| TranscodePending | TranscodeRunning | TranscodeComplete | TranscodeFailed.
#[global] Instance TranscodeState_eq_dec : EqDecision TranscodeState.
Proof. solve_decision. Defined.

Record transcodeRow := mkTranscodeRow {
  tc_id : Z;
  tc_disc_id : Z;
  tc_title_index : Z;
  tc_state : TranscodeState;
  tc_profile : string;
  tc_source_path : string;
  tc_output_path : option string;
  tc_size_bytes : Z;
  tc_attempt : Z;
  tc_hardware : bool;
  tc_created_at : Z;
  tc_started_at : option Z;
  tc_ended_at : option Z;
  tc_error : option string;
}.

Record titleRow := mkTitleRow {
  ti_id : Z;
  ti_disc_id : Z;
  ti_title_index : Z;
  ti_duration_secs : Z;
  ti_chapters : Z;
  ti_size_bytes : Z;
  ti_source_file : string;
  ti_output_file : string;
  ti_ripped : bool;
  ti_verified : bool;
}.

Record streamRow := mkStreamRow {
  sr_id : Z;
  sr_title_id : Z;
  sr_stream_index : Z;
  sr_kind : string;
  sr_codec : string;
  sr_language : string;
  sr_channels : Z;
  sr_resolution : string;
  sr_frame_rate : string;
  sr_flags : string;
}.

Record linkRow := mkLinkRow {
  l_id : Z;
  l_disc_id : Z;
  l_title_index : Z;
  l_path : string;
  l_created_at : Z;
}.

Record eventRow := mkEventRow {
  e_id : Z;
  e_ts : Z;
  e_job_id : option Z;
  e_drive_id : option Z;
  e_level : string;
  e_message : string;
}.

Record Store := mkStore {
  drives : list driveRow;
  discs : list discRow;
  jobs : list jobRow;
  transcodes : list transcodeRow;
  titles : list titleRow;
  streams : list streamRow;
  library_links : list linkRow;
  events : list eventRow;
  schema_version : list Z;
}.

Definition empty_store : Store := mkStore [] [] [] [] [] [] [] [] [].

Definition set_drives (x : list driveRow) (s : Store) : Store :=
  mkStore x (discs s) (jobs s) (transcodes s) (titles s) (streams s) (library_links s) (events s) (schema_version s).
Definition set_discs (x : list discRow) (s : Store) : Store :=
  mkStore (drives s) x (jobs s) (transcodes s) (titles s) (streams s) (library_links s) (events s) (schema_version s).
Definition set_jobs (x : list jobRow) (s : Store) : Store :=
  mkStore (drives s) (discs s) x (transcodes s) (titles s) (streams s) (library_links s) (events s) (schema_version s).
Definition set_transcodes (x : list transcodeRow) (s : Store) : Store :=
  mkStore (drives s) (discs s) (jobs s) x (titles s) (streams s) (library_links s) (events s) (schema_version s).
Definition set_titles (x : list titleRow) (s : Store) : Store :=
  mkStore (drives s) (discs s) (jobs s) (transcodes s) x (streams s) (library_links s) (events s) (schema_version s).
Definition set_streams (x : list streamRow) (s : Store) : Store :=
  mkStore (drives s) (discs s) (jobs s) (transcodes s) (titles s) x (library_links s) (events s) (schema_version s).
Definition set_links (x : list linkRow) (s : Store) : Store :=
  mkStore (drives s) (discs s) (jobs s) (transcodes s) (titles s) (streams s) x (events s) (schema_version s).
Definition set_events (x : list eventRow) (s : Store) : Store :=
  mkStore (drives s) (discs s) (jobs s) (transcodes s) (titles s) (streams s) (library_links s) x (schema_version s).
Definition set_version (x : list Z) (s : Store) : Store :=
  mkStore (drives s) (discs s) (jobs s) (transcodes s) (titles s) (streams s) (library_links s) (events s) x.

(** ** Statements *)

Inductive storeErr :=
| ErrNoRows
| ErrForeignKey
| ErrUnknownDisc (fingerprint : string)
| ErrVersion (v : Z).
#[global] Instance storeErr_eq_dec : EqDecision storeErr.
Proof. solve_decision. Defined.

Definition schemaVersion : Z := 1.

(** The error's text, without what each method wraps around it. *)
Definition storeErr_text (x : storeErr) : string :=
  match x with
  | ErrNoRows => "sql: no rows in result set"
  | ErrForeignKey => "FOREIGN KEY constraint failed"
  | ErrUnknownDisc fp => "no disc with fingerprint " +:+ fp
  | ErrVersion v => "state database is version " +:+ itoa v +:+ " but this build understands " +:+ itoa schemaVersion
  end.

(** A sequence of statements: a result or an error, and the tables after. *)
Definition DB (A : Type) : Type := Store → outcome storeErr A * Store.

Definition ret {A} (a : A) : DB A := λ s, (Ok a, s).
Definition throw {A} (e : storeErr) : DB A := λ s, (Err e, s).
Definition bind {A B} (m : DB A) (k : A → DB B) : DB B := λ s,
  match m s with
  | (Ok a, s') => k a s'
  | (Err e, s') => (Err e, s')
  end.
Declare Scope db_scope.
Delimit Scope db_scope with db.
#[global] Open Scope db_scope.
Notation "x <~ m ;; k" := (bind m (λ x, k))
  (at level 100, m at next level, right associativity) : db_scope.
Notation "m ;;~ k" := (bind m (λ _, k))
  (at level 100, k at level 200, right associativity) : db_scope.

(** BeginTx ... Commit with the deferred Rollback. *)
Definition tx {A} (m : DB A) : DB A := λ s,
  match m s with
  | (Ok a, s') => (Ok a, s')
  | (Err e, _) => (Err e, s)
  end.

Definition exec (f : Store → Store) : DB unit := λ s, (Ok tt, f s).
Definition query {A} (f : Store → A) : DB A := λ s, (Ok (f s), s).
(** QueryRow(...).Scan *)
Definition queryRow {A} (f : Store → option A) : DB A := λ s,
  (match f s with Some a => Ok a | None => Err ErrNoRows end, s).
(** A REFERENCES clause, checked before the row is inserted. *)
Definition references (p : Store → bool) : DB unit := λ s,
  (if p s then Ok tt else Err ErrForeignKey, s).

Fixpoint each {A} (f : A → DB unit) (l : list A) : DB unit :=
  match l with
  | [] => ret tt
  | x :: l' => f x ;;~ each f l'
  end.

Definition has_disc (discID : Z) (s : Store) : bool :=
  existsb (λ r, di_id r =? discID) (discs s).
Definition has_drive (driveID : Z) (s : Store) : bool :=
  existsb (λ r, dr_id r =? driveID) (drives s).
Definition has_job (jobID : Z) (s : Store) : bool :=
  existsb (λ r, j_id r =? jobID) (jobs s).

Definition nullIfEmpty (s : string) : option string :=
  if bool_decide (s = "") then None else Some s.
Definition coalesce {A} (o : option A) (a : A) : A := default a o.

(** ** Opening *)


Definition initVersion : DB unit := λ s,
  match schema_version s with
  | [] => exec (set_version [schemaVersion]) s
  | v :: _ => if schemaVersion <? v then (Err (ErrVersion v), s) else (Ok tt, s)
  end.

(** The columns of discs before and after migrate. *)
Definition migrate (columns : list string) : list string :=
  let add (cols : list string) (c : string) :=
    if bool_decide (c ∈ columns) then cols else cols ++ [c] in
  foldl add columns ["forgotten_after_job"; "read_path"; "disc_name"].

(** ** Drives *)

Definition UpsertDrive (now : Z) (stableID devicePath label vendorModel : string) : DB Z :=
  exec (λ s, set_drives
    (upsert (λ r, bool_decide (dr_stable_id r = stableID))
       (λ r, mkDriveRow (dr_id r) (dr_stable_id r) devicePath label vendorModel (dr_first_seen r) now)
       (mkDriveRow (next_rowid dr_id (drives s)) stableID devicePath label vendorModel now now)
       (drives s)) s) ;;~
  queryRow (λ s, dr_id <$> select1 (λ r, bool_decide (dr_stable_id r = stableID)) (drives s)).

(** ORDER BY stable_id: byte order. *)
Definition stable_id_le (a b : driveRow) : Prop :=
  String.leb (dr_stable_id a) (dr_stable_id b) = true.
#[global] Instance stable_id_le_dec : RelDecision stable_id_le.
Proof. intros a b. unfold stable_id_le. apply _. Defined.

Definition Drives : DB (list driveRow) := query (λ s, merge_sort stable_id_le (drives s)).

(** ** Discs *)

Definition with_read_path (readPath discName : string) (r : discRow) : discRow :=
  mkDiscRow (di_id r) (di_fingerprint r) (di_volume_label r) (di_disc_type r) (di_title_count r)
    (di_total_bytes r) (di_first_seen r) (di_rip_dir r) (di_makemkv_info r)
    (di_forgotten_after_job r) (Some readPath)
    (match nullIfEmpty discName with Some n => Some n | None => di_disc_name r end).
Definition with_rip_dir (dir : option string) (r : discRow) : discRow :=
  mkDiscRow (di_id r) (di_fingerprint r) (di_volume_label r) (di_disc_type r) (di_title_count r)
    (di_total_bytes r) (di_first_seen r) dir (di_makemkv_info r)
    (di_forgotten_after_job r) (di_read_path r) (di_disc_name r).
Definition with_forgotten (job : Z) (r : discRow) : discRow :=
  mkDiscRow (di_id r) (di_fingerprint r) (di_volume_label r) (di_disc_type r) (di_title_count r)
    (di_total_bytes r) (di_first_seen r) (di_rip_dir r) (di_makemkv_info r)
    (Some job) (di_read_path r) (di_disc_name r).
Definition with_metadata (label typ : string) (count bytes : Z) (info : string) (r : discRow) : discRow :=
  mkDiscRow (di_id r) (di_fingerprint r) label typ count bytes (di_first_seen r) (di_rip_dir r) info
    (di_forgotten_after_job r) (di_read_path r) (di_disc_name r).

Definition SetReadPath (discID : Z) (readPath discName : string) : DB unit :=
  exec (λ s, set_discs
    (update_where (λ r, di_id r =? discID) (with_read_path readPath discName) (discs s)) s).

Definition DiscName (discID : Z) : DB string :=
  queryRow (λ s, (λ r, coalesce (di_disc_name r) "") <$> select1 (λ r, di_id r =? discID) (discs s)).

(** GROUP BY read_path, as the map the method returns. *)
Definition ReadPathMix : DB (gmap string Z) :=
  query (λ s, foldr (λ r (out : gmap string Z),
    match di_read_path r with
    | Some p => if bool_decide (p = "") then out else <[p := coalesce (out !! p) 0 + 1]> out
    | None => out
    end) ∅ (discs s)).

Record DiscRecord := mkDiscRecord {
  dc_ID : Z;
  dc_Fingerprint : string;
  dc_VolumeLabel : string;
  dc_Type : string;
  dc_TitleCount : Z;
  dc_TotalBytes : Z;
  dc_FirstSeen : Z;
  dc_RipDir : string;
}.

Definition Ripped (d : DiscRecord) : bool := negb (bool_decide (dc_RipDir d = "")).

Definition FindDisc (fingerprint : string) : DB (option DiscRecord) :=
  query (λ s,
    (λ r, mkDiscRecord (di_id r) (di_fingerprint r) (di_volume_label r) (di_disc_type r)
            (di_title_count r) (di_total_bytes r) (di_first_seen r) (coalesce (di_rip_dir r) ""))
    <$> select1 (λ r, bool_decide (di_fingerprint r = fingerprint)) (discs s)).

Definition title_is (discID titleIndex : Z) (r : titleRow) : bool :=
  (ti_disc_id r =? discID) && (ti_title_index r =? titleIndex).

Definition save_stream (titleID : Z) (st : Stream) : DB unit :=
  exec (λ s, set_streams
    (upsert (λ r, (sr_title_id r =? titleID) && (sr_stream_index r =? s_Index st))
       (λ r, mkStreamRow (sr_id r) (sr_title_id r) (sr_stream_index r) (s_Kind st) (s_Codec st)
               (s_Language st) (s_Channels st) (s_Resolution st) (s_FrameRate st) (s_Flags st))
       (mkStreamRow (next_rowid sr_id (streams s)) titleID (s_Index st) (s_Kind st) (s_Codec st)
          (s_Language st) (s_Channels st) (s_Resolution st) (s_FrameRate st) (s_Flags st))
       (streams s)) s).

Definition save_title (discID : Z) (t : Title) : DB unit :=
  exec (λ s, set_titles
    (upsert (title_is discID (t_Index t))
       (λ r, mkTitleRow (ti_id r) (ti_disc_id r) (ti_title_index r) (t_DurationSecs t) (t_Chapters t)
               (t_SizeBytes t) (t_SourceFile t) (t_OutputFile t) (ti_ripped r) (ti_verified r))
       (mkTitleRow (next_rowid ti_id (titles s)) discID (t_Index t) (t_DurationSecs t) (t_Chapters t)
          (t_SizeBytes t) (t_SourceFile t) (t_OutputFile t) false false)
       (titles s)) s) ;;~
  titleID <~ queryRow (λ s, ti_id <$> select1 (title_is discID (t_Index t)) (titles s)) ;;
  each (save_stream titleID) (t_Streams t).

Definition save_disc_row (now : Z) (d : Disc) (rawInfo : string) : DB unit :=
  exec (λ s, set_discs
    (upsert (λ r, bool_decide (di_fingerprint r = d_Fingerprint d))
       (with_metadata (d_VolumeLabel d) (type_string (d_Type d)) (Z.of_nat (length (d_Titles d)))
          (d_TotalBytes d) rawInfo)
       (mkDiscRow (next_rowid di_id (discs s)) (d_Fingerprint d) (d_VolumeLabel d)
          (type_string (d_Type d)) (Z.of_nat (length (d_Titles d))) (d_TotalBytes d) now None rawInfo
          None None None)
       (discs s)) s).

Definition SaveDisc (now : Z) (d : Disc) (rawInfo : string) : DB Z := tx (
  save_disc_row now d rawInfo ;;~
  discID <~ queryRow (λ s,
    di_id <$> select1 (λ r, bool_decide (di_fingerprint r = d_Fingerprint d)) (discs s)) ;;
  each (save_title discID) (d_Titles d) ;;~
  ret discID).

Definition SetDiscRipDir (discID : Z) (dir : string) : DB unit :=
  exec (λ s, set_discs
    (update_where (λ r, di_id r =? discID) (with_rip_dir (Some dir)) (discs s)) s).

(** SELECT MAX(id) FROM jobs WHERE disc_id = ? *)
Definition max_job_id (discID : Z) (s : Store) : option Z :=
  match List.filter (λ r, j_disc_id r =? discID) (jobs s) with
  | [] => None
  | r :: rs => Some (foldr Z.max (j_id r) (map j_id rs))
  end.

Definition ForgetDisc (fingerprint : string) : DB unit := tx (λ s,
  match select1 (λ r, bool_decide (di_fingerprint r = fingerprint)) (discs s) with
  | None => (Err (ErrUnknownDisc fingerprint), s)
  | Some d =>
      (exec (λ s, set_discs
         (update_where (λ r, di_id r =? di_id d) (with_rip_dir None) (discs s)) s) ;;~
       exec (λ s, set_discs
         (update_where (λ r, di_id r =? di_id d)
            (with_forgotten (coalesce (max_job_id (di_id d) s) 0)) (discs s)) s)) s
  end).

Definition MarkTitleRipped (discID titleIndex sizeBytes : Z) (verified : bool) : DB unit :=
  exec (λ s, set_titles
    (update_where (title_is discID titleIndex)
       (λ r, mkTitleRow (ti_id r) (ti_disc_id r) (ti_title_index r) (ti_duration_secs r)
               (ti_chapters r) sizeBytes (ti_source_file r) (ti_output_file r) true verified)
       (titles s)) s).

(** ** Jobs *)

Definition CreateJob (now discID driveID attempt : Z) : DB Z :=
  references (λ s, has_disc discID s && has_drive driveID s) ;;~
  id <~ query (λ s, next_rowid j_id (jobs s)) ;;
  exec (λ s, set_jobs
    (jobs s ++ [mkJobRow id discID driveID JobPending attempt now (Some now) None None 0 0]) s) ;;~
  ret id.

Definition terminal (st : JobState) : bool :=
  bool_decide (st = JobComplete) || bool_decide (st = JobFailed) ||
  bool_decide (st = JobDuplicate) || bool_decide (st = JobCancelled).

Definition with_state (st : JobState) (err : option string) (ended : option Z) (r : jobRow) : jobRow :=
  mkJobRow (j_id r) (j_disc_id r) (j_drive_id r) st (j_attempt r) (j_created_at r) (j_started_at r)
    ended err (j_titles_total r) (j_titles_done r).

Definition SetJobState (now jobID : Z) (state : JobState) (errText : string) : DB unit :=
  exec (λ s, set_jobs
    (update_where (λ r, j_id r =? jobID)
       (λ r, with_state state (nullIfEmpty errText)
               (if terminal state then Some now else j_ended_at r) r)
       (jobs s)) s).

Definition SetJobProgress (jobID done total : Z) : DB unit :=
  exec (λ s, set_jobs
    (update_where (λ r, j_id r =? jobID)
       (λ r, mkJobRow (j_id r) (j_disc_id r) (j_drive_id r) (j_state r) (j_attempt r)
               (j_created_at r) (j_started_at r) (j_ended_at r) (j_error r) total done)
       (jobs s)) s).

Definition forgotten_after (discID : Z) (s : Store) : Z :=
  coalesce (select1 (λ r, di_id r =? discID) (discs s) ≫= di_forgotten_after_job) 0.

Definition attempt_counts (discID floor : Z) (r : jobRow) : bool :=
  (j_disc_id r =? discID) && negb (bool_decide (j_state r = JobCancelled)) && (floor <? j_id r).

Definition AttemptsForDisc (discID : Z) : DB Z :=
  query (λ s, count_where (attempt_counts discID (forgotten_after discID s)) (jobs s)).

Definition unfinished (st : JobState) : bool :=
  match st with JobPending | JobScanning | JobRipping | JobVerifying => true | _ => false end.

Definition ReclaimUnfinishedJobs (now : Z) : DB Z := λ s,
  (Ok (count_where (λ r, unfinished (j_state r)) (jobs s)),
   set_jobs
     (update_where (λ r, unfinished (j_state r))
        (λ r, with_state JobCancelled (Some (coalesce (j_error r) "interrupted by a restart"))
                (Some (coalesce (j_ended_at r) now)) r)
        (jobs s)) s).

Record JobSummary := mkJobSummary {
  js_ID : Z;
  js_State : JobState;
  js_Attempt : Z;
  js_CreatedAt : Z;
  js_EndedAt : option Z;
  js_Error : string;
  js_TitlesDone : Z;
  js_TitlesTotal : Z;
  js_VolumeLabel : string;
  js_Fingerprint : string;
  js_RipDir : string;
  js_DriveLabel : string;
  js_DriveStableID : string;
}.

(** The two inner joins of RecentJobs. *)
Definition job_summary (s : Store) (j : jobRow) : option JobSummary :=
  d ← select1 (λ r, di_id r =? j_disc_id j) (discs s);
  dr ← select1 (λ r, dr_id r =? j_drive_id j) (drives s);
  Some (mkJobSummary (j_id j) (j_state j) (j_attempt j) (j_created_at j) (j_ended_at j)
          (coalesce (j_error j) "") (j_titles_done j) (j_titles_total j) (di_volume_label d)
          (di_fingerprint d) (coalesce (di_rip_dir d) "") (dr_label dr) (dr_stable_id dr)).

(** Rows are kept in rowid order, so ORDER BY id DESC is the reverse. *)
Definition RecentJobs (n : Z) : DB (list JobSummary) :=
  let n := if n <=? 0 then 50 else n in
  query (λ s, limit n (omap (job_summary s) (reverse (jobs s)))).

Definition CompletedCount : DB Z :=
  query (λ s, Z.of_nat (length (remove_dups
    (map j_disc_id (List.filter (λ r, bool_decide (j_state r = JobComplete)) (jobs s)))))).

(** ** Events *)

Definition LogEvent (now : Z) (level message : string) (jobID driveID : option Z) : DB unit :=
  references (λ s,
    match jobID with Some j => has_job j s | None => true end &&
    match driveID with Some d => has_drive d s | None => true end) ;;~
  exec (λ s, set_events
    (events s ++ [mkEventRow (next_rowid e_id (events s)) now jobID driveID level message]) s).

Definition RecentEvents (n : Z) : DB (list eventRow) :=
  let n := if n <=? 0 then 100 else n in
  query (λ s, limit n (reverse (events s))).

(** ** Failures *)

Record FailureReport := mkFailureReport {
  f_When : Z;
  f_VolumeLabel : string;
  f_Fingerprint : string;
  f_Kind : string;
  f_Advice : string;
  f_Error : string;
  f_Attempt : Z;
}.

Definition newest_first (a b : jobRow) : Prop := j_created_at b ≤ j_created_at a.
#[global] Instance newest_first_dec : RelDecision newest_first.
Proof. intros a b. unfold newest_first. apply _. Defined.

Definition is_failure (j : jobRow) : bool :=
  (bool_decide (j_state j = JobFailed) || bool_decide (j_state j = JobCancelled)) &&
  negb (bool_decide (coalesce (j_error j) "" = "")).

Section failures.
Context {U : Unicode}.

Definition failure_report (s : Store) (j : jobRow) : option FailureReport :=
  d ← select1 (λ r, di_id r =? j_disc_id j) (discs s);
  let err := coalesce (j_error j) "" in
  let kind := ClassifyFailure err in
  Some (mkFailureReport (j_created_at j) (di_volume_label d) (di_fingerprint d)
          (kind_string kind) (FailureAdvice kind) err (j_attempt j)).

Definition Failures (n : Z) : DB (list FailureReport) :=
  let n := if n <=? 0 then 50 else n in
  query (λ s, limit n (omap (failure_report s)
    (merge_sort newest_first (List.filter is_failure (jobs s))))).
End failures.
