(* ===== verification/Queue.v ===== *)
(** * The transcode queue and the library links (internal/store/transcode.go)

    One definition per method of Store in that file, over the tables and the
    statement monad of Store. *)

From S2P Require Import Prelude GoText Table Disc Store.

Record TranscodeJob := mkTranscodeJob {
  tj_ID : Z;
  tj_DiscID : Z;
  tj_TitleIndex : Z;
  tj_State : TranscodeState;
  tj_Profile : string;
  tj_SourcePath : string;
  tj_Attempt : Z;
  tj_VolumeLabel : string;
}.

Definition transcode_is (discID titleIndex : Z) (r : transcodeRow) : bool :=
  (tc_disc_id r =? discID) && (tc_title_index r =? titleIndex).

(** INSERT INTO transcodes ... ON CONFLICT(disc_id, title_index) DO UPDATE: the
    foreign key is checked when the row is new. *)
Definition upsert_transcode (discID titleIndex : Z) (f : transcodeRow → transcodeRow)
    (new : Z → transcodeRow) : DB unit :=
  references (λ s, existsb (transcode_is discID titleIndex) (transcodes s) || has_disc discID s) ;;~
  exec (λ s, set_transcodes
    (upsert (transcode_is discID titleIndex) f (new (next_rowid tc_id (transcodes s)))
       (transcodes s)) s).

Definition QueueTranscode (now discID titleIndex : Z) (profile sourcePath : string) : DB unit :=
  upsert_transcode discID titleIndex
    (λ r, mkTranscodeRow (tc_id r) (tc_disc_id r) (tc_title_index r) TranscodePending profile
            sourcePath (tc_output_path r) (tc_size_bytes r) (tc_attempt r) (tc_hardware r) now
            None None None)
    (λ id, mkTranscodeRow id discID titleIndex TranscodePending profile sourcePath None 0 0 false
             now None None None).

Definition RecordTranscode (now discID titleIndex : Z) (profile sourcePath outputPath : string)
    (sizeBytes : Z) (hardware : bool) : DB unit :=
  upsert_transcode discID titleIndex
    (λ r, mkTranscodeRow (tc_id r) (tc_disc_id r) (tc_title_index r) TranscodeComplete profile
            sourcePath (Some outputPath) sizeBytes (tc_attempt r) hardware (tc_created_at r)
            (tc_started_at r) (Some now) None)
    (λ id, mkTranscodeRow id discID titleIndex TranscodeComplete profile sourcePath
             (Some outputPath) sizeBytes 0 hardware now (Some now) (Some now) None).

(** WHERE t.state = pending AND t.attempt < max, joined with the disc. *)
Definition claimable (maxAttempts : Z) (s : Store) (r : transcodeRow) : bool :=
  bool_decide (tc_state r = TranscodePending) && (tc_attempt r <? maxAttempts) &&
  has_disc (tc_disc_id r) s.

(** ORDER BY t.created_at, t.title_index *)
Definition queued_before (a b : transcodeRow) : bool :=
  (tc_created_at a <? tc_created_at b) ||
  ((tc_created_at a =? tc_created_at b) && (tc_title_index a <? tc_title_index b)).

Definition with_claim (attempt now : Z) (r : transcodeRow) : transcodeRow :=
  mkTranscodeRow (tc_id r) (tc_disc_id r) (tc_title_index r) TranscodeRunning (tc_profile r)
    (tc_source_path r) (tc_output_path r) (tc_size_bytes r) attempt (tc_hardware r)
    (tc_created_at r) (Some now) (tc_ended_at r) None.

Definition NextTranscode (now maxAttempts : Z) : DB (option TranscodeJob) := tx (λ s,
  match select_min queued_before (List.filter (claimable maxAttempts s) (transcodes s)) with
  | None => (Ok None, s)
  | Some r =>
      let label := coalesce (di_volume_label <$>
                     select1 (λ d, di_id d =? tc_disc_id r) (discs s)) "" in
      let j := mkTranscodeJob (tc_id r) (tc_disc_id r) (tc_title_index r) TranscodeRunning
                 (tc_profile r) (tc_source_path r) (tc_attempt r + 1) label in
      (exec (λ s, set_transcodes
         (update_where (λ x, tc_id x =? tj_ID j) (with_claim (tj_Attempt j) now) (transcodes s)) s) ;;~
       ret (Some j)) s
  end).

Definition update_transcode (id : Z) (f : transcodeRow → transcodeRow) : DB unit :=
  exec (λ s, set_transcodes (update_where (λ r, tc_id r =? id) f (transcodes s)) s).

Definition FinishTranscode (now id : Z) (outputPath : string) (sizeBytes : Z) (hardware : bool) : DB unit :=
  update_transcode id (λ r,
    mkTranscodeRow (tc_id r) (tc_disc_id r) (tc_title_index r) TranscodeComplete (tc_profile r)
      (tc_source_path r) (Some outputPath) sizeBytes (tc_attempt r) hardware (tc_created_at r)
      (tc_started_at r) (Some now) None).

Definition FailTranscode (now id : Z) (reason : string) : DB unit :=
  update_transcode id (λ r,
    mkTranscodeRow (tc_id r) (tc_disc_id r) (tc_title_index r) TranscodeFailed (tc_profile r)
      (tc_source_path r) (tc_output_path r) (tc_size_bytes r) (tc_attempt r) (tc_hardware r)
      (tc_created_at r) (tc_started_at r) (Some now) (Some reason)).

Definition RequeueTranscode (id : Z) : DB unit :=
  update_transcode id (λ r,
    mkTranscodeRow (tc_id r) (tc_disc_id r) (tc_title_index r) TranscodePending (tc_profile r)
      (tc_source_path r) (tc_output_path r) (tc_size_bytes r) (Z.max (tc_attempt r - 1) 0)
      (tc_hardware r) (tc_created_at r) None None (tc_error r)).

Definition TranscodeQueue (maxAttempts : Z) : DB (Z * Z) :=
  query (λ s,
    (count_where (λ r, bool_decide (tc_state r = TranscodePending) && (tc_attempt r <? maxAttempts))
       (transcodes s),
     count_where (λ r, bool_decide (tc_state r = TranscodeFailed) ||
         (bool_decide (tc_state r = TranscodePending) && (maxAttempts <=? tc_attempt r)))
       (transcodes s))).

Definition is_running (r : transcodeRow) : bool := bool_decide (tc_state r = TranscodeRunning).

Definition reclaimed (r : transcodeRow) : transcodeRow :=
  mkTranscodeRow (tc_id r) (tc_disc_id r) (tc_title_index r) TranscodePending (tc_profile r)
    (tc_source_path r) (tc_output_path r) (tc_size_bytes r) (Z.max (tc_attempt r - 1) 0)
    (tc_hardware r) (tc_created_at r) None (tc_ended_at r) (tc_error r).

Definition ReclaimRunningTranscodes : DB Z := λ s,
  (Ok (count_where is_running (transcodes s)),
   set_transcodes (update_where is_running reclaimed (transcodes s)) s).

Definition TitleDuration (discID titleIndex : Z) : DB Z :=
  query (λ s, coalesce (ti_duration_secs <$> select1 (title_is discID titleIndex) (titles s)) 0).

Definition title_index_le (a b : titleRow) : Prop := ti_title_index a ≤ ti_title_index b.
#[global] Instance title_index_le_dec : RelDecision title_index_le.
Proof. intros a b. unfold title_index_le. apply _. Defined.
#[global] Instance title_index_le_total : Total title_index_le.
Proof. intros a b. unfold title_index_le. lia. Qed.
#[global] Instance title_index_le_trans : Transitive title_index_le.
Proof. intros a b c. unfold title_index_le. lia. Qed.

(** FROM titles WHERE disc_id = ? AND ripped = 1 ORDER BY title_index *)
Definition ripped_rows (discID : Z) (s : Store) : list titleRow :=
  merge_sort title_index_le
    (List.filter (λ r, (ti_disc_id r =? discID) && ti_ripped r) (titles s)).

Definition RippedTitles (discID : Z) : DB (list Z) :=
  query (λ s, map ti_title_index (ripped_rows discID s)).

Definition title_of_row (r : titleRow) : Title :=
  mkTitle (ti_title_index r) (ti_duration_secs r) 0 (ti_size_bytes r) "" 0 "" "" "" "" [] ∅.

Definition DiscWithTitles (discID : Z) : DB Disc :=
  d <~ queryRow (λ s, select1 (λ r, di_id r =? discID) (discs s)) ;;
  ts <~ query (λ s, map title_of_row (ripped_rows discID s)) ;;
  ret (mkDisc (di_fingerprint d) (di_volume_label d) "" TypeZero 0 None "" "" "" ts).

Definition link_is (discID titleIndex : Z) (r : linkRow) : bool :=
  (l_disc_id r =? discID) && (l_title_index r =? titleIndex).

Definition RecordLibraryLink (now discID titleIndex : Z) (path : string) : DB unit :=
  references (λ s, existsb (link_is discID titleIndex) (library_links s) || has_disc discID s) ;;~
  exec (λ s, set_links
    (upsert (link_is discID titleIndex)
       (λ r, mkLinkRow (l_id r) (l_disc_id r) (l_title_index r) path now)
       (mkLinkRow (next_rowid l_id (library_links s)) discID titleIndex path now)
       (library_links s)) s).

Definition LibraryLink (discID titleIndex : Z) : DB (string * bool) :=
  query (λ s,
    match select1 (link_is discID titleIndex) (library_links s) with
    | Some r => (l_path r, true)
    | None => ("", false)
    end).

Record Unfiled := mkUnfiled { u_DiscID : Z; u_TitleIndex : Z; u_OutputPath : string }.

Definition is_filed (s : Store) (r : transcodeRow) : bool :=
  existsb (link_is (tc_disc_id r) (tc_title_index r)) (library_links s).

Definition unfiled_of (s : Store) (r : transcodeRow) : option Unfiled :=
  if bool_decide (tc_state r = TranscodeComplete) && negb (is_filed s r)
  then mkUnfiled (tc_disc_id r) (tc_title_index r) <$> tc_output_path r
  else None.

(** ORDER BY t.disc_id, t.title_index *)
Definition unfiled_le (a b : Unfiled) : Prop :=
  u_DiscID a < u_DiscID b ∨ (u_DiscID a = u_DiscID b ∧ u_TitleIndex a ≤ u_TitleIndex b).
#[global] Instance unfiled_le_dec : RelDecision unfiled_le.
Proof. intros a b. unfold unfiled_le. apply _. Defined.

Definition UnfiledTranscodes : DB (list Unfiled) :=
  query (λ s, merge_sort unfiled_le (omap (unfiled_of s) (transcodes s))).

Record TranscodeJobSummary := mkTranscodeJobSummary {
  ts_ID : Z;
  ts_DiscID : Z;
  ts_Disc : string;
  ts_TitleIndex : Z;
  ts_State : TranscodeState;
  ts_SizeBytes : Z;
  ts_Attempt : Z;
  ts_Hardware : bool;
  ts_Error : string;
  ts_OutputPath : string;
  ts_Filed : bool;
}.

Definition state_rank (st : TranscodeState) : Z :=
  match st with
  | TranscodeRunning => 0 | TranscodePending => 1 | TranscodeFailed => 2 | TranscodeComplete => 3
  end.

Definition queue_le (a b : transcodeRow) : Prop :=
  state_rank (tc_state a) < state_rank (tc_state b) ∨
  (state_rank (tc_state a) = state_rank (tc_state b) ∧
   (tc_created_at a < tc_created_at b ∨
    (tc_created_at a = tc_created_at b ∧ tc_title_index a ≤ tc_title_index b))).
#[global] Instance queue_le_dec : RelDecision queue_le.
Proof. intros a b. unfold queue_le. apply _. Defined.
#[global] Instance queue_le_total : Total queue_le.
Proof. intros a b. unfold queue_le. lia. Qed.
#[global] Instance queue_le_trans : Transitive queue_le.
Proof. intros a b c. unfold queue_le. lia. Qed.

Definition transcode_summary (s : Store) (r : transcodeRow) : option TranscodeJobSummary :=
  d ← select1 (λ x, di_id x =? tc_disc_id r) (discs s);
  Some (mkTranscodeJobSummary (tc_id r) (tc_disc_id r) (di_volume_label d) (tc_title_index r)
          (tc_state r) (tc_size_bytes r) (tc_attempt r) (tc_hardware r) (coalesce (tc_error r) "")
          (coalesce (tc_output_path r) "") (is_filed s r)).

Definition TranscodeJobs (n : Z) : DB (list TranscodeJobSummary) :=
  let n := if n <=? 0 then 100 else n in
  query (λ s, limit n (omap (transcode_summary s) (merge_sort queue_le (transcodes s)))).

Definition TranscodeJobByID (id : Z) : DB (option TranscodeJob) :=
  query (λ s,
    (λ r, mkTranscodeJob (tc_id r) (tc_disc_id r) (tc_title_index r) (tc_state r) "" ""
            (tc_attempt r) "") <$> select1 (λ r, tc_id r =? id) (transcodes s)).

Definition ResetTranscodeAttempts (id : Z) : DB unit :=
  update_transcode id (λ r,
    mkTranscodeRow (tc_id r) (tc_disc_id r) (tc_title_index r) TranscodePending (tc_profile r)
      (tc_source_path r) (tc_output_path r) (tc_size_bytes r) 0 (tc_hardware r)
      (tc_created_at r) None None None).
