(* ===== verification/StoreWf.v ===== *)
(** * The database invariant

    What the schema's constraints and the program's own conventions promise of
    the tables, and that every method that writes keeps it, through a small
    Hoare logic for the statement monad. *)

From S2P Require Import Prelude GoText Table Disc Store Queue.

(** ** Hoare triples for statements *)

Definition triple {A} (P : Store → Prop) (m : DB A) (Q : A → Store → Prop) (E : Store → Prop) : Prop :=
  ∀ s, P s → match m s with (Ok a, s') => Q a s' | (Err _, s') => E s' end.

Section triples.
Context {A B : Type}.
Implicit Types (m : DB A) (P E : Store → Prop).

Lemma triple_bind P m (k : A → DB B) R Q E :
  triple P m R E → (∀ a, triple (R a) (k a) Q E) → triple P (bind m k) Q E.
Proof.
  intros Hm Hk s HP. specialize (Hm s HP). unfold bind.
  destruct (m s) as [[a|e] s']; [by apply Hk|done].
Qed.

Lemma triple_conseq (P P' : Store → Prop) m (Q Q' : A → Store → Prop) (E E' : Store → Prop) :
  triple P' m Q' E' → (∀ s, P s → P' s) → (∀ a s, Q' a s → Q a s) → (∀ s, E' s → E s) →
  triple P m Q E.
Proof.
  intros Hm HP HQ HE s Hs. specialize (Hm s (HP s Hs)). destruct (m s) as [[a|e] s']; auto.
Qed.

Lemma triple_tx P m Q : triple P m Q (λ _, True) → triple P (tx m) Q P.
Proof. intros Hm s HP. specialize (Hm s HP). unfold tx. by destruct (m s) as [[a|e] s']. Qed.

Lemma triple_ret P (a : A) E : triple P (ret a) (λ x s, x = a ∧ P s) E.
Proof. by intros s HP. Qed.

Lemma triple_query P (f : Store → A) E : triple P (query f) (λ x s, x = f s ∧ P s) E.
Proof. by intros s HP. Qed.

Lemma triple_queryRow P (f : Store → option A) :
  triple P (queryRow f) (λ x s, f s = Some x ∧ P s) (λ _, True).
Proof. intros s HP. unfold queryRow. by destruct (f s) eqn:E. Qed.
End triples.

Lemma triple_exec P (f : Store → Store) Q E :
  (∀ s, P s → Q (f s)) → triple P (exec f) (λ _, Q) E.
Proof. intros H s HP. simpl. auto. Qed.

Lemma triple_references P (p : Store → bool) :
  triple P (references p) (λ _ s, p s = true ∧ P s) P.
Proof. intros s HP. unfold references. by destruct (p s) eqn:E. Qed.

Lemma triple_each {A} P (f : A → DB unit) l E :
  (∀ x, x ∈ l → triple P (f x) (λ _, P) E) → triple P (each f l) (λ _, P) E.
Proof.
  induction l as [|x l IH]; intros Hf; simpl; [by intros s HP|].
  eapply triple_bind; [apply Hf; left|]. intros []. apply IH. intros y Hy. apply Hf. by right.
Qed.

(** ** The invariant *)

Definition job_ok (j : jobRow) : Prop := terminal (j_state j) = true → is_Some (j_ended_at j).

Record transcode_ok (r : transcodeRow) : Prop := {
  tok_attempt : 0 ≤ tc_attempt r;
  tok_complete : tc_state r = TranscodeComplete → is_Some (tc_output_path r) ∧ is_Some (tc_ended_at r);
  tok_failed : tc_state r = TranscodeFailed → is_Some (tc_error r);
  tok_running : tc_state r = TranscodeRunning → is_Some (tc_started_at r) ∧ 0 < tc_attempt r;
}.

Definition forgotten_ok (next : Z) (d : discRow) : Prop :=
  match di_forgotten_after_job d with Some j => 0 ≤ j < next | None => True end.

Definition opt_refers {R} (col : R → option Z) (rows : list R) (ids : list Z) : Prop :=
  Forall (λ r, match col r with Some i => i ∈ ids | None => True end) rows.

Record store_wf (s : Store) : Prop := {
  wf_drives : keys_ok dr_id (drives s);
  wf_drives_stable : NoDup (map dr_stable_id (drives s));
  wf_discs : keys_ok di_id (discs s);
  wf_discs_fp : NoDup (map di_fingerprint (discs s));
  wf_discs_forgotten : Forall (forgotten_ok (next_rowid j_id (jobs s))) (discs s);
  wf_jobs : keys_ok j_id (jobs s);
  wf_jobs_disc : refers j_disc_id (jobs s) (map di_id (discs s));
  wf_jobs_drive : refers j_drive_id (jobs s) (map dr_id (drives s));
  wf_jobs_ok : Forall job_ok (jobs s);
  wf_tc : keys_ok tc_id (transcodes s);
  wf_tc_title : NoDup (map (λ r, (tc_disc_id r, tc_title_index r)) (transcodes s));
  wf_tc_disc : refers tc_disc_id (transcodes s) (map di_id (discs s));
  wf_tc_ok : Forall transcode_ok (transcodes s);
  wf_titles : keys_ok ti_id (titles s);
  wf_titles_title : NoDup (map (λ r, (ti_disc_id r, ti_title_index r)) (titles s));
  wf_titles_disc : refers ti_disc_id (titles s) (map di_id (discs s));
  wf_streams : keys_ok sr_id (streams s);
  wf_streams_stream : NoDup (map (λ r, (sr_title_id r, sr_stream_index r)) (streams s));
  wf_streams_title : refers sr_title_id (streams s) (map ti_id (titles s));
  wf_links : keys_ok l_id (library_links s);
  wf_links_title : NoDup (map (λ r, (l_disc_id r, l_title_index r)) (library_links s));
  wf_links_disc : refers l_disc_id (library_links s) (map di_id (discs s));
  wf_events : keys_ok e_id (events s);
  wf_events_job : opt_refers e_job_id (events s) (map j_id (jobs s));
  wf_events_drive : opt_refers e_drive_id (events s) (map dr_id (drives s));
}.

Lemma opt_refers_mono {R} (col : R → option Z) rows ids ids' :
  (∀ i, i ∈ ids → i ∈ ids') → opt_refers col rows ids → opt_refers col rows ids'.
Proof.
  intros Hi H. eapply Forall_impl; [exact H|]. intros r. simpl. destruct (col r); auto.
Qed.

Lemma empty_store_wf : store_wf empty_store.
Proof. split; simpl; try constructor; constructor. Qed.

Lemma forgotten_ok_mono n n' d : n ≤ n' → forgotten_ok n d → forgotten_ok n' d.
Proof. unfold forgotten_ok. destruct (di_forgotten_after_job d); [lia|done]. Qed.

(** A statement that rewrites rows of one table leaves every clause about the
    other tables as it was; the remaining clauses go by the table lemmas. *)
Ltac wf_side := by (intros; simpl; first [done | solve [auto] | f_equal; auto]).
Ltac wf_update :=
  match goal with
  | |- keys_ok _ (update_where _ _ _) => apply keys_ok_update; [wf_side|assumption]
  | |- keys_ok _ (upsert _ _ _ _) => apply keys_ok_upsert; [wf_side|wf_side|assumption]
  | |- keys_ok _ (_ ++ [_]) => apply keys_ok_insert; [wf_side|assumption]
  | |- refers _ (update_where _ _ _) _ => apply refers_update; [wf_side|assumption]
  | |- NoDup (map _ (update_where _ _ _)) => rewrite update_where_map; [assumption|wf_side]
  | |- refers _ _ (map _ (update_where _ _ _)) => rewrite update_where_map; [assumption|wf_side]
  | |- opt_refers _ _ (map _ (update_where _ _ _)) => rewrite update_where_map; [assumption|wf_side]
  | |- refers _ _ (map _ (upsert _ _ _ _)) =>
      eapply refers_mono; [|eassumption]; intros; apply upsert_ids_mono; wf_side
  | |- opt_refers _ _ (map _ (upsert _ _ _ _)) =>
      eapply opt_refers_mono; [|eassumption]; intros; apply upsert_ids_mono; wf_side
  | |- Forall (forgotten_ok (next_rowid _ (update_where _ _ _))) _ =>
      rewrite next_rowid_update; [assumption|wf_side]
  | |- Forall _ (update_where _ _ _) => apply Forall_update_where; [wf_side|assumption]
  end.
Ltac wf_solve :=
  intros; match goal with H : store_wf _ |- _ => destruct H end; split; simpl in *; try assumption; try wf_update.

Lemma update_discs_wf p f s :
  (∀ r, di_id (f r) = di_id r) → (∀ r, di_fingerprint (f r) = di_fingerprint r) →
  (∀ r, forgotten_ok (next_rowid j_id (jobs s)) r → forgotten_ok (next_rowid j_id (jobs s)) (f r)) →
  store_wf s → store_wf (set_discs (update_where p f (discs s)) s).
Proof. wf_solve. Qed.

Lemma update_jobs_wf p f s :
  (∀ r, j_id (f r) = j_id r) → (∀ r, j_disc_id (f r) = j_disc_id r) →
  (∀ r, j_drive_id (f r) = j_drive_id r) → (∀ r, job_ok r → job_ok (f r)) →
  store_wf s → store_wf (set_jobs (update_where p f (jobs s)) s).
Proof. wf_solve. Qed.

Lemma update_titles_wf p f s :
  (∀ r, ti_id (f r) = ti_id r) → (∀ r, ti_disc_id (f r) = ti_disc_id r) →
  (∀ r, ti_title_index (f r) = ti_title_index r) →
  store_wf s → store_wf (set_titles (update_where p f (titles s)) s).
Proof. wf_solve. Qed.

Lemma update_transcodes_wf p f s :
  (∀ r, tc_id (f r) = tc_id r) → (∀ r, tc_disc_id (f r) = tc_disc_id r) →
  (∀ r, tc_title_index (f r) = tc_title_index r) →
  (∀ r, transcode_ok r → p r = true → transcode_ok (f r)) →
  store_wf s → store_wf (set_transcodes (update_where p f (transcodes s)) s).
Proof. wf_solve. Qed.

(** ** Every writing method keeps the invariant *)

Definition keeps {A} (m : DB A) : Prop := triple store_wf m (λ _, store_wf) store_wf.

Lemma keeps_snd {A} (m : DB A) s : keeps m → store_wf s → store_wf (m s).2.
Proof. intros Hm Hs. specialize (Hm s Hs). by destruct (m s) as [[a|e] s']. Qed.

Lemma keeps_exec f : (∀ s, store_wf s → store_wf (f s)) → keeps (exec f).
Proof. apply triple_exec. Qed.

Lemma keeps_query {A} (f : Store → A) : keeps (query f).
Proof. by intros s Hs. Qed.

Lemma keeps_queryRow {A} (f : Store → option A) : keeps (queryRow f).
Proof. intros s Hs. unfold queryRow. by destruct (f s). Qed.

Lemma keeps_bind {A B} (m : DB A) (k : A → DB B) :
  keeps m → (∀ a, keeps (k a)) → keeps (bind m k).
Proof. apply triple_bind. Qed.

Lemma keeps_tx {A} (m : DB A) : keeps m → keeps (tx m).
Proof.
  intros Hm. apply triple_tx. intros s Hs. specialize (Hm s Hs). by destruct (m s) as [[]].
Qed.

(** The keys [g] of an upsert on a UNIQUE constraint stay unique: the rows that
    do not match the conflict test have another key. *)
Ltac uniq_upsert :=
  apply upsert_keys; [done| |assumption];
  intros r _ Hp; simpl; intros Heq; revert Hp; simplify_eq/=;
  unfold transcode_is, title_is, link_is; simpl; rewrite ?bool_decide_true by congruence;
  repeat match goal with H : _ = _ |- _ => rewrite H end; rewrite ?Z.eqb_refl; done.

Lemma UpsertDrive_keeps now sid dev lab vm : keeps (UpsertDrive now sid dev lab vm).
Proof.
  apply keeps_bind; [|intros []; apply keeps_queryRow]. apply keeps_exec. intros s Hs. wf_solve.
  - uniq_upsert.
Qed.

Lemma SetReadPath_keeps id p n : keeps (SetReadPath id p n).
Proof. apply keeps_exec. intros s. by apply update_discs_wf. Qed.

Lemma SetDiscRipDir_keeps id dir : keeps (SetDiscRipDir id dir).
Proof. apply keeps_exec. intros s. by apply update_discs_wf. Qed.

Lemma MarkTitleRipped_keeps id i b v : keeps (MarkTitleRipped id i b v).
Proof. apply keeps_exec. intros s. by apply update_titles_wf. Qed.

Lemma SetJobState_keeps now id st e : keeps (SetJobState now id st e).
Proof.
  apply keeps_exec. intros s. apply update_jobs_wf; try done.
  intros r Hr. unfold job_ok in *. simpl. intros Ht. by rewrite Ht.
Qed.

Lemma SetJobProgress_keeps id d t : keeps (SetJobProgress id d t).
Proof. apply keeps_exec. intros s. by apply update_jobs_wf. Qed.

Lemma ReclaimUnfinishedJobs_keeps now : keeps (ReclaimUnfinishedJobs now).
Proof. intros s Hs. simpl. apply update_jobs_wf; try done. by intros r _ _. Qed.

(** Every job id of a disc is below the next rowid. *)
Lemma max_job_id_bound discID s :
  store_wf s → 0 ≤ coalesce (max_job_id discID s) 0 < next_rowid j_id (jobs s).
Proof.
  intros [_ _ _ _ _ [_ Hpos]]. unfold max_job_id, coalesce.
  assert (Hsub : ∀ r, r ∈ List.filter (λ r, j_disc_id r =? discID) (jobs s) →
            0 < j_id r < next_rowid j_id (jobs s)).
  { intros r Hr. apply list_elem_of_In, filter_In in Hr as [Hr%list_elem_of_In _].
    rewrite Forall_forall in Hpos. split; [auto|by apply next_rowid_fresh]. }
  destruct (List.filter _ _) as [|r rs]; simpl; [pose proof (next_rowid_pos j_id (jobs s)); lia|].
  pose proof (Hsub r ltac:(left)). assert (∀ x, x ∈ rs → 0 < j_id x < next_rowid j_id (jobs s)) as Hrs.
  { intros x Hx. apply Hsub. by right. }
  clear Hsub. induction rs as [|x rs IH]; simpl; [lia|].
  pose proof (Hrs x ltac:(left)). specialize (IH ltac:(intros; apply Hrs; by right)). lia.
Qed.

Lemma ForgetDisc_keeps fp : keeps (ForgetDisc fp).
Proof.
  apply keeps_tx. intros s Hs. destruct (select1 _ (discs s)) as [d|]; [|done].
  eapply (keeps_bind (exec _) (λ _, exec _)); [| |exact Hs].
  - apply keeps_exec. intros s'. by apply update_discs_wf.
  - intros []. apply keeps_exec. intros s' Hs'. apply update_discs_wf; try done.
    intros r _. unfold forgotten_ok. simpl. by apply max_job_id_bound.
Qed.

Lemma has_disc_elem id s : has_disc id s = true ↔ id ∈ map di_id (discs s).
Proof. apply existsb_key. Qed.
Lemma has_drive_elem id s : has_drive id s = true ↔ id ∈ map dr_id (drives s).
Proof. apply existsb_key. Qed.
Lemma has_job_elem id s : has_job id s = true ↔ id ∈ map j_id (jobs s).
Proof. apply existsb_key. Qed.

Lemma refers_snoc {R} (col : R → Z) rows new ids :
  refers col rows ids → col new ∈ ids → refers col (rows ++ [new]) ids.
Proof. intros H Hn. apply Forall_app. split; [done|by apply Forall_singleton]. Qed.

Lemma insert_job_wf now discID driveID attempt s :
  has_disc discID s && has_drive driveID s = true → store_wf s →
  store_wf (set_jobs (jobs s ++
    [mkJobRow (next_rowid j_id (jobs s)) discID driveID JobPending attempt now (Some now) None None 0 0]) s).
Proof.
  intros [Hd%has_disc_elem Hr%has_drive_elem]%andb_true_iff. wf_solve.
  - eapply Forall_impl; [eassumption|]. intros d. apply forgotten_ok_mono, next_rowid_app.
  - by apply refers_snoc.
  - by apply refers_snoc.
  - apply Forall_app. split; [done|]. by apply Forall_singleton.
  - eapply opt_refers_mono; [|eassumption]. intros i Hi. rewrite map_app, elem_of_app. by left.
Qed.

Lemma CreateJob_keeps now discID driveID attempt : keeps (CreateJob now discID driveID attempt).
Proof.
  intros s Hs. unfold CreateJob, bind, references, query, exec, ret.
  destruct (_ && _) eqn:E; simpl; [|done]. by apply insert_job_wf.
Qed.

Lemma LogEvent_keeps now lvl msg jobID driveID : keeps (LogEvent now lvl msg jobID driveID).
Proof.
  intros s Hs. unfold LogEvent, bind, references, exec.
  destruct (_ && _) eqn:E; [|done]. apply andb_true_iff in E as [Hj Hd]. wf_solve.
  - apply Forall_app. split; [done|]. apply Forall_singleton. simpl.
    destruct jobID; [by apply has_job_elem|done].
  - apply Forall_app. split; [done|]. apply Forall_singleton. simpl.
    destruct driveID; [by apply has_drive_elem|done].
Qed.

Lemma upsert_transcode_keeps discID i f new :
  (∀ r, tc_id (f r) = tc_id r) → (∀ r, tc_disc_id (f r) = tc_disc_id r) →
  (∀ r, tc_title_index (f r) = tc_title_index r) → (∀ r, transcode_ok r → transcode_ok (f r)) →
  (∀ id, tc_id (new id) = id) → (∀ id, tc_disc_id (new id) = discID) →
  (∀ id, tc_title_index (new id) = i) → (∀ id, transcode_ok (new id)) →
  keeps (upsert_transcode discID i f new).
Proof.
  intros Hid Hdi Hti Hok Hnid Hndi Hnti Hnok s Hs. unfold upsert_transcode, bind, references, exec.
  destruct (_ || _) eqn:E; [|done]. wf_solve.
  - apply upsert_keys; [intros; by rewrite Hdi, Hti| |done].
    intros r _ Hp. rewrite Hndi, Hnti. intros [= <- <-]. unfold transcode_is in Hp.
    by rewrite !Z.eqb_refl in Hp.
  - apply refers_upsert; [done| |done]. intros Hnew. rewrite Hndi.
    rewrite Hnew in E. by apply has_disc_elem.
  - apply Forall_upsert; auto.
Qed.

Ltac transcode_ok_solve :=
  intros; match goal with H : transcode_ok _ |- _ => destruct H | _ => idtac end;
  split; simpl; try done; try (by eauto); try lia.

Lemma QueueTranscode_keeps now discID i p src : keeps (QueueTranscode now discID i p src).
Proof. apply upsert_transcode_keeps; try done; transcode_ok_solve. Qed.

Lemma RecordTranscode_keeps now discID i p src out sz hw :
  keeps (RecordTranscode now discID i p src out sz hw).
Proof. apply upsert_transcode_keeps; try done; transcode_ok_solve. Qed.

Lemma update_transcode_keeps id f :
  (∀ r, tc_id (f r) = tc_id r) → (∀ r, tc_disc_id (f r) = tc_disc_id r) →
  (∀ r, tc_title_index (f r) = tc_title_index r) → (∀ r, transcode_ok r → transcode_ok (f r)) →
  keeps (update_transcode id f).
Proof. intros. apply keeps_exec. intros s. apply update_transcodes_wf; auto. Qed.

Lemma FinishTranscode_keeps now id out sz hw : keeps (FinishTranscode now id out sz hw).
Proof. apply update_transcode_keeps; try done; transcode_ok_solve. Qed.

Lemma FailTranscode_keeps now id why : keeps (FailTranscode now id why).
Proof. apply update_transcode_keeps; try done; transcode_ok_solve. Qed.

Lemma RequeueTranscode_keeps id : keeps (RequeueTranscode id).
Proof. apply update_transcode_keeps; try done; transcode_ok_solve. Qed.

Lemma ResetTranscodeAttempts_keeps id : keeps (ResetTranscodeAttempts id).
Proof. apply update_transcode_keeps; try done; transcode_ok_solve. Qed.

Lemma ReclaimRunningTranscodes_keeps : keeps ReclaimRunningTranscodes.
Proof. intros s Hs. simpl. apply update_transcodes_wf; try done; transcode_ok_solve. Qed.

Lemma NextTranscode_keeps now max : keeps (NextTranscode now max).
Proof.
  apply keeps_tx. intros s Hs. destruct (select_min _ _) as [r|] eqn:E; [|done]. simpl.
  apply update_transcodes_wf; try done. intros x Hx _.
  apply select_min_elem, list_elem_of_In, filter_In in E as [Hr%list_elem_of_In _].
  pose proof (wf_tc_ok s Hs) as Hall. rewrite Forall_forall in Hall. destruct (Hall r Hr), Hx.
  split; simpl; try done; try lia. intros _. split; [done|lia].
Qed.

Lemma RecordLibraryLink_keeps now discID i path : keeps (RecordLibraryLink now discID i path).
Proof.
  intros s Hs. unfold RecordLibraryLink, bind, references, exec.
  destruct (_ || _) eqn:E; [|done]. wf_solve.
  - uniq_upsert.
  - apply refers_upsert; [done| |done]. intros Hnew.
    rewrite Hnew in E. by apply has_disc_elem.
Qed.

(** *** SaveDisc *)

Lemma save_stream_wf titleID st :
  triple (λ s, store_wf s ∧ titleID ∈ map ti_id (titles s)) (save_stream titleID st)
    (λ _ s, store_wf s ∧ titleID ∈ map ti_id (titles s)) (λ _, True).
Proof.
  apply triple_exec. intros s [Hs Ht]. split; [|done]. wf_solve.
  - uniq_upsert.
  - by apply refers_upsert.
Qed.

Lemma save_title_wf discID t :
  triple (λ s, store_wf s ∧ discID ∈ map di_id (discs s)) (save_title discID t)
    (λ _ s, store_wf s ∧ discID ∈ map di_id (discs s)) (λ _, True).
Proof.
  eapply triple_bind.
  { apply (triple_exec _ _ (λ s, store_wf s ∧ discID ∈ map di_id (discs s))).
    intros s [Hs Hd]. split; [|done]. wf_solve.
    - uniq_upsert.
    - by apply refers_upsert. }
  intros []. eapply triple_bind; [apply triple_queryRow|].
  intros titleID. eapply triple_conseq with (E' := λ _, True).
  - apply (triple_each (λ s, (store_wf s ∧ titleID ∈ map ti_id (titles s)) ∧
                               discID ∈ map di_id (discs s))).
    intros st _ s [Hs Hd]. pose proof (save_stream_wf titleID st s Hs) as H. done.
  - intros s ((r & Hr%select1_Some & ->)%fmap_Some & Hs & Hd). split; [|done]. split; [done|].
    apply list_elem_of_fmap. exists r. by destruct Hr.
  - by intros _ s [[? _] ?].
  - done.
Qed.

Lemma save_disc_row_keeps now d raw : keeps (save_disc_row now d raw).
Proof.
  apply keeps_exec. intros s Hs. wf_solve.
  - uniq_upsert.
  - by apply Forall_upsert.
Qed.

Lemma SaveDisc_keeps now d raw : keeps (SaveDisc now d raw).
Proof.
  apply triple_tx. eapply triple_bind.
  { eapply triple_conseq; [apply save_disc_row_keeps|done..]. }
  intros []. eapply triple_bind; [apply triple_queryRow|].
  intros discID. apply (triple_bind _ _ _ (λ _ s, store_wf s ∧ discID ∈ map di_id (discs s))).
  { eapply triple_conseq with (E' := λ _, True); [apply triple_each; intros t _; apply (save_title_wf discID)| |done|done].
    intros s ((r & Hr%select1_Some & ->)%fmap_Some & Hs). split; [done|].
    apply list_elem_of_fmap. exists r. by destruct Hr. }
  intros [] s [Hs _]. exact Hs.
Qed.

(** ** All runs *)

(** A call of one of the writing methods, with its arguments. *)
Inductive store_op :=
| OpUpsertDrive (now : Z) (stableID devicePath label vendorModel : string)
| OpSetReadPath (discID : Z) (readPath discName : string)
| OpSaveDisc (now : Z) (d : Disc) (rawInfo : string)
| OpSetDiscRipDir (discID : Z) (dir : string)
| OpForgetDisc (fingerprint : string)
| OpMarkTitleRipped (discID titleIndex sizeBytes : Z) (verified : bool)
| OpCreateJob (now discID driveID attempt : Z)
| OpSetJobState (now jobID : Z) (state : JobState) (errText : string)
| OpSetJobProgress (jobID done total : Z)
| OpReclaimUnfinishedJobs (now : Z)
| OpLogEvent (now : Z) (level message : string) (jobID driveID : option Z)
| OpQueueTranscode (now discID titleIndex : Z) (profile sourcePath : string)
| OpRecordTranscode (now discID titleIndex : Z) (profile sourcePath outputPath : string)
    (sizeBytes : Z) (hardware : bool)
| OpNextTranscode (now maxAttempts : Z)
| OpFinishTranscode (now id : Z) (outputPath : string) (sizeBytes : Z) (hardware : bool)
| OpFailTranscode (now id : Z) (reason : string)
| OpRequeueTranscode (id : Z)
| OpReclaimRunningTranscodes
| OpRecordLibraryLink (now discID titleIndex : Z) (path : string)
| OpResetTranscodeAttempts (id : Z).

Definition run_op (op : store_op) (s : Store) : Store :=
  match op with
  | OpUpsertDrive now a b c d => (UpsertDrive now a b c d s).2
  | OpSetReadPath i p n => (SetReadPath i p n s).2
  | OpSaveDisc now d raw => (SaveDisc now d raw s).2
  | OpSetDiscRipDir i dir => (SetDiscRipDir i dir s).2
  | OpForgetDisc fp => (ForgetDisc fp s).2
  | OpMarkTitleRipped i t b v => (MarkTitleRipped i t b v s).2
  | OpCreateJob now i d a => (CreateJob now i d a s).2
  | OpSetJobState now j st e => (SetJobState now j st e s).2
  | OpSetJobProgress j d t => (SetJobProgress j d t s).2
  | OpReclaimUnfinishedJobs now => (ReclaimUnfinishedJobs now s).2
  | OpLogEvent now l msg j d => (LogEvent now l msg j d s).2
  | OpQueueTranscode now i t p src => (QueueTranscode now i t p src s).2
  | OpRecordTranscode now i t p src out b hw => (RecordTranscode now i t p src out b hw s).2
  | OpNextTranscode now mx => (NextTranscode now mx s).2
  | OpFinishTranscode now i out b hw => (FinishTranscode now i out b hw s).2
  | OpFailTranscode now i why => (FailTranscode now i why s).2
  | OpRequeueTranscode i => (RequeueTranscode i s).2
  | OpReclaimRunningTranscodes => (ReclaimRunningTranscodes s).2
  | OpRecordLibraryLink now i t path => (RecordLibraryLink now i t path s).2
  | OpResetTranscodeAttempts i => (ResetTranscodeAttempts i s).2
  end.

#[export] Hint Resolve UpsertDrive_keeps SetReadPath_keeps SaveDisc_keeps SetDiscRipDir_keeps
  ForgetDisc_keeps MarkTitleRipped_keeps CreateJob_keeps SetJobState_keeps SetJobProgress_keeps
  ReclaimUnfinishedJobs_keeps LogEvent_keeps QueueTranscode_keeps RecordTranscode_keeps
  NextTranscode_keeps FinishTranscode_keeps FailTranscode_keeps RequeueTranscode_keeps
  ReclaimRunningTranscodes_keeps RecordLibraryLink_keeps ResetTranscodeAttempts_keeps : hellbox.

Lemma run_op_wf op s : store_wf s → store_wf (run_op op s).
Proof. intros Hs. destruct op; cbn [run_op]; (apply keeps_snd; [auto with hellbox|done]). Qed.

Lemma run_ops_wf ops s : store_wf s → store_wf (foldl (flip run_op) s ops).
Proof. revert s; induction ops as [|op ops IH]; intros s Hs; simpl; [done|]. by apply IH, run_op_wf. Qed.

(** C7: Starting from an empty database, any sequence of the store's writing methods, with any
    arguments and whether or not each succeeds, leaves tables in which rowids and every UNIQUE key are
    unique, every reference names an existing row, a disc's forget mark never reaches a job that does
    not exist yet, a job in a final state has an end time, a finished transcode has its output and end
    time, a failed one its reason, a running one its start time and a counted attempt. *)
Theorem store_reachable_wf ops : store_wf (foldl (flip run_op) empty_store ops).
Proof. apply run_ops_wf, empty_store_wf. Qed.
