(* ===== verification/StoreDiscs.v ===== *)
(** * What the store promises about discs and attempts

    Saving, finding, forgetting and rescanning discs, and the attempt cap. *)

From S2P Require Import Prelude GoText Table Disc Failure Store Queue StoreWf.

(** ** SaveDisc *)

(** What writing titles may change: new rows are not ripped, and no flag of an
    old row moves. *)
Definition title_flags (r : titleRow) : Z * Z * Z * bool * bool :=
  (ti_id r, ti_disc_id r, ti_title_index r, ti_ripped r, ti_verified r).
Definition flags_ripped (x : Z * Z * Z * bool * bool) : bool := x.1.2.

Record titles_grow (s s' : Store) : Prop := {
  tg_drives : drives s' = drives s;
  tg_discs : discs s' = discs s;
  tg_jobs : jobs s' = jobs s;
  tg_transcodes : transcodes s' = transcodes s;
  tg_links : library_links s' = library_links s;
  tg_titles : ∃ new, map title_flags (titles s') = map title_flags (titles s) ++ new ∧
                     Forall (λ x, flags_ripped x = false) new;
}.

#[global] Instance titles_grow_preorder : PreOrder titles_grow.
Proof.
  split.
  - intros s. split; try done. exists []. by rewrite app_nil_r.
  - intros s s' s'' [? ? ? ? ? (n & Hn & Fn)] [? ? ? ? ? (n' & Hn' & Fn')].
    split; try congruence. exists (n ++ n'). rewrite Hn', Hn, <- app_assoc. split; [done|].
    by apply Forall_app.
Qed.

(** A loop of statements none of which fails. *)
Lemma each_ok {A} (R : relation Store) `{!PreOrder R} (f : A → DB unit) l s :
  (∀ x s, ∃ s', f x s = (Ok tt, s') ∧ R s s') → ∃ s', each f l s = (Ok tt, s') ∧ R s s'.
Proof.
  intros Hf. revert s; induction l as [|x l IH]; intros s; simpl; [by exists s|].
  destruct (Hf x s) as (s1 & E1 & R1). unfold bind. rewrite E1.
  destruct (IH s1) as (s2 & E2 & R2). exists s2. split; [done|]. by etrans.
Qed.

Definition streams_only (s s' : Store) : Prop := ∃ x, s' = set_streams x s.
#[global] Instance streams_only_preorder : PreOrder streams_only.
Proof.
  split; [intros s0; by exists (streams s0); destruct s0|].
  intros s0 s1 s2 [x ->] [y ->]. by exists y.
Qed.

Lemma title_is_refl discID i r :
  ti_disc_id r = discID → ti_title_index r = i → title_is discID i r = true.
Proof. intros <- <-. unfold title_is. by rewrite !Z.eqb_refl. Qed.

Definition put_title (discID : Z) (t : Title) (s : Store) : Store :=
  set_titles
    (upsert (title_is discID (t_Index t))
       (λ r, mkTitleRow (ti_id r) (ti_disc_id r) (ti_title_index r) (t_DurationSecs t) (t_Chapters t)
               (t_SizeBytes t) (t_SourceFile t) (t_OutputFile t) (ti_ripped r) (ti_verified r))
       (mkTitleRow (next_rowid ti_id (titles s)) discID (t_Index t) (t_DurationSecs t) (t_Chapters t)
          (t_SizeBytes t) (t_SourceFile t) (t_OutputFile t) false false)
       (titles s)) s.

(** A title is written, and nothing but its row and its streams changes. *)
Lemma save_title_ok discID t s :
  ∃ s', save_title discID t s = (Ok tt, s') ∧ titles s' = titles (put_title discID t s) ∧ titles_grow s s'.
Proof.
  unfold save_title, bind, exec. fold (put_title discID t s).
  assert (titles_grow s (put_title discID t s)) as Hg.
  { split; try done. simpl. unfold upsert. destruct (existsb _ _).
    - exists []. rewrite app_nil_r, update_where_map by done. done.
    - exists [title_flags (mkTitleRow (next_rowid ti_id (titles s)) discID (t_Index t) 0 0 0 "" "" false false)].
      rewrite map_app. split; [done|]. by apply Forall_singleton. }
  unfold queryRow. simpl titles. rewrite select1_upsert_same; [|done|by apply title_is_refl]. simpl.
  match goal with |- context [each (save_stream ?id)] => set (tid := id) end.
  destruct (each_ok streams_only (save_stream tid) (t_Streams t)
              (put_title discID t s)) as (s' & E & x & ->).
  - intros st s0. eexists. split; [done|]. by eexists.
  - exists (set_streams x (put_title discID t s)). split; [done|]. split; [done|].
    by destruct Hg; split.
Qed.

Lemma save_titles_ok discID ts s :
  ∃ s', each (save_title discID) ts s = (Ok tt, s') ∧ titles_grow s s'.
Proof.
  apply each_ok; [apply _|]. intros t s0. destruct (save_title_ok discID t s0) as (s' & ? & _ & ?). eauto.
Qed.

Definition fp_is (fp : string) (r : discRow) : bool := bool_decide (di_fingerprint r = fp).

Definition new_disc_row (now : Z) (d : Disc) (raw : string) (s : Store) : discRow :=
  mkDiscRow (next_rowid di_id (discs s)) (d_Fingerprint d) (d_VolumeLabel d)
    (type_string (d_Type d)) (Z.of_nat (length (d_Titles d))) (d_TotalBytes d) now None raw None None None.

(** The row of a scanned disc after SaveDisc. *)
Definition saved_row (now : Z) (d : Disc) (raw : string) (s : Store) : discRow :=
  match select1 (fp_is (d_Fingerprint d)) (discs s) with
  | Some r => with_metadata (d_VolumeLabel d) (type_string (d_Type d)) (Z.of_nat (length (d_Titles d)))
                (d_TotalBytes d) raw r
  | None => new_disc_row now d raw s
  end.

Definition saved_discs (now : Z) (d : Disc) (raw : string) (s : Store) : list discRow :=
  upsert (fp_is (d_Fingerprint d))
    (with_metadata (d_VolumeLabel d) (type_string (d_Type d)) (Z.of_nat (length (d_Titles d)))
       (d_TotalBytes d) raw)
    (new_disc_row now d raw s) (discs s).

Lemma saved_discs_select now d raw s :
  select1 (fp_is (d_Fingerprint d)) (saved_discs now d raw s) = Some (saved_row now d raw s).
Proof.
  unfold saved_discs, saved_row. rewrite select1_upsert_same; [by case_match|by intros|].
  by apply bool_decide_eq_true.
Qed.

(** SaveDisc in one equation: it cannot fail. *)
Lemma SaveDisc_eq now d raw s :
  ∃ s', SaveDisc now d raw s = (Ok (di_id (saved_row now d raw s)), s') ∧
        each (save_title (di_id (saved_row now d raw s))) (d_Titles d)
          (set_discs (saved_discs now d raw s) s) = (Ok tt, s') ∧
        titles_grow (set_discs (saved_discs now d raw s) s) s'.
Proof.
  unfold SaveDisc, tx, bind, save_disc_row, exec, queryRow.
  fold (fp_is (d_Fingerprint d)). fold (new_disc_row now d raw s). fold (saved_discs now d raw s).
  cbn [discs set_discs]. rewrite saved_discs_select. cbn [fmap option_fmap option_map].
  destruct (save_titles_ok (di_id (saved_row now d raw s)) (d_Titles d)
              (set_discs (saved_discs now d raw s) s)) as (s' & E & G).
  rewrite E. exists s'. done.
Qed.

(** *** Titles written by SaveDisc are read back *)

Lemma TitleDuration_put discID t i s :
  (TitleDuration discID i (put_title discID t s)).1 =
  if i =? t_Index t then Ok (t_DurationSecs t) else (TitleDuration discID i s).1.
Proof.
  unfold TitleDuration, query, put_title, coalesce. cbn [titles set_titles fst].
  destruct (Z.eqb_spec i (t_Index t)) as [->|Hne].
  - rewrite select1_upsert_same; [|done|by apply title_is_refl]. simpl. by case_match.
  - rewrite select1_upsert_other; [done| |].
    + unfold title_is. simpl. intros r _ H. breflect. simplify_eq. destruct (Z.eqb_spec (ti_title_index r) i); lia.
    + unfold title_is. simpl. rewrite Z.eqb_refl. destruct (Z.eqb_spec (t_Index t) i); [lia|done].
Qed.

Lemma TitleDuration_titles discID i s s' :
  titles s' = titles s → (TitleDuration discID i s').1 = (TitleDuration discID i s).1.
Proof. unfold TitleDuration, query. simpl. by intros ->. Qed.

Lemma save_titles_durations discID ts s s' :
  NoDup (map t_Index ts) → each (save_title discID) ts s = (Ok tt, s') →
  (∀ t, t ∈ ts → (TitleDuration discID (t_Index t) s').1 = Ok (t_DurationSecs t)) ∧
  (∀ i, i ∉ map t_Index ts → (TitleDuration discID i s').1 = (TitleDuration discID i s).1).
Proof.
  revert s; induction ts as [|t ts IH]; intros s Hnd E; cbn [each map] in *.
  { injection E as <-. split; [by intros ? ?%not_elem_of_nil|done]. }
  apply NoDup_cons in Hnd as [Ht Hnd]. unfold bind in E.
  destruct (save_title_ok discID t s) as (s1 & E1 & T1 & _). rewrite E1 in E.
  destruct (IH s1 Hnd E) as [IHin IHout]. split.
  - intros t' [->|Hin]%elem_of_cons; [|auto].
    rewrite IHout, (TitleDuration_titles _ _ _ _ T1), TitleDuration_put by done. by rewrite Z.eqb_refl.
  - intros i [Hi Hout]%not_elem_of_cons.
    rewrite IHout, (TitleDuration_titles _ _ _ _ T1), TitleDuration_put by done.
    by destruct (Z.eqb_spec i (t_Index t)).
Qed.

(** *** The other readings are untouched *)

Lemma FindDisc_discs fp s s' : discs s' = discs s → (FindDisc fp s').1 = (FindDisc fp s).1.
Proof. unfold FindDisc, query. simpl. by intros ->. Qed.

Lemma Zle_sort_unique (l k : list Z) : l ≡ₚ k → merge_sort Z.le l = merge_sort Z.le k.
Proof.
  intros Hp. apply (Sorted_unique Z.le); [apply (Sorted_merge_sort Z.le)..|].
  by rewrite !merge_sort_Permutation.
Qed.

(** RippedTitles in terms of the flags alone. *)
Lemma RippedTitles_flags discID s :
  (RippedTitles discID s).1 = Ok (merge_sort Z.le (map (λ x, x.1.1.2)
    (List.filter (λ x, (x.1.1.1.2 =? discID) && x.1.2) (map title_flags (titles s))))).
Proof.
  unfold RippedTitles, query. cbn [fst]. f_equal. unfold ripped_rows.
  set (rows := List.filter _ (titles s)).
  replace (map _ (List.filter _ (map title_flags (titles s)))) with (map ti_title_index rows).
  - apply (Sorted_unique Z.le); [|apply (Sorted_merge_sort Z.le)|].
    + apply (Sorted_fmap ti_title_index title_index_le Z.le); [done|]. apply (Sorted_merge_sort _).
    + rewrite !merge_sort_Permutation. done.
  - subst rows. induction (titles s) as [|r rs IH]; simpl; [done|].
    destruct ((ti_disc_id r =? discID) && ti_ripped r); simpl; by rewrite IH.
Qed.

Lemma RippedTitles_grow discID s s' :
  titles_grow s s' → (RippedTitles discID s').1 = (RippedTitles discID s).1.
Proof.
  intros [_ _ _ _ _ (new & Hn & Hf)]. rewrite !RippedTitles_flags, Hn, List.filter_app, map_app.
  replace (List.filter _ new) with (@nil (Z * Z * Z * bool * bool)); [by rewrite app_nil_r|].
  symmetry. clear Hn. induction Hf as [|x new Hx _ IH]; simpl; [done|].
  change (x.1.2) with (flags_ripped x). by rewrite Hx, andb_false_r.
Qed.

Lemma saved_row_id now d raw s :
  di_id (saved_row now d raw s) =
  match select1 (fp_is (d_Fingerprint d)) (discs s) with
  | Some r => di_id r | None => next_rowid di_id (discs s) end.
Proof. unfold saved_row. by case_match. Qed.

Lemma forgotten_after_saved discID now d raw s :
  forgotten_after discID (set_discs (saved_discs now d raw s) s) = forgotten_after discID s.
Proof.
  unfold forgotten_after, saved_discs, upsert. cbn [discs set_discs]. destruct (existsb _ _).
  - rewrite select1_update by done. destruct (select1 _ (discs s)); simpl; [by case_match|done].
  - rewrite select1_app. destruct (select1 _ (discs s)); [done|]. unfold select1. simpl. by case_match.
Qed.

(** Saving a scanned disc never fails. The disc is then found by its fingerprint, with
    the id SaveDisc returned, the label, type, title count and size of the scan, and the first-seen
    time and rip directory it already had (now, and none, for a new disc), and each title's runtime
    reads back as scanned. *)
Theorem SaveDisc_FindDisc now d raw s :
  NoDup (map t_Index (d_Titles d)) →
  ∃ id s', SaveDisc now d raw s = (Ok id, s') ∧
    (let old := select1 (fp_is (d_Fingerprint d)) (discs s) in
     (FindDisc (d_Fingerprint d) s').1 =
       Ok (Some (mkDiscRecord id (d_Fingerprint d) (d_VolumeLabel d) (type_string (d_Type d))
         (Z.of_nat (length (d_Titles d))) (d_TotalBytes d)
         (match old with Some r => di_first_seen r | None => now end)
         (match old with Some r => coalesce (di_rip_dir r) "" | None => "" end)))) ∧
    (∀ r, select1 (fp_is (d_Fingerprint d)) (discs s) = Some r → id = di_id r) ∧
    (∀ t, t ∈ d_Titles d → (TitleDuration id (t_Index t) s').1 = Ok (t_DurationSecs t)).
Proof.
  intros Hnd. destruct (SaveDisc_eq now d raw s) as (s' & E & Et & G).
  exists (di_id (saved_row now d raw s)), s'. split; [done|]. split_and!.
  - cbv zeta. rewrite (FindDisc_discs _ _ _ (tg_discs _ _ G)). unfold FindDisc, query. cbn [discs set_discs fst].
    fold (fp_is (d_Fingerprint d)). rewrite saved_discs_select. simpl. f_equal. f_equal.
    unfold saved_row. destruct (select1 _ (discs s)) as [r|] eqn:Es; simpl; [|done].
    apply select1_Some in Es as [_ Hfp%bool_decide_eq_true]. by rewrite Hfp.
  - intros r Hr. by rewrite saved_row_id, Hr.
  - by apply (save_titles_durations _ _ _ _ Hnd Et).
Qed.

(** Rescanning loses nothing: saving a disc changes no other disc's record, marks and unmarks no
    title of any disc as ripped, leaves every job, transcode and library link as it was, and gives no
    disc an attempt more or fewer. *)
Theorem SaveDisc_preserves now d raw s fp i :
  let s' := (SaveDisc now d raw s).2 in
  (fp ≠ d_Fingerprint d → (FindDisc fp s').1 = (FindDisc fp s).1) ∧
  (RippedTitles i s').1 = (RippedTitles i s).1 ∧
  (AttemptsForDisc i s').1 = (AttemptsForDisc i s).1 ∧
  jobs s' = jobs s ∧ transcodes s' = transcodes s ∧ library_links s' = library_links s.
Proof.
  cbv zeta. destruct (SaveDisc_eq now d raw s) as (s' & -> & _ & G). cbn [snd]. split_and!.
  - intros Hfp. rewrite (FindDisc_discs _ _ _ (tg_discs _ _ G)). unfold FindDisc, query. simpl.
    unfold saved_discs. fold (fp_is fp). rewrite select1_upsert_other; [done| |].
    + intros r _ H%bool_decide_eq_true. simpl. unfold fp_is. simpl. rewrite H.
      by split; apply bool_decide_eq_false.
    + by apply bool_decide_eq_false.
  - by rewrite (RippedTitles_grow _ _ _ G).
  - unfold AttemptsForDisc, query. simpl. rewrite (tg_jobs _ _ G).
    unfold forgotten_after at 1. rewrite (tg_discs _ _ G).
    by rewrite <- (forgotten_after_saved i now d raw s).
  - apply (tg_jobs _ _ G).
  - apply (tg_transcodes _ _ G).
  - apply (tg_links _ _ G).
Qed.

(** ** Forgetting and the attempt cap *)

Lemma attempts_eq discID s :
  AttemptsForDisc discID s =
  (Ok (count_where (attempt_counts discID (forgotten_after discID s)) (jobs s)), s).
Proof. done. Qed.

Lemma max_job_id_max discID s r :
  r ∈ jobs s → j_disc_id r = discID → j_id r ≤ coalesce (max_job_id discID s) 0.
Proof.
  intros Hr Hd. unfold max_job_id, coalesce.
  assert (r ∈ List.filter (λ r, j_disc_id r =? discID) (jobs s)) as Hin.
  { apply list_elem_of_In, filter_In. rewrite <- list_elem_of_In, Hd, Z.eqb_refl. done. }
  destruct (List.filter _ _) as [|x rs]; [by apply not_elem_of_nil in Hin|]. simpl.
  apply elem_of_cons in Hin as [->|Hin]; [induction rs; simpl; lia|].
  induction rs as [|y rs IH]; [by apply not_elem_of_nil in Hin|]. simpl.
  apply elem_of_cons in Hin as [->|Hin]; [lia|specialize (IH Hin); lia].
Qed.

(** ForgetDisc on a known disc in one equation. *)
Lemma ForgetDisc_eq fp s d :
  select1 (fp_is fp) (discs s) = Some d →
  ForgetDisc fp s =
  (Ok tt, set_discs (update_where (λ r, di_id r =? di_id d)
            (λ r, with_forgotten (coalesce (max_job_id (di_id d) s) 0) (with_rip_dir None r))
            (discs s)) s).
Proof.
  intros E. unfold ForgetDisc, tx. fold (fp_is fp). rewrite E. unfold bind, exec.
  unfold set_discs. cbn. f_equal. unfold update_where. rewrite map_map.
  f_equal. apply map_ext. intros r. simpl.
  by destruct (di_id r =? di_id d) eqn:E'; simpl; rewrite E'.
Qed.

(** Forgetting a known disc makes it rippable again: it is found with the same id but no rip
    directory, and no attempt counts against it, while its jobs stay on record and every other disc
    keeps its record and its attempts. Forgetting an unknown fingerprint is an error that changes
    nothing. *)
Theorem ForgetDisc_spec fp s :
  store_wf s →
  match select1 (fp_is fp) (discs s) with
  | None => ForgetDisc fp s = (Err (ErrUnknownDisc fp), s)
  | Some d => ∃ s' rec,
      ForgetDisc fp s = (Ok tt, s') ∧
      (FindDisc fp s').1 = Ok (Some rec) ∧ dc_ID rec = di_id d ∧ Ripped rec = false ∧
      (AttemptsForDisc (di_id d) s').1 = Ok 0 ∧ jobs s' = jobs s ∧
      (∀ i, i ≠ di_id d → (AttemptsForDisc i s').1 = (AttemptsForDisc i s).1) ∧
      (∀ fp', fp' ≠ fp → (FindDisc fp' s').1 = (FindDisc fp' s).1)
  end.
Proof.
  intros Hwf. destruct (select1 (fp_is fp) (discs s)) as [d|] eqn:Ed.
  2: { unfold ForgetDisc, tx. fold (fp_is fp). by rewrite Ed. }
  rewrite (ForgetDisc_eq fp s d Ed). eexists _, _. split; [done|].
  pose proof Ed as [Hin Hfp%bool_decide_eq_true]%select1_Some.
  assert (select1 (λ r, di_id r =? di_id d) (discs s) = Some d) as Hd.
  { apply select1_key; [apply (wf_discs s Hwf)|done]. }
  split; [|split; [|split; [|split_and!]]].
  - unfold FindDisc, query. cbn [fst discs set_discs]. fold (fp_is fp).
    rewrite select1_update, Ed by done. cbn [fmap option_fmap option_map]. rewrite Z.eqb_refl. done.
  - done.
  - done.
  - rewrite attempts_eq. cbn [fst jobs set_discs]. f_equal. apply count_where_none, Forall_forall.
    intros r Hr. unfold attempt_counts, forgotten_after. cbn [discs set_discs].
    rewrite select1_update, Hd by done. cbn [fmap option_fmap option_map]. rewrite Z.eqb_refl. simpl.
    destruct (Z.eqb_spec (j_disc_id r) (di_id d)) as [Hj|]; [|done].
    pose proof (max_job_id_max (di_id d) s r Hr Hj).
    destruct (Z.ltb_spec (coalesce (max_job_id (di_id d) s) 0) (j_id r)); [lia|apply andb_false_r].
  - done.
  - intros i Hi. rewrite !attempts_eq. cbn [fst jobs set_discs]. do 3 f_equal.
    unfold forgotten_after. cbn [discs set_discs]. rewrite select1_update_other; [done|].
    intros r _ E%Z.eqb_eq. simpl. rewrite E. split; by apply Z.eqb_neq.
  - intros fp' Hfp'. unfold FindDisc, query. cbn [fst discs set_discs]. do 2 f_equal. fold (fp_is fp').
    rewrite select1_update_other; [done|]. intros r Hr E%Z.eqb_eq. unfold fp_is. simpl.
    assert (r = d) as -> by (eapply (key_inj di_id); [apply (wf_discs s Hwf)|done..]).
    rewrite Hfp. split; by apply bool_decide_eq_false.
Qed.

(** Moving the newest job through states touches only its own row. *)
Definition set_states (now jobID : Z) (sts : list JobState) (s : Store) : Store :=
  foldl (λ s st, (SetJobState now jobID st "" s).2) s sts.

Lemma update_last {R} (p : R → bool) f rows (new : R) :
  Forall (λ r, p r = false) rows → p new = true →
  update_where p f (rows ++ [new]) = rows ++ [f new].
Proof.
  intros Hr Hn. unfold update_where. rewrite map_app. simpl. rewrite Hn.
  by rewrite <- (update_where_none p f rows Hr) at 2.
Qed.

Lemma last_shift {A} (x : A) l d : List.last l x = List.last (x :: l) d.
Proof.
  revert x d; induction l as [|y l IH]; intros x d; [done|].
  transitivity (List.last l y); [symmetry|]; apply IH.
Qed.

Lemma set_states_last now sts s rows j :
  jobs s = rows ++ [j] → Forall (λ r, (j_id r =? j_id j) = false) rows →
  ∃ j', jobs (set_states now (j_id j) sts s) = rows ++ [j'] ∧
        discs (set_states now (j_id j) sts s) = discs s ∧
        j_id j' = j_id j ∧ j_disc_id j' = j_disc_id j ∧ j_state j' = List.last sts (j_state j).
Proof.
  revert s j; induction sts as [|st sts IH]; intros s j Hj Hne; cbn [set_states foldl].
  { by exists j. }
  set (s1 := (SetJobState now (j_id j) st "" s).2).
  set (j1 := with_state st (nullIfEmpty "") (if terminal st then Some now else j_ended_at j) j).
  assert (jobs s1 = rows ++ [j1]) as H1.
  { unfold s1, SetJobState, exec. cbn [snd jobs set_jobs]. rewrite Hj, update_last; auto using Z.eqb_refl. }
  destruct (IH s1 j1 H1 Hne) as (j' & Hj' & Hd & Hid & Hdi & Hst).
  exists j'. split; [exact Hj'|]. split; [exact Hd|]. split_and!; [done|done|].
  rewrite Hst. apply last_shift.
Qed.

Lemma CreateJob_eq now discID driveID attempt s :
  has_disc discID s = true → has_drive driveID s = true →
  CreateJob now discID driveID attempt s =
  (Ok (next_rowid j_id (jobs s)),
   set_jobs (jobs s ++ [mkJobRow (next_rowid j_id (jobs s)) discID driveID JobPending attempt now
                          (Some now) None None 0 0]) s).
Proof.
  intros Hd Hr. unfold CreateJob, bind, references, query, exec, ret. rewrite Hd, Hr. done.
Qed.

(** A forget mark lies below every job still to be created. *)
Lemma forgotten_after_lt discID s : store_wf s → 0 ≤ forgotten_after discID s < next_rowid j_id (jobs s).
Proof.
  intros Hwf. unfold forgotten_after. pose proof (next_rowid_pos j_id (jobs s)).
  destruct (select1 _ (discs s)) as [d|] eqn:E; simpl; [|lia].
  apply select1_Some in E as [Hd _]. pose proof (wf_discs_forgotten s Hwf) as Hf.
  rewrite Forall_forall in Hf. specialize (Hf d Hd). unfold forgotten_ok in Hf.
  destruct (di_forgotten_after_job d); simpl; lia.
Qed.

(** C8: Opening a job for a known disc and drive succeeds, and however the job is then moved through
    its states it counts as exactly one attempt against its disc, unless it was cancelled in the end,
    when it counts as none. *)
Theorem attempt_accounting now discID driveID attempt sts s :
  store_wf s → has_disc discID s = true → has_drive driveID s = true →
  ∃ jobID s' n, CreateJob now discID driveID attempt s = (Ok jobID, s') ∧
    (AttemptsForDisc discID s).1 = Ok n ∧
    (AttemptsForDisc discID (set_states now jobID sts s')).1 =
      Ok (n + if bool_decide (List.last sts JobPending = JobCancelled) then 0 else 1).
Proof.
  intros Hwf Hd Hr. rewrite (CreateJob_eq _ _ _ _ _ Hd Hr). eexists _, _, _. split; [done|].
  rewrite !attempts_eq. cbn [fst]. split; [done|].
  set (id := next_rowid j_id (jobs s)). set (j := mkJobRow id _ _ _ _ _ _ _ _ _ _).
  destruct (set_states_last now sts (set_jobs (jobs s ++ [j]) s) (jobs s) j eq_refl)
    as (j' & Hj' & Hds & Hid & Hdi & Hst).
  { apply Forall_forall. intros r Hin. apply Z.eqb_neq. simpl.
    pose proof (next_rowid_fresh j_id (jobs s) r Hin). subst id. lia. }
  change (j_id j) with id in *. rewrite Hj'. unfold forgotten_after. rewrite Hds. cbn [discs set_jobs].
  fold (forgotten_after discID s). rewrite count_where_app. do 2 f_equal.
  unfold count_where, attempt_counts. simpl. rewrite Hdi, Hid, Hst. simpl.
  rewrite Z.eqb_refl. pose proof (forgotten_after_lt discID s Hwf).
  destruct (Z.ltb_spec (forgotten_after discID s) id); [|subst id; lia].
  by case_bool_decide.
Qed.

(** *** Restart *)

Lemma reclaim_no_unfinished now s :
  Forall (λ r, unfinished (j_state r) = false) (jobs (ReclaimUnfinishedJobs now s).2).
Proof.
  apply Forall_forall. intros r. simpl. intros (r0 & _ & ->)%elem_of_update_where.
  by destruct (unfinished (j_state r0)) eqn:E.
Qed.

(** After the restart sweep no job is left unfinished and the count returned is how many
    there were; a disc is charged only for the jobs that reached a verdict (complete, failed or
    duplicate) since it was last forgotten; and sweeping again finds and changes nothing. *)
Theorem ReclaimUnfinishedJobs_spec now s :
  ∃ s', ReclaimUnfinishedJobs now s = (Ok (count_where (λ r, unfinished (j_state r)) (jobs s)), s') ∧
    Forall (λ r, unfinished (j_state r) = false) (jobs s') ∧
    (∀ i, (AttemptsForDisc i s').1 = Ok (count_where (λ r,
       attempt_counts i (forgotten_after i s) r && negb (unfinished (j_state r))) (jobs s))) ∧
    (∀ now', ReclaimUnfinishedJobs now' s' = (Ok 0, s')).
Proof.
  eexists. split; [done|]. pose proof (reclaim_no_unfinished now s) as Hno. split; [exact Hno|]. split.
  - intros i. rewrite attempts_eq. cbn [fst jobs set_jobs]. f_equal. unfold forgotten_after. cbn [discs set_jobs].
    unfold count_where, update_where. f_equal. clear Hno. induction (jobs s) as [|r rs IH]; [done|].
    cbn [map List.filter]. destruct (unfinished (j_state r)) eqn:E; cbn [negb].
    + rewrite andb_false_r. unfold attempt_counts at 1. cbn. by rewrite andb_false_r.
    + rewrite andb_true_r. destruct (attempt_counts _ _ r); simpl; [by rewrite IH|done].
  - intros now'. unfold ReclaimUnfinishedJobs at 1. rewrite count_where_none by exact Hno.
    rewrite update_where_none by exact Hno. done.
Qed.

(** ** A worked store *)

Definition sample_title (i dur : Z) : Title :=
  mkTitle i dur 10 (dur * 1000) "" 0 "" "" "" "" [] ∅.
Definition sample_disc : Disc :=
  mkDisc "f00d" "FIREFLY_D1" "" TypeDVD 4000000 None "" "" "" [sample_title 0 2600; sample_title 1 2580].
Definition sample_ops : list store_op :=
  [OpUpsertDrive 100 "usb-0" "/dev/sr0" "left" "BW-16"; OpSaveDisc 100 sample_disc "";
   OpCreateJob 101 1 1 1; OpSetJobState 102 1 JobFailed "no progress for 5m";
   OpCreateJob 103 1 1 2; OpMarkTitleRipped 1 0 2600000 true; OpSetDiscRipDir 1 "/rips/firefly"].
Definition sample_store : Store := foldl (flip run_op) empty_store sample_ops.

Lemma sample_store_wf : store_wf sample_store.
Proof. apply run_ops_wf, empty_store_wf. Qed.

Lemma SaveDisc_FindDisc_witness :
  ∃ id s', SaveDisc 200 sample_disc "" sample_store = (Ok id, s') ∧
    (FindDisc "f00d" s').1 =
      Ok (Some (mkDiscRecord id "f00d" "FIREFLY_D1" "dvd" 2 4000000 100 "/rips/firefly")).
Proof.
  destruct (SaveDisc_FindDisc 200 sample_disc "" sample_store) as (id & s' & E & F & _).
  - vm_compute. repeat constructor; set_solver.
  - exists id, s'. split; [exact E|]. exact F.
Defined.

Lemma ForgetDisc_spec_witness :
  (AttemptsForDisc 1 sample_store).1 = Ok 2 ∧
  ∃ s', ForgetDisc "f00d" sample_store = (Ok tt, s') ∧ (AttemptsForDisc 1 s').1 = Ok 0.
Proof.
  split; [vm_compute; reflexivity|].
  pose proof (ForgetDisc_spec "f00d" sample_store sample_store_wf) as H.
  assert (is_Some (select1 (fp_is "f00d") (discs sample_store))) as [d E] by (vm_compute; eauto).
  rewrite E in H. destruct H as (s' & rec & Hf & _ & _ & _ & Ha & _).
  exists s'. split; [exact Hf|]. assert (di_id d = 1) as Hid; [|rewrite Hid in Ha; exact Ha].
  vm_compute in E. by simplify_eq.
Defined.

Lemma attempt_accounting_witness :
  ∃ jobID s', CreateJob 300 1 1 3 sample_store = (Ok jobID, s') ∧
    (AttemptsForDisc 1 (set_states 300 jobID [JobRipping; JobCancelled] s')).1 = Ok 2.
Proof.
  destruct (attempt_accounting 300 1 1 3 [JobRipping; JobCancelled] sample_store sample_store_wf)
    as (id & s' & n & E & En & Ha); [vm_compute; reflexivity..|].
  exists id, s'. split; [exact E|]. rewrite Ha. assert (n = 2) as ->; [|done].
  vm_compute in En. congruence.
Defined.

Lemma SaveDisc_preserves_witness :
  (FindDisc "f00d" (SaveDisc 200 (mkDisc "beef" "" "" TypeBluRay 0 None "" "" "" []) "" sample_store).2).1 =
    (FindDisc "f00d" sample_store).1 ∧
  (RippedTitles 1 (SaveDisc 200 sample_disc "" sample_store).2).1 = Ok [0].
Proof.
  split.
  - refine (proj1 (SaveDisc_preserves 200 (mkDisc "beef" "" "" TypeBluRay 0 None "" "" "" []) "" sample_store "f00d" 1) _).
    discriminate.
  - destruct (SaveDisc_preserves 200 sample_disc "" sample_store "f00d" 1) as (_ & H & _). rewrite H.
    vm_compute. reflexivity.
Defined.
