(* ===== verification/StoreQueue.v ===== *)
(** * What the store promises about the transcode queue

    Claiming, the attempt budget, giving attempts back, and reconciling
    finished transcodes with the library; and two ways a title queued again is
    not encoded. *)

From S2P Require Import Prelude GoText Table Disc Store Queue StoreWf.

(** ** Claiming *)

Definition waiting (maxAttempts : Z) (r : transcodeRow) : Prop :=
  tc_state r = TranscodePending ∧ tc_attempt r < maxAttempts.

Lemma claimable_waiting max s r :
  store_wf s → r ∈ transcodes s → claimable max s r = true ↔ waiting max r.
Proof.
  intros Hwf Hr. unfold claimable, waiting. rewrite !andb_true_iff, bool_decide_eq_true, Z.ltb_lt.
  assert (has_disc (tc_disc_id r) s = true) as ->; [|tauto].
  apply has_disc_elem. pose proof (wf_tc_disc s Hwf) as H. unfold refers in H.
  rewrite Forall_forall in H. auto.
Qed.

Lemma queued_before_irrefl a : queued_before a a = false.
Proof. unfold queued_before. rewrite !Z.ltb_irrefl, andb_false_r. done. Qed.

Lemma queued_before_true a b :
  queued_before a b = true ↔ tc_created_at a < tc_created_at b ∨
    (tc_created_at a = tc_created_at b ∧ tc_title_index a < tc_title_index b).
Proof.
  unfold queued_before. by rewrite orb_true_iff, andb_true_iff, !Z.ltb_lt, Z.eqb_eq.
Qed.

Lemma select_min_queued rows r :
  select_min queued_before rows = Some r → Forall (λ x, queued_before x r = false) rows.
Proof.
  apply select_min_least.
  - intros a b c. rewrite !queued_before_true. lia.
  - apply queued_before_irrefl.
  - intros a b c. rewrite !queued_before_true. lia.
Qed.

(** The row after a claim. *)
Lemma NextTranscode_None now max s :
  store_wf s → (∃ s', NextTranscode now max s = (Ok None, s')) ↔ Forall (λ r, ¬ waiting max r) (transcodes s).
Proof.
  intros Hwf. unfold NextTranscode, tx. destruct (select_min _ _) as [r|] eqn:E.
  - split; [by intros [? ?]|]. intros Hno.
    apply select_min_elem, list_elem_of_In, filter_In in E as [Hr%list_elem_of_In Hc].
    rewrite Forall_forall in Hno. destruct (Hno r Hr). by apply (claimable_waiting max s).
  - split; [intros _|by eauto]. apply select_min_None in E. apply Forall_forall. intros r Hr Hw.
    apply (claimable_waiting max s r Hwf Hr) in Hw.
    assert (r ∈ List.filter (claimable max s) (transcodes s)) as Hin.
    { apply list_elem_of_In, filter_In. by rewrite <- list_elem_of_In. }
    rewrite E in Hin. by apply not_elem_of_nil in Hin.
Qed.

Lemma NextTranscode_never_fails now max s : match (NextTranscode now max s).1 with Err _ => False | Ok _ => True end.
Proof. unfold NextTranscode, tx. by destruct (select_min _ _). Qed.

Lemma NextTranscode_Some now max s j s' :
  store_wf s → NextTranscode now max s = (Ok (Some j), s') →
  ∃ r, r ∈ transcodes s ∧ waiting max r ∧
    tj_ID j = tc_id r ∧ tj_DiscID j = tc_disc_id r ∧ tj_TitleIndex j = tc_title_index r ∧
    tj_SourcePath j = tc_source_path r ∧ tj_Attempt j = tc_attempt r + 1 ∧
    Forall (λ x, waiting max x → queued_before x r = false) (transcodes s) ∧
    s' = set_transcodes
      (update_where (λ x, tc_id x =? tc_id r) (with_claim (tc_attempt r + 1) now) (transcodes s)) s.
Proof.
  intros Hwf. unfold NextTranscode, tx. destruct (select_min _ _) as [r|] eqn:E; [|done].
  unfold bind, exec, ret. cbn [fst snd]. intros [= <- <-]. exists r.
  pose proof (select_min_queued _ _ E) as Hmin.
  apply select_min_elem, list_elem_of_In, filter_In in E as [Hr%list_elem_of_In Hc].
  split; [done|]. split; [by apply (claimable_waiting max s)|]. do 5 (split; [done|]). split; [|done].
  rewrite Forall_forall in *. intros x Hx Hw. apply Hmin.
  apply list_elem_of_In, filter_In. rewrite <- list_elem_of_In. split; [done|].
  by apply (claimable_waiting max s).
Qed.

(** The runner claims a job whenever one is waiting within the budget, and takes the oldest one
    (the lowest title among equally old). Exactly that row changes: it is marked running with one
    more attempt. With nothing waiting the tables are untouched. *)
Theorem NextTranscode_spec now max s :
  store_wf s →
  match NextTranscode now max s with
  | (Ok None, s') => s' = s ∧ Forall (λ r, ¬ waiting max r) (transcodes s)
  | (Ok (Some j), s') => ∃ r,
      r ∈ transcodes s ∧ waiting max r ∧ tj_ID j = tc_id r ∧ tj_Attempt j = tc_attempt r + 1 ∧
      Forall (λ x, waiting max x → queued_before x r = false) (transcodes s) ∧
      select1 (λ x, tc_id x =? tc_id r) (transcodes s') = Some (with_claim (tc_attempt r + 1) now r) ∧
      (∀ i, i ≠ tc_id r →
         select1 (λ x, tc_id x =? i) (transcodes s') = select1 (λ x, tc_id x =? i) (transcodes s))
  | (Err _, _) => False
  end.
Proof.
  intros Hwf. destruct (NextTranscode now max s) as [[[j|]|e] s'] eqn:E.
  - destruct (NextTranscode_Some _ _ _ _ _ Hwf E) as (r & Hr & Hw & Hid & _ & _ & _ & Hat & Hmin & ->).
    exists r. do 5 (split; [done|]). cbn [transcodes set_transcodes]. split.
    + rewrite select1_update by done. rewrite select1_key; [|apply (wf_tc s Hwf)|done].
      cbn [fmap option_fmap option_map]. by rewrite Z.eqb_refl.
    + intros i Hi. apply select1_update_other. intros x _ Hx%Z.eqb_eq. simpl. rewrite Hx.
      split; by apply Z.eqb_neq.
  - split; [|by apply (NextTranscode_None now max s); eauto].
    unfold NextTranscode, tx in E. destruct (select_min _ _); by simplify_eq/=.
  - unfold NextTranscode, tx in E. by destruct (select_min _ _).
Qed.

(** ** The budget *)

Definition within (max : Z) (s : Store) : Prop := Forall (λ r, tc_attempt r ≤ max) (transcodes s).
Definition uses_budget (max : Z) (op : store_op) : Prop :=
  match op with OpNextTranscode _ m => m = max | _ => True end.

Lemma within_transcodes max s s' : transcodes s' = transcodes s → within max s → within max s'.
Proof. unfold within. by intros ->. Qed.

Lemma within_upsert max discID i f new s :
  (∀ r, tc_attempt r ≤ max → tc_attempt (f r) ≤ max) → (∀ id, tc_attempt (new id) ≤ max) →
  within max s → within max (upsert_transcode discID i f new s).2.
Proof.
  intros Hf Hn H. unfold upsert_transcode, bind, references, exec. destruct (_ || _); [|done].
  unfold within. cbn [snd transcodes set_transcodes]. apply Forall_upsert; auto.
Qed.

Lemma within_update max p f s :
  (∀ r, tc_attempt r ≤ max → p r = true → tc_attempt (f r) ≤ max) →
  within max s → within max (set_transcodes (update_where p f (transcodes s)) s).
Proof. intros Hf H. unfold within. cbn [transcodes set_transcodes]. by apply Forall_update_where. Qed.

Lemma tx_transcodes {A} (m : DB A) s :
  transcodes (m s).2 = transcodes s → transcodes (tx m s).2 = transcodes s.
Proof. unfold tx. by destruct (m s) as [[] ?]. Qed.

Lemma ForgetDisc_transcodes fp s : transcodes (ForgetDisc fp s).2 = transcodes s.
Proof. unfold ForgetDisc. apply tx_transcodes. by destruct (select1 _ _). Qed.

Lemma each_transcodes {A} (f : A → DB unit) l s :
  (∀ x s, transcodes (f x s).2 = transcodes s) → transcodes (each f l s).2 = transcodes s.
Proof.
  intros Hf. revert s; induction l as [|x l IH]; intros s; simpl; [done|]. unfold bind.
  specialize (Hf x s). destruct (f x s) as [[] s']; simpl in *; [by rewrite IH|done].
Qed.

Lemma SaveDisc_transcodes now d raw s : transcodes (SaveDisc now d raw s).2 = transcodes s.
Proof.
  unfold SaveDisc. apply tx_transcodes. unfold bind, save_disc_row, exec, queryRow.
  destruct (_ <$> _); [|done].
  match goal with |- context [each ?f ?l ?s0] => pose proof (each_transcodes f l s0) as H end.
  assert (∀ t s1, transcodes (save_title z t s1).2 = transcodes s1) as Ht.
  { intros t s1. unfold save_title, bind, exec, queryRow. destruct (_ <$> _); [|done].
    by rewrite each_transcodes. }
  specialize (H Ht). destruct (each _ _ _) as [[] ?]; done.
Qed.

Lemma run_op_within max op s :
  0 ≤ max → uses_budget max op → store_wf s → within max s → within max (run_op op s).
Proof.
  intros Hm Hu Hwf H. destruct op; cbn [run_op uses_budget] in *; subst;
    try (by apply (within_transcodes max s)); try (by apply within_update; [intros; simpl in *; lia|]);
    try (by apply within_upsert).
  - eapply within_transcodes; [apply SaveDisc_transcodes|done].
  - eapply within_transcodes; [apply ForgetDisc_transcodes|done].
  - unfold CreateJob, bind, references. by destruct (_ && _).
  - unfold LogEvent, bind, references. by destruct (_ && _).
  - destruct (NextTranscode now max s) as [[[j|]|e] s'] eqn:E.
    + destruct (NextTranscode_Some _ _ _ _ _ Hwf E) as (r & _ & [_ Hlt] & _ & _ & _ & _ & _ & _ & ->).
      apply within_update; [|done]. simpl. lia.
    + unfold NextTranscode, tx in E. destruct (select_min _ _); by simplify_eq/=.
    + unfold NextTranscode, tx in E. by destruct (select_min _ _).
  - unfold RecordLibraryLink, bind, references. by destruct (_ || _).
Qed.

(** With one budget in use throughout, no title's attempt count ever passes the budget,
    in any sequence of store calls from an empty database. *)
Theorem attempts_within_budget max ops :
  0 ≤ max → Forall (uses_budget max) ops → within max (foldl (flip run_op) empty_store ops).
Proof.
  intros Hm. assert (within max empty_store) as H by constructor. revert H.
  generalize empty_store_wf. generalize empty_store.
  induction ops as [|op ops IH]; intros s Hwf H Hu; simpl; [done|].
  apply Forall_cons in Hu as [Hop Hu]. apply IH; auto using run_op_wf, run_op_within.
Qed.

(** ** Giving attempts back *)

(** An interrupted encode costs nothing. Returning a claimed job to the queue leaves it waiting
    with the attempts it had before the claim; and the restart sweep leaves no job running, counts the
    ones it returned, makes each of them claimable again within a budget it had not passed, and leaves
    every other row alone. *)
Theorem interrupted_encode_is_free now max s j s1 :
  store_wf s → NextTranscode now max s = (Ok (Some j), s1) →
  (∃ r r', select1 (λ x, tc_id x =? tj_ID j) (transcodes s) = Some r ∧
     select1 (λ x, tc_id x =? tj_ID j) (transcodes (RequeueTranscode (tj_ID j) s1).2) = Some r' ∧
     waiting max r' ∧ tc_attempt r' = tc_attempt r) ∧
  (∃ s2, ReclaimRunningTranscodes s1 = (Ok (count_where is_running (transcodes s1)), s2) ∧
     0 < count_where is_running (transcodes s1) ∧
     Forall (λ r, is_running r = false) (transcodes s2) ∧
     ∀ r, r ∈ transcodes s1 →
       if is_running r then reclaimed r ∈ transcodes s2 ∧ (tc_attempt r ≤ max → waiting max (reclaimed r))
       else r ∈ transcodes s2).
Proof.
  intros Hwf E. pose proof (NextTranscode_keeps now max s Hwf) as Hwf1. rewrite E in Hwf1.
  destruct (NextTranscode_Some _ _ _ _ _ Hwf E) as (r & Hr & [Hp Hlt] & Hid & _ & _ & _ & _ & _ & Hs1).
  assert (select1 (λ x, tc_id x =? tc_id r) (transcodes s1) = Some (with_claim (tc_attempt r + 1) now r)) as Hsel.
  { rewrite Hs1. cbn [transcodes set_transcodes]. rewrite select1_update by done.
    rewrite select1_key; [|apply (wf_tc s Hwf)|done].
    cbn [fmap option_fmap option_map]. by rewrite Z.eqb_refl. }
  rewrite Hid. split.
  - exists r. eexists. split; [apply select1_key; [apply (wf_tc s Hwf)|done]|].
    unfold RequeueTranscode, update_transcode, exec. cbn [snd transcodes set_transcodes].
    rewrite select1_update, Hsel by done. cbn [fmap option_fmap option_map]. cbn [tc_id with_claim].
    rewrite Z.eqb_refl. split; [done|].
    pose proof (wf_tc_ok s Hwf) as Hok. rewrite Forall_forall in Hok. destruct (Hok r Hr).
    unfold waiting. simpl. split; [split; [done|]|]; lia.
  - eexists. split; [done|]. split; [|split].
    + apply select1_Some in Hsel as [Hin _]. unfold count_where.
      assert (with_claim (tc_attempt r + 1) now r ∈ List.filter is_running (transcodes s1)) as Hf.
      { apply list_elem_of_In, filter_In. by rewrite <- list_elem_of_In. }
      destruct (List.filter _ _); [by apply not_elem_of_nil in Hf|simpl; lia].
    + apply Forall_forall. cbn [transcodes set_transcodes]. intros x (x0 & _ & ->)%elem_of_update_where.
      by destruct (is_running x0) eqn:Ex.
    + intros x Hx. cbn [transcodes set_transcodes]. destruct (is_running x) eqn:Ex.
      * split; [apply elem_of_update_where; exists x; by rewrite Ex|]. intros Hle.
        pose proof (wf_tc_ok s1 Hwf1) as Hok. rewrite Forall_forall in Hok. destruct (Hok x Hx).
        apply bool_decide_eq_true in Ex. destruct (tok_running Ex) as [_ ?].
        unfold waiting. simpl. split; [done|]. lia.
      * apply elem_of_update_where. exists x. by rewrite Ex.
Qed.

(** ** Queuing again *)

(** Queuing a title again does not give it a fresh budget: a title already started as often as
    the budget allows becomes pending, is counted as given up on, and no later claim takes it, until
    its attempts are reset by hand. *)
Theorem requeue_exhausted_is_stuck now max discID i profile src s r :
  store_wf s → select1 (transcode_is discID i) (transcodes s) = Some r → max ≤ tc_attempt r →
  ∃ s' r', QueueTranscode now discID i profile src s = (Ok tt, s') ∧
    select1 (transcode_is discID i) (transcodes s') = Some r' ∧
    tc_id r' = tc_id r ∧ tc_state r' = TranscodePending ∧ tc_attempt r' = tc_attempt r ∧
    (∀ now' j s'', NextTranscode now' max s' = (Ok (Some j), s'') → tj_ID j ≠ tc_id r) ∧
    (∃ p f, (TranscodeQueue max s').1 = Ok (p, f) ∧ 0 < f) ∧
    (0 < max → ∃ r'', select1 (transcode_is discID i) (transcodes (ResetTranscodeAttempts (tc_id r) s').2)
       = Some r'' ∧ waiting max r'').
Proof.
  intros Hwf Hr Hmax.
  pose proof (QueueTranscode_keeps now discID i profile src s Hwf) as Hwf'.
  unfold QueueTranscode, upsert_transcode, bind, references, exec in *.
  assert (existsb (transcode_is discID i) (transcodes s) = true) as Hex.
  { apply select1_is_Some. eauto. }
  rewrite Hex in *. cbn [orb] in *. cbv beta iota in Hwf'.
  match type of Hwf' with store_wf ?x => set (s' := x) in * end.
  set (r' := mkTranscodeRow (tc_id r) (tc_disc_id r) (tc_title_index r) TranscodePending profile
            src (tc_output_path r) (tc_size_bytes r) (tc_attempt r) (tc_hardware r) now None None None).
  assert (select1 (transcode_is discID i) (transcodes s') = Some r') as Hr'.
  { unfold s'. cbn [transcodes set_transcodes]. unfold upsert. rewrite Hex, select1_update_same, Hr by done. done. }
  pose proof (select1_Some _ _ _ Hr') as [Hin' _].
  exists s', r'. split; [done|]. split; [done|]. do 3 (split; [done|]). split; [|split].
  - intros now' j s'' E. destruct (NextTranscode_Some _ _ _ _ _ Hwf' E) as (x & Hx & [_ Hlt] & -> & _).
    intros Heq. assert (x = r') as ->; [|simpl in Hlt; lia].
    eapply (key_inj tc_id); [apply (wf_tc s' Hwf')|done..].
  - eexists _, _. split; [done|]. unfold count_where.
    set (q := λ r0 : transcodeRow, _ || _).
    assert (r' ∈ List.filter q (transcodes s')) as Hf.
    { apply list_elem_of_In, filter_In. rewrite <- list_elem_of_In. split; [done|]. unfold q. simpl.
      by apply Z.leb_le. }
    destruct (List.filter _ _); [by apply not_elem_of_nil in Hf|simpl; lia].
  - intros Hpos. eexists. unfold ResetTranscodeAttempts, update_transcode, exec.
    cbn [snd transcodes set_transcodes]. rewrite select1_update, Hr' by done.
    cbn [fmap option_fmap option_map]. change (tc_id r') with (tc_id r). rewrite Z.eqb_refl. split; [done|].
    by split.
Qed.

(** ** Reconciling with the library *)

Definition unfiled_in (s : Store) (u : Unfiled) : Prop :=
  (∃ r, r ∈ transcodes s ∧ tc_state r = TranscodeComplete ∧ tc_disc_id r = u_DiscID u ∧
        tc_title_index r = u_TitleIndex u ∧ tc_output_path r = Some (u_OutputPath u)) ∧
  Forall (λ l, ¬ (l_disc_id l = u_DiscID u ∧ l_title_index l = u_TitleIndex u)) (library_links s).

Lemma is_filed_false s r :
  is_filed s r = false ↔
  Forall (λ l, ¬ (l_disc_id l = tc_disc_id r ∧ l_title_index l = tc_title_index r)) (library_links s).
Proof.
  unfold is_filed. rewrite existsb_false_Forall, !Forall_forall. unfold link_is.
  setoid_rewrite andb_false_iff. setoid_rewrite Z.eqb_neq. split; intros H l Hl; specialize (H l Hl); lia.
Qed.

Lemma elem_of_UnfiledTranscodes s u us :
  (UnfiledTranscodes s).1 = Ok us → u ∈ us ↔ unfiled_in s u.
Proof.
  unfold UnfiledTranscodes, query. cbn [fst]. intros [= <-].
  rewrite merge_sort_Permutation, list_elem_of_omap. unfold unfiled_of, unfiled_in. split.
  - intros (r & Hr & H). destruct (bool_decide _ && _) eqn:E; [|done]. breflect.
    apply bool_decide_eq_true in H0. apply is_filed_false in H1.
    apply fmap_Some in H as (p & Hp & ->). simpl. split; [|done]. by exists r.
  - intros [(r & Hr & Hc & Hd & Hi & Ho) Hl]. exists r. split; [done|].
    rewrite bool_decide_true by done.
    assert (is_filed s r = false) as -> by (apply is_filed_false; by rewrite Hd, Hi).
    simpl. rewrite Ho. simpl. rewrite Hd, Hi. by destruct u.
Qed.

Lemma RecordLibraryLink_links now discID i path s u :
  has_disc discID s = true →
  let s' := (RecordLibraryLink now discID i path s).2 in
  transcodes s' = transcodes s ∧
  (Forall (λ l, ¬ (l_disc_id l = u_DiscID u ∧ l_title_index l = u_TitleIndex u)) (library_links s') ↔
   Forall (λ l, ¬ (l_disc_id l = u_DiscID u ∧ l_title_index l = u_TitleIndex u)) (library_links s) ∧
   ¬ (u_DiscID u = discID ∧ u_TitleIndex u = i)).
Proof.
  intros Hd. unfold RecordLibraryLink, bind, references, exec. rewrite Hd, orb_true_r.
  cbn [snd transcodes library_links set_links]. split; [done|].
  unfold upsert. destruct (existsb _ _) eqn:E.
  - unfold update_where. rewrite Forall_map. split.
    + intros H. split.
      * eapply Forall_impl; [exact H|]. intros l. simpl. by case_match.
      * apply existsb_true_elem in E as (l & Hl & Hp). unfold link_is in Hp. breflect.
        rewrite Forall_forall in H. specialize (H l Hl). simpl in H.
        unfold link_is in H. case_match; simpl in H; lia.
    + intros [H _]. eapply Forall_impl; [exact H|]. intros l. simpl. by case_match.
  - rewrite Forall_app, Forall_singleton. simpl. split; intros [? H]; (split; [done|]); lia.
Qed.

(** The reconciliation list holds exactly the finished transcodes with no library link, and
    recording a link takes that title and no other off the list: filing is never repeated and
    nothing unfiled is lost. *)
Theorem UnfiledTranscodes_reconciles now discID i path s us us' :
  has_disc discID s = true →
  (UnfiledTranscodes s).1 = Ok us →
  (UnfiledTranscodes (RecordLibraryLink now discID i path s).2).1 = Ok us' →
  (∀ u, u ∈ us ↔ unfiled_in s u) ∧
  (∀ u, u ∈ us' ↔ u ∈ us ∧ ¬ (u_DiscID u = discID ∧ u_TitleIndex u = i)).
Proof.
  intros Hd E E'. split; intros u.
  - by apply elem_of_UnfiledTranscodes.
  - rewrite (elem_of_UnfiledTranscodes _ u us' E'), (elem_of_UnfiledTranscodes _ u us E).
    destruct (RecordLibraryLink_links now discID i path s u Hd) as [Ht Hl].
    unfold unfiled_in. rewrite Ht, Hl. tauto.
Qed.

(** Queuing a title again while it is being encoded loses it: when the encode of the old file ends, the
    row is complete under the new file's path, which nobody has encoded, and no claim takes it. *)
Theorem requeued_during_encode_is_lost now now' discID i profile src out size hw s r :
  store_wf s → select1 (transcode_is discID i) (transcodes s) = Some r → tc_state r = TranscodeRunning →
  let s1 := (QueueTranscode now discID i profile src s).2 in
  let s2 := (FinishTranscode now' (tc_id r) out size hw s1).2 in
  ∃ r', select1 (transcode_is discID i) (transcodes s2) = Some r' ∧ tc_id r' = tc_id r ∧
    tc_state r' = TranscodeComplete ∧ tc_source_path r' = src ∧ tc_output_path r' = Some out ∧
    ∀ now'' max j s3, NextTranscode now'' max s2 = (Ok (Some j), s3) → tj_ID j ≠ tc_id r.
Proof.
  intros Hwf Hr _ s1 s2. assert (store_wf s2) as Hwf2 by (apply keeps_snd; [auto with hellbox|]; apply keeps_snd; auto with hellbox).
  assert (∃ r1, select1 (transcode_is discID i) (transcodes s1) = Some r1 ∧ tc_id r1 = tc_id r ∧ tc_source_path r1 = src)
    as (r1 & Hr1 & Hid & Hsrc).
  { unfold s1, QueueTranscode, upsert_transcode, bind, references, exec.
    assert (existsb (transcode_is discID i) (transcodes s) = true) as -> by (apply select1_is_Some; eauto).
    cbn [orb snd transcodes set_transcodes]. rewrite select1_upsert_same by (try done; unfold transcode_is; cbn; by rewrite !Z.eqb_refl).
    rewrite Hr. by eexists. }
  assert (select1 (transcode_is discID i) (transcodes s2) = Some (if tc_id r1 =? tc_id r then
    mkTranscodeRow (tc_id r1) (tc_disc_id r1) (tc_title_index r1) TranscodeComplete (tc_profile r1)
      (tc_source_path r1) (Some out) size (tc_attempt r1) hw (tc_created_at r1) (tc_started_at r1) (Some now') None else r1)) as Hr2.
  { unfold s2, FinishTranscode, update_transcode, exec. cbn [snd transcodes set_transcodes]. by rewrite select1_update, Hr1. }
  rewrite (proj2 (Z.eqb_eq _ _) Hid) in Hr2. eexists. split; [exact Hr2|]. do 4 (split; [done|]).
  intros now'' max j s3 E. destruct (NextTranscode_Some _ _ _ _ _ Hwf2 E) as (x & Hx & [Hp _] & -> & _).
  intros Heq. apply select1_Some in Hr2 as [Hin _].
  eapply (key_inj tc_id) in Hin; [|apply (wf_tc s2 Hwf2)|exact Hx|simpl; congruence]. subst x. discriminate Hp.
Qed.

(** ** Worked queues *)

Definition disc7 : Disc := mkDisc "f7" "HEAT" "" TypeDVD 1 None "" "" "" [].
Definition queue_ops : list store_op :=
  [OpSaveDisc 1 disc7 ""; OpQueueTranscode 5 1 3 "h265" "/r/t03.mkv"; OpQueueTranscode 5 1 2 "h265" "/r/t02.mkv"].
Definition queued : Store := foldl (flip run_op) empty_store queue_ops.
(** Claimed, finished and queued again, twice over. *)
Definition twice_done : Store :=
  foldl (flip run_op) empty_store (queue_ops ++
    [OpNextTranscode 6 2; OpFinishTranscode 7 2 "/o/t02.mkv" 9 true; OpQueueTranscode 8 1 2 "h265" "/r/t02.mkv";
     OpFinishTranscode 8 1 "/o/t03.mkv" 9 true;
     OpNextTranscode 9 2; OpFinishTranscode 10 2 "/o/t02.mkv" 9 true]).

Lemma queued_wf : store_wf queued.
Proof. apply run_ops_wf, empty_store_wf. Qed.
Lemma twice_done_wf : store_wf twice_done.
Proof. apply run_ops_wf, empty_store_wf. Qed.

Lemma NextTranscode_spec_witness :
  (λ o, match o with Ok (Some j) => Some (tj_TitleIndex j, tj_Attempt j) | _ => None end)
    (NextTranscode 6 2 queued).1 = Some (2, 1) ∧
  match NextTranscode 6 2 queued with
  | (Ok (Some j), s') => ∃ r, r ∈ transcodes queued ∧ tj_ID j = tc_id r
  | _ => False
  end.
Proof.
  split; [vm_compute; reflexivity|].
  pose proof (NextTranscode_spec 6 2 queued queued_wf) as H.
  destruct (NextTranscode 6 2 queued) as [[[j|]|e] s'] eqn:E; [|vm_compute in E; discriminate|done].
  destruct H as (r & Hr & _ & Hid & _). by exists r.
Defined.

Lemma attempts_within_budget_witness : within 2 twice_done ∧ map tc_attempt (transcodes twice_done) = [0; 2].
Proof.
  split; [|vm_compute; reflexivity]. apply (attempts_within_budget 2); [lia|]. repeat constructor.
Defined.

Lemma interrupted_encode_is_free_witness :
  ∃ j s1, NextTranscode 6 2 queued = (Ok (Some j), s1) ∧
    0 < count_where is_running (transcodes s1).
Proof.
  destruct (NextTranscode 6 2 queued) as [[[j|]|e] s1] eqn:E; [|vm_compute in E; discriminate..].
  exists j, s1. split; [done|].
  destruct (interrupted_encode_is_free 6 2 queued j s1 queued_wf E) as [_ (s2 & _ & H & _)]. exact H.
Defined.

Lemma requeue_exhausted_is_stuck_witness :
  ∃ r s', select1 (transcode_is 1 2) (transcodes twice_done) = Some r ∧
    tc_state r = TranscodeComplete ∧
    QueueTranscode 11 1 2 "h265" "/r/t02.mkv" twice_done = (Ok tt, s') ∧
    (∀ now' j s'', NextTranscode now' 2 s' = (Ok (Some j), s'') → tj_ID j ≠ tc_id r).
Proof.
  destruct (select1 (transcode_is 1 2) (transcodes twice_done)) as [r|] eqn:E; [|vm_compute in E; discriminate].
  assert (2 ≤ tc_attempt r ∧ tc_state r = TranscodeComplete) as [Hr Hc].
  { vm_compute in E. simplify_eq. vm_compute. done. }
  destruct (requeue_exhausted_is_stuck 11 2 1 2 "h265" "/r/t02.mkv" twice_done r twice_done_wf E Hr)
    as (s' & r' & Hq & _ & _ & _ & _ & Hno & _).
  exists r, s'. split; [reflexivity|]. split; [exact Hc|]. split; [exact Hq|exact Hno].
Defined.

Lemma UnfiledTranscodes_reconciles_witness :
  ∃ us us', (UnfiledTranscodes twice_done).1 = Ok us ∧ length us = 2%nat ∧
    (UnfiledTranscodes (RecordLibraryLink 12 1 3 "/lib/Heat.mkv" twice_done).2).1 = Ok us' ∧
    ∀ u, u ∈ us' ↔ u ∈ us ∧ ¬ (u_DiscID u = 1 ∧ u_TitleIndex u = 3).
Proof.
  eexists _, _. split; [reflexivity|]. split; [vm_compute; reflexivity|]. split; [reflexivity|].
  intros u. refine (proj2 (UnfiledTranscodes_reconciles 12 1 3 "/lib/Heat.mkv" twice_done _ _ _ _ _) u);
    [vm_compute; reflexivity|reflexivity..].
Defined.

(** Title 2 is being encoded from t02.mkv when it is queued again from another rip. *)
Lemma requeued_during_encode_is_lost_witness :
  let s := (NextTranscode 6 2 queued).2 in
  let s2 := (FinishTranscode 9 2 "/o/t02.mkv" 9 true (QueueTranscode 7 1 2 "h265" "/r2/t02.mkv" s).2).2 in
  (∃ r', select1 (transcode_is 1 2) (transcodes s2) = Some r' ∧ tc_state r' = TranscodeComplete ∧
    tc_source_path r' = "/r2/t02.mkv") ∧ ∀ max now j s3, NextTranscode now max s2 = (Ok (Some j), s3) → tj_ID j ≠ 2.
Proof.
  cbv zeta. set (s := (NextTranscode 6 2 queued).2).
  destruct (select1 (transcode_is 1 2) (transcodes s)) as [r|] eqn:E; [|vm_compute in E; discriminate].
  assert (tc_id r = 2 ∧ tc_state r = TranscodeRunning) as [Hid Hst] by (vm_compute in E; simplify_eq; done).
  destruct (requeued_during_encode_is_lost 7 9 1 2 "h265" "/r2/t02.mkv" "/o/t02.mkv" 9 true s r) as (r' & H1 & _ & H2 & H3 & _ & H4).
  - apply keeps_snd; [auto with hellbox|exact queued_wf].
  - exact E.
  - exact Hst.
  - rewrite Hid in *. split; [by exists r'|]. intros max now j s3 H. exact (H4 now max j s3 H).
Defined.
