(* ===== verification/Background.v ===== *)
(** * What the rest of the daemon writes while a disc is being processed

    The workers, the server (server.go, http.go), the queue runner
    (transcode.go, library.go), the discovery of drives and the event log
    (daemon.go) share one database, the methods of internal/store called by
    several goroutines.  A worker processes its disc while it holds the shared
    slot; until it gives the slot back, no other worker makes the writes of a
    disc.  [background] are the calls the others may make in that time, and
    the lemmas say what these leave alone. *)

From S2P Require Import Prelude GoBase Table Disc Store Queue StoreWf StoreDiscs.
#[local] Open Scope Z_scope.

(** The calls of daemon.go, server.go, http.go, transcode.go and library.go.  The others are a worker's
    own, made while it holds the slot, or are made at start-up. *)
Definition background (op : store_op) : bool :=
  match op with
  | OpUpsertDrive _ _ _ _ _ | OpForgetDisc _ | OpLogEvent _ _ _ _ _ | OpQueueTranscode _ _ _ _ _
  | OpNextTranscode _ _ | OpFinishTranscode _ _ _ _ _ | OpFailTranscode _ _ _ | OpRequeueTranscode _
  | OpRecordLibraryLink _ _ _ _ | OpResetTranscodeAttempts _ => true
  | _ => false
  end.
Definition is_forget (op : store_op) : bool := match op with OpForgetDisc _ => true | _ => false end.

(** The rows of the rips. *)
Record same_rips (s s' : Store) : Prop := {
  sr_discs : discs s' = discs s;
  sr_titles : titles s' = titles s;
  sr_jobs : jobs s' = jobs s;
}.
#[global] Instance same_rips_preorder : PreOrder same_rips.
Proof. split; [by split|]. intros s1 s2 s3 [] []. split; congruence. Qed.

Lemma run_ops_ind (P : store_op → Prop) (K : Store → Prop) ops s :
  (∀ op s, P op → K s → K (run_op op s)) → Forall P ops → K s → K (foldl (flip run_op) s ops).
Proof. intros Hop Hops. revert s. induction Hops as [|op ops Hp _ IH]; intros s Hs; [done|]. cbn. apply IH. by apply Hop. Qed.

(** A background write other than forgetting a disc leaves the rows of the rips alone. *)
Lemma background_rips op s : background op = true → is_forget op = false → same_rips s (run_op op s).
Proof.
  destruct op; try done; intros _ _; cbn [run_op].
  all: unfold UpsertDrive, LogEvent, QueueTranscode, upsert_transcode, FinishTranscode, FailTranscode, RequeueTranscode,
    update_transcode, RecordLibraryLink, ResetTranscodeAttempts, NextTranscode, tx, bind, references, queryRow, exec, query, ret.
  all: by repeat (cbn; case_match; simplify_eq).
Qed.

(** Forgetting a disc changes its own row of the discs, and nothing else. *)
Lemma ForgetDisc_cases fp s :
  (select1 (fp_is fp) (discs s) = None ∧ (ForgetDisc fp s).2 = s) ∨
  ∃ d, select1 (fp_is fp) (discs s) = Some d ∧
    (ForgetDisc fp s).2 = set_discs (update_where (λ r, di_id r =? di_id d)
      (λ r, with_forgotten (coalesce (max_job_id (di_id d) s) 0) (with_rip_dir None r)) (discs s)) s.
Proof.
  destruct (select1 (fp_is fp) (discs s)) as [d|] eqn:E.
  - right. exists d. split; [done|]. by rewrite (ForgetDisc_eq fp s d E).
  - left. split; [done|]. unfold ForgetDisc, tx. fold (fp_is fp). by rewrite E.
Qed.

Lemma background_forget op : background op = true → is_forget op = true → ∃ fp, op = OpForgetDisc fp.
Proof. destruct op; try done. eauto. Qed.
Ltac background_cases op H :=
  let Hf := fresh "Hf" in
  destruct (is_forget op) eqn:Hf;
  [destruct (background_forget op H Hf) as [? ->]|pose proof (λ s, background_rips op s H Hf)].

(** A background write changes no title and no job. *)
Lemma background_titles op s : background op = true → titles (run_op op s) = titles s.
Proof.
  intros H. background_cases op H; [|by apply sr_titles]. cbn [run_op].
  by destruct (ForgetDisc_cases x s) as [[_ ->]|(d & _ & ->)].
Qed.
Lemma background_jobs op s : background op = true → jobs (run_op op s) = jobs s.
Proof.
  intros H. background_cases op H; [|by apply sr_jobs]. cbn [run_op].
  by destruct (ForgetDisc_cases x s) as [[_ ->]|(d & _ & ->)].
Qed.

(** It gives no disc an attempt more: forgetting a disc takes its attempts away. *)
Lemma background_counts op s i r : background op = true → store_wf s → r ∈ jobs s →
  attempt_counts i (forgotten_after i (run_op op s)) r = true → attempt_counts i (forgotten_after i s) r = true.
Proof.
  intros H Hwf Hr. background_cases op H; [|by unfold forgotten_after; rewrite (sr_discs _ _ (H0 s))].
  cbn [run_op]. destruct (ForgetDisc_cases x s) as [[_ ->]|(d & Hd & ->)]; [done|].
  unfold forgotten_after at 1. cbn [discs set_discs]. destruct (decide (i = di_id d)) as [->|Hi].
  - rewrite (select1_update_same (λ y, di_id y =? di_id d)) by done. pose proof Hd as [Hin _]%select1_Some.
    rewrite (select1_key di_id (discs s) d) by (try apply (wf_discs s Hwf); done). cbn.
    unfold attempt_counts. intros Hc. breflect. exfalso.
    pose proof (max_job_id_max (di_id d) s r Hr ltac:(done)). lia.
  - rewrite select1_update_other; [done|]. intros y _ E%Z.eqb_eq. simpl. rewrite E. split; by apply Z.eqb_neq.
Qed.

(** It loses no disc, and un-rips none but the one forgotten. *)
Lemma background_known op s fp r : background op = true → select1 (fp_is fp) (discs s) = Some r →
  ∃ r', select1 (fp_is fp) (discs (run_op op s)) = Some r' ∧ di_id r' = di_id r.
Proof.
  intros H Hr. background_cases op H; [|rewrite (sr_discs _ _ (H0 s)); eauto]. cbn [run_op].
  destruct (ForgetDisc_cases x s) as [[_ ->]|(d & _ & ->)]; [eauto|]. cbn [discs set_discs].
  rewrite select1_update, Hr by done. cbn. eexists. split; [done|]. by case_match.
Qed.
Lemma background_FindDisc op s fp : background op = true → op ≠ OpForgetDisc fp → store_wf s →
  (FindDisc fp (run_op op s)).1 = (FindDisc fp s).1.
Proof.
  intros H Hne Hwf. background_cases op H; [|by apply FindDisc_discs, sr_discs]. cbn [run_op].
  pose proof (ForgetDisc_spec x s Hwf) as Hs. destruct (ForgetDisc_cases x s) as [[_ ->]|(d & Hd & _)]; [done|].
  rewrite Hd in Hs. destruct Hs as (s' & rec & -> & _ & _ & _ & _ & _ & _ & Ho). cbn. apply Ho. congruence.
Qed.

Lemma count_where_le {R} (p q : R → bool) rows :
  (∀ r, r ∈ rows → p r = true → q r = true) → count_where p rows ≤ count_where q rows.
Proof.
  unfold count_where. induction rows as [|r rows IH]; intros H; simpl; [lia|].
  assert (∀ x, x ∈ rows → p x = true → q x = true) as Ht by (intros; apply H; [by right|done]).
  specialize (IH Ht). pose proof (H r ltac:(by left)) as Hr. destruct (p r); [rewrite Hr by done|destruct (q r)]; simpl; lia.
Qed.

(** So no count of a disc's attempts grows. *)
Lemma background_attempts op s i (q : jobRow → bool) : background op = true → store_wf s →
  count_where (λ r, attempt_counts i (forgotten_after i (run_op op s)) r && q r) (jobs (run_op op s)) ≤
  count_where (λ r, attempt_counts i (forgotten_after i s) r && q r) (jobs s).
Proof.
  intros H Hwf. rewrite (background_jobs _ _ H). apply count_where_le. intros r Hr Hc. breflect.
  apply andb_true_iff. split; [|done]. by eapply background_counts.
Qed.

(** ** While a title is being encoded *)

(** The calls that leave the queue and the library links alone: all those that processing a DVD makes, and
    those of the discovery of drives, the log and of forgetting a disc. *)
Definition foreign (op : store_op) : bool :=
  match op with
  | OpUpsertDrive _ _ _ _ _ | OpSetReadPath _ _ _ | OpSaveDisc _ _ _ | OpSetDiscRipDir _ _ | OpForgetDisc _
  | OpMarkTitleRipped _ _ _ _ | OpCreateJob _ _ _ _ | OpSetJobState _ _ _ _ | OpSetJobProgress _ _ _
  | OpReclaimUnfinishedJobs _ | OpLogEvent _ _ _ _ _ => true
  | _ => false
  end.

Lemma foreign_queue op s : foreign op = true →
  transcodes (run_op op s) = transcodes s ∧ library_links (run_op op s) = library_links s.
Proof.
  intros H. destruct op; try discriminate H; clear H.
  3: { cbn [run_op]. match goal with |- context [SaveDisc ?n ?d ?r s] => destruct (SaveDisc_eq n d r s) as (s' & -> & _ & G) end.
       split; [apply (tg_transcodes _ _ G)|apply (tg_links _ _ G)]. }
  4: { cbn [run_op]. by destruct (ForgetDisc_cases fingerprint s) as [[_ ->]|(d & _ & ->)]. }
  all: cbn [run_op]; unfold UpsertDrive, LogEvent, SetReadPath, SetDiscRipDir, MarkTitleRipped, CreateJob, SetJobState,
    SetJobProgress, ReclaimUnfinishedJobs, bind, references, queryRow, exec, query, ret.
  all: by repeat (cbn; case_match; simplify_eq).
Qed.
