(* ===== verification/Verify.v ===== *)
(** * Checking a ripped title (internal/verify/verify.go, internal/daemon/verify.go)

    The file system and ffprobe are arguments: [stat] gives a file's size and
    first bytes, [ffprobe] the parsed report.  Durations are compared exactly:
    the code compares whole seconds with [want * 0.02] in float64, and for a
    whole-second difference both tests agree, since the rounding error of the
    product is far below the 1/50 s that separates it from a whole number, and
    a whole product is rounded to itself.  An operating system error's own text
    is left out of the messages. *)

From S2P Require Import Prelude GoText.

Definition ebmlMagic : list Z := [0x1A; 0x45; 0xDF; 0xA3].

(** What os.Stat, os.Open and one Read of four bytes see of a file. *)
Record OutFile := mkFile {
  f_size : Z;
  f_opens : bool;
  f_head : list Z;
}.

(** make([]byte, 4) after a Read that returned [bytes]. *)
Definition read_header (bytes : list Z) : list Z := take 4 (take 4 bytes ++ [0; 0; 0; 0]).

(** ** Rendering *)

(** fmt's [%.1f] of the quotient n/d of a non-negative by a positive integer:
    to the nearest tenth, ties to even. *)
Definition tenths (n d : Z) : Z :=
  let q := 10 * n / d in
  let r := 10 * n - q * d in
  if (2 * r <? d) || ((2 * r =? d) && Z.even q) then q else q + 1.
Definition show_tenths (t : Z) : string := itoa (t / 10) +:+ "." +:+ itoa (t mod 10).

(** The unit a byte count is shown in: how often it can be divided by 1024. *)
Fixpoint unit_exp (fuel : nat) (v : Z) : nat :=
  match fuel with
  | O => O
  | S fuel' => if v <? 1024 then O else S (unit_exp fuel' (v / 1024))
  end.
Definition unit_letter (e : nat) : string := default "E" (["K"; "M"; "G"; "T"; "P"] !! e).
(** humanBytes of both packages, for counts below 2^60: 5 divisions are enough. *)
Definition humanBytes (n : Z) : string :=
  if n <? 1024 then itoa n +:+ " B"
  else
    let e := unit_exp 5 (n / 1024) in
    show_tenths (tenths n (1024 ^ (Z.of_nat e + 1))) +:+ " " +:+ unit_letter e +:+ "B".

Definition hms (secs : Z) : string :=
  let h := Z.quot secs 3600 in
  let m := Z.quot (Z.rem secs 3600) 60 in
  let s := Z.rem secs 60 in
  if 0 <? h then itoa h +:+ ":" +:+ itoa02 m +:+ ":" +:+ itoa02 s
  else itoa m +:+ ":" +:+ itoa02 s.

(** ** The worker's shallow check *)

Definition verifyOutput (file : option OutFile) (minBytes : Z) : outcome string unit :=
  match file with
  | None => Err "output missing"
  | Some f =>
      if f_size f <? minBytes then
        Err ("output is " +:+ humanBytes (f_size f) +:+ ", below the " +:+ humanBytes minBytes +:+
             " floor for a real title")
      else if negb (f_opens f) then Err "open output"
      else if bool_decide (f_head f = []) then Err "read output header: EOF"
      else if bool_decide (read_header (f_head f) = ebmlMagic) then Ok tt
      else Err "output is not a Matroska file (bad EBML header)"
  end.

(** ** The verifier *)

Definition tolerance_num : Z := 2.
Definition tolerance_den : Z := 100.
Definition MinToleranceSecs : Z := 5.

Record Expectation := mkExpectation {
  x_DurationSecs : Z;
  x_Video : Z;
  x_Audio : Z;
  x_Subtitles : Z;
  x_MinBytes : Z;
}.

Record Result := mkResult {
  r_OK : bool;
  r_Problems : list string;
  r_DurationSecs : Z;
  r_SizeBytes : Z;
}.

Definition Error (r : Result) : string := join "; " (r_Problems r).

Record probeOut := mkProbe {
  p_Duration : string;
  p_Streams : list string;
}.

Section verifier.
Context {U : Unicode}.

(** int(f + 0.5) of a positive parse, 0 otherwise. *)
Definition durationSecs (p : probeOut) : Z :=
  match ParseDecimal (TrimSpace (p_Duration p)) with
  | Some (n, k) => (2 * n + 10 ^ Z.of_nat k) / (2 * 10 ^ Z.of_nat k)
  | None => 0
  end.

Definition counts (p : probeOut) (kind : string) : Z :=
  Z.of_nat (length (List.filter (λ k, bool_decide (k = kind)) (p_Streams p))).

Definition within_tolerance (got want : Z) : bool :=
  let diff := Z.abs (got - want) in
  (tolerance_den * diff <=? want * tolerance_num) || (diff <=? MinToleranceSecs).

(** The complaint about a duration, or none. *)
Definition durationProblem (got want : Z) : option string :=
  if within_tolerance got want then None
  else
    let pct := show_tenths (tenths (100 * Z.abs (got - want)) want) in
    if got <? want then
      Some ("output runs " +:+ hms got +:+ " but the disc said " +:+ hms want +:+
            " — short by " +:+ pct +:+ "%, the rip is truncated")
    else
      Some ("output runs " +:+ hms got +:+ " but the disc said " +:+ hms want +:+
            " — longer by " +:+ pct +:+ "%").

Definition checkMagic (path : string) (f : OutFile) : option string :=
  if negb (f_opens f) then Some ("open " +:+ path)
  else if bool_decide (f_head f = []) then Some (path +:+ " is unreadable: EOF")
  else if bool_decide (read_header (f_head f) = ebmlMagic) then None
  else Some (path +:+ " does not begin with Matroska's magic bytes").

Definition stream_problem (kind : string) (want got : Z) : list string :=
  if (0 <? want) && (got <? want) then
    ["expected " +:+ itoa want +:+ " " +:+ kind +:+ " stream(s), found " +:+ itoa got]
  else [].

Definition option_list {A} (o : option A) : list A := match o with Some a => [a] | None => [] end.

(** Verifier.Title, with what stat and ffprobe say of the path. *)
Definition verify_Title (path : string) (file : option OutFile) (ffprobe : outcome string probeOut)
    (want : Expectation) : Result :=
  match file with
  | None => mkResult false ["no output file at " +:+ path] 0 0
  | Some f =>
      if (0 <? x_MinBytes want) && (f_size f <? x_MinBytes want) then
        mkResult false
          ["output is " +:+ humanBytes (f_size f) +:+ ", below the " +:+ humanBytes (x_MinBytes want) +:+
           " floor — a failed rip rather than a short title"] 0 (f_size f)
      else match checkMagic path f with
      | Some e => mkResult false [e] 0 (f_size f)
      | None =>
          match ffprobe with
          | Err e => mkResult false ["could not probe the output: " +:+ e] 0 (f_size f)
          | Ok p =>
              let secs := durationSecs p in
              let problems :=
                (if 0 <? x_DurationSecs want then option_list (durationProblem secs (x_DurationSecs want)) else []) ++
                stream_problem "video" (x_Video want) (counts p "video") ++
                stream_problem "audio" (x_Audio want) (counts p "audio") ++
                stream_problem "subtitle" (x_Subtitles want) (counts p "subtitle") in
              mkResult (bool_decide (problems = [])) problems secs (f_size f)
          end
      end
  end.

(** Verifier.Disc: the whole disc judged on its running time. *)
Definition verify_Disc (results : list Result) (wantTotalSecs : Z) : list string :=
  let gotTotal := sumZ (map r_DurationSecs results) in
  if 0 <? wantTotalSecs then
    (λ d, "across the whole disc, " +:+ d) <$> option_list (durationProblem gotTotal wantTotalSecs)
  else [].
End verifier.

(** ** Examples *)

Example human_512 : humanBytes 512 = "512 B". Proof. reflexivity. Qed.
Example human_1536 : humanBytes 1536 = "1.5 KB". Proof. reflexivity. Qed.
Example human_dvd : humanBytes 4700000000 = "4.4 GB". Proof. reflexivity. Qed.
Example hms_film : hms 7083 = "1:58:03". Proof. reflexivity. Qed.
Example secs_film : @durationSecs caseless (mkProbe " 5400.500000" []) = 5401. Proof. reflexivity. Qed.
Example secs_na : @durationSecs caseless (mkProbe "N/A" []) = 0. Proof. reflexivity. Qed.

(** ** What a clean verdict means *)

Lemma durationProblem_None got want :
  durationProblem got want = None ↔ within_tolerance got want = true.
Proof. unfold durationProblem. destruct (within_tolerance got want); [done|]. by case_match. Qed.

Lemma option_list_nil {A} (o : option A) : option_list o = [] ↔ o = None.
Proof. by destruct o. Qed.

Lemma stream_problem_nil kind want got : stream_problem kind want got = [] ↔ (want ≤ 0 ∨ want ≤ got).
Proof.
  unfold stream_problem. destruct (Z.ltb_spec 0 want), (Z.ltb_spec got want); simpl; split; try done; lia.
Qed.

Lemma checkMagic_None path f :
  checkMagic path f = None ↔ f_opens f = true ∧ f_head f ≠ [] ∧ read_header (f_head f) = ebmlMagic.
Proof.
  unfold checkMagic. destruct (f_opens f); simpl; [|naive_solver].
  repeat case_bool_decide; naive_solver.
Qed.

Section verdicts.
Context {U : Unicode}.

(** The verifier passes a title exactly when the file is there, is not below the size floor,
    opens as Matroska, could be probed, runs as long as the disc said to within two per cent or five
    seconds, and has at least the streams asked for. *)
Theorem verify_Title_iff path file ffprobe want :
  r_OK (verify_Title path file ffprobe want) = true ↔
  ∃ f p, file = Some f ∧ ffprobe = Ok p ∧
    (x_MinBytes want ≤ 0 ∨ x_MinBytes want ≤ f_size f) ∧
    (f_opens f = true ∧ f_head f ≠ [] ∧ read_header (f_head f) = ebmlMagic) ∧
    (x_DurationSecs want ≤ 0 ∨ 50 * Z.abs (durationSecs p - x_DurationSecs want) ≤ x_DurationSecs want ∨
     Z.abs (durationSecs p - x_DurationSecs want) ≤ 5) ∧
    (x_Video want ≤ 0 ∨ x_Video want ≤ counts p "video") ∧
    (x_Audio want ≤ 0 ∨ x_Audio want ≤ counts p "audio") ∧
    (x_Subtitles want ≤ 0 ∨ x_Subtitles want ≤ counts p "subtitle").
Proof.
  unfold verify_Title. destruct file as [f|]; [|split; [done|by intros (? & ? & ? & _)]].
  destruct ((0 <? x_MinBytes want) && (f_size f <? x_MinBytes want)) eqn:Hsz.
  { split; [done|]. intros (f' & p & [= ->] & _ & Hm & _). breflect. lia. }
  assert (x_MinBytes want ≤ 0 ∨ x_MinBytes want ≤ f_size f) as Hmin.
  { apply andb_false_iff in Hsz. rewrite !Z.ltb_ge in Hsz. lia. }
  destruct (checkMagic path f) as [e|] eqn:Hmg.
  { split; [done|]. intros (f' & p & [= ->] & _ & _ & Hm & _). apply (checkMagic_None path) in Hm. congruence. }
  apply checkMagic_None in Hmg. destruct ffprobe as [p|e]; [|split; [done|by intros (? & ? & _ & ? & _)]].
  cbn [r_OK]. rewrite bool_decide_eq_true, !app_nil, !stream_problem_nil.
  assert ((if 0 <? x_DurationSecs want then option_list (durationProblem (durationSecs p) (x_DurationSecs want))
           else []) = [] ↔
    (x_DurationSecs want ≤ 0 ∨ 50 * Z.abs (durationSecs p - x_DurationSecs want) ≤ x_DurationSecs want ∨
     Z.abs (durationSecs p - x_DurationSecs want) ≤ 5)) as ->.
  { destruct (Z.ltb_spec 0 (x_DurationSecs want)); [|split; [lia|done]].
    rewrite option_list_nil, durationProblem_None. unfold within_tolerance, tolerance_den, tolerance_num, MinToleranceSecs.
    rewrite orb_true_iff, !Z.leb_le. lia. }
  split.
  - intros H. exists f, p. tauto.
  - intros (f' & p' & [= <-] & [= <-] & H). tauto.
Qed.

(** No truncated title passes: a title verified clean against a positive runtime misses less
    than two per cent of it, or at most five seconds; a title short by a quarter of a runtime
    of more than twenty seconds is always refused. *)
Theorem verify_Title_catches_truncation path file p want :
  20 < x_DurationSecs want → 4 * durationSecs p ≤ 3 * x_DurationSecs want →
  r_OK (verify_Title path file (Ok p) want) = false.
Proof.
  intros Hw Hs. destruct (r_OK _) eqn:E; [|done].
  apply verify_Title_iff in E as (f & p' & _ & [= <-] & _ & _ & Hd & _). lia.
Qed.
End verdicts.

Lemma verify_Title_catches_truncation_witness :
  r_OK (@verify_Title caseless "t.mkv" (Some (mkFile 900000000 true ebmlMagic))
          (Ok (mkProbe "1980.040000" ["video"; "audio"])) (mkExpectation 2640 0 0 0 1000)) = false.
Proof. apply verify_Title_catches_truncation; vm_compute; congruence. Defined.
