(* ===== verification/Decrypt.v ===== *)
(** * The decrypter (internal/decrypt/decrypt.go)

    A copy of a disc lives in a directory named after the disc, next to a
    marker written last.  The state is the copies under the scratch
    directory; dvdbackup is the answers of [MirrorEnv].  [dstep] is what can
    happen to the copies: a whole Mirror, one cut short by the daemon dying,
    a reuse, a removal.

    [reused_copies_are_finished]: a copy that Existing hands out is one that a
    dvdbackup run finished and that passed verification, whatever happened
    before.  [half_discarded_copy_is_reused] is the limit of that: a removal
    cut short can leave the marker on what is left of a copy. *)

From Stdlib Require Import QArith_base.
From S2P Require Import Prelude GoText GoPath GoBase GoScan Regex Verify.
#[local] Open Scope Z_scope.

(** ** Copies *)

(** VIDEO_TS in a copy: absent or not a directory, unreadable, or its files
    with their sizes, [None] where Info fails. *)
Notation files := (list (string * option Z)).
Inductive videoTS := NoVideo | Unreadable (e : string) | Files (l : files).
Record CopyDir := mkCopyDir { cd_complete : bool; cd_video : videoTS }.
Notation Copies := (gmap string CopyDir).

Definition outputName : string := "disc".
Definition completeMarker : string := ".complete".
Definition maxVOBBytes : Z := 1073709056.
Definition Path (destRoot key : string) : string := Join [destRoot; "decrypt-" +:+ key].

Record Result := mkResult {
  Folder : string;
  Root : string;
  Bytes : Z;
  res_Raw : string;
  ReadErrors : Z;
}.
Record Progress := mkProgress { Fraction : Q; Operation : string }.

Definition plural (n : Z) : string := if n =? 1 then "" else "s".
Definition is_vob (name : string) : bool := has_suffix (str_map upper_byte name) ".VOB".

Fixpoint verify_files (l : files) (readErrors : Z) : option string :=
  match l with
  | [] => None
  | (name, info) :: l' =>
      match info with
      | Some size =>
          if is_vob name && (maxVOBBytes <? size) then
            Some ("the decrypted copy is malformed: " +:+ name +:+ " is " +:+ show_tenths (tenths size (2 ^ 30)) +:+
              " GB, and a DVD VOB cannot exceed 1 GB" +:+
              (if 0 <? readErrors then
                 " (dvdbackup reported " +:+ itoa readErrors +:+ " read error" +:+ plural readErrors +:+
                 "; the disc is probably damaged)" else ""))
          else verify_files l' readErrors
      | None => verify_files l' readErrors
      end
  end.
(** verifyCopy of the directory [path]: the error, if any. *)
Definition verifyCopy (path : string) (v : videoTS) (readErrors : Z) : option string :=
  match v with
  | NoVideo => Some ("read " +:+ path +:+ ": no such file or directory")
  | Unreadable e => Some ("read " +:+ path +:+ ": " +:+ e)
  | Files l => verify_files l readErrors
  end.

(** dirSize of the copy: VIDEO_TS is all dvdbackup puts in it. *)
Fixpoint sum_sizes (total : Z) (l : files) : outcome string Z :=
  match l with
  | [] => Ok total
  | (name, Some n) :: l' => sum_sizes (int64 (total + n)) l'
  | (name, None) :: _ => Err ("lstat " +:+ name)
  end.
Definition dirSize (path : string) (v : videoTS) : outcome string Z :=
  match (match v with NoVideo => Ok 0 | Unreadable e => Err e | Files l => sum_sizes 0 l end) with
  | Ok n => Ok n
  | Err e => Err ("measure " +:+ path +:+ ": " +:+ e)
  end.

(** The state is what os.RemoveAll(root), when it is called, leaves. *)
Definition Existing (cs : Copies) (destRoot key : string) : option Result * Copies :=
  let root := Path destRoot key in
  match cs !! root with
  | None => (None, cs)
  | Some d =>
      if negb (cd_complete d) then (None, cs)
      else match cd_video d with
           | NoVideo => (None, cs)
           | v =>
               match verifyCopy (Join [Join [root; outputName]; "VIDEO_TS"]) v 0 with
               | Some _ => (None, delete root cs)
               | None =>
                   let folder := Join [root; outputName] in
                   match dirSize folder v with
                   | Ok size => (Some (mkResult folder root size "" 0), cs)
                   | Err _ => (None, cs)
                   end
               end
           end
  end.
Definition Discard (cs : Copies) (res : option Result) : Copies :=
  match res with
  | None => cs
  | Some r => if bool_decide (Root r = "") then cs else delete (Root r) cs
  end.

(** ** dvdbackup's output *)

Definition is_line_end (c : ascii) : bool := byte_eqb newline c || byte_eqb (byte_of 13) c.
(** The index loop of scanLinesOrReturns. *)
Definition scanLinesOrReturns : splitter := λ data atEOF,
  if atEOF && bool_decide (data = "") then (O, None)
  else match str_index is_line_end data with
       | Some i => (S i, Some (String.substring 0 i data))
       | None => if atEOF then (String.length data, Some data) else (O, None)
       end.
(** The lines a run's output gives, with a megabyte of buffer. *)
Definition output_lines (out : string) : list string :=
  upto_long (1024 * 1024) (pieces_at is_line_end out).

Definition readErrorPattern : regex :=
  alts (lit_i <$> ["error reading"; "read error"; "cannot read block"; "input/output error"]).
Definition digits_re : regex := Plus (Cls r_digit).
(** ^(.*?part (\d+)/(\d+)): (\d+)% done *)
Definition progressLine : regex :=
  Seq BeginText (Seq (Cap 1 (Seq (Star false (Cls r_dot)) (Seq (lit "part ") (Seq (Cap 2 digits_re)
    (Seq (lit "/") (Cap 3 digits_re)))))) (Seq (lit ": ") (Seq (Cap 4 digits_re) (lit "% done")))).
(** strconv.Atoi with the error ignored: out of range gives the nearest value. *)
Definition Atoi_ignore (s : string) : Z :=
  match Atoi s with
  | Some v => v
  | None => if is_digits s then 2 ^ 63 - 1 else 0
  end.

Section decrypt.
Context {U : Unicode}.

Definition clamp_unit (num den : Z) : Q :=
  if num <? 0 then 0%Q else if den <? num then 1%Q else num # Z.to_pos den.
Definition parseProgress (line : string) : option Progress :=
  match FindStringSubmatch progressLine (TrimSpace line) with
  | None => None
  | Some m =>
      let part := Atoi_ignore (cap 2 m) in
      let parts := Atoi_ignore (cap 3 m) in
      let pct := Atoi_ignore (cap 4 m) in
      if (parts <=? 0) || (part <=? 0) then None
      else Some (mkProgress (clamp_unit ((part - 1) * 100 + pct) (100 * parts)) (TrimSpace (cap 1 m)))
  end.

Definition raw_of (lines : list string) : string := foldr (λ l acc, l +:+ String newline acc) "" lines.
Definition read_errors (lines : list string) : Z :=
  Z.of_nat (length (filter (λ l, MatchString readErrorPattern l = true) lines)).
Definition lastLines (s : string) (n : nat) : string :=
  let lines := split_on newline (trim_right (byte_eqb newline) s) in
  join "; " (drop (length lines - n) lines).

(** What the machine and dvdbackup answer a Mirror: the faults of each step (a
    removal that fails leaves what it has not removed), the output, how it ended, and what it left in the copy. *)
Record MirrorEnv := mkMirrorEnv {
  mv_mkdest : option string;
  mv_clear : option (string * Copies);
  mv_mkroot : option string;
  mv_cache : option string;
  mv_pipe : option string;
  mv_start : option string;
  mv_output : string;
  mv_wait : option string;
  mv_cancelled : bool;
  mv_left : videoTS;
  mv_marker : option string;
}.

(** Mirror: the copies it leaves, the progress it reports and its outcome. *)
Definition Mirror (bin : string) (v : MirrorEnv) (cs : Copies) (destRoot key : string)
    : Copies * list Progress * outcome goerr Result :=
  let root := Path destRoot key in
  match mv_mkdest v with
  | Some e => (cs, [], Err (errorf ("create " +:+ destRoot +:+ ": " +:+ e)))
  | None =>
  match mv_clear v with
  | Some (e, cs') => (cs', [], Err (errorf ("clear " +:+ root +:+ ": " +:+ e)))
  | None =>
  let cleared := delete root cs in
  match mv_mkroot v with
  | Some e => (cleared, [], Err (errorf ("create decrypt directory: " +:+ e)))
  | None =>
  match mv_cache v with
  | Some e => (cleared, [], Err (errorf ("create libdvdcss cache directory: " +:+ e)))
  | None =>
  match mv_pipe v with
  | Some e => (cleared, [], Err (errorf ("stdout pipe: " +:+ e)))
  | None =>
  match mv_start v with
  | Some e => (cleared, [], Err (errorf ("start " +:+ bin +:+ ": " +:+ e)))
  | None =>
      let lines := output_lines (mv_output v) in
      let progress := omap parseProgress lines in
      let raw := raw_of lines in
      let readErrors := read_errors lines in
      let fail e := (cleared, progress, Err e) in
      match mv_wait v with
      | Some e =>
          fail (if mv_cancelled v then ctxCanceled
                else errorf ("dvdbackup: " +:+ e +:+ ": " +:+ lastLines raw 3))
      | None =>
          let folder := Join [root; outputName] in
          match mv_left v with
          | NoVideo => fail (errorf ("dvdbackup reported success but produced no VIDEO_TS in " +:+ folder))
          | video =>
              match dirSize folder video with
              | Err e => fail (errorf e)
              | Ok size =>
                  match verifyCopy (Join [folder; "VIDEO_TS"]) video readErrors with
                  | Some e => fail (errorf e)
                  | None =>
                      match mv_marker v with
                      | Some e => fail (errorf ("mark the copy complete: " +:+ e))
                      | None =>
                          (<[root := mkCopyDir true video]> cs, progress, Ok (mkResult folder root size raw readErrors))
                      end
                  end
              end
          end
      end
  end end end end end end.
End decrypt.

(** ** What can happen to the copies *)

(** What is left of a copy when its removal is cut short. *)
Definition remnant (d d' : CopyDir) : Prop :=
  (cd_complete d' = true → cd_complete d = true) ∧
  match cd_video d, cd_video d' with
  | _, NoVideo => True
  | Files l, Files l' => l' `sublist_of` l
  | v, v' => v = v'
  end.
(** The copies after a removal of [root] that was cut short; with [tidy], one
    that had removed the marker by then. *)
Inductive cut_removal (tidy : bool) (root : string) (cs : Copies) : Copies → Prop :=
| cr_gone : cut_removal tidy root cs (delete root cs)
| cr_none : cut_removal tidy root cs cs
| cr_left d d' : cs !! root = Some d → remnant d d' → (tidy = true → cd_complete d' = false) →
    cut_removal tidy root cs (<[root := d']> cs).

(** A run of the decrypter that dvdbackup finished: the copy, and what was in it. *)
Notation history := (list (string * videoTS)).

Section steps.
Context {U : Unicode}.

Inductive dstep (tidy : bool) : Copies * history → Copies * history → Prop :=
| d_mirror bin v cs h destRoot key :
    (∀ e cs', mv_clear v = Some (e, cs') → cut_removal tidy (Path destRoot key) cs cs') →
    dstep tidy (cs, h)
      ((Mirror bin v cs destRoot key).1.1,
       if is_ok (Mirror bin v cs destRoot key).2 then (Path destRoot key, mv_left v) :: h else h)
| d_killed cs h destRoot key left :
    dstep tidy (cs, h) (<[Path destRoot key := mkCopyDir false left]> cs, h)
| d_existing cs h destRoot key : dstep tidy (cs, h) ((Existing cs destRoot key).2, h)
| d_discard cs h res : dstep tidy (cs, h) (Discard cs res, h)
| d_cut cs cs' h root : cut_removal tidy root cs cs' → dstep tidy (cs, h) (cs', h).

(** No VOB over the limit. *)
Definition sound_copy (v : videoTS) : Prop :=
  ∃ l, v = Files l ∧ Forall (λ f, ∀ n, f.2 = Some n → is_vob f.1 = true → n ≤ maxVOBBytes) l.

Lemma verify_files_None l n : verify_files l n = None ↔
  Forall (λ f, ∀ m, f.2 = Some m → is_vob f.1 = true → m ≤ maxVOBBytes) l.
Proof.
  induction l as [|[name [size|]] l IH]; cbn [verify_files]; [split; [constructor|done]| |].
  - rewrite Forall_cons. cbn [fst snd]. destruct (is_vob name) eqn:Hv; cbn [andb].
    + destruct (Z.ltb_spec maxVOBBytes size).
      * split; [done|]. intros [H1 _]. specialize (H1 size eq_refl eq_refl). lia.
      * rewrite IH. split; [|by intros [_ ?]]. intros ?. split; [|done]. intros m [= <-] _. done.
    + rewrite IH. split; [|by intros [_ ?]]. intros ?. split; [|done]. intros m _ ?. done.
  - rewrite IH, Forall_cons. cbn [fst snd]. naive_solver.
Qed.

Lemma verifyCopy_None path v n : verifyCopy path v n = None ↔ sound_copy v.
Proof.
  unfold sound_copy. destruct v as [|e|l]; cbn [verifyCopy]; [naive_solver..|].
  rewrite verify_files_None. naive_solver.
Qed.

(** What a Mirror does: it succeeds exactly on a finished and sound copy, and
    otherwise leaves no copy behind. *)
Lemma Mirror_cases bin v cs destRoot key :
  let root := Path destRoot key in
  let '(cs', _, o) := Mirror bin v cs destRoot key in
  match o with
  | Ok res => cs' = <[root := mkCopyDir true (mv_left v)]> cs ∧ mv_wait v = None ∧ sound_copy (mv_left v) ∧
              Root res = root ∧ Folder res = Join [root; outputName]
  | Err _ => (mv_mkdest v ≠ None ∧ cs' = cs) ∨ (∃ e, mv_clear v = Some (e, cs')) ∨ cs' = delete root cs
  end.
Proof.
  cbv zeta. unfold Mirror.
  destruct (mv_mkdest v); [by left|]. destruct (mv_clear v) as [[e cs']|]; [right; left; eauto|].
  destruct (mv_mkroot v); [by right; right|]. destruct (mv_cache v); [by right; right|].
  destruct (mv_pipe v); [by right; right|]. destruct (mv_start v); [by right; right|].
  destruct (mv_wait v) as [w|]; [by destruct (mv_cancelled v); right; right|].
  destruct (mv_left v) as [|e|l] eqn:Hl; [by right; right|..].
  - destruct (dirSize _ _); [|by right; right]. destruct (verifyCopy _ _ _) eqn:Hv; [by right; right|].
    destruct (mv_marker v); [by right; right|]. by apply verifyCopy_None in Hv.
  - destruct (dirSize _ _); [|by right; right]. destruct (verifyCopy _ _ _) eqn:Hv; [by right; right|].
    destruct (mv_marker v); [by right; right|]. by apply verifyCopy_None in Hv.
Qed.

(** Every marked copy was left by a run that finished. *)
Definition marked_finished (s : Copies * history) : Prop :=
  ∀ root d, s.1 !! root = Some d → cd_complete d = true →
    (root, cd_video d) ∈ s.2 ∧ sound_copy (cd_video d).

Lemma cut_removal_marked root cs cs' h :
  cut_removal true root cs cs' → marked_finished (cs, h) → marked_finished (cs', h).
Proof.
  intros [| |d d' Hd Hr Ht] Hm; intros root' d0; cbn [fst snd].
  - rewrite lookup_delete_Some. intros [_ ?]. by apply (Hm root' d0).
  - apply Hm.
  - rewrite lookup_insert_Some. intros [[<- <-]|[_ ?]] Hc; [|by apply (Hm root' d0)].
    by rewrite Ht in Hc.
Qed.

Lemma dstep_marked s s' : dstep true s s' → marked_finished s → marked_finished s'.
Proof.
  intros [bin v cs h destRoot key Hclear|cs h destRoot key left|cs h destRoot key|cs h res|cs cs' h root Hc] Hm.
  - pose proof (Mirror_cases bin v cs destRoot key) as H. cbv zeta in H.
    destruct (Mirror bin v cs destRoot key) as [[cs' ps] [res|e]]; cbn [fst snd is_ok].
    + destruct H as (-> & _ & Hs & _). intros root d. cbn [fst snd]. rewrite lookup_insert_Some.
      intros [[<- <-]|[_ Hd]] Hc; cbn [cd_video].
      * split; [by apply elem_of_cons; left|done].
      * destruct (Hm root d Hd Hc) as [? ?]. split; [by apply elem_of_cons; right|done].
    + destruct H as [[_ ->]|[[e' H]| ->]]; [done| |].
      * apply Hclear in H. by eapply cut_removal_marked.
      * intros root d. cbn [fst snd]. rewrite lookup_delete_Some. intros [_ ?]. by apply (Hm root d).
  - intros root d. cbn [fst snd]. rewrite lookup_insert_Some. intros [[_ <-]|[_ ?]] Hc; [done|].
    by apply (Hm root d).
  - unfold Existing. destruct (cs !! Path destRoot key) as [d|]; [|done]. destruct (negb _); [done|].
    assert (marked_finished (delete (Path destRoot key) cs, h)) as Hdel.
    { intros root d0. cbn [fst snd]. rewrite lookup_delete_Some. intros [_ ?]. by apply (Hm root d0). }
    destruct (cd_video d); [done|..]; (destruct (verifyCopy _ _ _); [done|]; by destruct (dirSize _ _)).
  - unfold Discard. destruct res as [r|]; [|done]. case_bool_decide; [done|].
    intros root d0. cbn [fst snd]. rewrite lookup_delete_Some. intros [_ ?]. by apply (Hm root d0).
  - by eapply cut_removal_marked.
Qed.

Lemma reachable_marked s : rtc (dstep true) (∅, []) s → marked_finished s.
Proof.
  intros Hr. assert (marked_finished (∅, [])) as H0 by (intros root d H; cbn [fst] in H; by rewrite lookup_empty in H).
  revert H0. induction Hr as [|x y z Hxy _ IH]; [done|]. intros Hx. eapply IH, dstep_marked; eauto.
Qed.

Lemma Existing_marked cs destRoot key res cs' :
  Existing cs destRoot key = (Some res, cs') →
  cs' = cs ∧ Root res = Path destRoot key ∧ Folder res = Join [Path destRoot key; outputName] ∧
  ∃ d, cs !! Path destRoot key = Some d ∧ cd_complete d = true ∧ sound_copy (cd_video d).
Proof.
  unfold Existing. destruct (cs !! Path destRoot key) as [d|] eqn:E; [|done].
  destruct (cd_complete d) eqn:Hc; cbn [negb]; [|done].
  destruct (cd_video d) as [|e|l] eqn:Hv; [done|..];
    (destruct (verifyCopy _ _ _) eqn:Hver; [done|]; apply verifyCopy_None in Hver;
     destruct (dirSize _ _); [|done]; intros [= <- <-]; repeat split; exists d; by rewrite Hv).
Qed.

(** C12: a copy is reused only if dvdbackup finished it.  After any sequence of
    decrypts, decrypts killed part way, reuses and removals, those cut short having
    taken the marker first, a copy that Existing hands out is, file for file, one that a run which exited
    successfully left, with no VOB over the limit. *)
Theorem reused_copies_are_finished cs h destRoot key res cs' :
  rtc (dstep true) (∅, []) (cs, h) →
  Existing cs destRoot key = (Some res, cs') →
  ∃ d, cs !! Path destRoot key = Some d ∧ (Path destRoot key, cd_video d) ∈ h ∧ sound_copy (cd_video d).
Proof.
  intros Hr (_ & _ & _ & d & Hd & Hc & Hs)%Existing_marked. exists d. split; [done|].
  apply reachable_marked in Hr. split; [|done]. by apply (Hr (Path destRoot key) d).
Qed.

(** a decrypt either leaves a finished copy or none.  A Mirror that reports
    success has left the marked copy dvdbackup finished, which the next attempt
    reuses; one that fails after the old copy was cleared leaves nothing at its
    path. *)
Theorem Mirror_all_or_nothing bin v cs destRoot key :
  mv_mkdest v = None → mv_clear v = None →
  let '(cs', _, o) := Mirror bin v cs destRoot key in
  match o with
  | Ok res => mv_wait v = None ∧
      ∃ res', Existing cs' destRoot key = (Some res', cs') ∧ Root res' = Root res ∧
        Folder res' = Folder res ∧ Bytes res' = Bytes res
  | Err _ => cs' !! Path destRoot key = None ∧ Existing cs' destRoot key = (None, cs')
  end.
Proof.
  intros Hd Hc. pose proof (Mirror_cases bin v cs destRoot key) as H. cbv zeta in H.
  unfold Mirror in *. rewrite Hd, Hc in *.
  assert (delete (Path destRoot key) cs !! Path destRoot key = None ∧
    Existing (delete (Path destRoot key) cs) destRoot key = (None, delete (Path destRoot key) cs)) as Hdel.
  { unfold Existing. rewrite lookup_delete_eq. done. }
  destruct (mv_mkroot v); [done|]. destruct (mv_cache v); [done|].
  destruct (mv_pipe v); [done|]. destruct (mv_start v); [done|].
  destruct (mv_wait v) as [w|] eqn:Hw; [done|].
  destruct (mv_left v) as [|e|l] eqn:Hl; [done|..];
    (destruct (dirSize _ _) as [size|] eqn:Hsize; [|done]; destruct (verifyCopy _ _ _) eqn:Hv; [done|];
     destruct (mv_marker v); [done|]; split; [done|]; unfold Existing; rewrite lookup_insert_eq;
     cbn [cd_complete cd_video negb];
     apply verifyCopy_None in Hv; rewrite (proj2 (verifyCopy_None _ _ _)) by done; rewrite Hsize; eauto).
Qed.
End steps.

(** ** Progress and output *)

Section output.
Context {U : Unicode}.

Lemma clamp_unit_unit n d : 0 < d → (0 <= clamp_unit n d)%Q ∧ (clamp_unit n d <= 1)%Q.
Proof.
  intros Hd. unfold clamp_unit. destruct (Z.ltb_spec n 0); [split; discriminate|].
  destruct (Z.ltb_spec d n); [split; discriminate|].
  unfold Qle. cbn [Qnum Qden]. rewrite Z2Pos.id by done. split; lia.
Qed.

(** C1: whatever dvdbackup prints, a progress report lies between 0 and 1. *)
Theorem parseProgress_unit line p :
  parseProgress line = Some p → (0 <= Fraction p)%Q ∧ (Fraction p <= 1)%Q.
Proof.
  unfold parseProgress. destruct (FindStringSubmatch _ _) as [m|]; [|done].
  destruct ((_ <=? 0) || _) eqn:E; [done|]. intros [= <-]. cbn [Fraction].
  apply clamp_unit_unit. breflect. lia.
Qed.

(** dvdbackup's output is read as the pieces between its carriage returns
    and newlines, whatever pieces the pipe delivers it in: the scanner with
    scanLinesOrReturns over any reads gives the lines of the whole output. *)
Theorem output_any_reads chunks :
  Tokens scanLinesOrReturns chunks = pieces_at is_line_end (join "" chunks) ∧
  (Forall (λ l, len l < 1024 * 1024) (pieces_at is_line_end (join "" chunks)) →
   Tokens scanLinesOrReturns chunks = output_lines (join "" chunks)).
Proof.
  assert (∀ cs, Tokens scanLinesOrReturns cs = pieces_at is_line_end (join "" cs)) as H by apply Tokens_cut.
  split; [apply H|]. rewrite H. unfold output_lines. intros Hall.
  induction Hall as [|l ls Hl _ IH]; [done|]. cbn [upto_long]. rewrite (proj2 (Z.ltb_lt _ _)) by done. by rewrite <- IH.
Qed.
End output.

(** ** Witnesses and examples *)

Definition CR : string := String (byte_of 13) "".
Definition sample_output : string :=
  "Copying menu" +:+ String newline "" +:+ "Copying Title, part 1/2: 0% done (0/1 MiB)" +:+ CR +:+
  "libdvdread: Read Error at 17" +:+ String newline "" +:+ "Copying Title, part 2/2: 50% done (1/2 MiB)" +:+ CR.
Definition film : videoTS := Files [("VIDEO_TS.IFO", Some 12288); ("VTS_01_1.VOB", Some 1073709056); ("VTS_01_2.VOB", Some 5000)].
Definition film_cut : videoTS := Files [("VIDEO_TS.IFO", Some 12288); ("VTS_01_2.VOB", Some 5000)].
Definition demo_mirror : MirrorEnv :=
  mkMirrorEnv None None None None None None sample_output None false film None.
Definition demo_copies : Copies := (@Mirror caseless "dvdbackup" demo_mirror ∅ "/work" "abc").1.1.

Example mirror_ok : ∃ res,
  (@Mirror caseless "dvdbackup" demo_mirror ∅ "/work" "abc").2 = Ok res ∧ ReadErrors res = 1 ∧
  Folder res = "/work/decrypt-abc/disc" ∧
  (Fraction <$> (@Mirror caseless "dvdbackup" demo_mirror ∅ "/work" "abc").1.2) = [(0 # 200)%Q; (150 # 200)%Q].
Proof. eexists. split; [vm_compute; reflexivity|]. repeat split. Qed.

Lemma demo_reachable : rtc (@dstep caseless true) (∅, []) (demo_copies, [("/work/decrypt-abc", film)]).
Proof.
  eapply rtc_l; [|apply rtc_refl].
  apply (@d_mirror caseless true "dvdbackup" demo_mirror ∅ [] "/work" "abc"). done.
Qed.

Lemma reused_copies_are_finished_witness :
  ∃ d, demo_copies !! "/work/decrypt-abc" = Some d ∧ cd_video d = film.
Proof.
  destruct (@reused_copies_are_finished caseless demo_copies [("/work/decrypt-abc", film)] "/work" "abc"
    (mkResult "/work/decrypt-abc/disc" "/work/decrypt-abc" 1073726344 "" 0) demo_copies) as (d & Hd & Hin & _).
  - apply demo_reachable.
  - vm_compute. reflexivity.
  - exists d. split; [exact Hd|]. apply list_elem_of_singleton in Hin. by injection Hin as Hin.
Defined.

Lemma Mirror_all_or_nothing_witness :
  ∃ res', (@Existing demo_copies "/work" "abc").1 = Some res' ∧ Folder res' = "/work/decrypt-abc/disc".
Proof.
  pose proof (@Mirror_all_or_nothing caseless "dvdbackup" demo_mirror ∅ "/work" "abc" eq_refl eq_refl) as H.
  change (Mirror "dvdbackup" demo_mirror ∅ "/work" "abc") with
    (demo_copies, (@Mirror caseless "dvdbackup" demo_mirror ∅ "/work" "abc").1.2,
     (@Mirror caseless "dvdbackup" demo_mirror ∅ "/work" "abc").2) in H.
  destruct (@Mirror caseless "dvdbackup" demo_mirror ∅ "/work" "abc").2 as [res|e] eqn:E.
  - destruct H as (_ & res' & He & _ & Hf & _). exists res'. rewrite He. split; [reflexivity|].
    rewrite Hf. vm_compute in E. by injection E as <-.
  - vm_compute in E. discriminate E.
Defined.

Lemma parseProgress_unit_witness :
  ∃ p, @parseProgress caseless "Copying Title, part 2/6: 37% done (9/9 MiB)" = Some p ∧ (Fraction p <= 1)%Q.
Proof.
  eexists. split; [vm_compute; reflexivity|].
  refine (proj2 (@parseProgress_unit caseless "Copying Title, part 2/6: 37% done (9/9 MiB)" _ _)).
  vm_compute. reflexivity.
Defined.

(** a copy whose removal is cut short can be taken for a finished one.
    Discard removes the directory with os.RemoveAll, in any order; if the daemon
    dies after a VOB is gone and before the marker is, Existing hands out what
    is left, and no run ever finished that. *)
Theorem half_discarded_copy_is_reused :
  ∃ cs h res, rtc (@dstep caseless false) (∅, []) (cs, h) ∧
    Existing cs "/work" "abc" = (Some res, cs) ∧
    (∀ d, cs !! "/work/decrypt-abc" = Some d → ("/work/decrypt-abc", cd_video d) ∉ h).
Proof.
  exists (<["/work/decrypt-abc" := mkCopyDir true film_cut]> demo_copies), [("/work/decrypt-abc", film)].
  eexists. split; [|split; [vm_compute; reflexivity|]].
  - eapply rtc_l; [|eapply rtc_l; [|apply rtc_refl]].
    + apply (@d_mirror caseless false "dvdbackup" demo_mirror ∅ [] "/work" "abc"). done.
    + eapply (@d_cut caseless false demo_copies _ _ "/work/decrypt-abc"), cr_left; [vm_compute; reflexivity| |done].
      split; [done|]. cbn. apply sublist_skip, sublist_cons, sublist_skip, sublist_nil.
  - intros d. rewrite lookup_insert_eq. intros [= <-] Hin.
    apply list_elem_of_singleton in Hin. discriminate Hin.
Qed.
