(* ===== verification/Dvd.v ===== *)
(** * Reading a DVD without MakeMKV (internal/dvd/dvd.go, extract.go)

    The ffprobe answers of a sweep are an argument of [Enumerate], decoded
    JSON for each title number; an extraction is a list of events, ffmpeg's
    progress lines and the ticks of the watchdog, as in MakeMkv.

    [Enumerate_spec] says which titles a sweep finds, and
    [Extract_reads_what_was_found] that extraction asks the demuxer for the
    title that was probed.  [cut_short_scan_succeeds] is a limit of the code:
    a probe that fails, by a deadline too, ends the sweep as a success. *)

From Stdlib Require Import QArith_base.
From S2P Require Import Prelude GoFloat GoText GoPath GoBase GoScan Regex Disc Key.
#[local] Open Scope Z_scope.

(** ** What ffprobe says *)

Record probeStream := mkProbeStream {
  ps_Index : Z;
  ps_CodecName : string;
  ps_CodecType : string;
  ps_Width : Z;
  ps_Height : Z;
  ps_DisplayAspect : string;
  ps_RFrameRate : string;
  ps_Channels : Z;
  ps_SampleRate : string;
  ps_Disposition : gmap string Z;
  ps_Tags : option (gmap string string);
}.
Record probeResult := mkProbeResult { pr_Duration : string; pr_Chapters : list string; pr_Streams : list probeStream }.

Record Enumerator := mkEnumerator { FFprobeBin : string; MinSeconds : Z }.
Definition NewEnumerator : Enumerator := mkEnumerator "ffprobe" 60.
Definition maxTitles : nat := 99.
Definition enum_bin (e : Enumerator) : string :=
  if bool_decide (FFprobeBin e = "") then "ffprobe" else FFprobeBin e.
Definition probeTitle_args (source : string) (title : Z) : list string :=
  ["-hide_banner"; "-v"; "quiet"; "-f"; "dvdvideo"; "-title"; itoa title; "-region"; "0"; "-i"; source;
   "-show_format"; "-show_streams"; "-show_chapters"; "-of"; "json"].

Section dvd.
Context {U : Unicode}.

(** int(f), 0 for what does not parse or is not positive. *)
Definition probe_durationSecs (p : probeResult) : Z :=
  match ParseFloat (TrimSpace (pr_Duration p)) with
  | Some (num, den) => if num <=? 0 then 0 else num / den
  | None => 0
  end.

Definition probe_stream (s : probeStream) : Stream :=
  let tag k := match ps_Tags s with Some m => default "" (m !! k) | None => "" end in
  let flags := filter (λ k, ps_Disposition s !! k = Some 1) ["default"; "forced"] in
  mkStream (ps_Index s) (ps_CodecType s) (ps_CodecName s) (tag "language") "" (ps_Channels s) (ps_SampleRate s)
    (if (0 <? ps_Width s) && (0 <? ps_Height s) then itoa (ps_Width s) +:+ "x" +:+ itoa (ps_Height s) else "")
    (ps_DisplayAspect s) (ps_RFrameRate s) "" (join "," flags) (tag "VIEWPORT") ∅.
Definition probe_title (p : probeResult) (index : Z) : Title :=
  mkTitle index (probe_durationSecs p) (Z.of_nat (length (pr_Chapters p))) 0 "" 0 "" "" (TitleFileName index) ""
    (probe_stream <$> pr_Streams p) ∅.

(** The loop from title [n] on, with the titles found; [ctx n] is the
    context's error before the probe of [n], [probe n] what the probe gives. *)
Fixpoint sweep (fuel n : nat) (ctx : nat → option goerr) (probe : nat → outcome goerr probeResult)
    (found : list Title) : outcome goerr (list Title) :=
  match fuel with
  | O => Ok found
  | S fuel' =>
      match ctx n with
      | Some e => Err e
      | None =>
          match probe n with
          | Err _ => Ok found
          | Ok p =>
              if probe_durationSecs p <=? 0 then Ok found
              else sweep fuel' (S n) ctx probe (found ++ [probe_title p (Z.of_nat (length found))])
          end
      end
  end.
Definition Enumerate (ctx : nat → option goerr) (probe : nat → outcome goerr probeResult) (source : string)
    : outcome goerr (list Title) :=
  ts <-? sweep maxTitles 1 ctx probe [] ;;
  if bool_decide (ts = []) then Err (errorf ("no titles found on " +:+ source)) else Ok ts.

Definition Filtered (e : Enumerator) (titles : list Title) : list Title :=
  let min := if MinSeconds e <=? 0 then 60 else MinSeconds e in
  filter (λ t, min ≤ t_DurationSecs t) titles.

(** strings.Cut(rate, "/") and the quotient strictly between 24.9 and 25.1. *)
Definition rateIs25 (rate : string) : bool :=
  let rate := TrimSpace rate in
  match Cut slash rate with
  | None => bool_decide (rate = "25")
  | Some (num, den) =>
      match ParseFloat num, ParseFloat den with
      | Some (a, b), Some (c, d) =>
          if c =? 0 then false
          else
            let v := (a * d * Z.sgn c, b * Z.abs c) in
            (249 * v.2 <? 10 * v.1) && (10 * v.1 <? 251 * v.2)
      | _, _ => false
      end
  end.
Definition PAL (titles : list Title) : bool :=
  existsb (λ t, existsb (λ s, bool_decide (s_Kind s = "video") &&
    (has_suffix (s_Resolution s) "x576" || rateIs25 (s_FrameRate s))) (t_Streams t)) titles.

(** ** Extraction *)

Record Extractor := mkExtractor { FFmpegBin : string; Preindex : bool; ex_StallTimeout : Z }.
Definition NewExtractor : Extractor := mkExtractor "ffmpeg" false (10 * Minute).
Record Progress := mkProgress { Fraction : Q; OutTime : Z; Speed : Z * Z }.
Record Result := mkResult { Path : string; SizeBytes : Z; Elapsed : Z }.

Definition extract_args (e : Extractor) (sourcePath : string) (t : Title) (dest : string) : list string :=
  ["-hide_banner"; "-nostdin"; "-y"; "-f"; "dvdvideo"; "-preindex"; (if Preindex e then "1" else "0");
   "-region"; "0"; "-title"; itoa (t_Index t + 1); "-i"; sourcePath; "-map"; "0"; "-c"; "copy";
   "-avoid_negative_ts"; "make_zero"; "-progress"; "pipe:1"; "-nostats"; dest].

(** A positive or negative decimal; 0 for what does not parse. *)
Definition parseSpeed (s : string) : Z * Z :=
  default (0, 1) (ParseFloat (TrimSpace (TrimSuffix (TrimSpace s) "x"))).

(** The lines ffmpeg prints and the watchdog's ticks, until the context ends. *)
Inductive watchEvent := LineAt (now : Z) (line : string) | Tick (now : Z) | Done.
Record watchState := mkWatch {
  w_at : Z;
  w_out : Z;
  w_cur : Progress;
  w_stalled : bool;
  w_done : bool;
  w_reports : list Progress;
}.
Definition watch_start (started : Z) : watchState := mkWatch started 0 (mkProgress 0%Q 0 (0, 1)) false false [].

Definition watch_line (totalSecs now : Z) (w : watchState) (line : string) : watchState :=
  match Cut "="%char (TrimSpace line) with
  | None => w
  | Some (key, value) =>
      if bool_decide (key = "out_time_us") || bool_decide (key = "out_time_ms") then
        match Atoi value with
        | Some us =>
            if us <? 0 then w
            else
              let out := int64 (us * Microsecond) in
              let f := if 0 <? totalSecs then
                         if totalSecs * Second <? out then 1%Q else (out # Z.to_pos (totalSecs * Second))
                       else Fraction (w_cur w) in
              let cur := mkProgress f out (Speed (w_cur w)) in
              if w_out w <? out then mkWatch now out cur (w_stalled w) (w_done w) (w_reports w)
              else mkWatch (w_at w) (w_out w) cur (w_stalled w) (w_done w) (w_reports w)
        | None => w
        end
      else if bool_decide (key = "speed") then
        mkWatch (w_at w) (w_out w) (mkProgress (Fraction (w_cur w)) (OutTime (w_cur w)) (parseSpeed value))
          (w_stalled w) (w_done w) (w_reports w)
      else if bool_decide (key = "progress") then
        mkWatch (w_at w) (w_out w) (w_cur w) (w_stalled w) (w_done w) (w_reports w ++ [w_cur w])
      else w
  end.
Definition watch_event (timeout totalSecs : Z) (w : watchState) (e : watchEvent) : watchState :=
  match e with
  | LineAt now line => watch_line totalSecs now w line
  | Tick now =>
      if (0 <? timeout) && negb (w_stalled w) && negb (w_done w) && (timeout <? now - w_at w)
      then mkWatch (w_at w) (w_out w) (w_cur w) true (w_done w) (w_reports w) else w
  | Done => mkWatch (w_at w) (w_out w) (w_cur w) (w_stalled w) true (w_reports w)
  end.
Definition watch (timeout totalSecs started : Z) (es : list watchEvent) : watchState :=
  foldl (watch_event timeout totalSecs) (watch_start started) es.

(** What the machine answers an extraction, and the files it touches. *)
Record ExtractEnv := mkExtractEnv {
  xv_mkdir : option string;
  xv_pipe : option string;
  xv_start : option string;
  xv_started : Z;
  xv_events : list watchEvent;
  xv_cancelled : bool;
  xv_wait : option string;
  xv_stderr : string;
  xv_stat : option Z;
  xv_ended : Z;
}.
Inductive extractOp := XMkdirAll (dir : string) | XRun (args : list string) | XRemove (path : string) | XStat (path : string).

Definition lastLines (s : string) (n : nat) : string :=
  let lines := split_on newline (trim_right (byte_eqb newline) s) in
  join "; " (drop (length lines - n) lines).

Definition Extract (e : Extractor) (v : ExtractEnv) (sourcePath : string) (t : Title) (dest : string)
    : list extractOp * list Progress * outcome goerr Result :=
  let ops := [XMkdirAll (Dir dest)] in
  match xv_mkdir v with
  | Some m => (ops, [], Err (errorf ("create " +:+ Dir dest +:+ ": " +:+ m)))
  | None =>
  match xv_pipe v with
  | Some m => (ops, [], Err (errorf ("stdout pipe: " +:+ m)))
  | None =>
  match xv_start v with
  | Some m => (ops, [], Err (errorf ("start ffmpeg: " +:+ m)))
  | None =>
      let ops := ops ++ [XRun (extract_args e sourcePath t dest)] in
      let w := watch (ex_StallTimeout e) (t_DurationSecs t) (xv_started v) (xv_events v) in
      if w_stalled w then
        (ops ++ [XRemove dest], w_reports w, Err (errorf ("no progress for " +:+ Duration_String (ex_StallTimeout e))))
      else if xv_cancelled v then (ops ++ [XRemove dest], w_reports w, Err ctxCanceled)
      else match xv_wait v with
      | Some m => (ops, w_reports w, Err (errorf ("ffmpeg: " +:+ m +:+ ": " +:+ lastLines (xv_stderr v) 3)))
      | None =>
          match xv_stat v with
          | None => (ops ++ [XStat dest], w_reports w,
                     Err (errorf ("ffmpeg reported success but wrote nothing to " +:+ dest)))
          | Some size => (ops ++ [XStat dest], w_reports w, Ok (mkResult dest size (xv_ended v - xv_started v)))
          end
      end
  end end end.
End dvd.

(** ** The sweep *)

Section sweep_facts.
Context {U : Unicode}.
Implicit Types (ctx : nat → option goerr) (probe : nat → outcome goerr probeResult).

(** A probe that does not name a title. *)
Definition no_title (o : outcome goerr probeResult) : Prop :=
  match o with Ok p => probe_durationSecs p ≤ 0 | Err _ => True end.

Lemma sweep_spec fuel : ∀ n ctx probe found ts,
  sweep fuel n ctx probe found = Ok ts → ∃ more, ts = found ++ more ∧ (length more ≤ fuel)%nat ∧
    (∀ i t, more !! i = Some t → ∃ p, probe (n + i)%nat = Ok p ∧ 0 < probe_durationSecs p ∧
       t = probe_title p (Z.of_nat (length found + i))) ∧
    (length more = fuel ∨ no_title (probe (n + length more)%nat)).
Proof.
  induction fuel as [|fuel IH]; intros n ctx probe found ts; cbn [sweep].
  { intros [= <-]. exists []. rewrite app_nil_r. repeat split; [done| |by left]. by intros i t. }
  destruct (ctx n); [done|]. destruct (probe n) as [p|e] eqn:Hp.
  - destruct (Z.leb_spec (probe_durationSecs p) 0) as [H|H].
    + intros [= <-]. exists []. rewrite app_nil_r. split; [done|]. split; [cbn; lia|]. split; [by intros i t|].
      right. cbn [length]. by rewrite Nat.add_0_r, Hp.
    + intros (more & -> & Hl & Hm & Hstop)%IH. eexists (_ :: more).
      rewrite <- app_assoc. split; [reflexivity|]. split; [cbn; lia|]. split.
      * intros [|i] t; cbn.
        -- intros [= <-]. exists p. by rewrite !Nat.add_0_r.
        -- intros (q & Hq & ? & ->)%Hm. exists q. rewrite length_app in *. cbn [length].
           rewrite Nat.add_succ_r. split; [done|]. split; [done|]. do 2 f_equal. lia.
      * cbn [length]. destruct Hstop as [->|Hstop]; [by left|right].
        by rewrite Nat.add_succ_r.
  - intros [= <-]. exists []. rewrite app_nil_r. split; [done|]. split; [cbn; lia|]. split; [by intros i t|].
    right. cbn [length]. by rewrite Nat.add_0_r, Hp.
Qed.

(** a sweep finds the titles 1, 2, ... up to the first that ffprobe reports
    nothing for, in order and without a gap: the title at position i is the
    disc's title i + 1 and carries index i, each runs a second at least, and
    the sweep ended at an absent title or at 99. *)
Theorem Enumerate_spec ctx probe source ts :
  Enumerate ctx probe source = Ok ts →
  (0 < length ts ≤ maxTitles)%nat ∧
  (∀ i t, ts !! i = Some t → ∃ p, probe (S i) = Ok p ∧ 0 < probe_durationSecs p ∧ t = probe_title p (Z.of_nat i)) ∧
  (length ts = maxTitles ∨ no_title (probe (S (length ts)))).
Proof.
  unfold Enumerate. destruct (sweep maxTitles 1 ctx probe []) as [ts'|] eqn:E; cbn [obind]; [|done].
  case_bool_decide as Hne; [done|]. intros [= ->].
  apply sweep_spec in E as (more & -> & Hl & Hm & Hstop). cbn [app] in *.
  split; [destruct more; [done|cbn [length] in *; lia]|]. split; [|done].
  intros i t (p & Hp & ? & ->)%Hm. by exists p.
Qed.

Lemma sweep_stops fuel k : ∀ n ctx probe p found,
  (k < fuel)%nat → (∀ i, (i ≤ k)%nat → ctx (n + i)%nat = None) →
  (∀ i, (i < k)%nat → probe (n + i)%nat = Ok (p i) ∧ 0 < probe_durationSecs (p i)) →
  no_title (probe (n + k)%nat) →
  sweep fuel n ctx probe found =
    Ok (found ++ ((λ i, probe_title (p i) (Z.of_nat (length found + i))) <$> seq 0 k)).
Proof.
  revert fuel. induction k as [|k IH]; intros fuel n ctx probe p found Hk Hctx Hp Hstop;
    (destruct fuel as [|fuel]; [lia|]); cbn [sweep];
    pose proof (Hctx O ltac:(lia)) as H0; rewrite Nat.add_0_r in H0; rewrite H0.
  - rewrite Nat.add_0_r in Hstop. cbn. rewrite app_nil_r. unfold no_title in Hstop.
    destruct (probe n); [|done]. by rewrite (proj2 (Z.leb_le _ _)).
  - destruct (Hp O ltac:(lia)) as [Hp0 Hd]. rewrite Nat.add_0_r in Hp0. rewrite Hp0.
    rewrite (proj2 (Z.leb_gt _ _)) by done.
    rewrite (IH fuel (S n) ctx probe (λ i, p (S i))); [|lia| | |].
    + rewrite <- app_assoc. do 2 f_equal. cbn [app seq fmap list_fmap]. rewrite Nat.add_0_r. f_equal.
      rewrite <- (fmap_S_seq 0 k), <- list_fmap_compose. apply list_fmap_ext. intros i x _. cbn.
      rewrite length_app. cbn [length]. do 2 f_equal. lia.
    + intros i Hi. replace (S n + i)%nat with (n + S i)%nat by lia. apply Hctx. lia.
    + intros i Hi. replace (S n + i)%nat with (n + S i)%nat by lia. apply Hp. lia.
    + by replace (S n + k)%nat with (n + S k)%nat by lia.
Qed.

(** a scan that is cut short is taken for a whole one.  When the probe of
    title k + 1 fails for any reason, the deadline of the attempt having
    killed it included, or when that title is there but runs under a second,
    Enumerate returns the first k titles as the disc, with no error. *)
Theorem cut_short_scan_succeeds ctx probe source p k :
  (0 < k < maxTitles)%nat → (∀ n, (1 ≤ n ≤ S k)%nat → ctx n = None) →
  (∀ i, (i < k)%nat → probe (S i) = Ok (p i) ∧ 0 < probe_durationSecs (p i)) →
  no_title (probe (S k)) →
  Enumerate ctx probe source = Ok ((λ i, probe_title (p i) (Z.of_nat i)) <$> seq 0 k).
Proof.
  intros Hk Hctx Hp Hstop. unfold Enumerate.
  rewrite (sweep_stops maxTitles k 1 ctx probe p []); [|lia|intros i ?; apply Hctx; lia|done|done].
  cbn [obind app length]. rewrite bool_decide_eq_false_2; [done|]. destruct k; [lia|done].
Qed.

Lemma Enumerate_titles ctx probe source ts : Enumerate ctx probe source = Ok ts →
  ∀ i t, ts !! i = Some t → ∃ p, probe (S i) = Ok p ∧ t = probe_title p (Z.of_nat i).
Proof.
  unfold Enumerate. destruct (sweep maxTitles 1 ctx probe []) as [ts'|] eqn:E; cbn [obind]; [|done].
  case_bool_decide; [done|]. intros [= ->] i t Ht. apply sweep_spec in E as (more & -> & _ & Hm & _).
  apply Hm in Ht as (p & Hp & _ & ->). by exists p.
Qed.

Lemma probeTitle_args_title source n : ∃ a b, probeTitle_args source n = a ++ ["-title"; itoa n] ++ b.
Proof. exists ["-hide_banner"; "-v"; "quiet"; "-f"; "dvdvideo"]. eexists. reflexivity. Qed.

Lemma extract_args_title e source t dest n : t_Index t + 1 = n →
  ∃ a b, extract_args e source t dest = a ++ ["-title"; itoa n] ++ b.
Proof.
  intros <-. eexists ["-hide_banner"; "-nostdin"; "-y"; "-f"; "dvdvideo"; "-preindex"; _; "-region"; "0"], _.
  reflexivity.
Qed.

(** extraction reads the title the sweep probed: the number ffmpeg is asked
    for is the one ffprobe was asked about. *)
Theorem Extract_reads_what_was_found ctx probe source ts i t e dest :
  Enumerate ctx probe source = Ok ts → ts !! i = Some t →
  ∃ n p a b a' b', probe n = Ok p ∧ t = probe_title p (Z.of_nat i) ∧
    probeTitle_args source (Z.of_nat n) = a ++ ["-title"; itoa (Z.of_nat n)] ++ b ∧
    extract_args e source t dest = a' ++ ["-title"; itoa (Z.of_nat n)] ++ b'.
Proof.
  intros HE Ht. destruct (Enumerate_titles _ _ _ _ HE i t Ht) as (p & Hp & ->).
  destruct (probeTitle_args_title source (Z.of_nat (S i))) as (a & b & Hab).
  destruct (extract_args_title e source (probe_title p (Z.of_nat i)) dest (Z.of_nat (S i))) as (a' & b' & Hab').
  { change (t_Index (probe_title p (Z.of_nat i))) with (Z.of_nat i). lia. }
  exists (S i), p, a, b, a', b'. split; [exact Hp|]. split; [reflexivity|]. split; [exact Hab|exact Hab'].
Qed.
End sweep_facts.

(** ** Extraction *)

Section extract_facts.
Context {U : Unicode}.

(** The output time of a progress line. *)
Definition out_time (line : string) : option Z :=
  match Cut "="%char (TrimSpace line) with
  | Some (key, value) =>
      if bool_decide (key = "out_time_us") || bool_decide (key = "out_time_ms") then
        match Atoi value with Some us => if us <? 0 then None else Some (int64 (us * Microsecond)) | None => None end
      else None
  | None => None
  end.
(** When the output time last advanced, while the context lasted. *)
Fixpoint last_advance (at_ out : Z) (es : list watchEvent) : Z :=
  match es with
  | [] => at_
  | LineAt now line :: es =>
      match out_time line with
      | Some o => if out <? o then last_advance now o es else last_advance at_ out es
      | None => last_advance at_ out es
      end
  | _ :: es => last_advance at_ out es
  end.

Lemma watch_line_spec total now w line :
  let w' := watch_line total now w line in
  w_stalled w' = w_stalled w ∧ w_done w' = w_done w ∧
  (w_at w', w_out w') =
    match out_time line with
    | Some o => if w_out w <? o then (now, o) else (w_at w, w_out w)
    | None => (w_at w, w_out w)
    end.
Proof.
  cbv zeta. unfold watch_line, out_time. destruct (Cut "=" (TrimSpace line)) as [[key value]|]; [|done].
  destruct (bool_decide (key = "out_time_us") || bool_decide (key = "out_time_ms")).
  - destruct (Atoi value) as [us|]; [|done]. destruct (us <? 0); [done|]. cbv zeta. by destruct (w_out w <? _).
  - destruct (bool_decide (key = "speed")); [done|]. by destruct (bool_decide (key = "progress")).
Qed.

Lemma watch_fires timeout total es : ∀ w,
  w_stalled (foldl (watch_event timeout total) w es) = true ↔
  w_stalled w = true ∨ (0 < timeout ∧ w_done w = false ∧ ∃ pre now post, es = pre ++ Tick now :: post ∧
    Done ∉ pre ∧ timeout < now - last_advance (w_at w) (w_out w) pre).
Proof.
  induction es as [|e es IH]; intros w; cbn [foldl].
  { split; [by left|]. intros [?|(_ & _ & pre & now & post & E & _)]; [done|by destruct pre]. }
  rewrite IH. clear IH. destruct e as [now line|now|].
  - cbn [watch_event]. destruct (watch_line_spec total now w line) as (-> & -> & Hat).
    assert (∀ pre, last_advance (w_at (watch_line total now w line)) (w_out (watch_line total now w line)) pre =
      last_advance (w_at w) (w_out w) (LineAt now line :: pre)) as Hl.
    { intros pre. cbn [last_advance]. destruct (out_time line) as [o|]; [destruct (w_out w <? o)|];
        by injection Hat as -> ->. }
    split; (intros [?|(? & ? & pre & n & post & E & Hd & ?)]; [by left|right; split; [done|]; split; [done|]]).
    + exists (LineAt now line :: pre), n, post. rewrite <- Hl, E. split; [done|]. split; [set_solver|done].
    + destruct pre as [|e pre]; [done|]. injection E as <- ->. exists pre, n, post. rewrite Hl.
      split; [done|]. split; [set_solver|done].
  - set (w' := watch_event timeout total w (Tick now)).
    assert (w_at w' = w_at w ∧ w_out w' = w_out w ∧ w_done w' = w_done w ∧
      (w_stalled w' = true ↔ w_stalled w = true ∨
        (0 < timeout ∧ w_done w = false ∧ timeout < now - w_at w))) as (-> & -> & -> & ->).
    { unfold w', watch_event. destruct (Z.ltb_spec 0 timeout), (w_stalled w) eqn:Es, (w_done w) eqn:Ed,
        (Z.ltb_spec timeout (now - w_at w)); cbn; rewrite ?Es, ?Ed; repeat split; try done; naive_solver lia. }
    split.
    + intros [[?|(? & ? & ?)]|(? & ? & pre & n & post & E & Hd & ?)]; [by left|right|right]; (split; [done|]; split; [done|]).
      * exists [], now, es. split; [done|]. split; [set_solver|done].
      * exists (Tick now :: pre), n, post. rewrite E. split; [done|]. split; [set_solver|done].
    + intros [?|(? & ? & pre & n & post & E & Hd & ?)]; [by left; left|].
      destruct pre as [|e pre]; cbn [app] in E; injection E as <- ->; [left; right; done|].
      right. split; [done|]. split; [done|]. exists pre, n, post. split; [done|]. split; [set_solver|done].
  - cbn. split.
    + intros [?|(_ & ? & _)]; [by left|done].
    + intros [?|(? & ? & pre & n & post & E & Hd & ?)]; [by left|].
      destruct pre as [|e pre]; [done|]. injection E as <- ->. exfalso. apply Hd. by left.
Qed.

(** a title is given up exactly when ffmpeg's output time has not advanced
    for longer than the timeout at some tick before the context ended; lines
    that report no advance do not put it off. *)
Theorem watch_stall_exact timeout total started es :
  w_stalled (watch timeout total started es) = true ↔
  0 < timeout ∧ ∃ pre now post, es = pre ++ Tick now :: post ∧ Done ∉ pre ∧
    timeout < now - last_advance started 0 pre.
Proof. unfold watch. rewrite watch_fires. cbn. naive_solver. Qed.

(** C1: what an extraction leaves.  It succeeds only when it was not stopped,
    not cancelled, ffmpeg ended well and the file is there; one that stalled or
    was cancelled removes its file; one whose ffmpeg failed does not touch the
    file again. *)
Theorem Extract_outcomes e v source t dest :
  xv_mkdir v = None → xv_pipe v = None → xv_start v = None →
  let w := watch (ex_StallTimeout e) (t_DurationSecs t) (xv_started v) (xv_events v) in
  let '(ops, _, o) := Extract e v source t dest in
  let ran := [XMkdirAll (Dir dest); XRun (extract_args e source t dest)] in
  match o with
  | Ok res => w_stalled w = false ∧ xv_cancelled v = false ∧ xv_wait v = None ∧
      xv_stat v = Some (SizeBytes res) ∧ Path res = dest ∧ ops = ran ++ [XStat dest]
  | Err err =>
      ((w_stalled w = true ∨ xv_cancelled v = true) ∧ ops = ran ++ [XRemove dest] ∧
        (is_ctxCanceled err = true ↔ w_stalled w = false)) ∨
      (w_stalled w = false ∧ xv_cancelled v = false ∧ is_Some (xv_wait v) ∧ ops = ran) ∨
      (xv_wait v = None ∧ xv_stat v = None ∧ ops = ran ++ [XStat dest])
  end.
Proof.
  intros Hm Hp Hs. cbv zeta. unfold Extract. rewrite Hm, Hp, Hs.
  destruct (w_stalled _) eqn:Hw; [left; split; [by left|]; split; [done|]; split; done|].
  destruct (xv_cancelled v) eqn:Hc; [left; split; [by right|]; split; done|].
  destruct (xv_wait v) as [m|] eqn:Hwait; [right; left; eauto|].
  destruct (xv_stat v) as [size|] eqn:Hst; [|by right; right]. done.
Qed.
End extract_facts.

(** ** Witnesses *)

Definition demo_probe (n : nat) : outcome goerr probeResult :=
  match n with
  | 1%nat => Ok (mkProbeResult "5400.52" ["0"; "600"] [])
  | 2%nat => Ok (mkProbeResult "180.1" ["0"] [])
  | 4%nat => Ok (mkProbeResult "2400.0" [] [])
  | _ => Err ctxCanceled
  end.
Definition demo_ctx (_ : nat) : option goerr := None.
Definition demo_found : list Title :=
  [@probe_title caseless (mkProbeResult "5400.52" ["0"; "600"] []) 0;
   @probe_title caseless (mkProbeResult "180.1" ["0"] []) 1].

Lemma Enumerate_spec_witness :
  length demo_found = 2%nat ∧ no_title (U := caseless) (demo_probe 3).
Proof.
  destruct (@Enumerate_spec caseless demo_ctx demo_probe "/dev/sr0" demo_found) as (_ & _ & [H|H]).
  - vm_compute. reflexivity.
  - discriminate H.
  - split; [reflexivity|exact H].
Defined.

Lemma cut_short_scan_succeeds_witness :
  @Enumerate caseless demo_ctx demo_probe "/dev/sr0" = Ok demo_found.
Proof.
  refine (@cut_short_scan_succeeds caseless demo_ctx demo_probe "/dev/sr0"
    (λ i, match i with O => mkProbeResult "5400.52" ["0"; "600"] [] | _ => mkProbeResult "180.1" ["0"] [] end) 2 _ _ _ _).
  - unfold maxTitles. lia.
  - done.
  - intros [|[|i]] Hi; [| |lia]; (split; [reflexivity|vm_compute; reflexivity]).
  - exact I.
Defined.

Lemma Extract_reads_what_was_found_witness :
  ∃ n p, demo_probe n = Ok p ∧ @probe_title caseless (mkProbeResult "180.1" ["0"] []) 1 = @probe_title caseless p 1.
Proof.
  destruct (@Extract_reads_what_was_found caseless demo_ctx demo_probe "/dev/sr0" demo_found 1
    (@probe_title caseless (mkProbeResult "180.1" ["0"] []) 1) NewExtractor "/t.mkv") as (n & p & a & b & a' & b' & Hp & Ht & _).
  - vm_compute. reflexivity.
  - reflexivity.
  - exists n, p. split; [exact Hp|exact Ht].
Defined.

Definition demo_extract (es : list watchEvent) (wait : option string) : ExtractEnv :=
  mkExtractEnv None None None 0 es false wait "" (Some 900) (60 * Second).
Lemma Extract_outcomes_witness :
  (@Extract caseless (mkExtractor "ffmpeg" false (10 * Second)) (demo_extract [LineAt 1 "out_time_us=5000000"; LineAt (9 * Second) "out_time_us=5000000"; Tick (12 * Second)] None)
     "/dev/sr0" (mkTitle 0 100 0 0 "" 0 "" "" "" "" [] ∅) "/r/t.mkv").1.1 =
  [XMkdirAll "/r"; XRun (extract_args (mkExtractor "ffmpeg" false (10 * Second)) "/dev/sr0" (mkTitle 0 100 0 0 "" 0 "" "" "" "" [] ∅) "/r/t.mkv"); XRemove "/r/t.mkv"].
Proof.
  pose proof (@Extract_outcomes caseless (mkExtractor "ffmpeg" false (10 * Second))
    (demo_extract [LineAt 1 "out_time_us=5000000"; LineAt (9 * Second) "out_time_us=5000000"; Tick (12 * Second)] None)
    "/dev/sr0" (mkTitle 0 100 0 0 "" 0 "" "" "" "" [] ∅) "/r/t.mkv" eq_refl eq_refl eq_refl) as H.
  vm_compute in H. vm_compute. destruct H as [(_ & H & _)|[(H & _)|(_ & H & _)]]; [exact H|discriminate H|discriminate H].
Defined.

(** ** PAL runtimes (TrueSeconds)

    A film on a PAL disc runs at 25 frames a second instead of 24.  The source
    undoes that in float64: for every runtime of up to three hours the result is
    25/24 of it, rounded to the nearest second, a half up. *)

Definition palSpeedup : float64 := f_lit 25 24.
Definition TrueSeconds (palSeconds : Z) : Z := f_to_int (f_add (f_mul (f_of_Z palSeconds) palSpeedup) (f_lit 1 2)).
(** n * 25 / 24 to the nearest, a half up. *)
Definition true_seconds_spec (n : Z) : Z := (25 * n + 12) / 24.

(** A predicate of all numbers of a range, by computation. *)
Fixpoint all_below (n : nat) (i : Z) (p : Z → bool) : bool :=
  match n with O => true | S n => p i && all_below n (i + 1) p end.
Lemma all_below_spec n p : ∀ i, all_below n i p = true → ∀ k, i ≤ k < i + Z.of_nat n → p k = true.
Proof.
  induction n as [|n IH]; intros i; cbn [all_below]; [lia|]. intros [Hp H]%andb_true_iff k Hk.
  destruct (Z.eq_dec i k) as [->|]; [done|]. apply (IH (i + 1)); [done|lia].
Qed.

Definition three_hours : Z := 10800.
Definition samples : nat := Z.to_nat (three_hours + 1).
Lemma TrueSeconds_checked : all_below samples 0 (λ n, TrueSeconds n =? true_seconds_spec n) = true.
Proof. vm_compute. reflexivity. Qed.

(** the runtime a provider would list.  Up to three hours, the time on the
    disc is stretched by exactly 25/24 and rounded to the nearest second: the
    ratio, which float64 cannot hold, costs no second. *)
Theorem TrueSeconds_rounds n : 0 ≤ n ≤ three_hours → TrueSeconds n = true_seconds_spec n.
Proof.
  intros Hn. apply Z.eqb_eq. apply (all_below_spec _ (λ n, TrueSeconds n =? true_seconds_spec n) 0 TrueSeconds_checked).
  unfold samples, three_hours in *. rewrite Z2Nat.id; lia.
Qed.
Lemma TrueSeconds_rounds_witness : TrueSeconds 1382 = 1440.
Proof. rewrite (TrueSeconds_rounds 1382); [reflexivity|]. split; vm_compute; discriminate. Defined.
