(* ===== verification/Ifo.v ===== *)
(** * The disc's own name, out of VIDEO_TS.IFO (internal/dvd/ifo.go)

    A source is a directory with the IFO files readable in it, a regular file,
    or a device; a read is on the bytes of it.  The Video Manager begins with
    its magic on a sector boundary; it holds a provider identifier, and a
    pointer to the Text Data Manager, whose first text is the title.

    [scanForVMG_first] says what the scan of a raw disc finds,
    [DiscTitle_reads_like_a_name] what a name must look like; the examples at
    the end read the title of one disc from a directory and from a device.
    [DiscTitle_ignores_text_of_file] is a limit: the title of a plain IFO file
    is never read from its text data. *)

From S2P Require Import Prelude GoText GoPath GoScan Regex.

(** ** Bytes *)

Definition vmgMagic : string := "DVDVIDEO-VMG".
Definition providerOffset : nat := 64.
Definition providerLen : nat := 32.
Definition sectorSize : nat := Z.to_nat 2048.
Definition scanSectors : nat := Z.to_nat 4096.
Definition txtdtOffset : nat := 212.
Definition ErrNoVMG : string := "no DVDVIDEO-VMG found".

Definition str_take (n : nat) (s : string) : string := String.substring 0 n s.
(** b[from:to] *)
Definition slice (from to : nat) (s : string) : string := str_take (to - from) (str_drop from s).
(** ReadAt into a buffer of [n] bytes: what is read; io.EOF when less than [n]. *)
Definition ReadAt (b : string) (off n : nat) : string * bool :=
  let got := str_take n (str_drop off b) in
  (got, (String.length got <? n)%nat).
(** binary.BigEndian.Uint32 *)
Definition be_value (s : string) : Z := (fix go (acc : Z) (s : string) : Z :=
  match s with "" => acc | String c s' => go (Z.lor (Z.shiftl acc 8) (byte_val c)) s' end) 0 s.
Definition Uint32 (b : string) (off : nat) : Z := be_value (slice off (off + 4) b).

(** ** Runes *)

(** The non-ASCII tables of package unicode the cleaning consults. *)
Class RuneTables := { hi_letter : Z → bool; hi_print : Z → bool }.
Definition no_tables : RuneTables := {| hi_letter := λ _, true; hi_print := λ _, true |}.

(** [for _, r := range s]: each rune with its bytes. *)
Fixpoint runes_of (fuel : nat) (s : string) : list (Z * string) :=
  match fuel, s with
  | S n, String a s' =>
      let '(r, t) := decode_rune a s' in
      (r, str_take (String.length s - String.length t) s) :: runes_of n t
  | _, _ => []
  end.
Definition runes (s : string) : list (Z * string) := runes_of (String.length s) s.
Definition rune_count (s : string) : Z := Z.of_nat (length (runes s)).
(** A rune as strings.Map writes it: an invalid byte becomes U+FFFD. *)
Definition replacement : string := String (byte_of 239) (String (byte_of 191) (String (byte_of 189) "")).
Definition rune_bytes (x : Z * string) : string := if x.1 =? RuneError then replacement else x.2.

Definition is_control (r : Z) : bool := ((0 <=? r) && (r <=? 31)) || ((127 <=? r) && (r <=? 159)).

Section ifo.
Context {U : Unicode} {T : RuneTables}.

Definition is_letter (r : Z) : bool :=
  if r <? 128 then r_upper r || r_lower r else hi_letter r.
Definition is_print (r : Z) : bool :=
  if r <? 128 then (32 <=? r) && (r <=? 126) else hi_print r.

(** strings.Map dropping NUL and the control runes other than tab. *)
Definition drop_control (s : string) : string :=
  foldr (λ x acc, if (x.1 =? 0) || (is_control x.1 && negb (x.1 =? 9)) then acc else rune_bytes x +:+ acc) "" (runes s).

Definition utf8Printable (s : string) : bool :=
  forallb (λ x, negb (x.1 =? RuneError) && (is_print x.1 || (x.1 =? 32))) (runes s).
Definition letters (s : string) : Z := Z.of_nat (length (filter (λ x, is_letter x.1 = true) (runes s))).

Definition genericProviders : list string :=
  ["dvd_video"; "dvdvideo"; "dvd video"; "dvd"; "video_ts"; "untitled"; "unnamed"; "unknown"; "default"; "none";
   "copyright"; "generic"; "sony dvd video"; "dvd authoring"].
Definition isGenericProvider (s : string) : bool := bool_decide (ToLower (TrimSpace s) ∈ genericProviders).

Definition cleanProvider (raw : string) : string :=
  let s := TrimSpace (trim_right (byte_eqb nul) raw) in
  let s := TrimSpace (drop_control s) in
  if rune_count s <? 3 then ""
  else if negb (utf8Printable s) then ""
  else if letters s * 2 <? rune_count s then ""
  else if isGenericProvider s then ""
  else s.

(** ** Sources *)

(** The IFO files of a directory by their path in it, a regular file, a device. *)
Inductive node := NDir (entries : gmap string string) | NFile (b : string) | NDevice (b : string).
(** What os.Stat and the reads of a path see; [None] where Stat fails. *)
Notation source := (option node).

Definition first_vmg (entries : gmap string string) (candidates : list string) : option string :=
  head (omap (λ c, match entries !! c with Some b => if has_prefix b vmgMagic then Some b else None | None => None end) candidates).
Definition readVMG_candidates : list string :=
  ["VIDEO_TS/VIDEO_TS.IFO"; "video_ts/video_ts.ifo"; "VIDEO_TS.IFO"; "video_ts.ifo"].
Definition readVMGFile_candidates : list string :=
  ["VIDEO_TS/VIDEO_TS.IFO"; "video_ts/video_ts.ifo"; "VIDEO_TS.IFO"].

(** The loop of scanForVMG from sector [s] on, [fuel] sectors being left. *)
Fixpoint vmg_loop (fuel s : nat) (b : string) : option string :=
  match fuel with
  | O => None
  | S fuel' =>
      let '(got, err) := ReadAt b (s * sectorSize) sectorSize in
      if (String.length got <? providerOffset + providerLen)%nat then
        if err then None else vmg_loop fuel' (S s) b
      else if has_prefix got vmgMagic then Some got
      else if err then None else vmg_loop fuel' (S s) b
  end.
Definition scanForVMG (b : string) : outcome string string :=
  match vmg_loop scanSectors 0 b with Some out => Ok out | None => Err ErrNoVMG end.

Fixpoint vmg_sector_loop (fuel s : nat) (b : string) : option nat :=
  match fuel with
  | O => None
  | S fuel' =>
      let '(got, err) := ReadAt b (s * sectorSize) (String.length vmgMagic) in
      if err then None
      else if bool_decide (got = vmgMagic) then Some s else vmg_sector_loop fuel' (S s) b
  end.
Definition findVMGSector (b : string) : option nat := vmg_sector_loop scanSectors 0 b.

Definition readVMG (src : source) : outcome string string :=
  match src with
  | None => Err "open: no such file or directory"
  | Some (NDir entries) =>
      match first_vmg entries readVMG_candidates with Some b => Ok b | None => Err ErrNoVMG end
  | Some (NFile b) | Some (NDevice b) =>
      let head := str_take (providerOffset + providerLen) b in
      if (providerOffset + providerLen <=? String.length b)%nat && has_prefix head vmgMagic then Ok head
      else scanForVMG b
  end.

Definition readVMGFile (src : node) : option string :=
  match src with
  | NDir entries => first_vmg entries readVMGFile_candidates
  | NFile b | NDevice b => if has_prefix b vmgMagic then Some b else None
  end.

(** The Text Data Manager at a sector offset: none when a read fails. *)
Definition readTextData (src : node) (sectorOffset : Z) : option string :=
  let in_file (raw : string) :=
    let start := Z.to_nat (sectorOffset * Z.of_nat sectorSize) in
    if (start <? String.length raw)%nat
    then Some (slice start (Nat.min (start + sectorSize * 2) (String.length raw)) raw) else None in
  let of_device (b : string) :=
    match findVMGSector b with
    | Some base => Some (ReadAt b ((base + Z.to_nat sectorOffset) * sectorSize) (sectorSize * 2)).1
    | None => None
    end in
  match src with
  | NDevice b => of_device b
  | NFile b =>
      match (raw ← readVMGFile src; in_file raw) with Some t => Some t | None => of_device b end
  | NDir _ => raw ← readVMGFile src; in_file raw
  end.

(** [\x20-\x7e\t]{6,} *)
Definition r_printable (r : Z) : bool := rune_in 32 126 r || (r =? 9).
Definition printableRun : regex := Seq (Times 6 (Cls r_printable)) (Star true (Cls r_printable)).

Definition textDataTitle (src : node) (vmg : string) : string :=
  if (String.length vmg <? txtdtOffset + 4)%nat then ""
  else
    let sector := Uint32 vmg txtdtOffset in
    if sector =? 0 then ""
    else
      match readTextData src sector with
      | None => ""
      | Some blob =>
          if negb (MatchString printableRun blob) then ""
          else
            let m := TrimSpace (FindString printableRun blob) in
            let text := match m with String c t => if byte_eqb "="%char c then t else m | "" => "" end in
            match split_on (byte_of 9) text with
            | f :: _ => cleanProvider (TrimSpace f)
            | [] => ""
            end
      end.

Definition provider_of (raw : string) : string :=
  cleanProvider (slice providerOffset (providerOffset + providerLen) raw).
Definition DiscTitle (src : source) : outcome string string :=
  raw <-? readVMG src ;;
  let t := match src with Some n => textDataTitle n raw | None => "" end in
  if negb (bool_decide (t = "")) then Ok t
  else if (providerOffset + providerLen <=? String.length raw)%nat then Ok (provider_of raw) else Ok "".
Definition ProviderID (src : source) : outcome string string :=
  raw <-? readVMG src ;;
  if (String.length raw <? providerOffset + providerLen)%nat then Err ErrNoVMG else Ok (provider_of raw).
End ifo.

(** ** Reads *)

Lemma length_str_take n s : String.length (str_take n s) = Nat.min n (String.length s).
Proof.
  unfold str_take. revert n. induction s as [|c s IH]; intros [|n]; cbn; [done..|]. by rewrite IH.
Qed.

Lemma str_drop_length n s : String.length (str_drop n s) = (String.length s - n)%nat.
Proof. revert n. induction s as [|c s IH]; intros [|n]; cbn; [done..|]. by rewrite IH. Qed.

Lemma str_take_app_drop n s : s = str_take n s +:+ str_drop n s.
Proof.
  unfold str_take. revert n. induction s as [|c s IH]; intros [|n]; cbn; [done..|]. by rewrite <- IH.
Qed.

(** A read is short exactly when it reaches the end. *)
Lemma ReadAt_short b off n : (ReadAt b off n).2 = true ↔ (String.length b < off + n)%nat ∧ (0 < n)%nat.
Proof.
  unfold ReadAt. cbn [snd]. rewrite Nat.ltb_lt, length_str_take, str_drop_length. lia.
Qed.

Lemma Uint32_bounds b off : 0 ≤ Uint32 b off < 2 ^ 32.
Proof.
  unfold Uint32, be_value.
  assert (∀ s acc k, 0 ≤ k → 0 ≤ acc < 2 ^ k → (String.length s ≤ 4)%nat →
    0 ≤ (fix go (acc : Z) (s : string) : Z :=
      match s with "" => acc | String c s' => go (Z.lor (Z.shiftl acc 8) (byte_val c)) s' end) acc s
    < 2 ^ (k + 8 * Z.of_nat (String.length s))) as Hgo.
  { induction s as [|c s IH]; intros acc k Hk Hacc Hl; [cbn; by rewrite Z.add_0_r|].
    cbn [String.length] in *. replace (k + 8 * Z.of_nat (S (String.length s))) with ((k + 8) + 8 * Z.of_nat (String.length s)) by lia.
    apply IH; [lia| |lia]. pose proof (byte_val_bounds c).
    assert (Z.lor (Z.shiftl acc 8) (byte_val c) = acc * 256 + byte_val c) as ->.
    { pose proof (Z.add_lor_land (Z.shiftl acc 8) (byte_val c)) as E.
      assert (Z.land (Z.shiftl acc 8) (byte_val c) = 0) as Hz.
      { apply Z.bits_inj'. intros i Hi. rewrite Z.land_spec, Z.bits_0.
        destruct (Z.ltb_spec i 8); [by rewrite Z.shiftl_spec_low by lia|].
        rewrite (Z.bits_above_log2 (byte_val c)), andb_false_r; [done|lia|].
        destruct (decide (byte_val c = 0)) as [->|]; [cbn; lia|].
        apply Z.log2_lt_pow2; [lia|]. apply Z.lt_le_trans with (2 ^ 8); [lia|]. apply Z.pow_le_mono_r; lia. }
      rewrite Hz, Z.add_0_r in E. rewrite E, Z.shiftl_mul_pow2 by lia. lia. }
    rewrite Z.pow_add_r by lia. lia. }
  pose proof (length_str_take (off + 4 - off) (str_drop off b)) as Hl. unfold slice.
  specialize (Hgo (str_take (off + 4 - off) (str_drop off b)) 0 0 ltac:(lia) ltac:(by split) ltac:(lia)).
  split; [apply Hgo|]. eapply Z.lt_le_trans; [apply Hgo|]. apply Z.pow_le_mono_r; [lia|].
  rewrite Hl. lia.
Qed.

(** ** The scan *)

Lemma vmg_loop_spec fuel : ∀ s b,
  match vmg_loop fuel s b with
  | Some out => ∃ k, (s ≤ k < s + fuel)%nat ∧ out = (ReadAt b (k * sectorSize) sectorSize).1 ∧
      has_prefix out vmgMagic = true ∧ (providerOffset + providerLen ≤ String.length out)%nat ∧
      ∀ j, (s ≤ j < k)%nat → has_prefix (ReadAt b (j * sectorSize) sectorSize).1 vmgMagic = false
  | None => ∀ k, (s ≤ k < s + fuel)%nat → (k * sectorSize + sectorSize ≤ String.length b)%nat →
      has_prefix (ReadAt b (k * sectorSize) sectorSize).1 vmgMagic = false
  end.
Proof.
  induction fuel as [|fuel IH]; intros s b; cbn [vmg_loop]; [lia|].
  destruct (ReadAt b (s * sectorSize) sectorSize) as [got err] eqn:E.
  assert (err = true → (String.length b < s * sectorSize + sectorSize)%nat) as Herr.
  { intros ->. assert ((ReadAt b (s * sectorSize) sectorSize).2 = true) as H by by rewrite E.
    by apply ReadAt_short in H as [? _]. }
  assert (err = false → (sectorSize ≤ String.length got)%nat) as Hfull.
  { intros ->. pose proof E as E'. unfold ReadAt in E'. injection E' as Eg Ef. apply Nat.ltb_ge in Ef.
    by rewrite <- Eg. }
  assert (∀ k, (s ≤ k)%nat → (k * sectorSize + sectorSize ≤ String.length b)%nat →
    (s * sectorSize + sectorSize ≤ String.length b)%nat) as Hmono.
  { intros k Hk Hb. pose proof (Nat.mul_le_mono_r s k sectorSize Hk). lia. }
  assert (has_prefix got vmgMagic = false →
    match vmg_loop fuel (S s) b with
    | Some out => ∃ k, (s ≤ k < s + S fuel)%nat ∧ out = (ReadAt b (k * sectorSize) sectorSize).1 ∧
        has_prefix out vmgMagic = true ∧ (providerOffset + providerLen ≤ String.length out)%nat ∧
        ∀ j, (s ≤ j < k)%nat → has_prefix (ReadAt b (j * sectorSize) sectorSize).1 vmgMagic = false
    | None => ∀ k, (s ≤ k < s + S fuel)%nat → (k * sectorSize + sectorSize ≤ String.length b)%nat →
        has_prefix (ReadAt b (k * sectorSize) sectorSize).1 vmgMagic = false
    end) as Hnext.
  { intros Hno. specialize (IH (S s) b). destruct (vmg_loop fuel (S s) b) as [out|].
    - destruct IH as (k & Hk & Hout & Hp & Hl & Hj). exists k. split; [lia|]. split; [done|].
      split; [done|]. split; [done|]. intros j Hj'. destruct (decide (j = s)) as [->|]; [by rewrite E|].
      apply Hj. lia.
    - intros k Hk Hb. destruct (decide (k = s)) as [->|]; [by rewrite E|]. apply IH; [lia|done]. }
  assert (err = true → ∀ k, (s ≤ k < s + S fuel)%nat → (k * sectorSize + sectorSize ≤ String.length b)%nat →
    has_prefix (ReadAt b (k * sectorSize) sectorSize).1 vmgMagic = false) as Hend.
  { intros He k Hk Hb. specialize (Herr He). specialize (Hmono k ltac:(lia) Hb). lia. }
  destruct (Nat.ltb_spec (String.length got) (providerOffset + providerLen)) as [Hs|Hs].
  - destruct err; [by apply Hend|]. specialize (Hfull eq_refl).
    assert (providerOffset + providerLen ≤ sectorSize)%nat by (apply Nat.leb_le; vm_compute; reflexivity). lia.
  - destruct (has_prefix got vmgMagic) eqn:Hp.
    + exists s. split; [lia|]. rewrite E. split; [done|]. split; [done|]. split; [done|]. lia.
    + destruct err; [by apply Hend|by apply Hnext].
Qed.

(** the scan of a raw disc finds the first Video Manager: the sector it
    returns begins with the magic and no earlier sector does, and when it finds
    none no whole sector among the first 4096 begins with it. *)
Theorem scanForVMG_first b :
  match scanForVMG b with
  | Ok out => ∃ k, (k < scanSectors)%nat ∧ out = (ReadAt b (k * sectorSize) sectorSize).1 ∧
      has_prefix out vmgMagic = true ∧ (providerOffset + providerLen ≤ String.length out)%nat ∧
      ∀ j, (j < k)%nat → has_prefix (ReadAt b (j * sectorSize) sectorSize).1 vmgMagic = false
  | Err e => e = ErrNoVMG ∧ ∀ k, (k < scanSectors)%nat → (k * sectorSize + sectorSize ≤ String.length b)%nat →
      has_prefix (ReadAt b (k * sectorSize) sectorSize).1 vmgMagic = false
  end.
Proof.
  unfold scanForVMG. pose proof (vmg_loop_spec scanSectors 0 b) as H.
  destruct (vmg_loop scanSectors 0 b) as [out|].
  - destruct H as (k & Hk & Hout & Hp & Hl & Hj). exists k. split; [lia|]. repeat (split; [done|]).
    intros j ?. apply Hj. lia.
  - split; [done|]. intros k ? ?. apply H; [lia|done].
Qed.

(** ** Names *)

Section names.
Context {U : Unicode} {T : RuneTables}.

(** A name the cleaning lets through. *)
Definition good_name (s : string) : Prop :=
  3 ≤ rune_count s ∧ Forall (λ x, x.1 ≠ RuneError ∧ (is_print x.1 = true ∨ x.1 = 32)) (runes s) ∧
  rune_count s ≤ 2 * letters s ∧ isGenericProvider s = false.

Lemma cleanProvider_good raw : cleanProvider raw = "" ∨ good_name (cleanProvider raw).
Proof.
  unfold cleanProvider. set (s := TrimSpace (drop_control _)). clearbody s.
  destruct (Z.ltb_spec (rune_count s) 3); [by left|].
  destruct (utf8Printable s) eqn:Hu; cbn [negb]; [|by left].
  destruct (Z.ltb_spec (letters s * 2) (rune_count s)); [by left|].
  destruct (isGenericProvider s) eqn:Hg; [by left|]. right. split; [done|]. split; [|split; [lia|done]].
  unfold utf8Printable in Hu. apply Forall_forall. intros x Hx.
  rewrite forallb_forall in Hu. apply list_elem_of_In in Hx. specialize (Hu x Hx).
  apply andb_true_iff in Hu as [H1%negb_true_iff H2]. apply Z.eqb_neq in H1. split; [done|].
  apply orb_true_iff in H2. by rewrite Z.eqb_eq in H2.
Qed.

Lemma textDataTitle_good src vmg : textDataTitle src vmg = "" ∨ good_name (textDataTitle src vmg).
Proof.
  unfold textDataTitle. destruct (_ <? _)%nat; [by left|]. destruct (_ =? 0); [by left|].
  destruct (readTextData src _); [|by left]. destruct (negb _); [by left|].
  destruct (split_on _ _); [by left|]. apply cleanProvider_good.
Qed.

(** a name the disc gives itself is one that reads like a name, or none at
    all: three runes at least, all valid and printable, half of them letters,
    and none of the names authoring tools write by default. *)
Theorem DiscTitle_reads_like_a_name src t : DiscTitle src = Ok t → t = "" ∨ good_name t.
Proof.
  unfold DiscTitle. destruct (readVMG src) as [raw|]; cbn [obind]; [|done].
  destruct (bool_decide _) eqn:E; cbn [negb].
  - destruct (_ <=? _)%nat; intros [= <-]; [apply cleanProvider_good|by left].
  - intros [= <-]. destruct src; [apply textDataTitle_good|by left].
Qed.

(** the text title of a plain IFO file is never read.  readVMG hands back
    the first 96 bytes of a regular file, and the pointer to the text data is at
    offset 212, so a file's name is its provider identifier whatever text data
    the file holds. *)
Theorem DiscTitle_ignores_text_of_file b :
  has_prefix b vmgMagic = true → (providerOffset + providerLen ≤ String.length b)%nat →
  DiscTitle (Some (NFile b)) = Ok (provider_of (str_take (providerOffset + providerLen) b)).
Proof.
  intros Hp Hl. unfold DiscTitle, readVMG. rewrite (proj2 (Nat.leb_le _ _)) by done.
  assert (has_prefix (str_take (providerOffset + providerLen) b) vmgMagic = true) as ->.
  { unfold has_prefix in *. apply prefix_spec in Hp as [t ->].
    change (providerOffset + providerLen)%nat with (String.length vmgMagic + 84)%nat.
    generalize (84)%nat as k. intros k. unfold str_take.
    assert (String.substring 0 (String.length vmgMagic + k) (vmgMagic +:+ t) = vmgMagic +:+ String.substring 0 k t) as ->
      by (cbn; by destruct t).
    apply prefix_spec. eauto. }
  cbn [andb obind].
  assert (String.length (str_take (providerOffset + providerLen) b) = (providerOffset + providerLen)%nat) as Hlen
    by (rewrite length_str_take; lia).
  assert (textDataTitle (NFile b) (str_take (providerOffset + providerLen) b) = "") as ->.
  { unfold textDataTitle. rewrite Hlen. reflexivity. }
  cbn [negb]. rewrite bool_decide_eq_true_2 by done. cbn [negb]. by rewrite Hlen.
Qed.
End names.

(** ** Samples *)

Definition pad (n : nat) : string := String.concat "" (replicate n (String nul "")).
Definition tab : string := String (byte_of 9) "".
Definition karate_ifo : string :=
  vmgMagic +:+ pad 200 +:+ pad 3 +:+ String (byte_of 1) "" +:+ pad (Z.to_nat 1832) +:+
  pad 20 +:+ "=The Karate Kid (Special Edition)" +:+ tab +:+ "Karate Kid, The (Special Edition)" +:+ tab +:+ pad 40.
Definition karate_dir (name : string) : option node := Some (NDir {[name := karate_ifo]}).

Example karate_directory :
  @DiscTitle caseless no_tables (karate_dir "VIDEO_TS/VIDEO_TS.IFO") = Ok "The Karate Kid (Special Edition)".
Proof. vm_compute. reflexivity. Qed.
Example karate_device :
  @DiscTitle caseless no_tables (Some (NDevice (pad (2 * sectorSize) +:+ karate_ifo))) = Ok "The Karate Kid (Special Edition)".
Proof. vm_compute. reflexivity. Qed.
(** The same file, given by its path, and under the name readVMGFile leaves out. *)
Example karate_file : @DiscTitle caseless no_tables (Some (NFile karate_ifo)) = Ok "".
Proof. vm_compute. reflexivity. Qed.
Example karate_lower_case : @DiscTitle caseless no_tables (karate_dir "video_ts.ifo") = Ok "".
Proof. vm_compute. reflexivity. Qed.

Lemma DiscTitle_reads_like_a_name_witness :
  "The Karate Kid (Special Edition)" = "" ∨ @good_name caseless no_tables "The Karate Kid (Special Edition)".
Proof.
  apply (@DiscTitle_reads_like_a_name caseless no_tables (karate_dir "VIDEO_TS/VIDEO_TS.IFO")).
  vm_compute. reflexivity.
Defined.

Lemma DiscTitle_ignores_text_of_file_witness :
  @DiscTitle caseless no_tables (Some (NFile karate_ifo)) = Ok (@provider_of caseless no_tables (str_take 96 karate_ifo)).
Proof.
  apply (@DiscTitle_ignores_text_of_file caseless no_tables karate_ifo); [vm_compute; reflexivity|].
  apply Nat.leb_le. vm_compute. reflexivity.
Defined.
