(* ===== verification/BdInfo.v ===== *)
(** * Reading a Blu-ray without decrypting it (internal/bluray/bluray.go)

    The output of bd_info and bd_list_titles is a string; the parsers run the
    source's regular expression and its line loop on it.

    [parse_title_line_roundtrip]: a line that lists a playlist gives the
    playlist back, whatever blanks separate its fields.  [Content_spec] says
    which playlists are kept and in what order, [Titles_spec] which titles they
    become. *)

From S2P Require Import Prelude GoText GoScan Regex Disc.

Record Protection := mkProtection {
  AACS : bool;
  BDPlus : bool;
  AACSHandled : bool;
  BDPlusHandled : bool;
  BDJ : bool;
  DiscID : string;
  MKBVersion : Z;
}.
Definition NeedsMakeMKV (p : Protection) : bool := BDPlus p && negb (BDPlusHandled p).
Definition em_dash : string := String (byte_of 226) (String (byte_of 128) (String (byte_of 148) "")).
Definition Describe (p : Protection) : string :=
  if BDPlus p && negb (BDPlusHandled p) then "BD+ (not handled " +:+ em_dash +:+ " needs MakeMKV)"
  else if BDPlus p then "AACS + BD+"
  else if AACS p && AACSHandled p then "AACS"
  else if AACS p then "AACS (not handled)"
  else "none".

Record Playlist := mkPlaylist {
  pl_Index : Z;
  pl_File : string;
  pl_DurationSecs : Z;
  pl_Chapters : Z;
  pl_Angles : Z;
  pl_Clips : Z;
  pl_Video : Z;
  pl_Audio : Z;
  pl_Subtitles : Z;
  pl_Overlays : Z;
}.
#[global] Instance playlist_eq_dec : EqDecision Playlist.
Proof. solve_decision. Defined.

Record Info := mkInfo {
  in_VolumeLabel : string;
  in_DiscName : string;
  in_Thumbnails : list string;
  in_Protection : Protection;
  in_MainTitle : Z;
  in_Playlists : list Playlist;
}.
Definition no_info : Info := mkInfo "" "" [] (mkProtection false false false false false "" 0) 0 [].

(** ** Content *)

Definition minRealSecs : Z := 60.
Definition file_le (a b : Playlist) : Prop := String.leb (pl_File a) (pl_File b) = true.
#[global] Instance file_le_dec : RelDecision file_le.
Proof. intros a b. unfold file_le. apply _. Defined.

(** fmt.Sprintf("%d|%d|%d|%d|%d", ...) *)
Definition layout_key (p : Playlist) : string :=
  itoa (pl_DurationSecs p) +:+ "|" +:+ itoa (pl_Chapters p) +:+ "|" +:+ itoa (pl_Video p) +:+ "|" +:+
  itoa (pl_Audio p) +:+ "|" +:+ itoa (pl_Subtitles p).
Fixpoint dedupe_from (seen : gset string) (l : list Playlist) : list Playlist :=
  match l with
  | [] => []
  | p :: l' =>
      if bool_decide (layout_key p ∈ seen) then dedupe_from seen l'
      else p :: dedupe_from ({[layout_key p]} ∪ seen) l'
  end.
Definition dedupe (l : list Playlist) : list Playlist := dedupe_from ∅ l.

Definition real_content (minSecs : Z) (p : Playlist) : Prop := minSecs ≤ pl_DurationSecs p ∧ 1 ≤ pl_Audio p.
#[global] Instance real_content_dec m p : Decision (real_content m p).
Proof. unfold real_content. apply _. Defined.
Definition min_secs (minSecs : Z) : Z := if minSecs <=? 0 then minRealSecs else minSecs.
Definition Content (i : Info) (minSecs : Z) : list Playlist :=
  dedupe (merge_sort file_le (filter (real_content (min_secs minSecs)) (in_Playlists i))).

(** [count] streams of a kind, numbered from [n]. *)
Definition add_streams (kind : string) (n : Z) (count : Z) : list Stream :=
  (λ c, mkStream (n + Z.of_nat c) kind "" "" "" 0 "" "" "" "" "" "" "" ∅) <$> seq 0 (Z.to_nat count).
Definition placeholderStreams (p : Playlist) : list Stream :=
  add_streams "video" 0 (pl_Video p) ++
  add_streams "audio" (Z.max 0 (pl_Video p)) (pl_Audio p) ++
  add_streams "subtitle" (Z.max 0 (pl_Video p) + Z.max 0 (pl_Audio p)) (pl_Subtitles p).
Definition playlist_title (n : Z) (p : Playlist) : Title :=
  mkTitle n (pl_DurationSecs p) (pl_Chapters p) 0 (pl_File p) 0 "" "" (TitleFileName n) "" (placeholderStreams p) ∅.
Definition Titles (i : Info) (minSecs : Z) : list Title :=
  imap (λ n p, playlist_title (Z.of_nat n) p) (Content i minSecs).

(** ** Parsing *)

Fixpoint seqs (l : list regex) : regex :=
  match l with [] => Eps | [r] => r | r :: l' => Seq r (seqs l') end.
Definition sp0 : regex := Star true (Cls r_space).
Definition sp1 : regex := Plus (Cls r_space).
Definition num (n : nat) : regex := Cap n (Plus (Cls r_digit)).
Definition not_paren (r : Z) : bool := negb (r_is ")" r).
Definition titleLine : regex := seqs
  [lit "index:"; sp0; num 1; sp1; lit "duration:"; sp0; num 2; lit ":"; Cap 3 (Times 2 (Cls r_digit)); lit ":";
   Cap 4 (Times 2 (Cls r_digit)); sp1; lit "chapters:"; sp0; num 5; sp1; lit "angles:"; sp0; num 6; sp1;
   lit "clips:"; sp0; num 7; sp1; lit "(playlist:"; sp0; Cap 8 (Seq (Cls not_paren) (Star false (Cls not_paren)));
   lit ")"; sp0; lit "V:"; num 9; sp1; lit "A:"; num 10; sp1; lit "PG:"; num 11; sp1; lit "IG:"; num 12].
Definition mainTitleLine : regex := seqs [BeginText; lit "Main title:"; sp0; num 1].

(** strconv.Atoi with the error ignored: out of range gives the nearest value. *)
Definition Atoi_ignore (s : string) : Z :=
  match Atoi s with
  | Some v => v
  | None =>
      match s with
      | String c t =>
          if byte_eqb dash c && is_digits t then - 2 ^ 63
          else if byte_eqb "+"%char c && is_digits t || is_digits s then 2 ^ 63 - 1 else 0
      | "" => 0
      end
  end.

Section parse.
Context {U : Unicode}.

Definition atoi (s : string) : Z := Atoi_ignore (TrimSpace s).

(** A line of bd_list_titles. *)
Definition parse_title_line (line : string) : option Playlist :=
  match FindStringSubmatch titleLine line with
  | None => None
  | Some m =>
      let g n := cap n m in
      Some (mkPlaylist (atoi (g 1%nat)) (TrimSpace (g 8%nat))
        (int64 (atoi (g 2%nat) * 3600 + atoi (g 3%nat) * 60 + atoi (g 4%nat)))
        (atoi (g 5%nat)) (atoi (g 6%nat)) (atoi (g 7%nat)) (atoi (g 9%nat)) (atoi (g 10%nat)) (atoi (g 11%nat))
        (atoi (g 12%nat)))
  end.
Definition titles_line (st : Z * list Playlist) (line : string) : Z * list Playlist :=
  match FindStringSubmatch mainTitleLine (TrimSpace line) with
  | Some m => (atoi (cap 1 m), st.2)
  | None =>
      match parse_title_line line with
      | Some p => (st.1, st.2 ++ [p])
      | None => st
      end
  end.
Definition ParseTitles (out : string) : Z * list Playlist :=
  foldl titles_line (-1, []) (scan_lines (1024 * 1024) out).

Definition splitField (line : string) : option (string * string) :=
  match str_index (byte_eqb ":"%char) line with
  | None => None
  | Some i =>
      let key := ToLower (TrimSpace (String.substring 0 i line)) in
      if bool_decide (key = "") then None else Some (key, TrimSpace (str_drop (S i) line))
  end.
Definition isYes (s : string) : bool := EqualFold (TrimSpace s) "yes".

Definition set_protection (i : Info) (p : Protection) : Info :=
  mkInfo (in_VolumeLabel i) (in_DiscName i) (in_Thumbnails i) p (in_MainTitle i) (in_Playlists i).
(** The switch on a field's key: the info, and whether thumbnails follow. *)
Definition info_field (i : Info) (key value : string) : Info * bool :=
  let p := in_Protection i in
  let '(mkProtection a b ah bh j d m) := p in
  let keep x := (x, false) in
  if bool_decide (key = "volume identifier") then
    keep (mkInfo value (in_DiscName i) (in_Thumbnails i) p (in_MainTitle i) (in_Playlists i))
  else if bool_decide (key = "disc name") then
    keep (mkInfo (in_VolumeLabel i) value (in_Thumbnails i) p (in_MainTitle i) (in_Playlists i))
  else if bool_decide (key = "aacs detected") then keep (set_protection i (mkProtection (isYes value) b ah bh j d m))
  else if bool_decide (key = "aacs handled") then keep (set_protection i (mkProtection a b (isYes value) bh j d m))
  else if bool_decide (key = "bd+ detected") then keep (set_protection i (mkProtection a (isYes value) ah bh j d m))
  else if bool_decide (key = "bd+ handled") then keep (set_protection i (mkProtection a b ah (isYes value) j d m))
  else if bool_decide (key = "bd-j detected") then keep (set_protection i (mkProtection a b ah bh (isYes value) d m))
  else if bool_decide (key = "disc id") then keep (set_protection i (mkProtection a b ah bh j value m))
  else if bool_decide (key = "aacs mkb version") then keep (set_protection i (mkProtection a b ah bh j d (atoi value)))
  else (i, bool_decide (key = "thumbnail count")).

(** One line: the info and whether a list of thumbnails is being read. *)
Definition info_line (st : Info * bool) (raw : string) : Info * bool :=
  let '(i, inThumbs) := st in
  let line := TrimSpace raw in
  let indented := has_prefix raw (String (byte_of 9) "") in
  if inThumbs && indented then
    if negb (bool_decide (line = "")) && negb (contains line ":")
    then (mkInfo (in_VolumeLabel i) (in_DiscName i) (in_Thumbnails i ++ [line]) (in_Protection i) (in_MainTitle i) (in_Playlists i), true)
    else (i, true)
  else match splitField line with
       | Some (key, value) => info_field i key value
       | None => (i, false)
       end.
Definition ParseInfo (out : string) : Info :=
  (foldl info_line (no_info, false) (scan_lines (1024 * 1024) out)).1.

(** ** The disc *)

Definition info_Disc (i : Info) (minSecs : Z) : Disc :=
  let ts := Titles i minSecs in
  mkDisc (ComputeFingerprint (in_VolumeLabel i) ts) (in_VolumeLabel i) "" TypeBluRay 0 None "" "" "" ts.

(** Enumerate: bd_info, then bd_list_titles; the second failing keeps what the first gave. *)
Definition Enumerate (info titles : outcome string string) : option Info * option string :=
  match info with
  | Err e => (None, Some ("bd_info: " +:+ e))
  | Ok out =>
      let i := ParseInfo out in
      match titles with
      | Err e => (Some i, Some ("bd_list_titles: " +:+ e))
      | Ok out =>
          let '(main, pls) := ParseTitles out in
          (Some (mkInfo (in_VolumeLabel i) (in_DiscName i) (in_Thumbnails i) (in_Protection i) main pls), None)
      end
  end.
End parse.

Definition sample_titles : string :=
  "Main title: 8" +:+ String newline "" +:+
  "index:   7 duration: 00:42:43 chapters:  13 angles:  1 clips:   1 (playlist: 00002.mpls) V:1 A:5  PG:6  IG:0  SV:0 SA:0" +:+
  String newline "junk".
Example parse_sample :
  @ParseTitles caseless sample_titles = (8, [mkPlaylist 7 "00002.mpls" 2563 13 1 1 1 5 6 0]).
Proof. vm_compute. reflexivity. Qed.

(** ** A line and the playlist it lists *)

Section steps.
Context {R : Type}.
Implicit Types k : pos → captures → option R.

Lemma seq_lit u b pv t c k x : is_ascii u = true →
  run b (mkPos (last_of pv u) t) c k = Some x → run (Seq (lit u) b) (mkPos pv (u +:+ t)) c k = Some x.
Proof. intros Hu H. by rewrite run_seq, run_lit. Qed.

Lemma seq_sp0 b w pv t c k x : within r_space w = true → stops r_space t = true →
  run b (mkPos (last_of pv w) t) c k = Some x → run (Seq sp0 b) (mkPos pv (w +:+ t)) c k = Some x.
Proof. intros. rewrite run_seq. by apply run_star_greedy. Qed.

Lemma seq_sp1 b w pv t c k x : w ≠ "" → within r_space w = true → stops r_space t = true →
  run b (mkPos (last_of pv w) t) c k = Some x → run (Seq sp1 b) (mkPos pv (w +:+ t)) c k = Some x.
Proof. intros. rewrite run_seq. by apply run_plus_greedy. Qed.

Lemma seq_num n b u pv t c k x : u ≠ "" → within r_digit u = true → stops r_digit t = true →
  run b (mkPos (last_of pv u) t) ((n, u) :: c) k = Some x →
  run (Seq (num n) b) (mkPos pv (u +:+ t)) c k = Some x.
Proof.
  intros Hne Hu Ht H. rewrite run_seq. unfold num. rewrite run_cap.
  apply run_plus_greedy; [done..|]. by rewrite text_between_app.
Qed.

Lemma seq_two n b d e pv t c k x : within r_digit (String d (String e "")) = true →
  run b (mkPos (Some e) t) ((n, String d (String e "")) :: c) k = Some x →
  run (Seq (Cap n (Times 2 (Cls r_digit))) b) (mkPos pv (String d (String e t))) c k = Some x.
Proof.
  intros (Hd & Hfd & (He & Hfe & _)%within_cons)%within_cons H.
  rewrite run_seq, run_cap. cbn [Times]. rewrite run_seq, run_cls, Hfd by done.
  rewrite run_seq, run_cls, Hfe by done. cbn [run holds_here].
  change (String d (String e t)) with (String d (String e "") +:+ t). by rewrite text_between_app.
Qed.

Lemma seq_file n b u pv t c k x : u ≠ "" → within not_paren u = true →
  run (Seq (lit ")") b) (mkPos (last_of pv u) t) ((n, u) :: c) k = Some x →
  run (Seq (Cap n (Seq (Cls not_paren) (Star false (Cls not_paren)))) (Seq (lit ")") b)) (mkPos pv (u +:+ t)) c k = Some x.
Proof.
  intros Hne Hu H. rewrite run_seq, run_cap. apply run_plus_lazy; [done..| |].
  - intros pv' a s c' Ha. rewrite run_seq. cbn [run lit].
    destruct (next (mkPos pv' (String a s))) as [[r q]|] eqn:E; [|done].
    destruct (r_is ")" r) eqn:Hr; [|done]. unfold r_is in Hr. apply Z.eqb_eq in Hr as ->.
    unfold next in E. cbn [rest] in E. destruct (decode_rune a s) as [r t'] eqn:D. injection E as -> _.
    pose proof (decode_rune_small a s) as Hs. rewrite D in Hs. specialize (Hs ltac:(reflexivity)).
    rewrite decode_rune_ascii in D by done. injection D as D _. unfold not_paren, r_is in Ha.
    by rewrite D, Z.eqb_refl in Ha.
  - by rewrite text_between_app.
Qed.

Lemma last_num n u pv t c k x : u ≠ "" → within r_digit u = true → stops r_digit t = true →
  k (mkPos (last_of pv u) t) ((n, u) :: c) = Some x → run (num n) (mkPos pv (u +:+ t)) c k = Some x.
Proof.
  intros. unfold num. rewrite run_cap. apply run_plus_greedy; [done..|]. by rewrite text_between_app.
Qed.
End steps.

Lemma stops_within f g u t : u ≠ "" → within g u = true → (∀ r, g r = true → f r = false) →
  stops f (u +:+ t) = true.
Proof.
  intros Hne Hu Hgf. destruct u as [|a u]; [done|]. apply within_cons in Hu as (Ha & Hg & _).
  cbn [String.append]. apply stops_ascii; [done|]. by apply Hgf.
Qed.

Lemma within_digit_space u t : u ≠ "" → within r_digit u = true → stops r_space (u +:+ t) = true.
Proof.
  intros Hne Hu. eapply stops_within; [done|exact Hu|]. intros r Hr. unfold r_digit, rune_in in Hr. breflect.
  unfold r_space. repeat (rewrite (proj2 (Z.eqb_neq _ _)) by lia). done.
Qed.

Lemma within_space_digit u t : u ≠ "" → within r_space u = true → stops r_digit (u +:+ t) = true.
Proof.
  intros Hne Hu. eapply stops_within; [done|exact Hu|]. intros r Hr. unfold r_space in Hr.
  unfold r_digit, rune_in. apply andb_false_iff. rewrite !orb_true_iff, !Z.eqb_eq in Hr. rewrite !Z.leb_gt. lia.
Qed.

(** A number as a field of the line. *)
Definition numeral (u : string) (n : Z) : Prop := is_digits u = true ∧ digits_value 0 u = n ∧ 0 ≤ n < 2 ^ 63.

Lemma numeral_itoa n : 0 ≤ n < 2 ^ 63 → numeral (itoa n) n.
Proof. intros. split; [apply itoa_is_digits; lia|]. split; [apply itoa_digits_value; lia|done]. Qed.

Lemma numeral_itoa02 n : 0 ≤ n < 2 ^ 63 → numeral (itoa02 n) n.
Proof.
  intros. unfold itoa02. destruct (_ && _); [|by apply numeral_itoa].
  destruct (numeral_itoa n) as (Hd & Hv & _); [done|]. split; [|split; [|done]].
  - unfold is_digits in *. apply andb_true_iff in Hd as [_ Hd]. cbn [String.append str_forall]. by rewrite Hd.
  - cbn [String.append digits_value]. exact Hv.
Qed.

Lemma numeral_within u n : numeral u n → u ≠ "" ∧ within r_digit u = true.
Proof.
  intros (Hd & _). unfold is_digits in Hd. apply andb_true_iff in Hd as [Hne Hd].
  apply negb_true_iff, bool_decide_eq_false in Hne. split; [done|]. by apply digits_within.
Qed.

Lemma two_digits n : 0 ≤ n < 100 → ∃ d e, itoa02 n = String d (String e "") ∧
  within r_digit (String d (String e "")) = true.
Proof.
  intros Hn.
  assert (forallb (λ n, match itoa02 n with String d (String e "") => within r_digit (String d (String e "")) | _ => false end)
    (seqZ 0 100) = true) as H by (vm_compute; reflexivity).
  rewrite forallb_forall in H. specialize (H n). rewrite <- list_elem_of_In, elem_of_seqZ in H.
  specialize (H ltac:(lia)). destruct (itoa02 n) as [|d [|e [|]]]; try done. eauto.
Qed.

Section trim_id.
Context {U : Unicode}.

Lemma TrimSpace_id s : s ≠ "" → str_forall (λ c, is_ascii_byte c && negb (is_space_byte c)) s = true → TrimSpace s = s.
Proof.
  intros Hne Hs. unfold TrimSpace.
  assert (trim_left is_space_byte s = s) as ->.
  { destruct s as [|c s]; [done|]. cbn [str_forall trim_left] in *.
    apply andb_true_iff in Hs as [[_ Hc%negb_true_iff]%andb_true_iff _]. by rewrite Hc. }
  assert (∃ c, str_last s = Some c ∧ is_ascii_byte c = true ∧ is_space_byte c = false) as (c & Hl & Hc & Hsp).
  { induction s as [|c s IH]; [done|]. cbn [str_forall] in Hs. apply andb_true_iff in Hs as [Hc Hs].
    destruct s as [|d s]; [|by apply IH]. apply andb_true_iff in Hc as [? ?%negb_true_iff]. by exists c. }
  assert (trim_right is_space_byte s = s) as ->.
  { revert Hl. clear Hs Hne. induction s as [|d s IH]; [done|]. cbn [trim_right]. destruct s as [|e s].
    - intros [= ->]. cbn. by rewrite Hsp.
    - intros Hl. change (str_last (String d (String e s))) with (str_last (String e s)) in Hl. by rewrite IH. }
  rewrite Hl, Hc. destruct s as [|d s]; [done|]. cbn [str_head str_forall] in *.
  by apply andb_true_iff in Hs as [[-> _]%andb_true_iff _].
Qed.

Lemma atoi_numeral u n : numeral u n → atoi u = n.
Proof.
  intros Hn. pose proof Hn as (Hd & Hv & ?). unfold atoi. rewrite TrimSpace_id.
  - unfold Atoi_ignore. by rewrite Atoi_digits, Hv by (rewrite ?Hv; lia || done).
  - by apply numeral_within in Hn as [? _].
  - unfold is_digits in Hd. apply andb_true_iff in Hd as [_ Hd]. eapply str_forall_impl; [|exact Hd].
    intros c. unfold is_digit_byte, is_ascii_byte, is_space_byte, in_range. intros Hc. breflect.
    apply andb_true_iff. split; [apply Z.ltb_lt; lia|]. apply negb_true_iff, orb_false_iff.
    split; [apply andb_false_iff; right; apply Z.leb_gt; lia|apply Z.eqb_neq; lia].
Qed.

(** A line of bd_list_titles: [w] are the blanks between its fields. *)
Definition title_text (w : nat → string) (h m s : Z) (p : Playlist) (tail : string) : string :=
  "index:" +:+ w 0%nat +:+ itoa (pl_Index p) +:+ w 1%nat +:+ "duration:" +:+ w 2%nat +:+ itoa02 h +:+ ":" +:+
  itoa02 m +:+ ":" +:+ itoa02 s +:+ w 3%nat +:+ "chapters:" +:+ w 4%nat +:+ itoa (pl_Chapters p) +:+ w 5%nat +:+
  "angles:" +:+ w 6%nat +:+ itoa (pl_Angles p) +:+ w 7%nat +:+ "clips:" +:+ w 8%nat +:+ itoa (pl_Clips p) +:+
  w 9%nat +:+ "(playlist:" +:+ w 10%nat +:+ pl_File p +:+ ")" +:+ w 11%nat +:+ "V:" +:+ itoa (pl_Video p) +:+
  w 12%nat +:+ "A:" +:+ itoa (pl_Audio p) +:+ w 13%nat +:+ "PG:" +:+ itoa (pl_Subtitles p) +:+ w 14%nat +:+
  "IG:" +:+ itoa (pl_Overlays p) +:+ tail.

(** Blanks where one is needed are not empty. *)
Definition blanks (w : nat → string) : Prop :=
  (∀ i, within r_space (w i) = true) ∧ Forall (λ i, w i ≠ "") [1; 3; 5; 7; 9; 12; 13; 14]%nat.
Definition listed (p : Playlist) : Prop :=
  Forall (λ n, 0 ≤ n < 2 ^ 63) [pl_Index p; pl_Chapters p; pl_Angles p; pl_Clips p; pl_Video p; pl_Audio p; pl_Subtitles p; pl_Overlays p] ∧
  pl_File p ≠ "" ∧ str_forall (λ c, is_ascii_byte c && negb (is_space_byte c) && negb (byte_eqb ")"%char c)) (pl_File p) = true.
End trim_id.

Lemma file_within u : str_forall (λ c, is_ascii_byte c && negb (is_space_byte c) && negb (byte_eqb ")"%char c)) u = true →
  within not_paren u = true ∧ within (λ r, negb (r_space r)) u = true ∧
  str_forall (λ c, is_ascii_byte c && negb (is_space_byte c)) u = true.
Proof.
  intros Hu. split; [|split]; (eapply str_forall_impl; [|exact Hu]); intros c;
    destruct c as [[] [] [] [] [] [] [] []]; vm_compute; done.
Qed.

Lemma title_text_match w h m s p tail :
  blanks w → listed p → 0 ≤ h < 2 ^ 31 → 0 ≤ m < 100 → 0 ≤ s < 100 → stops r_digit tail = true →
  ∃ q, match_here titleLine (start (title_text w h m s p tail)) =
    Some (q, [(12, itoa (pl_Overlays p)); (11, itoa (pl_Subtitles p)); (10, itoa (pl_Audio p)); (9, itoa (pl_Video p));
              (8, pl_File p); (7, itoa (pl_Clips p)); (6, itoa (pl_Angles p)); (5, itoa (pl_Chapters p));
              (4, itoa02 s); (3, itoa02 m); (2, itoa02 h); (1, itoa (pl_Index p))])%nat.
Proof.
  intros [Hw Hne] [Hnum [Hfne Hfile]] Hh Hm Hs Htail.
  rewrite !Forall_cons in Hne. destruct Hne as (N1 & N3 & N5 & N7 & N9 & N12 & N13 & N14 & _).
  rewrite !Forall_cons in Hnum. destruct Hnum as (P1 & P2 & P3 & P4 & P5 & P6 & P7 & P8 & _).
  apply numeral_itoa, numeral_within in P1 as [? ?], P2 as [? ?], P3 as [? ?], P4 as [? ?], P5 as [? ?],
    P6 as [? ?], P7 as [? ?], P8 as [? ?].
  assert (numeral (itoa02 h) h) as [Hh1 Hh2]%numeral_within by (apply numeral_itoa02; assert (2 ^ 31 < 2 ^ 63) by done; lia).
  destruct (two_digits m Hm) as (m1 & m2 & Em & Hm2), (two_digits s Hs) as (s1 & s2 & Es & Hs2).
  destruct (file_within _ Hfile) as (Hf1 & Hf2 & _).
  unfold match_here, start, title_text, titleLine, seqs. rewrite Em, Es. eexists.
  apply seq_lit; [done|]. apply seq_sp0; [apply Hw|by apply within_digit_space|].
  apply seq_num; [done|done|by apply within_space_digit|]. apply seq_sp1; [done|apply Hw|done|].
  apply seq_lit; [done|]. apply seq_sp0; [apply Hw|by apply within_digit_space|].
  apply seq_num; [done|done|done|]. apply seq_lit; [done|].
  apply (seq_two 3 _ m1 m2); [done|]. apply (seq_lit ":"); [done|].
  apply (seq_two 4 _ s1 s2); [done|]. apply seq_sp1; [done|apply Hw|done|].
  apply seq_lit; [done|]. apply seq_sp0; [apply Hw|by apply within_digit_space|].
  apply seq_num; [done|done|by apply within_space_digit|]. apply seq_sp1; [done|apply Hw|done|].
  apply seq_lit; [done|]. apply seq_sp0; [apply Hw|by apply within_digit_space|].
  apply seq_num; [done|done|by apply within_space_digit|]. apply seq_sp1; [done|apply Hw|done|].
  apply seq_lit; [done|]. apply seq_sp0; [apply Hw|by apply within_digit_space|].
  apply seq_num; [done|done|by apply within_space_digit|]. apply seq_sp1; [done|apply Hw|done|].
  apply seq_lit; [done|]. apply seq_sp0; [apply Hw| |].
  { eapply stops_within; [done|exact Hf2|]. intros r Hr. by apply negb_true_iff. }
  apply seq_file; [done|done|]. apply (seq_lit ")"); [done|]. apply seq_sp0; [apply Hw|done|].
  apply seq_lit; [done|]. apply seq_num; [done|done|by apply within_space_digit|]. apply seq_sp1; [done|apply Hw|done|].
  apply seq_lit; [done|]. apply seq_num; [done|done|by apply within_space_digit|]. apply seq_sp1; [done|apply Hw|done|].
  apply seq_lit; [done|]. apply seq_num; [done|done|by apply within_space_digit|]. apply seq_sp1; [done|apply Hw|done|].
  apply seq_lit; [done|]. apply last_num; [done|done|done|]. reflexivity.
Qed.

Section roundtrip.
Context {U : Unicode}.

(** a line of bd_list_titles is read back as the playlist it lists, field
    for field, whatever blanks separate its fields and whatever follows them. *)
Theorem parse_title_line_roundtrip w h m s p tail :
  blanks w → listed p → 0 ≤ h < 2 ^ 31 → 0 ≤ m < 100 → 0 ≤ s < 100 →
  pl_DurationSecs p = h * 3600 + m * 60 + s → stops r_digit tail = true →
  parse_title_line (title_text w h m s p tail) = Some p.
Proof.
  intros Hw Hp Hh Hm Hs Hd Htail.
  destruct (title_text_match w h m s p tail Hw Hp Hh Hm Hs Htail) as [q Hq].
  unfold parse_title_line, FindStringSubmatch.
  rewrite (find_from_here _ _ _ _ Hq). clear Hq. cbv zeta.
  repeat (rewrite cap_here || rewrite cap_there by lia).
  destruct Hp as [Hnum [Hfne Hfile]]. rewrite !Forall_cons in Hnum.
  destruct Hnum as (P1 & P2 & P3 & P4 & P5 & P6 & P7 & P8 & _).
  assert (2 ^ 31 < 2 ^ 63) by done.
  rewrite (atoi_numeral (itoa02 h) h) by (apply numeral_itoa02; lia).
  rewrite (atoi_numeral (itoa02 m) m) by (apply numeral_itoa02; lia).
  rewrite (atoi_numeral (itoa02 s) s) by (apply numeral_itoa02; lia).
  rewrite (atoi_numeral _ _ (numeral_itoa _ P1)), (atoi_numeral _ _ (numeral_itoa _ P2)),
    (atoi_numeral _ _ (numeral_itoa _ P3)), (atoi_numeral _ _ (numeral_itoa _ P4)),
    (atoi_numeral _ _ (numeral_itoa _ P5)), (atoi_numeral _ _ (numeral_itoa _ P6)),
    (atoi_numeral _ _ (numeral_itoa _ P7)), (atoi_numeral _ _ (numeral_itoa _ P8)).
  rewrite TrimSpace_id by (apply file_within in Hfile; by destruct Hfile as (_ & _ & ?)).
  destruct p. cbn in *. subst. do 2 f_equal. unfold int64. rewrite Z.mod_small; lia.
Qed.
End roundtrip.

(** ** Which playlists are kept *)

Definition layout (p : Playlist) : list Z :=
  [pl_DurationSecs p; pl_Chapters p; pl_Video p; pl_Audio p; pl_Subtitles p].

Lemma itoa_no_bar n : str_forall (λ x, negb (byte_eqb "|"%char x)) (itoa n) = true.
Proof.
  eapply str_forall_impl; [|apply itoa_numeral]. intros c.
  destruct c as [[] [] [] [] [] [] [] []]; vm_compute; done.
Qed.

(** The key of a playlist is its layout. *)
Lemma layout_key_iff p q : layout_key p = layout_key q ↔ layout p = layout q.
Proof.
  split.
  - unfold layout_key, layout. intros E.
    repeat match type of E with
    | itoa _ +:+ "|" +:+ _ = _ =>
        apply (str_app_delim_inj (byte_eqb "|"%char)) in E as [?%itoa_inj E]; [|apply itoa_no_bar..|done]
    end.
    apply itoa_inj in E. congruence.
  - unfold layout, layout_key. intros [= -> -> -> -> ->]. done.
Qed.

Lemma dedupe_from_spec l : ∀ seen,
  dedupe_from seen l `sublist_of` l ∧
  Forall (λ p, layout_key p ∉ seen) (dedupe_from seen l) ∧
  NoDup (layout_key <$> dedupe_from seen l) ∧
  ∀ p, p ∈ l → layout_key p ∈ seen ∨ ∃ q, q ∈ dedupe_from seen l ∧ layout_key q = layout_key p.
Proof.
  induction l as [|p l IH]; intros seen; cbn [dedupe_from].
  { split; [constructor|]. split; [constructor|]. split; [constructor|]. intros p. by rewrite elem_of_nil. }
  case_bool_decide as Hs.
  - destruct (IH seen) as (H1 & H2 & H3 & H4). split; [by constructor|]. split; [done|]. split; [done|].
    intros q [->|Hq]%elem_of_cons; [by left|]. by apply H4.
  - destruct (IH ({[layout_key p]} ∪ seen)) as (H1 & H2 & H3 & H4).
    split; [by constructor|]. split; [constructor; [done|]; eapply Forall_impl; [exact H2|]; set_solver|].
    split.
    + rewrite fmap_cons. apply NoDup_cons. split; [|done]. rewrite list_elem_of_fmap.
      intros (q & E & Hq). rewrite Forall_forall in H2. specialize (H2 q Hq). set_solver.
    + intros q [->|Hq]%elem_of_cons; [right; exists p; set_solver|].
      destruct (H4 q Hq) as [[->%elem_of_singleton|?]%elem_of_union|(r & ? & ?)]; [|by left|].
      * right. exists p. set_solver.
      * right. exists r. set_solver.
Qed.

#[global] Instance file_le_trans : Transitive file_le.
Proof. intros a b c. apply leb_trans. Qed.
#[global] Instance file_le_total : Total file_le.
Proof. intros a b. apply String.leb_total. Qed.

(** which playlists of a Blu-ray are content.  Those kept run for the
    minimum and carry audio, come in the order of their file names, and no two
    have the same layout; every playlist that qualifies is represented by one
    of its layout. *)
Theorem Content_spec i minSecs :
  let c := Content i minSecs in
  (∀ p, p ∈ c → p ∈ in_Playlists i ∧ min_secs minSecs ≤ pl_DurationSecs p ∧ 1 ≤ pl_Audio p) ∧
  StronglySorted file_le c ∧
  NoDup (layout <$> c) ∧
  (∀ p, p ∈ in_Playlists i → min_secs minSecs ≤ pl_DurationSecs p → 1 ≤ pl_Audio p →
     ∃ q, q ∈ c ∧ layout q = layout p).
Proof.
  cbv zeta. unfold Content, dedupe.
  set (l := merge_sort file_le _). destruct (dedupe_from_spec l ∅) as (Hsub & _ & Hnd & Hrep).
  assert (∀ p, p ∈ l ↔ real_content (min_secs minSecs) p ∧ p ∈ in_Playlists i) as Hl.
  { intros p. unfold l. by rewrite merge_sort_Permutation, list_elem_of_filter. }
  split; [|split; [|split]].
  - intros p Hp. eapply elem_of_submseteq in Hp; [|by apply sublist_submseteq].
    apply Hl in Hp as [[? ?] ?]. done.
  - pose proof (StronglySorted_merge_sort file_le (filter (real_content (min_secs minSecs)) (in_Playlists i))) as Hs.
    fold l in Hs. clearbody l. clear -Hsub Hs.
    induction Hsub as [|p l1 l2 Hsub IH|p l1 l2 Hsub IH]; [constructor|..];
      inversion Hs as [|? ? Hs' Hall]; subst.
    + constructor; [by apply IH|]. rewrite Forall_forall in *. intros q Hq. apply Hall.
      by eapply elem_of_submseteq; [|apply sublist_submseteq].
    + by apply IH.
  - assert (∀ k, NoDup (layout_key <$> k) → NoDup (layout <$> k)) as H; [|by apply H].
    induction k as [|p k IH]; [constructor|]. rewrite !fmap_cons, !NoDup_cons, !list_elem_of_fmap.
    intros [Hp Hk]. split; [|by apply IH]. intros (q & E & Hq). apply Hp. exists q.
    split; [by apply layout_key_iff|done].
  - intros p Hp Hd Ha. destruct (Hrep p) as [?|(q & Hq & E)]; [by apply Hl| |].
    + by apply not_elem_of_empty in H.
    + exists q. split; [done|]. by apply layout_key_iff.
Qed.

Lemma add_streams_length kind n count : Z.of_nat (length (add_streams kind n count)) = Z.max 0 count.
Proof. unfold add_streams. rewrite length_fmap, length_seq. lia. Qed.

Lemma add_streams_kind kind k n count :
  length (filter (λ s, s_Kind s = k) (add_streams kind n count)) =
    if bool_decide (kind = k) then Z.to_nat count else O.
Proof.
  unfold add_streams. case_bool_decide as Hk.
  - rewrite filter_all; [by rewrite length_fmap, length_seq|].
    apply Forall_fmap, Forall_forall. done.
  - rewrite filter_none; [done|]. apply Forall_fmap, Forall_forall. done.
Qed.

(** the titles hellbox makes of a Blu-ray number its content from 0, keep
    each playlist's file, duration and chapters, and record as many streams of
    each kind as the disc said. *)
Theorem Titles_spec i minSecs n t :
  Titles i minSecs !! n = Some t ↔ ∃ p, Content i minSecs !! n = Some p ∧ t = playlist_title (Z.of_nat n) p ∧
    t_SourceFile t = pl_File p ∧ t_Index t = Z.of_nat n ∧
    ∀ k, Z.of_nat (length (filter (λ s, s_Kind s = k) (t_Streams t))) =
      if bool_decide (k = "video") then Z.max 0 (pl_Video p)
      else if bool_decide (k = "audio") then Z.max 0 (pl_Audio p)
      else if bool_decide (k = "subtitle") then Z.max 0 (pl_Subtitles p) else 0.
Proof.
  unfold Titles. rewrite list_lookup_imap, fmap_Some. split; [|intros (p & Hp & -> & _); eauto].
  intros (p & Hp & ->). exists p. split; [done|]. split; [done|]. split; [done|]. split; [done|].
  intros k. cbn [t_Streams playlist_title]. unfold placeholderStreams.
  rewrite !filter_app, !length_app, !add_streams_kind.
  repeat case_bool_decide; subst; try done; lia.
Qed.

(** ** Witnesses and examples *)

Definition firefly : list Playlist :=
  [mkPlaylist 0 "00008.mpls" 1695 4 1 1 1 1 0 0; mkPlaylist 1 "00002.mpls" 2563 13 1 1 1 5 6 0;
   mkPlaylist 2 "00001.mpls" 5214 16 1 1 1 5 6 0; mkPlaylist 3 "00009.mpls" 2563 13 1 1 1 5 6 0;
   mkPlaylist 4 "00020.mpls" 4000 1 1 1 1 0 0 0].
Definition firefly_info : Info := mkInfo "FIREFLY_D1" "FIREFLY: DISC 1" [] (in_Protection no_info) 8 firefly.
Example firefly_content : pl_File <$> Content firefly_info 0 = ["00001.mpls"; "00002.mpls"; "00008.mpls"].
Proof. vm_compute. reflexivity. Qed.

Definition one_blank (_ : nat) : string := "  ".
Lemma parse_title_line_roundtrip_witness :
  @parse_title_line caseless (title_text one_blank 0 42 43 (mkPlaylist 7 "00002.mpls" 2563 13 1 1 1 5 6 0) "  SV:0 SA:0") =
    Some (mkPlaylist 7 "00002.mpls" 2563 13 1 1 1 5 6 0).
Proof.
  apply parse_title_line_roundtrip; [split; [done|by repeat constructor]| |lia|lia|lia|reflexivity|reflexivity].
  split; [|split; [done|reflexivity]]. cbn.
  repeat (apply Forall_cons; split; [done|]). apply Forall_nil.
  done.
Defined.

Definition sample_bd_info : string :=
  "Volume Identifier   : FIREFLY_D1" +:+ String newline "" +:+ "BD+ detected : YES" +:+ String newline "" +:+
  "BD+ handled  : no" +:+ String newline "" +:+ "Disc name : FIREFLY: DISC 1" +:+ String newline "" +:+
  "Thumbnail count : 1" +:+ String newline "" +:+ String (byte_of 9) "cover.jpg" +:+ String newline "" +:+
  "AACS MKB version: 12".
Example parse_info_sample :
  @ParseInfo caseless sample_bd_info =
    mkInfo "FIREFLY_D1" "FIREFLY: DISC 1" ["cover.jpg"] (mkProtection false true false false false "" 12) 0 [].
Proof. vm_compute. reflexivity. Qed.
