(* ===== verification/Source.v ===== *)
(** * How a disc will be read (internal/source/source.go)

    The decision is a function of what enumeration found.  [PlanBluRay_spec]
    says which discs are blocked and by what, [Fallback_terminates] that
    falling back ends after one step, and [LicenceExposure_counts] that the
    count shown in the health view is the number of discs read through
    MakeMKV. *)

From S2P Require Import Prelude GoText Disc BdInfo.

Inductive Path := PathNativeDVD | PathDecryptCopy | PathNativeBluRay | PathMakeMKV | PathUnknown.
#[global] Instance path_eq_dec : EqDecision Path.
Proof. solve_decision. Defined.
Definition path_string (p : Path) : string :=
  match p with
  | PathNativeDVD => "native-dvd" | PathDecryptCopy => "decrypt-copy" | PathNativeBluRay => "native-bluray-aacs"
  | PathMakeMKV => "makemkv" | PathUnknown => ""
  end.
Definition path_code (p : Path) : Z :=
  match p with PathNativeDVD => 0 | PathDecryptCopy => 1 | PathNativeBluRay => 2 | PathMakeMKV => 3 | PathUnknown => 4 end.
#[global] Instance path_countable : Countable Path.
Proof.
  refine (inj_countable path_code
    (λ n, nth_error [PathNativeDVD; PathDecryptCopy; PathNativeBluRay; PathMakeMKV; PathUnknown] (Z.to_nat n)) _).
  by intros [].
Defined.

Definition NeedsLicence (p : Path) : bool := bool_decide (p = PathMakeMKV).

Record Plan := mkPlan {
  p_Disc : Disc;
  p_Path : Path;
  p_Blocked : bool;
  p_Reason : string;
  p_DiscName : string;
  p_Artwork : list string;
}.

Section source.
Context {U : Unicode}.

Definition Summary (p : Plan) : string :=
  let name := p_DiscName p in
  let name := if bool_decide (name = "") then d_VolumeLabel (p_Disc p) else name in
  let name := if bool_decide (name = "") then "unlabelled disc" else name in
  let n := Z.of_nat (length (d_Titles (p_Disc p))) in
  let titles := if n =? 1 then "title" else "titles" in
  let line := name +:+ " " +:+ em_dash +:+ " " +:+ itoa n +:+ " " +:+ titles in
  if bool_decide (p_Reason p = "") then line else line +:+ ", " +:+ p_Reason p.

Definition PlanBluRay (info : Info) (minSecs : Z) (makeMKVAvailable : bool) : Plan :=
  let prot := in_Protection info in
  let plan path blocked reason := mkPlan (info_Disc info minSecs) path blocked reason (in_DiscName info) (in_Thumbnails info) in
  if NeedsMakeMKV prot then
    if makeMKVAvailable then plan PathMakeMKV false "BD+, which needs MakeMKV"
    else plan PathMakeMKV true "BD+, which needs MakeMKV, and MakeMKV is not available"
  else if AACS prot && negb (AACSHandled prot) then
    plan PathMakeMKV (negb makeMKVAvailable) "AACS not in the key database; try a newer KEYDB.cfg"
  else plan PathNativeBluRay false (if AACS prot then "AACS" else "").

Definition PlanDVD (d : Disc) (driveCanDecrypt : bool) : Plan :=
  mkPlan d PathNativeDVD false
    (if driveCanDecrypt then "" else "CSS, decrypted by libdvdcss rather than by the drive") "" [].

Definition Fallback (p : Path) : option Path :=
  match p with
  | PathNativeDVD => Some PathDecryptCopy
  | PathNativeBluRay => Some PathMakeMKV
  | _ => None
  end.

(** Mix: the number of discs by path. *)
Notation Mix := (gmap Path Z).
Definition Add (m : Mix) (p : Path) : Mix :=
  if bool_decide (p = PathUnknown) then m else <[p := default 0 (m !! p) + 1]> m.
Definition LicenceExposure (m : Mix) : Z :=
  map_fold (λ p c n, if NeedsLicence p then n + c else n) 0 m.

(** ** What the decision says *)

(** A path opens a disc by itself: what the free stack can decrypt. *)
Definition free_stack_opens (p : Protection) : Prop :=
  (BDPlus p = true → BDPlusHandled p = true) ∧ (AACS p = true → AACSHandled p = true).

(** a Blu-ray is read without a licence exactly when the free stack handles
    every protection it carries, and is blocked exactly when it does not and
    MakeMKV is missing; a blocked disc has a reason, and is described all the
    same, with the titles and the fingerprint enumeration gave it. *)
Theorem PlanBluRay_spec info minSecs avail :
  let p := PlanBluRay info minSecs avail in
  (p_Path p = PathNativeBluRay ↔ free_stack_opens (in_Protection info)) ∧
  (p_Path p = PathMakeMKV ↔ ¬ free_stack_opens (in_Protection info)) ∧
  (p_Blocked p = true ↔ NeedsLicence (p_Path p) = true ∧ avail = false) ∧
  (p_Blocked p = true → p_Reason p ≠ "") ∧
  d_Titles (p_Disc p) = Titles info minSecs ∧
  d_Fingerprint (p_Disc p) = ComputeFingerprint (in_VolumeLabel info) (Titles info minSecs).
Proof.
  cbv zeta. unfold PlanBluRay, free_stack_opens, NeedsMakeMKV. 
  destruct (in_Protection info) as [a b ah bh j i m]. cbn [AACS BDPlus AACSHandled BDPlusHandled].
  destruct a, b, ah, bh, avail;
    cbn [andb negb NeedsLicence p_Path p_Blocked p_Reason p_Disc info_Disc d_Titles d_Fingerprint bool_decide];
    (split; [|split; [|split; [|split; [|done]]]]); intuition congruence.
Qed.

(** The paths tried from one on. *)
Fixpoint tried (fuel : nat) (p : Path) : list Path :=
  match fuel with
  | O => []
  | S n => p :: match Fallback p with Some q => tried n q | None => [] end
  end.

(** falling back ends.  From any path at most one other is tried, never the
    same one again, and a disc that fails on both has nothing left. *)
Theorem Fallback_terminates p :
  (length (tried 3 p) ≤ 2)%nat ∧ NoDup (tried 3 p) ∧ (∀ n, (2 ≤ n)%nat → tried n p = tried 2 p) ∧
  (∀ q, Fallback p = Some q → Fallback q = None ∧ q ≠ PathUnknown).
Proof.
  split; [by destruct p; cbn; lia|]. split.
  - destruct p; cbn; repeat (apply NoDup_cons; split; [set_solver|]); apply NoDup_nil_2.
  - split; [|by destruct p; intros q [= <-]]. intros [|[|n]] Hn; [lia..|]. by destruct p, n.
Qed.

(** The mix of the discs read by [ps]. *)
Definition mix_of (ps : list Path) : Mix := foldl Add ∅ ps.

Lemma mix_lookup ps : ∀ (m : Mix) q, q ≠ PathUnknown →
  default 0 (foldl Add m ps !! q) = default 0 (m !! q) + Z.of_nat (length (filter (λ p, p = q) ps)).
Proof.
  induction ps as [|p ps IH]; intros m q Hq; cbn [foldl]; [by rewrite Z.add_0_r|].
  rewrite IH by done. unfold Add. rewrite filter_cons. case_bool_decide as Hp.
  - by rewrite decide_False by congruence.
  - destruct (decide (p = q)) as [->|Hne].
    + rewrite lookup_insert_eq. cbn [length from_option]. unfold id. lia.
    + by rewrite lookup_insert_ne.
Qed.

Lemma LicenceExposure_lookup (m : Mix) : LicenceExposure m = default 0 (m !! PathMakeMKV).
Proof.
  unfold LicenceExposure. induction m as [|p c m Hm Hf IH] using map_first_key_ind; [done|].
  rewrite map_fold_insert_first_key by done. rewrite IH. unfold NeedsLicence. case_bool_decide as Hp.
  - subst. by rewrite Hm, lookup_insert_eq.
  - by rewrite lookup_insert_ne.
Qed.

(** the licence exposure of a collection is the number of its discs that
    MakeMKV read, in whatever order they were recorded; discs not yet routed
    count nowhere. *)
Theorem LicenceExposure_counts ps :
  LicenceExposure (mix_of ps) = Z.of_nat (length (filter (λ p, p = PathMakeMKV) ps)) ∧
  mix_of ps !! PathUnknown = None ∧
  ∀ q, q ≠ PathUnknown → default 0 (mix_of ps !! q) = Z.of_nat (length (filter (λ p, p = q) ps)).
Proof.
  assert (∀ q, q ≠ PathUnknown → default 0 (mix_of ps !! q) = Z.of_nat (length (filter (λ p, p = q) ps))) as H.
  { intros q Hq. unfold mix_of. by rewrite mix_lookup by done. }
  split; [by rewrite LicenceExposure_lookup, H|]. split; [|done]. clear H.
  unfold mix_of. assert ((∅ : Mix) !! PathUnknown = None) as Hm by done. revert Hm. generalize (∅ : Mix).
  induction ps as [|p ps IH]; intros m Hm; cbn [foldl]; [done|]. apply IH. unfold Add.
  case_bool_decide; [done|]. by rewrite lookup_insert_ne.
Qed.
End source.

Example firefly_blocked :
  @Summary (@PlanBluRay caseless (mkInfo "FIREFLYUS_D1" "FIREFLY: DISC 1" [] (mkProtection true true true false false "" 0) 0
     [mkPlaylist 0 "00002.mpls" 2563 13 1 1 1 5 6 0]) 60 false) =
  "FIREFLY: DISC 1 " +:+ em_dash +:+ " 1 title, BD+, which needs MakeMKV, and MakeMKV is not available".
Proof. vm_compute. reflexivity. Qed.
