(* ===== verification/Status.v ===== *)
(** * The state a drive shows (internal/proto/drive.go, internal/daemon/state.go)

    The drive states, the snapshot every client renders, and the operations of
    driveStatus.  A clock reading is in nanoseconds; Go's zero time is [None].
    The arrival estimate is computed exactly where the code uses float64. *)

From Stdlib Require Import QArith_base.
From S2P Require Import Prelude GoText.
#[local] Open Scope Z_scope.

Inductive DriveState :=
| StateAbsent | StateEmpty | StateTrayOpen | StateLoading | StateIncompatible | StateQueued
| StateScanning | StateDecrypting | StateRipping | StateVerifying | StateComplete | StateDuplicate
| StateFailed | StateCancelled | StateEjecting.
#[global] Instance DriveState_eq_dec : EqDecision DriveState.
Proof. solve_decision. Defined.

Definition Terminal (s : DriveState) : bool :=
  match s with
  | StateComplete | StateDuplicate | StateFailed | StateIncompatible | StateCancelled => true
  | _ => false
  end.

Definition Busy (s : DriveState) : bool :=
  match s with
  | StateQueued | StateScanning | StateDecrypting | StateRipping | StateVerifying | StateEjecting => true
  | _ => false
  end.

Record DriveSnapshot := mkSnapshot {
  sn_StableID : string;
  sn_Label : string;
  sn_DevicePath : string;
  sn_Model : string;
  sn_State : DriveState;
  sn_Since : Z;
  sn_DiscLabel : string;
  sn_Fingerprint : string;
  sn_RipDir : string;
  sn_TitleCount : Z;
  sn_TitlesDone : Z;
  sn_CurrentTitle : Z;
  sn_Fraction : Q;
  sn_Operation : string;
  sn_ETASeconds : Z;
  sn_Error : string;
  sn_Attempt : Z;
}.

Record driveStatus := mkStatus {
  snap : DriveSnapshot;
  ripStarted : option Z;
  secsDone : Z;
  secsTotal : Z;
}.

Definition newDriveStatus (now : Z) (stableID label devicePath model : string) : driveStatus :=
  mkStatus (mkSnapshot stableID label devicePath model StateEmpty now "" "" "" 0 0 0 0 "" 0 "" 0) None 0 0.

Definition resting (s : DriveState) : bool :=
  match s with StateEmpty | StateTrayOpen | StateAbsent => true | _ => false end.

Definition with_snap_state (now : Z) (s : DriveState) (n : DriveSnapshot) : DriveSnapshot :=
  mkSnapshot (sn_StableID n) (sn_Label n) (sn_DevicePath n) (sn_Model n) s now
    (sn_DiscLabel n) (sn_Fingerprint n) (sn_RipDir n) (sn_TitleCount n) (sn_TitlesDone n)
    (sn_CurrentTitle n) (sn_Fraction n) (sn_Operation n) (sn_ETASeconds n) (sn_Error n) (sn_Attempt n).

(** The per-disc fields cleared. *)
Definition cleared (n : DriveSnapshot) : DriveSnapshot :=
  mkSnapshot (sn_StableID n) (sn_Label n) (sn_DevicePath n) (sn_Model n) (sn_State n) (sn_Since n)
    "" "" "" 0 0 0 0 "" 0 "" 0.

Definition setState (now : Z) (s : DriveState) (d : driveStatus) : driveStatus :=
  if bool_decide (sn_State (snap d) = s) then d
  else
    let n := with_snap_state now s (snap d) in
    if resting s then mkStatus (cleared n) (ripStarted d) 0 0
    else mkStatus n (ripStarted d) (secsDone d) (secsTotal d).

Definition update (fn : DriveSnapshot → DriveSnapshot) (d : driveStatus) : driveStatus :=
  mkStatus (fn (snap d)) (ripStarted d) (secsDone d) (secsTotal d).

Definition beginRip (now total : Z) (d : driveStatus) : driveStatus :=
  mkStatus (snap d) (Some now) 0 total.

Definition with_eta (eta : Z) (n : DriveSnapshot) : DriveSnapshot :=
  mkSnapshot (sn_StableID n) (sn_Label n) (sn_DevicePath n) (sn_Model n) (sn_State n) (sn_Since n)
    (sn_DiscLabel n) (sn_Fingerprint n) (sn_RipDir n) (sn_TitleCount n) (sn_TitlesDone n)
    (sn_CurrentTitle n) (sn_Fraction n) (sn_Operation n) eta (sn_Error n) (sn_Attempt n).

Definition title_counted (n : DriveSnapshot) : DriveSnapshot :=
  mkSnapshot (sn_StableID n) (sn_Label n) (sn_DevicePath n) (sn_Model n) (sn_State n) (sn_Since n)
    (sn_DiscLabel n) (sn_Fingerprint n) (sn_RipDir n) (sn_TitleCount n) (sn_TitlesDone n + 1)
    (sn_CurrentTitle n) 0 "" (sn_ETASeconds n) (sn_Error n) (sn_Attempt n).

(** Content left over the rate so far, [(total - done) / (done / elapsed)]. *)
Definition eta_seconds (elapsed done total : Z) : Z :=
  Z.max 0 (Z.quot ((total - done) * elapsed) (done * 1000000000)).

Definition titleDone (now durationSecs : Z) (d : driveStatus) : driveStatus :=
  let done := secsDone d + durationSecs in
  let n := title_counted (snap d) in
  match ripStarted d with
  | Some t0 =>
      if (done <=? 0) || (secsTotal d <=? 0) then mkStatus n (ripStarted d) done (secsTotal d)
      else mkStatus (with_eta (eta_seconds (now - t0) done (secsTotal d)) n) (ripStarted d) done (secsTotal d)
  | None => mkStatus n None done (secsTotal d)
  end.

Definition setProgress (titleIndex : Z) (fraction : Q) (operation : string) (d : driveStatus) : driveStatus :=
  update (λ n,
    mkSnapshot (sn_StableID n) (sn_Label n) (sn_DevicePath n) (sn_Model n) (sn_State n) (sn_Since n)
      (sn_DiscLabel n) (sn_Fingerprint n) (sn_RipDir n) (sn_TitleCount n) (sn_TitlesDone n)
      titleIndex fraction operation (sn_ETASeconds n) (sn_Error n) (sn_Attempt n)) d.

(** The fields the worker's update callbacks set. *)
Definition set_disc (label fp : string) (count : Z) (n : DriveSnapshot) : DriveSnapshot :=
  mkSnapshot (sn_StableID n) (sn_Label n) (sn_DevicePath n) (sn_Model n) (sn_State n) (sn_Since n)
    label fp (sn_RipDir n) count (sn_TitlesDone n) (sn_CurrentTitle n) (sn_Fraction n)
    (sn_Operation n) (sn_ETASeconds n) (sn_Error n) (sn_Attempt n).
Definition set_rip_dir (dir : string) (n : DriveSnapshot) : DriveSnapshot :=
  mkSnapshot (sn_StableID n) (sn_Label n) (sn_DevicePath n) (sn_Model n) (sn_State n) (sn_Since n)
    (sn_DiscLabel n) (sn_Fingerprint n) dir (sn_TitleCount n) (sn_TitlesDone n)
    (sn_CurrentTitle n) (sn_Fraction n) (sn_Operation n) (sn_ETASeconds n) (sn_Error n) (sn_Attempt n).
Definition set_title_count (count : Z) (n : DriveSnapshot) : DriveSnapshot :=
  mkSnapshot (sn_StableID n) (sn_Label n) (sn_DevicePath n) (sn_Model n) (sn_State n) (sn_Since n)
    (sn_DiscLabel n) (sn_Fingerprint n) (sn_RipDir n) count (sn_TitlesDone n)
    (sn_CurrentTitle n) (sn_Fraction n) (sn_Operation n) (sn_ETASeconds n) (sn_Error n) (sn_Attempt n).
Definition set_error (msg : string) (n : DriveSnapshot) : DriveSnapshot :=
  mkSnapshot (sn_StableID n) (sn_Label n) (sn_DevicePath n) (sn_Model n) (sn_State n) (sn_Since n)
    (sn_DiscLabel n) (sn_Fingerprint n) (sn_RipDir n) (sn_TitleCount n) (sn_TitlesDone n)
    (sn_CurrentTitle n) (sn_Fraction n) (sn_Operation n) (sn_ETASeconds n) msg (sn_Attempt n).
Definition set_attempt (a : Z) (n : DriveSnapshot) : DriveSnapshot :=
  mkSnapshot (sn_StableID n) (sn_Label n) (sn_DevicePath n) (sn_Model n) (sn_State n) (sn_Since n)
    (sn_DiscLabel n) (sn_Fingerprint n) (sn_RipDir n) (sn_TitleCount n) (sn_TitlesDone n)
    (sn_CurrentTitle n) (sn_Fraction n) (sn_Operation n) (sn_ETASeconds n) (sn_Error n) a.

(** ** Lemmas *)

Lemma setState_state now s d : sn_State (snap (setState now s d)) = s.
Proof. unfold setState. case_bool_decide; [done|]. by destruct (resting s). Qed.

Lemma setProgress_state i f o d : sn_State (snap (setProgress i f o d)) = sn_State (snap d).
Proof. done. Qed.

Lemma titleDone_state now t d : sn_State (snap (titleDone now t d)) = sn_State (snap d).
Proof. unfold titleDone. repeat case_match; done. Qed.

#[export] Hint Rewrite setState_state setProgress_state titleDone_state : hellbox.
