(* ===== verification/Worker.v ===== *)
(** * One drive's worker (internal/daemon/worker.go)

    The processing of a disc as a state-passing program.  The world holds the
    database, the drive's status, the rips directory, whether the shared slot
    is held and a cancellation is possible, and the trace of what the outside
    sees.  Everything the code asks of the machine is an oracle of [Env],
    indexed by the number of calls made before, so that a run can meet any
    answers; a context is cancelled from the [cancel_at]-th call on.  The other
    workers, the server and the queue runner use the same database: what they
    write between two calls of this worker is [meanwhile].  A database
    call under a cancelled context fails without touching the tables, as
    database/sql documents.  A log line is recorded by its format. *)

From Stdlib Require Import QArith_base.
From S2P Require Import Prelude GoText GoPath GoBase MakeMkv Table Disc Failure Store StoreWf Drive Monitor Verify Status.
#[local] Open Scope Z_scope.

(** ** Errors *)

Definition errCancelled : goerr := mkErr "cancelled" true false false.
Definition errDiscGone : goerr := mkErr "the disc was removed before it could be read" false true false.

(** ** What the worker uses *)

Record ScanResult := mkScan { sc_Disc : Disc; sc_Raw : string }.
Record Copy := mkCopy { cp_Root : string; cp_Folder : string }.

(** What the encoder reports of an input, its duration in nanoseconds, and of an encode. *)
Record EncSource := mkEncSource { es_Duration : Z; es_Width : Z; es_Height : Z }.
Record EncResult := mkEncResult { er_SizeBytes : Z; er_Hardware : bool }.

Record Config := mkConfig {
  RipsDir : string;
  WorkDir : string;
  TranscodedDir : string;
  MinOutputBytes : Z;
  MaxRipAttempts : Z;
  ScanAttempts : Z;
  ScanTimeout : Z;
  NativeDVD : bool;
  DecryptFallback : bool;
  EjectOnSuccess : bool;
  EjectOnFailure : bool;
}.

Record Env := mkEnv {
  cfg : Config;
  label : string;
  driveID : Z;
  devicePath : string;
  driveModel : string;
  today : string;
  (** The clock, in nanoseconds. *)
  clock : nat → Z;
  (** The call from which the work's context is cancelled. *)
  cancel_at : option nat;
  (** Whether a timer that fires together with a cancellation wins the select. *)
  timer_wins : nat → bool;
  (** Whether the database fails at a call. *)
  db_fault : nat → bool;
  (** What the rest of the daemon writes to the database between a call and the next, and while this
      worker waits for the shared slot. *)
  meanwhile : nat → list store_op;
  while_waiting : list store_op;
  (** Whether the shared slot is free at a call, or becomes free before a cancellation. *)
  slot_free : nat → bool;
  (** The drive. *)
  drv_Status : nat → outcome string Status;
  drv_Eject : nat → outcome string unit;
  drv_DiscKind : nat → outcome string (DiscKind * Z);
  drv_VolumeLabel : nat → outcome string string;
  drv_ReadRegion : nat → outcome string Region;
  drv_ReadProtection : nat → outcome string Protection;
  (** The scan of the drive or of a copy; whether the attempt's own deadline had passed. *)
  mk_Scan : nat → Source → outcome goerr ScanResult;
  scan_deadline : nat → bool;
  (** The rip of a title, reporting progress first. *)
  mk_RipTitle : nat → Source → Z → string → list RipProgress * outcome goerr RipResult;
  (** The decrypter. *)
  dec_Available : option string;
  dec_Existing : nat → string → string → option Copy;
  dec_Mirror : nat → string → list RipProgress * outcome goerr Copy;
  (** The encoder, reading a Blu-ray in place. *)
  enc_Probe : nat → string → outcome goerr EncSource;
  enc_Transcode : nat → string → string → list RipProgress * outcome goerr EncResult;
  (** Files: os.Mkdir failing other than by the name existing, the other writes failing, os.Stat with the
      first bytes, ffprobe. *)
  mkdir_fault : nat → option string;
  write_fault : nat → option string;
  stat_file : nat → string → option OutFile;
  ffprobe : nat → string → outcome string probeOut;
}.

(** What the outside sees of a run. *)
Inductive effect :=
| Log (level format : string) (jobID : option Z)
| ScanCall
| RipCall (titleIndex : Z)
| EjectCall (ok : bool)
| PublishDisc (stage : string) (d : Disc) (ripDir : string)
| WriteDiscJSON (dir : string) (d : Disc)
| WriteScan (path raw : string)
| OnRipped (discID : Z) (ripDir : string) (titles : list Title)
| OnBluRayDone (discID titleIndex : Z) (output : string)
| DiscardCopy (root : string).

Record World := mkWorld {
  w_store : Store;
  w_status : driveStatus;
  (** The names in use under the rips directory: whether each is anything but an empty directory. *)
  w_dirs : gmap string bool;
  w_slot : bool;
  w_cancelWork : bool;
  w_tick : nat;
  w_trace : list effect;
}.

(** ** The monad *)

Definition M (A : Type) : Type := Env → World → A * World.
Definition mret {A} (a : A) : M A := λ _ w, (a, w).
Definition mbind {A B} (m : M A) (k : A → M B) : M B := λ e w, let '(a, w') := m e w in k a e w'.
Declare Scope worker_scope.
Delimit Scope worker_scope with worker.
#[global] Open Scope worker_scope.
Notation "x <- m ;; k" := (mbind m (λ x, k))
  (at level 100, m at next level, right associativity) : worker_scope.
Notation "m ;;; k" := (mbind m (λ _, k))
  (at level 100, k at level 200, right associativity) : worker_scope.

Definition ask {A} (f : Env → A) : M A := λ e w, (f e, w).
Definition with_world (f : World → World) : M unit := λ _ w, (tt, f w).
Definition with_env (f : Env → World → World) : M unit := λ e w, (tt, f e w).
Definition gets {A} (f : World → A) : M A := λ _ w, (f w, w).

Definition set_store (s : Store) (w : World) : World :=
  mkWorld s (w_status w) (w_dirs w) (w_slot w) (w_cancelWork w) (w_tick w) (w_trace w).
Definition set_status (s : driveStatus) (w : World) : World :=
  mkWorld (w_store w) s (w_dirs w) (w_slot w) (w_cancelWork w) (w_tick w) (w_trace w).
Definition set_dirs (d : gmap string bool) (w : World) : World :=
  mkWorld (w_store w) (w_status w) d (w_slot w) (w_cancelWork w) (w_tick w) (w_trace w).
Definition set_slot (b : bool) (w : World) : World :=
  mkWorld (w_store w) (w_status w) (w_dirs w) b (w_cancelWork w) (w_tick w) (w_trace w).
Definition set_cancelWork (b : bool) (w : World) : World :=
  mkWorld (w_store w) (w_status w) (w_dirs w) (w_slot w) b (w_tick w) (w_trace w).
(** The database after what the rest of the daemon does to it between a call and the next. *)
Definition interfered (e : Env) (n : nat) (s : Store) : Store := foldl (flip run_op) s (meanwhile e n).
Definition bump (e : Env) (w : World) : World :=
  mkWorld (interfered e (w_tick w) (w_store w)) (w_status w) (w_dirs w) (w_slot w) (w_cancelWork w) (S (w_tick w)) (w_trace w).
Definition push (x : effect) (w : World) : World :=
  mkWorld (w_store w) (w_status w) (w_dirs w) (w_slot w) (w_cancelWork w) (w_tick w) (w_trace w ++ [x]).

(** A call of the machine: the oracle's answer, and one more call made. *)
Definition call {A} (f : Env → nat → A) : M A := λ e w, (f e (w_tick w), bump e w).
Definition emit (x : effect) : M unit := with_world (push x).

Definition cancelled_by (e : Env) (n : nat) : bool :=
  match cancel_at e with Some k => (k <=? n)%nat | None => false end.
(** ctx.Err() != nil *)
Definition ctxErr : M bool := λ e w, (cancelled_by e (w_tick w), w).

Definition now_ns : M Z := λ e w, (clock e (w_tick w), w).
Definition unix (ns : Z) : Z := ns / 1000000000.
Definition status (f : driveStatus → driveStatus) : M unit :=
  with_world (λ w, set_status (f (w_status w)) w).
Definition state (s : DriveState) : M unit := now <- now_ns ;; status (setState now s).

Definition store_err (x : storeErr) : goerr := errorf (storeErr_text x).

(** A database call with the time it is made; [detached] under a context of its own (afterCancel). *)
Definition db_in {A} (detached : bool) (op : Z → DB A) : M (outcome goerr A) := λ e w,
  let n := w_tick w in
  if negb detached && cancelled_by e n then (Err ctxCanceled, bump e w)
  else if db_fault e n then (Err (errorf "disk I/O error"), bump e w)
  else match op (unix (clock e n)) (w_store w) with
       | (Ok a, s) => (Ok a, bump e (set_store s w))
       | (Err x, s) => (Err (store_err x), bump e (set_store s w))
       end.
Definition db {A} : (Z → DB A) → M (outcome goerr A) := db_in false.
Definition afterCancel {A} : (Z → DB A) → M (outcome goerr A) := db_in true.

(** ** Logging, failing, ejecting *)

Definition logf (level format : string) : M unit := emit (Log level format None).

Definition ejectNow : M unit :=
  on <- ask (λ e, EjectOnSuccess (cfg e)) ;;
  if negb on then mret tt else
  state StateEjecting ;;;
  r <- call drv_Eject ;;
  emit (EjectCall (is_ok r)) ;;;
  match r with
  | Err _ => logf "warn" "%s: could not open the tray: %v"
  | Ok _ => state StateTrayOpen
  end.

Definition fail (jobID : Z) (msg : string) : M unit :=
  status (update (set_error msg)) ;;;
  state StateFailed ;;;
  emit (Log "error" msg (if jobID =? 0 then None else Some jobID)) ;;;
  eject <- ask (λ e, EjectOnFailure (cfg e)) ;;
  if eject : bool then ejectNow
  else logf "warn" "%s: disc retained in the drive; the tray stays closed until this is dealt with".

(** Worker.Eject *)
Definition Eject : M (outcome string unit) :=
  st <- gets (λ w, sn_State (snap (w_status w))) ;;
  if Busy st then l <- ask label ;; mret (Err (l +:+ " is busy; cancel the rip first"))
  else
    r <- call drv_Eject ;;
    emit (EjectCall (is_ok r)) ;;;
    mret r.

(** Worker.Cancel: whether there is anything to cancel. *)
Definition Cancel : M (outcome string unit) :=
  can <- gets w_cancelWork ;;
  l <- ask label ;;
  mret (if can : bool then Ok tt else Err (l +:+ " is not doing anything to cancel")).

Definition handleIncompatible : M unit :=
  status (update (set_error
    "a disc is loaded that this drive cannot read; a Blu-ray in a DVD drive is the usual cause")) ;;;
  state StateIncompatible ;;;
  logf "warn" "%s: %s".

(** ** The shared slot *)

Definition takeDiscSlot : M bool :=
  free <- call slot_free ;;
  if free : bool then with_world (set_slot true) ;;; mret true
  else
    state StateQueued ;;;
    logf "info" "%s: waiting for another drive to finish" ;;;
    with_env (λ e w, set_store (foldl (flip run_op) (w_store w) (while_waiting e)) w) ;;;
    got <- call slot_free ;;
    if got : bool then with_world (set_slot true) ;;; mret true else mret false.

Definition releaseDiscSlot : M unit := with_world (set_slot false).

(** ** Scanning *)

Definition discGone : M (outcome string bool) :=
  r <- call drv_Status ;;
  mret match r with
       | Err e => Err e
       | Ok st => Ok (negb (bool_decide (st = StatusDiscOK)))
       end.

(** time.Duration's String for whole seconds. *)
Definition durationOf (secs : Z) : string :=
  let h := secs / 3600 in let m := (secs mod 3600) / 60 in let s := secs mod 60 in
  (if 0 <? h then itoa h +:+ "h" else "") +:+
  (if 60 <=? secs then itoa m +:+ "m" else "") +:+ itoa s +:+ "s".

(** One attempt, under a deadline of its own when one is configured. *)
Definition scan_once : M (outcome goerr ScanResult) :=
  n <- gets w_tick ;;
  dev <- ask devicePath ;;
  res <- call (λ e n, mk_Scan e n (DeviceSource dev)) ;;
  emit ScanCall ;;;
  timeout <- ask (λ e, ScanTimeout (cfg e)) ;;
  late <- ask (λ e, scan_deadline e n) ;;
  c <- ctxErr ;;
  mret match res with
       | Err e => if (0 <? timeout) && late && negb c
                  then Err (errorf ("scan did not finish within " +:+ durationOf timeout)) else Err e
       | Ok r => Ok r
       end.

(** scanWithRetry from an attempt on; [fuel] attempts remain. *)
Fixpoint scan_loop (fuel : nat) (attempt : Z) : M (outcome goerr ScanResult) :=
  match fuel with
  | O => mret (Err (errorf "no scan attempts configured"))
  | S fuel' =>
      res <- scan_once ;;
      match res with
      | Ok r =>
          (if 1 <? attempt then logf "info" "%s: scan succeeded on attempt %d of %d" else mret tt) ;;;
          mret (Ok r)
      | Err err =>
          c <- ctxErr ;;
          if c : bool then mret (Err errCancelled) else
          gone <- discGone ;;
          match gone with
          | Ok true => mret (Err errDiscGone)
          | gone =>
              (if is_ok gone then mret tt
               else logf "warn" "%s: could not re-check the drive between scans: %v") ;;;
              attempts <- ask (λ e, ScanAttempts (cfg e)) ;;
              if attempt =? attempts then
                mret (Err (if 1 <? attempts then wrapf "" err (" (" +:+ itoa attempts +:+ " attempts)") else err))
              else
                logf "warn" "%s: scan attempt %d of %d failed: %v; retrying in %s" ;;;
                timer <- call timer_wins ;;
                c <- ctxErr ;;
                if c && negb timer then mret (Err err) else scan_loop fuel' (attempt + 1)
          end
      end
  end.

Definition scanDisc : M (outcome goerr ScanResult) :=
  attempts <- ask (λ e, ScanAttempts (cfg e)) ;;
  scan_loop (Z.to_nat attempts) 1.

(** ** The rip directory *)

(** os.Mkdir on a name of the rips directory. *)
Inductive mkdirResult := MkdirOk | MkdirExists | MkdirErr (e : string).
Definition mkdir (path : string) : M mkdirResult :=
  fault <- call mkdir_fault ;;
  dirs <- gets w_dirs ;;
  match dirs !! path, fault with
  | Some _, _ => mret MkdirExists
  | None, Some e => mret (MkdirErr e)
  | None, None => with_world (set_dirs (<[path := false]> dirs)) ;;; mret MkdirOk
  end.
Definition dirIsEmpty (path : string) : M bool :=
  dirs <- gets w_dirs ;; mret (negb (default true (dirs !! path))).

(** The loop of makeRipDir at counter [i]; [fuel] turns remain before the counter passes 50. *)
Fixpoint rip_dir_loop (fuel : nat) (base candidate : string) (i : Z) : M (outcome goerr string) :=
  r <- mkdir candidate ;;
  match r with
  | MkdirOk => mret (Ok candidate)
  | MkdirErr e => mret (Err (errorf ("create rip directory " +:+ candidate +:+ ": " +:+ e)))
  | MkdirExists =>
      empty <- dirIsEmpty candidate ;;
      if empty : bool then mret (Ok candidate)
      else match fuel with
           | O => mret (Err (errorf ("too many existing rip directories for " +:+ base)))
           | S fuel' => rip_dir_loop fuel' base (base +:+ "-" +:+ itoa i) (i + 1)
           end
  end.

(** A file written into a directory. *)
Definition occupy (dir : string) : M unit :=
  with_world (λ w, set_dirs (<[dir := true]> (w_dirs w)) w).

Section with_unicode.
Context {U : Unicode}.

Definition makeRipDir (d : Disc) : M (outcome goerr string) :=
  base <- ask (λ e, Join [RipsDir (cfg e); DirName (today e) d]) ;;
  rip_dir_loop 49 base base 2.

(** ** Where titles are read from *)

Definition decryptNeeded : M (option string) :=
  region <- call drv_ReadRegion ;;
  match region with
  | Err _ => logf "warn" "%s: could not read the drive's region (%v); ripping from the drive" ;;; mret None
  | Ok region =>
      prot <- call drv_ReadProtection ;;
      match prot with
      | Err _ => logf "warn" "%s: could not read the disc's protection (%v); ripping from the drive" ;;; mret None
      | Ok prot =>
          mret (if PlayableIn prot region then None
                else Some ("this disc is " +:+ protection_String prot +:+ " and the drive is " +:+
                           region_String region))
      end
  end.

Fixpoint report (ps : list RipProgress) : M unit :=
  match ps with
  | [] => mret tt
  | p :: ps' => status (setProgress (rp_TitleIndex p) (rp_Fraction p) (rp_Operation p)) ;;; report ps'
  end.

(** The source, and the copy to discard once the rip is recorded. *)
Definition ripSource (d : Disc) : M (outcome goerr (Source * option Copy)) :=
  dev <- ask devicePath ;;
  native <- ask (λ e, NativeDVD (cfg e)) ;;
  if native : bool then
    reason <- decryptNeeded ;;
    (if reason then logf "info" "%s: %s — reading it in place anyway, libdvdcss does not need the drive's key"
     else mret tt) ;;;
    mret (Ok (DeviceSource dev, None))
  else
    reason <- decryptNeeded ;;
    match reason with
    | None => mret (Ok (DeviceSource dev, None))
    | Some reason =>
        fallback <- ask (λ e, DecryptFallback (cfg e)) ;;
        avail <- ask dec_Available ;;
        if negb fallback then mret (Err (errorf (reason +:+ ", and decrypt_fallback is off")))
        else match avail with
        | Some err => mret (Err (errorf (reason +:+
            ", and the disc cannot be decrypted to disk either: " +:+ err)))
        | None =>
            let key := Short (d_Fingerprint d) in
            work <- ask (λ e, WorkDir (cfg e)) ;;
            existing <- call (λ e n, dec_Existing e n work key) ;;
            match existing with
            | Some res =>
                logf "info" "%s: reusing the %s already decrypted for this disc" ;;;
                mret (Ok (FolderSource (cp_Folder res), Some res))
            | None =>
                logf "info" "%s: %s — copying it to disk to decrypt it first" ;;;
                state StateDecrypting ;;;
                status (setProgress 0 0 "decrypting") ;;;
                mirror <- call (λ e n, dec_Mirror e n key) ;;
                report mirror.1 ;;;
                match mirror.2 with
                | Err err =>
                    c <- ctxErr ;;
                    mret (Err (if c : bool then errCancelled
                               else wrapf "decrypting the disc to disk: " err ""))
                | Ok res =>
                    logf "info" "%s: decrypted %s to disk" ;;;
                    mret (Ok (FolderSource (cp_Folder res), Some res))
                end
            end
        end
    end.

(** ** The rip *)

Definition minKeptPercent : Z := 60.
Definition totalSecs (titles : list Title) : Z := sumZ (map t_DurationSecs titles).
Fixpoint deduped (seen : gset Z) (titles : list Title) : Z :=
  match titles with
  | [] => 0
  | t :: ts => if bool_decide (t_DurationSecs t ∈ seen) then deduped seen ts
               else t_DurationSecs t + deduped ({[t_DurationSecs t]} ∪ seen) ts
  end.
Definition dedupedSecs (titles : list Title) : Z := deduped ∅ titles.

(** The titles of a decrypted copy under the identity the drive gave. *)
Definition rescanCopy (src : Source) (d : Disc) : M (outcome goerr (Disc * string)) :=
  res <- call (λ e n, mk_Scan e n src) ;;
  mret match res with
       | Err err => Err err
       | Ok res =>
           if bool_decide (d_Titles (sc_Disc res) = []) then
             Err (errorf "the decrypted copy reported no titles")
           else Ok (with_titles d (d_Titles (sc_Disc res)) (d_TotalBytes (sc_Disc res)), sc_Raw res)
       end.

(** Whether a copy keeps enough of the running time the drive described. *)
Definition copy_too_short (kept want : Z) : bool := (0 <? want) && (kept * 100 <? want * minKeptPercent).

Definition writeDiscJSON (dir : string) (d : Disc) : M (outcome goerr unit) :=
  fault <- call write_fault ;;
  match fault with
  | Some e => mret (Err (errorf ("write disc.json: " +:+ e)))
  | None => occupy dir ;;; emit (WriteDiscJSON dir d) ;;; mret (Ok tt)
  end.

Definition scanFileName (native : bool) : string :=
  if native then "scan-native.txt" else "makemkv-info.txt".

Definition write_scan (dir raw : string) : M (outcome goerr unit) :=
  fault <- call write_fault ;;
  name <- ask (λ e, scanFileName (NativeDVD (cfg e))) ;;
  match fault with
  | Some e => mret (Err (errorf ("write makemkv-info.txt: " +:+ e)))
  | None => emit (WriteScan (Join [dir; name]) raw) ;;; mret (Ok tt)
  end.

(** What the worker checks of a title's file. *)
Definition verify_title (path : string) (t : Title) : M (outcome string unit) :=
  file <- call (λ e n, stat_file e n path) ;;
  min <- ask (λ e, MinOutputBytes (cfg e)) ;;
  native <- ask (λ e, NativeDVD (cfg e)) ;;
  match verifyOutput file min with
  | Err m => mret (Err m)
  | Ok _ =>
      if negb native then mret (Ok tt) else
      file <- call (λ e n, stat_file e n path) ;;
      probe <- call (λ e n, ffprobe e n path) ;;
      let res := verify_Title path file probe (mkExpectation (t_DurationSecs t) 0 0 0 min) in
      mret (if r_OK res then Ok tt else Err (Verify.Error res))
  end.

(** One title: ripped, verified and recorded. *)
Definition rip_title (jobID discID : Z) (src : Source) (ripDir : string) (i n : Z) (t : Title) : M (outcome goerr unit) :=
  status (setProgress (t_Index t) 0 ("title " +:+ itoa (i + 1) +:+ " of " +:+ itoa n)) ;;;
  r <- call (λ e k, mk_RipTitle e k src (t_Index t) ripDir) ;;
  emit (RipCall (t_Index t)) ;;;
  report r.1 ;;;
  match r.2 with
  | Err err =>
      c <- ctxErr ;;
      if c : bool then
        afterCancel (λ now, SetJobState now jobID JobCancelled "cancelled") ;;;
        mret (Err (errorf ("cancelled during title " +:+ itoa (t_Index t))))
      else mret (Err (wrapf ("title " +:+ itoa (t_Index t) +:+ ": ") err ""))
  | Ok res =>
      state StateVerifying ;;;
      v <- verify_title (rr_Path res) t ;;
      match v with
      | Err m => mret (Err (errorf ("title " +:+ itoa (t_Index t) +:+ " failed verification: " +:+ m)))
      | Ok _ =>
          state StateRipping ;;;
          m <- db (λ _, MarkTitleRipped discID (t_Index t) (rr_SizeBytes res) true) ;;
          match m with
          | Err err => mret (Err (wrapf ("record title " +:+ itoa (t_Index t) +:+ ": ") err ""))
          | Ok _ =>
              now <- now_ns ;;
              status (titleDone now (t_DurationSecs t)) ;;;
              db (λ _, SetJobProgress jobID (i + 1) n) ;;;
              logf "info" "%s: title %d of %d written (%s in %s)" ;;;
              mret (Ok tt)
          end
      end
  end.

Fixpoint rip_titles (jobID discID : Z) (src : Source) (ripDir : string) (i n : Z) (ts : list Title) : M (outcome goerr unit) :=
  match ts with
  | [] => mret (Ok tt)
  | t :: ts' =>
      r <- rip_title jobID discID src ripDir i n t ;;
      match r with
      | Err err => mret (Err err)
      | Ok _ => rip_titles jobID discID src ripDir (i + 1) n ts'
      end
  end.

(** The titles and the raw scan actually ripped: a decrypted copy's own list
    wins unless it is much shorter than what the drive described. *)
Definition rescan_titles (src : Source) (d : Disc) (rawInfo : string) : M (outcome goerr (Disc * string)) :=
  if negb (IsFolder src) then mret (Ok (d, rawInfo)) else
  r <- rescanCopy src d ;;
  match r with
  | Err _ =>
      logf "warn" "%s: could not rescan the decrypted copy (%v); ripping what the drive reported" ;;;
      mret (Ok (d, rawInfo))
  | Ok (rescanned, raw) =>
      let kept := totalSecs (d_Titles rescanned) in
      let want := dedupedSecs (d_Titles d) in
      if copy_too_short kept want then
        mret (Err (errorf ("the decrypted copy holds " +:+ durationOf kept +:+ " of the " +:+ durationOf want +:+
          " the drive described (" +:+ itoa (Z.quot (kept * 100) want) +:+ "%); refusing to rip a partial disc")))
      else
        (if Nat.eqb (length (d_Titles rescanned)) (length (d_Titles d)) then mret tt
         else logf "warn" "%s: the drive offered %d title%s but the decrypted copy holds %d; using the copy") ;;;
        let d' := with_titles d (d_Titles rescanned) (d_TotalBytes d) in
        status (update (set_title_count (Z.of_nat (length (d_Titles d'))))) ;;;
        sv <- db (λ now, SaveDisc now d' raw) ;;
        (if is_ok sv then mret tt else logf "warn" "%s: could not record the rescanned titles: %v") ;;;
        mret (Ok (d', raw))
  end.

(** rip once the directory and its log exist. *)
Definition rip_into (jobID discID : Z) (d : Disc) (rawInfo ripDir : string) : M (outcome goerr Disc) :=
  s <- ripSource d ;;
  match s with
  | Err err => mret (Err err)
  | Ok (src, copy) =>
      r <- rescan_titles src d rawInfo ;;
      match r with
      | Err err => mret (Err err)
      | Ok (d, rawInfo) =>
          j <- writeDiscJSON ripDir d ;;
          match j with
          | Err err => mret (Err err)
          | Ok _ =>
              sc <- write_scan ripDir rawInfo ;;
              match sc with
              | Err err => mret (Err err)
              | Ok _ =>
                  let n := Z.of_nat (length (d_Titles d)) in
                  state StateRipping ;;;
                  now <- now_ns ;;
                  status (beginRip now (totalSecs (d_Titles d))) ;;;
                  db (λ _, SetJobProgress jobID 0 n) ;;;
                  db (λ now, SetJobState now jobID JobRipping "") ;;;
                  rt <- rip_titles jobID discID src ripDir 0 n (d_Titles d) ;;
                  match rt with
                  | Err err => mret (Err err)
                  | Ok _ =>
                      rd <- db (λ _, SetDiscRipDir discID ripDir) ;;
                      match rd with
                      | Err err => mret (Err (wrapf "record rip directory: " err ""))
                      | Ok _ =>
                          (if copy is Some c then emit (DiscardCopy (cp_Root c)) else mret tt) ;;;
                          mret (Ok d)
                      end
                  end
              end
          end
      end
  end.

Definition rip (jobID discID : Z) (d : Disc) (rawInfo : string) : M (outcome goerr Disc) :=
  dir <- makeRipDir d ;;
  match dir with
  | Err err => mret (Err err)
  | Ok ripDir =>
      status (update (set_rip_dir ripDir)) ;;;
      fault <- call write_fault ;;
      match fault with
      | Some e => mret (Err (errorf ("create rip.log: " +:+ e)))
      | None => occupy ripDir ;;; rip_into jobID discID d rawInfo ripDir
      end
  end.

(** ** A disc, from insertion to an open tray *)

(** handleDisc from the job on. *)
Definition rip_job (jobID discID : Z) (d : Disc) (raw : string) : M unit :=
  ripped <- rip jobID discID d raw ;;
  match ripped with
  | Err err =>
      if is_errCancelled err then
        afterCancel (λ now, SetJobState now jobID JobCancelled "cancelled") ;;;
        state StateCancelled ;;;
        logf "info" "%s: cancelled — the disc is untouched; eject and reinsert to try again"
      else
        db (λ now, SetJobState now jobID JobFailed (e_text err)) ;;;
        fail jobID (e_text err)
  | Ok ripped =>
      db (λ now, SetJobState now jobID JobComplete "") ;;;
      state StateComplete ;;;
      logf "info" "%s: complete — %q" ;;;
      ripDir <- gets (λ w, sn_RipDir (snap (w_status w))) ;;
      emit (PublishDisc "ripped" d ripDir) ;;;
      emit (OnRipped discID ripDir (d_Titles ripped)) ;;;
      ejectNow
  end.

(** handleDisc for a disc not ripped before. *)
Definition handle_new (d : Disc) (raw : string) : M unit :=
  id <- db (λ now, SaveDisc now d raw) ;;
  match id with
  | Err err => fail 0 ("could not record disc: " +:+ e_text err)
  | Ok discID =>
      r <- db (λ _, AttemptsForDisc discID) ;;
      let attempts := match r with Ok n => n | Err _ => 0 end in
      max <- ask (λ e, MaxRipAttempts (cfg e)) ;;
      if max <=? attempts then
        status (update (set_attempt attempts)) ;;;
        fail 0 ("already failed " +:+ itoa attempts +:+ " times; not retrying automatically")
      else
        drv <- ask driveID ;;
        j <- db (λ now, CreateJob now discID drv (attempts + 1)) ;;
        match j with
        | Err err => fail 0 ("could not open a job: " +:+ e_text err)
        | Ok jobID =>
            status (update (set_attempt (attempts + 1))) ;;;
            rip_job jobID discID d raw
        end
  end.

(** handleDisc once the disc is scanned. *)
Definition handle_scanned (d : Disc) (raw : string) : M unit :=
  status (update (set_disc (d_VolumeLabel d) (d_Fingerprint d) (Z.of_nat (length (d_Titles d))))) ;;;
  logf "info" "%s: %q — %d titles, %s, %s" ;;;
  emit (PublishDisc "enumerated" d "") ;;;
  existing <- db (λ _, FindDisc (d_Fingerprint d)) ;;
  match existing with
  | Err err => fail 0 ("could not check for a previous rip: " +:+ e_text err)
  | Ok (Some rec) =>
      if Ripped rec then
        status (update (set_rip_dir (dc_RipDir rec))) ;;;
        state StateDuplicate ;;;
        logf "info" "%s: already ripped to %s — ejecting without re-reading" ;;;
        ejectNow
      else handle_new d raw
  | Ok None => handle_new d raw
  end.

(** handleDisc for a DVD, with the slot held. *)
Definition handle_dvd : M unit :=
  state StateScanning ;;;
  with_world (set_cancelWork true) ;;;
  scan <- scanDisc ;;
  match scan with
  | Err err =>
      if is_errDiscGone err then logf "info" "%s: the disc left before it could be read"
      else
        c <- ctxErr ;;
        if is_errCancelled err || is_ctxCanceled err || c then
          state StateCancelled ;;;
          logf "info" "%s: cancelled before the disc was read; it is untouched"
        else fail 0 ("scan failed: " +:+ e_text err)
  | Ok scan => handle_scanned (sc_Disc scan) (sc_Raw scan)
  end ;;;
  with_world (set_cancelWork false).

(** The worker's [bluRay] field is an argument. *)
Definition handleDisc (bluRay : M unit) : M unit :=
  logf "info" "%s: disc detected" ;;;
  got <- takeDiscSlot ;;
  if negb got then mret tt else
  kind <- call drv_DiscKind ;;
  match kind with
  | Err _ =>
      logf "warn" "%s: could not read the disc type (%v); treating it as a DVD" ;;;
      handle_dvd
  | Ok (DiscBluRay, _) =>
      logf "info" "%s: Blu-ray (profile 0x%04x)" ;;;
      bluRay
  | Ok _ => handle_dvd
  end ;;;
  releaseDiscSlot.

Definition handleEvent (bluRay : M unit) (ev : Event) : M unit :=
  match ev_Err ev with
  | Some _ =>
      st <- gets (λ w, sn_State (snap (w_status w))) ;;
      (if bool_decide (st = StateAbsent) then mret tt else logf "warn" "%s is unreadable: %v") ;;;
      state StateAbsent
  | None =>
      match ev_To ev with
      | StatusTrayOpen => state StateTrayOpen
      | StatusNoDisc => state StateEmpty
      | StatusNotReady => state StateLoading
      | StatusIncompatible => handleIncompatible
      | StatusDiscOK => handleDisc bluRay
      | StatusUnknown => mret tt
      end
  end.

(** Run: the events of the monitor, one after the other. *)
Fixpoint run_events (bluRay : M unit) (evs : list Event) : M unit :=
  match evs with
  | [] => mret tt
  | ev :: evs' => handleEvent bluRay ev ;;; run_events bluRay evs'
  end.

Definition readPath : M string :=
  native <- ask (λ e, NativeDVD (cfg e)) ;;
  mret (if native : bool then "native-dvd" else "makemkv").

Definition displayLabel (d : Disc) : string :=
  let l := TrimSpace (d_VolumeLabel d) in
  if bool_decide (l = "") then "unlabelled disc " +:+ Short (d_Fingerprint d) else l.
End with_unicode.
