(* ===== verification/BluRay.v ===== *)
(** * The Blu-ray pipeline (internal/daemon/bluray.go)

    A Blu-ray is encoded straight from the drive: probed, recorded, encoded in
    one pass and filed, with no raw rip. *)

From Stdlib Require Import QArith_base.
From S2P Require Import Prelude GoText GoBase MakeMkv GoPath Table Disc Store Queue Verify Status Worker.
#[local] Open Scope Z_scope.

Definition secs_of (ns : Z) : Z := Z.quot ns 1000000000.

(** The disc a Blu-ray is recorded as: its main title. *)
Definition bluray_disc {U : Unicode} (volumeLabel today model : string) (probe : EncSource) : Disc :=
  let titles := [mkTitle 0 (secs_of (es_Duration probe)) 0 0 "" 0 "" "" (TitleFileName 0) "" [] ∅] in
  mkDisc (ComputeFingerprint volumeLabel titles) volumeLabel "" TypeBluRay 0 (Some today) "" model "" titles.

Definition encodeBluRay (src out : string) (probe : EncSource) : M (outcome goerr EncResult) :=
  state StateRipping ;;;
  now <- now_ns ;;
  status (beginRip now (secs_of (es_Duration probe))) ;;;
  r <- call (λ e n, enc_Transcode e n src out) ;;
  report r.1 ;;;
  match r.2 with
  | Err err =>
      c <- ctxErr ;;
      mret (Err (if c : bool then errCancelled else err))
  | Ok res =>
      logf "info" "%s: encoded %s in %s (%s)" ;;;
      mret (Ok res)
  end.

Section with_unicode.
Context {U : Unicode}.

(** handleBluRay from the job on. *)
Definition bluray_job (jobID discID : Z) (d : Disc) (src out : string) (probe : EncSource) : M unit :=
  r <- encodeBluRay src out probe ;;
  match r with
  | Err err =>
      if is_errCancelled err then
        afterCancel (λ now, SetJobState now jobID JobCancelled "cancelled") ;;;
        state StateCancelled ;;;
        logf "info" "%s: cancelled — the disc is untouched"
      else
        db (λ now, SetJobState now jobID JobFailed (e_text err)) ;;;
        fail jobID (e_text err)
  | Ok res =>
      m <- db (λ _, MarkTitleRipped discID 0 0 true) ;;
      (if is_ok m then mret tt else logf "warn" "%s: could not record the title: %v") ;;;
      rd <- db (λ _, SetDiscRipDir discID (Dir out)) ;;
      (if is_ok rd then mret tt else logf "warn" "%s: could not record the output directory: %v") ;;;
      db (λ now, SetJobState now jobID JobComplete "") ;;;
      rt <- db (λ now, RecordTranscode now discID 0 "default" src out (er_SizeBytes res) (er_Hardware res)) ;;
      (if is_ok rt then mret tt else logf "warn" "%s: could not record the encode: %v") ;;;
      state StateComplete ;;;
      logf "info" "%s: complete — %q" ;;;
      emit (OnBluRayDone discID 0 out) ;;;
      ejectNow
  end.

Definition bluray_new (d : Disc) (src : string) (probe : EncSource) : M unit :=
  id <- db (λ now, SaveDisc now d "") ;;
  match id with
  | Err err => fail 0 ("could not record disc: " +:+ e_text err)
  | Ok discID =>
      r <- db (λ _, AttemptsForDisc discID) ;;
      let attempts := match r with Ok n => n | Err _ => 0 end in
      max <- ask (λ e, MaxRipAttempts (cfg e)) ;;
      if max <=? attempts then
        status (update (set_attempt attempts)) ;;;
        fail 0 ("already failed " +:+ itoa attempts +:+ " times; not retrying automatically")
      else
        drv <- ask driveID ;;
        j <- db (λ now, CreateJob now discID drv (attempts + 1)) ;;
        match j with
        | Err err => fail 0 ("could not open a job: " +:+ e_text err)
        | Ok jobID =>
            status (update (set_attempt (attempts + 1))) ;;;
            out <- ask (λ e, Join [TranscodedDir (cfg e); DirName (today e) d; TitleFileName 0]) ;;
            bluray_job jobID discID d src out probe
        end
  end.

Definition handleBluRay : M unit :=
  lab <- call drv_VolumeLabel ;;
  (if is_ok lab then mret tt else logf "warn" "%s: could not read the volume label: %v") ;;;
  src <- ask (λ e, "bluray:" +:+ devicePath e) ;;
  state StateScanning ;;;
  probe <- call (λ e n, enc_Probe e n src) ;;
  match probe with
  | Err err =>
      c <- ctxErr ;;
      if is_ctxCanceled err || c then mret tt
      else fail 0 ("could not read the Blu-ray: " +:+ e_text err)
  | Ok probe =>
      if es_Duration probe <=? 0 then
        fail 0 "the Blu-ray reported no playable title; it may not be in the AACS key database"
      else
        day <- ask today ;;
        model <- ask driveModel ;;
        let d := bluray_disc (match lab with Ok l => l | Err _ => "" end) day model probe in
        status (update (set_disc (d_VolumeLabel d) (d_Fingerprint d) 1)) ;;;
        logf "info" "%s: %q — Blu-ray, %s, %dx%d" ;;;
        existing <- db (λ _, FindDisc (d_Fingerprint d)) ;;
        match existing with
        | Err err => fail 0 ("could not check for a previous rip: " +:+ e_text err)
        | Ok (Some rec) =>
            if Ripped rec then
              status (update (set_rip_dir (dc_RipDir rec))) ;;;
              state StateDuplicate ;;;
              logf "info" "%s: already done — ejecting without re-reading" ;;;
              ejectNow
            else bluray_new d src probe
        | Ok None => bluray_new d src probe
        end
  end.
End with_unicode.
