(* ===== verification/WorkerFrame.v ===== *)
(** * A frame logic for the worker

    What a run of the worker's parts can change: a property of the world that
    survives a machine call, a log line, a status change, a directory change
    and the database steps a part makes survives the part.  A property of the
    database survives a machine call when it is [Stable]: when what the rest
    of the daemon writes in the meantime keeps it.  [undisturbed] says which
    writes those are while a worker holds the shared slot. *)

From Stdlib Require Import QArith_base.
From S2P Require Import Prelude GoText GoBase MakeMkv GoPath Table Disc Store Queue StoreWf StoreDiscs Background Drive Monitor Verify Status Worker BluRay.
#[local] Open Scope Z_scope.

Definition is_eject (x : effect) : bool := match x with EjectCall _ => true | _ => false end.
Definition ejects (w : World) : list effect := List.filter is_eject (w_trace w).

(** ** What the rest of the daemon does meanwhile *)

Class Stable (e : Env) (K : Store → Prop) : Prop := stable : ∀ n s, K s → K (interfered e n s).

(** Nobody else works on a disc. *)
Class undisturbed (e : Env) : Prop := only_background : ∀ n op, op ∈ meanwhile e n → background op = true.
(** Nobody forgets the disc of a fingerprint. *)
Class unforgotten (e : Env) (fp : string) : Prop := not_forgotten : ∀ n, OpForgetDisc fp ∉ meanwhile e n.

Lemma stable_ops e K : (∀ n op s, op ∈ meanwhile e n → K s → K (run_op op s)) → Stable e K.
Proof.
  intros H n s. apply (run_ops_ind (λ op, op ∈ meanwhile e n)); [intros; by eapply H|]. by apply Forall_forall.
Qed.
Lemma stable_and e (K K' : Store → Prop) : Stable e K → Stable e K' → Stable e (λ s, K s ∧ K' s).
Proof. intros H H' n s [Hs Hs']. split; [by apply H|by apply H']. Qed.

#[export] Instance stable_wf e : Stable e store_wf.
Proof. apply stable_ops. intros n op s _. apply run_op_wf. Qed.
#[export] Instance stable_true e : Stable e (λ _, True).
Proof. done. Qed.

(** ** Frames *)

Record frame (e : Env) (step : Store → Store → Prop) (I : World → Prop) : Prop := {
  fr_bump : ∀ w, I w → I (bump e w);
  fr_push : ∀ x w, is_eject x = false → I w → I (push x w);
  fr_status : ∀ s w, I w → I (set_status s w);
  fr_dirs : ∀ d w, I w → I (set_dirs d w);
  fr_store : ∀ s w, step (w_store w) s → I w → I (set_store s w);
}.

Section frame.
Context (e : Env) (step : Store → Store → Prop) (I : World → Prop).

Definition pres {A} (m : M A) : Prop := ∀ w, I w → I (m e w).2.

Lemma pres_ret {A} (a : A) : pres (mret a).
Proof. by intros w. Qed.
Lemma pres_ask {A} (f : Env → A) : pres (ask f).
Proof. by intros w. Qed.
Lemma pres_gets {A} (f : World → A) : pres (gets f).
Proof. by intros w. Qed.
Lemma pres_ctxErr : pres ctxErr.
Proof. by intros w. Qed.
Lemma pres_now : pres now_ns.
Proof. by intros w. Qed.

Lemma pres_bind {A B} (m : M A) (k : A → M B) : pres m → (∀ a, pres (k a)) → pres (mbind m k).
Proof.
  intros Hm Hk w Hw. unfold mbind. specialize (Hm w Hw). destruct (m e w) as [a w']. by apply Hk.
Qed.

Hypothesis F : frame e step I.

Lemma pres_call {A} (f : Env → nat → A) : pres (call f).
Proof. intros w Hw. by apply (fr_bump _ _ _ F). Qed.
Lemma pres_emit x : is_eject x = false → pres (emit x).
Proof. intros Hx w Hw. by apply (fr_push _ _ _ F). Qed.
Lemma pres_logf l f : pres (logf l f).
Proof. by apply pres_emit. Qed.
Lemma pres_status f : pres (status f).
Proof. intros w Hw. by apply (fr_status _ _ _ F). Qed.
Lemma pres_state s : pres (state s).
Proof. apply pres_bind; [apply pres_now|]. intros. apply pres_status. Qed.
Lemma pres_occupy d : pres (occupy d).
Proof. intros w Hw. by apply (fr_dirs _ _ _ F). Qed.
Lemma pres_db_in {A} b (op : Z → DB A) : (∀ now s, step s (op now s).2) → pres (db_in b op).
Proof.
  intros Hop w Hw. unfold db_in. destruct (_ && _); [by apply (fr_bump _ _ _ F)|].
  destruct (db_fault _ _); [by apply (fr_bump _ _ _ F)|].
  specialize (Hop (unix (clock e (w_tick w))) (w_store w)).
  destruct (op _ _) as [[a|x] s']; apply (fr_bump _ _ _ F), (fr_store _ _ _ F); auto.
Qed.
Lemma pres_db {A} (op : Z → DB A) : (∀ now s, step s (op now s).2) → pres (db op).
Proof. apply pres_db_in. Qed.
Lemma pres_afterCancel {A} (op : Z → DB A) : (∀ now s, step s (op now s).2) → pres (afterCancel op).
Proof. apply pres_db_in. Qed.
Lemma pres_report ps : pres (report ps).
Proof.
  induction ps; simpl; [apply pres_ret|]. apply pres_bind; [apply pres_status|done].
Qed.
End frame.

#[export] Hint Resolve pres_ret pres_ask pres_gets pres_ctxErr pres_now pres_call pres_emit pres_logf
  pres_status pres_state pres_occupy pres_report : pres.

(** Walk down a program, closing the leaves with the hints. *)
Ltac pres_step :=
  match goal with
  | |- pres _ _ (mbind _ _) => apply pres_bind; [|intros]
  | |- pres _ _ (if ?b then _ else _) => destruct b
  | |- pres _ _ (match ?x with _ => _ end) => destruct x
  end.
Ltac pres_solve := intros; repeat (first [ solve [eauto with pres] | pres_step ]).

Section parts.
Context (e : Env) (step : Store → Store → Prop) (I : World → Prop) (F : frame e step I).
Notation P := (pres e I).

Lemma pres_scan_once : P scan_once.
Proof. unfold scan_once. pres_solve. Qed.
Lemma pres_discGone : P discGone.
Proof. unfold discGone. pres_solve. Qed.
Lemma pres_scan_loop fuel a : P (scan_loop fuel a).
Proof.
  revert a; induction fuel as [|fuel IH]; intros a; cbn [scan_loop]; [pres_solve|].
  apply pres_bind; [apply pres_scan_once|]. intros res.
  pose proof pres_discGone. pres_solve.
Qed.
Lemma pres_scanDisc : P scanDisc.
Proof. unfold scanDisc. pose proof pres_scan_loop. pres_solve. Qed.

Lemma pres_mkdir p : P (mkdir p).
Proof.
  unfold mkdir. apply pres_bind; [pres_solve|]. intros f w Hw. unfold mbind, gets, with_world.
  destruct (w_dirs w !! p), f; try done. by apply (fr_dirs _ _ _ F).
Qed.
Lemma pres_rip_dir_loop fuel base c i : P (rip_dir_loop fuel base c i).
Proof.
  revert c i; induction fuel as [|fuel IH]; intros c i; cbn [rip_dir_loop].
  all: apply pres_bind; [apply pres_mkdir|]; intros []; unfold dirIsEmpty; pres_solve.
Qed.

Lemma pres_decryptNeeded : P decryptNeeded.
Proof. unfold decryptNeeded. pres_solve. Qed.
Lemma pres_ripSource d : P (ripSource d).
Proof. unfold ripSource. pose proof pres_decryptNeeded. pres_solve. Qed.
Lemma pres_rescanCopy s d : P (rescanCopy s d).
Proof. unfold rescanCopy. pres_solve. Qed.
Lemma pres_writeDiscJSON dir d : P (writeDiscJSON dir d).
Proof. unfold writeDiscJSON. pres_solve. Qed.
Lemma pres_write_scan dir raw : P (write_scan dir raw).
Proof. unfold write_scan. pres_solve. Qed.
Lemma pres_takeDiscSlot_rest : P (state StateQueued).
Proof. pres_solve. Qed.

Context {U : Unicode}.
Lemma pres_makeRipDir d : P (makeRipDir d).
Proof. unfold makeRipDir. pose proof pres_rip_dir_loop. pres_solve. Qed.
Lemma pres_verify_title p t : P (verify_title p t).
Proof. unfold verify_title. pres_solve. Qed.

(** The parts that write: under the database steps they make. *)
Section writes.
Context (jobID discID : Z).
Hypothesis Hstate : ∀ now st t s, step s (SetJobState now jobID st t s).2.
Hypothesis Hprogress : ∀ a b s, step s (SetJobProgress jobID a b s).2.
Hypothesis Hmark : ∀ i b v s, step s (MarkTitleRipped discID i b v s).2.

Lemma pres_rip_title src dir i n t : P (rip_title jobID discID src dir i n t).
Proof.
  unfold rip_title. pose proof pres_verify_title.
  pose proof (λ A, @pres_db e step I F A) as Hdb. pose proof (λ A, @pres_afterCancel e step I F A) as Hac. pres_solve.
Qed.
Lemma pres_rip_titles src dir i n ts : P (rip_titles jobID discID src dir i n ts).
Proof.
  revert i; induction ts as [|t ts IH]; intros i; cbn [rip_titles]; [pres_solve|].
  apply pres_bind; [apply pres_rip_title|]. intros []; [apply IH|pres_solve].
Qed.

Hypothesis Hdir : ∀ dir s, step s (SetDiscRipDir discID dir s).2.
Context (d : Disc).
Hypothesis Hsave : ∀ now d' raw s, d_Fingerprint d' = d_Fingerprint d → step s (SaveDisc now d' raw s).2.

Lemma pres_rescan_titles src raw : P (rescan_titles src d raw).
Proof.
  unfold rescan_titles. pose proof pres_rescanCopy as Hrc.
  destruct (negb _); [pres_solve|]. apply pres_bind; [apply Hrc|].
  intros [[resc raw']|]; [|pres_solve]. cbv zeta. destruct (copy_too_short _ _); [pres_solve|].
  apply pres_bind; [pres_solve|]. intros. apply pres_bind; [pres_solve|]. intros.
  apply pres_bind; [|pres_solve]. eapply pres_db; [exact F|]. intros. by apply Hsave.
Qed.

Lemma pres_rip_into raw dir : P (rip_into jobID discID d raw dir).
Proof.
  unfold rip_into. pose proof (pres_ripSource d). pose proof pres_rescan_titles.
  pose proof pres_writeDiscJSON. pose proof pres_write_scan. pose proof pres_rip_titles.
  pose proof (λ A, @pres_db e step I F A) as Hdb. pres_solve.
Qed.
Lemma pres_rip raw : P (rip jobID discID d raw).
Proof. unfold rip. pose proof pres_makeRipDir. pose proof pres_rip_into. pres_solve. Qed.
End writes.

End parts.

(** ** What a worker does while it holds the slot *)

(** handleDisc from the deferred release of the slot on. *)
Definition with_slot `{Unicode} (bluRay : M unit) : M unit :=
  kind <- call drv_DiscKind ;;
  match kind with
  | Err _ =>
      logf "warn" "%s: could not read the disc type (%v); treating it as a DVD" ;;;
      handle_dvd
  | Ok (DiscBluRay, _) =>
      logf "info" "%s: Blu-ray (profile 0x%04x)" ;;;
      bluRay
  | Ok _ => handle_dvd
  end ;;;
  releaseDiscSlot.
Lemma handleDisc_slot `{Unicode} bluRay :
  handleDisc bluRay =
  (logf "info" "%s: disc detected" ;;; got <- takeDiscSlot ;; if negb got then mret tt else with_slot bluRay).
Proof. reflexivity. Qed.

(** Taking the slot changes the database only by what the others do meanwhile. *)
Lemma pres_takeDiscSlot e (K : Store → Prop) `{!Stable e K} :
  (∀ s, K s → K (foldl (flip run_op) s (while_waiting e))) → pres e (λ w, K (w_store w)) takeDiscSlot.
Proof.
  intros Hwait w Hw. unfold takeDiscSlot, mbind, call, state, now_ns, status, with_world, with_env, logf, emit, mret. cbn.
  assert (K (w_store (bump e w))) as Hb by by apply stable. destruct (slot_free e (w_tick w)); [done|]. cbn.
  destruct (slot_free e _); cbn; by apply stable, Hwait.
Qed.
Lemma pres_handleDisc `{Unicode} e (K : Store → Prop) `{!Stable e K} bluRay :
  (∀ s, K s → K (foldl (flip run_op) s (while_waiting e))) →
  pres e (λ w, K (w_store w)) (with_slot bluRay) → pres e (λ w, K (w_store w)) (handleDisc bluRay).
Proof.
  intros Hwait Hs. rewrite handleDisc_slot. apply pres_bind; [by intros w|]. intros [].
  apply pres_bind; [by apply pres_takeDiscSlot|]. intros []; [exact Hs|by intros w].
Qed.
