(* ===== verification/WorkerSafety.v ===== *)
(** * What an open tray and a complete rip mean

    The tray opens only for a disc the database records as ripped, or, where that
    is configured, for a failure that has been reported; a disc is
    recorded only after every title was written, verified and marked; and the
    shared slot and the cancel hook are always given back. *)

From Stdlib Require Import QArith_base.
From S2P Require Import Prelude GoText GoBase MakeMkv GoPath Table Disc Store Queue StoreWf StoreDiscs Background Drive Monitor Verify Status Worker BluRay WorkerFrame.
#[local] Open Scope Z_scope.

(** ** Postconditions *)

Definition post {A} (e : Env) (P : World → Prop) (m : M A) (Q : A → World → Prop) : Prop :=
  ∀ w, P w → Q (m e w).1 (m e w).2.

Lemma post_bind {A B} e P (m : M A) (k : A → M B) R Q :
  post e P m R → (∀ a, post e (R a) (k a) Q) → post e P (mbind m k) Q.
Proof.
  intros Hm Hk w Hw. specialize (Hm w Hw). unfold mbind. destruct (m e w) as [a w']. by apply Hk.
Qed.

Lemma post_ret {A} e (P : World → Prop) (a : A) (Q : A → World → Prop) :
  (∀ w, P w → Q a w) → post e P (mret a) Q.
Proof. intros H w. apply H. Qed.

Lemma post_pre {A} e (P P' : World → Prop) (m : M A) (Q : A → World → Prop) :
  post e P' m Q → (∀ w, P w → P' w) → post e P m Q.
Proof. intros Hm HP w Hw. by apply Hm, HP. Qed.

Lemma post_pres {A} e I (m : M A) : pres e I m → post e I m (λ _, I).
Proof. done. Qed.

Lemma post_db {A} e (P : Store → Prop) (op : Z → DB A) (Q : outcome goerr A → Store → Prop) :
  (∀ r, Stable e (Q r)) →
  (∀ now s, P s → match op now s with (Ok a, s') => Q (Ok a) s' | (Err x, s') => Q (Err (store_err x)) s' end) →
  (∀ err s, P s → Q (Err err) s) →
  post e (λ w, P (w_store w)) (db op) (λ r w, Q r (w_store w)).
Proof.
  intros Hst Hop Herr w HP. unfold db, db_in. destruct (_ && _); [by apply Hst, Herr|].
  destruct (db_fault _ _); [by apply Hst, Herr|].
  specialize (Hop (unix (clock e (w_tick w))) (w_store w) HP).
  destruct (op _ _) as [[a|x] s']; by apply Hst.
Qed.

(** ** Frames *)

(** How many failures have been reported. *)
Definition is_error (x : effect) : bool := match x with Log level _ _ => bool_decide (level = "error") | _ => false end.
Definition failures (w : World) : nat := length (List.filter is_error (w_trace w)).
(** Since [w0] the tray has not been asked to open, or only after a failure, where that is configured. *)
Record closed (e : Env) (w0 w : World) : Prop := {
  cd_failures : (failures w0 ≤ failures w)%nat;
  cd_ejects : ejects w = ejects w0 ∨ EjectOnFailure (cfg e) = true ∧ (failures w0 < failures w)%nat;
}.

Lemma closed_trace e w0 w w' : w_trace w' = w_trace w → closed e w0 w → closed e w0 w'.
Proof. intros Ht [Hf He]. unfold failures, ejects in *. split; unfold failures, ejects; by rewrite Ht. Qed.
Lemma failures_push x w : failures (push x w) = (failures w + if is_error x then 1 else 0)%nat.
Proof. unfold failures. cbn. rewrite List.filter_app, length_app. cbn. by destruct (is_error x). Qed.
Lemma frame_ejects e w0 : frame e (λ _ _, True) (closed e w0).
Proof.
  split; try done; [by intros w [? ?]| |by intros s w [? ?]|by intros d w [? ?]|by intros s w _ [? ?]].
  intros x w Hx [Hf He]. split; rewrite failures_push; [lia|]. destruct He as [He|[? ?]]; [left|right; split; [done|lia]].
  unfold ejects in *. cbn. rewrite List.filter_app. cbn. by rewrite Hx, app_nil_r.
Qed.

Lemma frame_flags e a b : frame e (λ _ _, True) (λ w, w_slot w = a ∧ w_cancelWork w = b).
Proof. by split. Qed.

Lemma frame_store e (step : Store → Store → Prop) (K : Store → Prop) `{!Stable e K} :
  (∀ s s', step s s' → K s → K s') → frame e step (λ w, K (w_store w)).
Proof. intros H. split; try done; [intros w; apply stable|]. intros s w Hs HK. by eapply H. Qed.

Lemma frame_wf e : frame e (λ s s', s' = s) (λ w, store_wf (w_store w)).
Proof. apply (frame_store e _ store_wf). by intros s s' ->. Qed.

(** A step of the database is a call, which keeps its rows sound. *)
Ltac keeps_wf := intros; solve [done | apply keeps_snd; auto with hellbox].

(** ** The disc in hand *)

(** The tables hold the disc with this fingerprint under this id. *)
Definition known (fp : string) (discID : Z) (s : Store) : Prop :=
  store_wf s ∧ ∃ r, select1 (fp_is fp) (discs s) = Some r ∧ di_id r = discID.

(** The disc is recorded as ripped. *)
Definition recorded (fp : string) (s : Store) : Prop :=
  ∃ rec, (FindDisc fp s).1 = Ok (Some rec) ∧ Ripped rec = true.

(** The database steps of a rip of the disc with fingerprint [fp]. *)
Inductive rip_step (fp : string) (jobID discID : Z) : Store → Store → Prop :=
| rs_state now st t s : rip_step fp jobID discID s (SetJobState now jobID st t s).2
| rs_progress a b s : rip_step fp jobID discID s (SetJobProgress jobID a b s).2
| rs_mark i b v s : rip_step fp jobID discID s (MarkTitleRipped discID i b v s).2
| rs_dir dir s : rip_step fp jobID discID s (SetDiscRipDir discID dir s).2
| rs_save now d raw s : d_Fingerprint d = fp → rip_step fp jobID discID s (SaveDisc now d raw s).2.

Lemma rip_step_wf fp jobID discID s s' : rip_step fp jobID discID s s' → store_wf s → store_wf s'.
Proof. intros [] Hs; apply keeps_snd; auto with hellbox. Qed.

Lemma rip_step_known fp jobID discID s s' :
  rip_step fp jobID discID s s' → known fp discID s → known fp discID s'.
Proof.
  intros Hst [Hwf (r & Hr & Hid)]. split; [by eapply rip_step_wf|]. destruct Hst; try by exists r.
  - simpl. rewrite select1_update, Hr by done. simpl. eexists. split; [done|]. by case_match.
  - destruct (SaveDisc_eq now d raw s) as (s' & -> & _ & G). cbn [snd]. rewrite (tg_discs _ _ G). subst fp.
    cbn [discs set_discs]. rewrite saved_discs_select. eexists. split; [done|].
    by rewrite saved_row_id, Hr.
Qed.

#[export] Instance stable_known e fp discID `{!undisturbed e} : Stable e (known fp discID).
Proof.
  apply stable_ops. intros n op s Hop [Hwf (r & Hr & <-)]. pose proof (run_op_wf op s Hwf). split; [done|].
  apply (background_known op s fp r); [exact (only_background n op Hop)|done].
Qed.

Lemma frame_known e fp jobID discID `{!undisturbed e} :
  frame e (rip_step fp jobID discID) (λ w, known fp discID (w_store w)).
Proof. apply (frame_store e _ (known fp discID)). intros s s'. apply rip_step_known. Qed.

Lemma recorded_discs fp s s' : discs s' = discs s → recorded fp s → recorded fp s'.
Proof. unfold recorded, FindDisc, query. simpl. by intros ->. Qed.

(** The disc is recorded as ripped in a database whose rows are sound; it stays so unless it is forgotten. *)
Definition on_record (fp : string) (s : Store) : Prop := store_wf s ∧ recorded fp s.

#[export] Instance stable_on_record e fp `{!undisturbed e} `{!unforgotten e fp} : Stable e (on_record fp).
Proof.
  apply stable_ops. intros n op s Hop [Hwf (rec & Hrec & Hr)]. pose proof (run_op_wf op s Hwf). split; [done|]. exists rec.
  rewrite background_FindDisc; [done|exact (only_background n op Hop)| |done]. intros ->. exact (not_forgotten n Hop).
Qed.

Lemma SetDiscRipDir_recorded fp discID dir s :
  dir ≠ "" → known fp discID s → on_record fp (SetDiscRipDir discID dir s).2.
Proof.
  intros Hne [Hwf (r & Hr & Hid)]. split; [keeps_wf|]. unfold recorded, FindDisc, query. cbn [fst]. simpl. fold (fp_is fp).
  rewrite select1_update, Hr by done. simpl. rewrite Hid, Z.eqb_refl. eexists. split; [done|].
  unfold Ripped. simpl. by rewrite bool_decide_eq_false_2.
Qed.

(** ** The rip directory has a name *)

Section with_unicode.
Context {U : Unicode}.

Lemma rip_base_not_empty dir day d : Join [dir; DirName day d] ≠ "".
Proof.
  unfold Join. destruct (filter _ _) as [|x l] eqn:E; [|apply Clean_not_empty].
  assert (DirName day d ∈ filter (λ e, e ≠ "") [dir; DirName day d]) as Hin.
  { apply list_elem_of_filter. split; [|set_solver]. unfold DirName. cbv zeta. by apply append_not_empty. }
  rewrite E in Hin. by apply not_elem_of_nil in Hin.
Qed.

Lemma rip_dir_loop_named e fuel base c i :
  base ≠ "" → c ≠ "" →
  post e (λ _, True) (rip_dir_loop fuel base c i) (λ r _, match r with Ok dir => dir ≠ "" | Err _ => True end).
Proof.
  intros Hb. revert c i; induction fuel as [|fuel IH]; intros c i Hc; cbn [rip_dir_loop].
  all: eapply (post_bind _ _ _ _ (λ _ _, True)); [done|]; intros []; [by apply post_ret| |by apply post_ret].
  all: eapply (post_bind _ _ _ _ (λ _ _, True)); [done|]; intros []; [by apply post_ret|].
  - by apply post_ret.
  - apply IH. by destruct base.
Qed.

(** ** A rip that reports success is recorded *)

Definition success_recorded (fp : string) (r : outcome goerr Disc) (w : World) : Prop :=
  match r with Ok _ => on_record fp (w_store w) | Err _ => True end.

Lemma known_bind {A B} e fp discID (m : M A) (k : A → M B) Q :
  pres e (λ w, known fp discID (w_store w)) m →
  (∀ a, post e (λ w, known fp discID (w_store w)) (k a) Q) →
  post e (λ w, known fp discID (w_store w)) (mbind m k) Q.
Proof. intros Hm Hk. eapply post_bind; [apply post_pres, Hm|done]. Qed.

Lemma rip_into_recorded e jobID discID d raw dir `{!undisturbed e} `{!unforgotten e (d_Fingerprint d)} :
  dir ≠ "" →
  post e (λ w, known (d_Fingerprint d) discID (w_store w)) (rip_into jobID discID d raw dir)
    (success_recorded (d_Fingerprint d)).
Proof.
  intros Hdir. set (fp := d_Fingerprint d). pose proof (frame_known e fp jobID discID) as F.
  assert (∀ now (d' : Disc) raw s, d_Fingerprint d' = d_Fingerprint d →
            rip_step fp jobID discID s (SaveDisc now d' raw s).2) as Hsave by by constructor.
  unfold rip_into. apply (known_bind e fp discID); [apply (pres_ripSource _ _ _ F)|].
  intros [[src copy]|err]; [|by apply post_ret].
  apply (known_bind e fp discID); [by apply (pres_rescan_titles _ _ _ F)|].
  intros [[d' raw']|err]; [|by apply post_ret].
  apply (known_bind e fp discID); [apply (pres_writeDiscJSON _ _ _ F)|]. intros []; [|by apply post_ret].
  apply (known_bind e fp discID); [apply (pres_write_scan _ _ _ F)|]. intros []; [|by apply post_ret].
  cbv zeta. apply (known_bind e fp discID); [eauto with pres|intros].
  apply (known_bind e fp discID); [eauto with pres|intros].
  apply (known_bind e fp discID); [eauto with pres|intros].
  apply (known_bind e fp discID); [apply (pres_db _ _ _ F); constructor|intros].
  apply (known_bind e fp discID); [apply (pres_db _ _ _ F); constructor|intros].
  apply (known_bind e fp discID).
  { apply (pres_rip_titles _ _ _ F); constructor. }
  intros []; [|by apply post_ret].
  eapply post_bind.
  - apply (post_db e (known fp discID) _ (λ r s, match r with Ok _ => on_record fp s | Err _ => True end)); [by intros []; apply _| |done].
    intros now s Hk. by apply SetDiscRipDir_recorded.
  - intros []; [|by apply post_ret]. destruct copy; by intros w Hw.
Qed.

Lemma rip_recorded e jobID discID d raw `{!undisturbed e} `{!unforgotten e (d_Fingerprint d)} :
  post e (λ w, known (d_Fingerprint d) discID (w_store w)) (rip jobID discID d raw)
    (success_recorded (d_Fingerprint d)).
Proof.
  set (fp := d_Fingerprint d). pose proof (frame_known e fp jobID discID) as F. unfold rip.
  eapply (post_bind _ _ _ _ (λ r w, known fp discID (w_store w) ∧ match r with Ok dir => dir ≠ "" | Err _ => True end)).
  { intros w Hw. split; [by apply (pres_makeRipDir _ _ _ F)|].
    unfold makeRipDir, mbind, ask. apply (rip_dir_loop_named e 49 _ _ 2); [apply rip_base_not_empty..|done]. }
  intros [dir|err]; [|by apply post_ret]. intros w [Hk Hdir]. revert w Hk.
  change (post e (λ w, known fp discID (w_store w))
    (status (update (set_rip_dir dir)) ;;; fault <- call write_fault ;;
     match fault with
     | Some e => mret (Err (errorf ("create rip.log: " +:+ e)))
     | None => occupy dir ;;; rip_into jobID discID d raw dir
     end) (success_recorded fp)).
  apply (known_bind e fp discID); [eauto with pres|intros].
  apply (known_bind e fp discID); [eauto with pres|intros [f|]]; [by apply post_ret|].
  apply (known_bind e fp discID); [eauto with pres|intros]. by apply rip_into_recorded.
Qed.

(** ** The tray *)

(** The fingerprint of a disc a scan or a probe of this run reported. *)
Definition scanned (e : Env) (fp : string) : Prop :=
  (∃ n src r, mk_Scan e n src = Ok r ∧ d_Fingerprint (sc_Disc r) = fp) ∨
  (∃ n src p lab, enc_Probe e n src = Ok p ∧
     d_Fingerprint (bluray_disc lab (today e) (driveModel e) p) = fp).

(** An encode straight from the drive succeeded. *)
Definition encoded (e : Env) : Prop := ∃ n src out res, (enc_Transcode e n src out).2 = Ok res.

(** The tray was left closed since [l], or the disc in hand is recorded as ripped, or it was encoded. *)
Definition tray_ok (e : Env) (l w : World) : Prop :=
  closed e l w ∨ (∃ fp, recorded fp (w_store w) ∧ scanned e fp) ∨ encoded e.

Lemma pres_store_ejectNow e (K : Store → Prop) `{!Stable e K} : pres e (λ w, K (w_store w)) ejectNow.
Proof.
  intros w Hw. unfold ejectNow, mbind, ask. destruct (negb _); [done|]. simpl.
  destruct (drv_Eject _ _); simpl; by apply stable.
Qed.

Lemma ejectNow_tray e fp l `{!undisturbed e} `{!unforgotten e fp} :
  scanned e fp → post e (λ w, on_record fp (w_store w)) ejectNow (λ _, tray_ok e l).
Proof.
  intros Hs w Hw. right. left. exists fp. split; [|done].
  by apply (pres_store_ejectNow e (on_record fp)) in Hw as [_ ?].
Qed.

Lemma quiet_tray e l {A} (m : M A) :
  pres e (closed e l) m → post e (closed e l) m (λ _, tray_ok e l).
Proof. intros Hm w Hw. left. by apply Hm. Qed.

Notation quiet l e := (pres e (closed e l)).

(** A failure is reported before the tray opens for it. *)
Lemma quiet_ejectNow e l w : closed e l w → EjectOnFailure (cfg e) = true → (failures l < failures w)%nat → closed e l (ejectNow e w).2.
Proof.
  intros Hc He Hlt. unfold ejectNow, mbind, ask. destruct (negb _); [done|]. cbn.
  destruct (drv_Eject _ _); cbn; (split; [|right; split; [done|]]); unfold failures in *; cbn; rewrite ?List.filter_app, ?length_app; lia.
Qed.
Lemma quiet_fail e l j m : quiet l e (fail j m).
Proof.
  pose proof (frame_ejects e l) as F. intros w Hw. unfold fail, mbind, ask.
  pose proof (pres_status e _ _ F (update (set_error m)) w Hw) as H0. destruct (status (update (set_error m)) e w) as [u0 wa]. cbn [snd] in H0.
  pose proof (pres_state e _ _ F StateFailed wa H0) as H1. destruct (state StateFailed e wa) as [u1 wb]. cbn [snd] in H1.
  unfold emit, with_world. cbv beta iota. set (x := Log "error" _ _). assert (closed e l (push x wb)) as H2 by by apply (fr_push _ _ _ F).
  destruct (EjectOnFailure (cfg e)) eqn:He; [|by apply (pres_logf e _ _ F)].
  apply quiet_ejectNow; [done..|]. rewrite failures_push. destruct H1 as [Hle _]. assert (is_error x = true) as -> by done. lia.
Qed.

Lemma recorded_bind {A B} e fp (m : M A) (k : A → M B) Q :
  pres e (λ w, on_record fp (w_store w)) m → (∀ a, post e (λ w, on_record fp (w_store w)) (k a) Q) →
  post e (λ w, on_record fp (w_store w)) (mbind m k) Q.
Proof. intros Hm Hk. eapply post_bind; [apply post_pres, Hm|done]. Qed.

Lemma frame_recorded e fp `{!undisturbed e} `{!unforgotten e fp} :
  frame e (λ s s', discs s' = discs s ∧ (store_wf s → store_wf s')) (λ w, on_record fp (w_store w)).
Proof.
  apply (frame_store e _ (on_record fp)). intros s s' [Hd Hwf] [? ?]. split; [auto|]. by eapply recorded_discs.
Qed.

Lemma rip_job_tray e jobID discID d raw l `{!undisturbed e} `{!unforgotten e (d_Fingerprint d)} :
  scanned e (d_Fingerprint d) →
  post e (λ w, known (d_Fingerprint d) discID (w_store w) ∧ closed e l w)
    (rip_job jobID discID d raw) (λ _, tray_ok e l).
Proof.
  intros Hs. set (fp := d_Fingerprint d). pose proof (frame_ejects e l) as F. unfold rip_job.
  eapply (post_bind _ _ _ _ (λ r w, success_recorded fp r w ∧ closed e l w)).
  { intros w [Hk Hl]. split; [by apply rip_recorded|]. by apply (pres_rip e _ _ F). }
  intros [d'|err].
  - eapply post_pre; [|intros w [Hr _]; exact Hr]. pose proof (frame_recorded e fp) as FR.
    apply recorded_bind.
    { apply (pres_db _ _ _ FR). split; [done|keeps_wf]. }
    intros.
    do 2 (apply recorded_bind; [eauto with pres|intros]).
    apply recorded_bind; [eauto with pres|intros].
    do 2 (apply recorded_bind; [by eapply pres_emit|intros]). by apply ejectNow_tray.
  - eapply post_pre; [|intros w [_ Hl]; exact Hl]. apply quiet_tray.
    pose proof (λ A op H, @pres_db e _ _ F A op H) as Hdb.
    pose proof (λ A op H, @pres_afterCancel e _ _ F A op H) as Hac.
    pose proof (quiet_fail e l). destruct (is_errCancelled err); pres_solve.
Qed.

Lemma SaveDisc_known now d raw s id s' :
  store_wf s → SaveDisc now d raw s = (Ok id, s') → known (d_Fingerprint d) id s'.
Proof.
  intros Hwf E. split; [pose proof (SaveDisc_keeps now d raw s Hwf) as H; by rewrite E in H|].
  destruct (SaveDisc_eq now d raw s) as (s1 & E1 & _ & G). rewrite E in E1. injection E1 as -> <-.
  rewrite (tg_discs _ _ G). cbn [discs set_discs]. rewrite saved_discs_select. by eexists.
Qed.

Lemma post_and {A} e (P P' : World → Prop) (m : M A) (Q Q' : A → World → Prop) :
  post e P m Q → post e P' m Q' → post e (λ w, P w ∧ P' w) m (λ a w, Q a w ∧ Q' a w).
Proof. intros H H' w [Hw Hw']. split; [by apply H|by apply H']. Qed.

Lemma quiet_bind {A B} e l (I : World → Prop) (m : M A) (k : A → M B) :
  quiet l e m → pres e I m → (∀ a, post e (λ w, I w ∧ closed e l w) (k a) (λ _, tray_ok e l)) →
  post e (λ w, I w ∧ closed e l w) (mbind m k) (λ _, tray_ok e l).
Proof. intros Hq Hi Hk. eapply post_bind; [|exact Hk]. by apply post_and; apply post_pres. Qed.

Lemma quiet_end {A} e l (I : World → Prop) (m : M A) :
  quiet l e m → post e (λ w, I w ∧ closed e l w) m (λ _, tray_ok e l).
Proof. intros Hq w [_ Hl]. left. by apply Hq. Qed.

Lemma handle_new_tray e d raw l `{!undisturbed e} `{!unforgotten e (d_Fingerprint d)} :
  scanned e (d_Fingerprint d) →
  post e (λ w, store_wf (w_store w) ∧ closed e l w) (handle_new d raw) (λ _, tray_ok e l).
Proof.
  intros Hs. set (fp := d_Fingerprint d). pose proof (frame_ejects e l) as F.
  pose proof (quiet_fail e l) as Hf. unfold handle_new.
  eapply (post_bind _ _ _ _ (λ r w, match r with Ok id => known fp id (w_store w) | Err _ => True end ∧ closed e l w)).
  { apply post_and; [|apply post_pres, (pres_db _ _ _ F); done].
    apply (post_db e store_wf _ (λ r s, match r with Ok id => known fp id s | Err _ => True end)); [by intros []; apply _| |done].
    intros now s Hwf. destruct (SaveDisc now d raw s) as [[id|x] s'] eqn:E; [by eapply SaveDisc_known|done]. }
  intros [id|err]; [|by apply quiet_end, Hf].
  assert (frame e (λ s s', known fp id s → known fp id s') (λ w, known fp id (w_store w))) as FK.
  { apply (frame_store e _ (known fp id)). auto. }
  apply quiet_bind; [by apply (pres_db _ _ _ F)|by apply (pres_db _ _ _ FK)|intros r].
  cbv zeta. apply quiet_bind; [eauto with pres..|intros max]. destruct (_ <=? _).
  { apply quiet_bind; [eauto with pres..|intros]. by apply quiet_end, Hf. }
  apply quiet_bind; [eauto with pres..|intros drv].
  apply quiet_bind; [by apply (pres_db _ _ _ F)| |].
  { apply (pres_db _ _ _ FK). intros now s [Hwf Hr]. split; [apply keeps_snd; auto with hellbox|].
    unfold CreateJob, bind, references. by destruct (_ && _). }
  intros [jobID|err]; [|by apply quiet_end, Hf].
  apply quiet_bind; [eauto with pres..|intros]. by apply rip_job_tray.
Qed.

(** The duplicate check of both pipelines. *)
Definition existing_gate (fp dup : string) (new : M unit) : M unit :=
  existing <- db (λ _, FindDisc fp) ;;
  match existing with
  | Err err => fail 0 ("could not check for a previous rip: " +:+ e_text err)
  | Ok (Some rec) =>
      if Ripped rec then
        status (update (set_rip_dir (dc_RipDir rec))) ;;;
        state StateDuplicate ;;;
        logf "info" dup ;;;
        ejectNow
      else new
  | Ok None => new
  end.

(** What it finds, in a database that stays as it is. *)
Definition found (fp : string) (r : outcome goerr (option DiscRecord)) (s : Store) : Prop :=
  match r with Ok (Some rec) => if Ripped rec then on_record fp s else store_wf s | _ => store_wf s end.
#[export] Instance stable_found e fp r `{!undisturbed e} `{!unforgotten e fp} : Stable e (found fp r).
Proof. destruct r as [[rec|]|]; unfold found; [destruct (Ripped rec)|..]; apply _. Qed.
Lemma handle_existing_tray e fp l dup (new : M unit) `{!undisturbed e} `{!unforgotten e fp} :
  scanned e fp →
  post e (λ w, store_wf (w_store w) ∧ closed e l w) new (λ _, tray_ok e l) →
  post e (λ w, store_wf (w_store w) ∧ closed e l w)
    (existing_gate fp dup new) (λ _, tray_ok e l).
Proof.
  intros Hs Hnew. pose proof (frame_ejects e l) as F. pose proof (quiet_fail e l) as Hf.
  unfold existing_gate. eapply (post_bind _ _ _ _ (λ r w, found fp r (w_store w) ∧ closed e l w)).
  { apply post_and; [|by apply post_pres, (pres_db _ _ _ F)].
    apply (post_db e store_wf _ (found fp)); [apply _|intros now s Hwf|by intros err s Hwf].
    simpl. destruct (select1 _ (discs s)) as [r|] eqn:E; simpl; [|done].
    destruct (Ripped _) eqn:Hr; [|done]. split; [done|]. eexists. split; [|exact Hr].
    unfold FindDisc, query. simpl. by rewrite E. }
  intros [[rec|]|err]; [|exact Hnew|by apply quiet_end, (Hf 0)].
  unfold found. destruct (Ripped rec); [|exact Hnew]. eapply post_pre; [|intros w [Hr _]; exact Hr].
  pose proof (frame_recorded e fp) as FR.
  do 3 (apply recorded_bind; [eauto with pres|intros]). by apply ejectNow_tray.
Qed.

Lemma handle_scanned_tray e d raw l `{!undisturbed e} `{!unforgotten e (d_Fingerprint d)} :
  scanned e (d_Fingerprint d) →
  post e (λ w, store_wf (w_store w) ∧ closed e l w) (handle_scanned d raw) (λ _, tray_ok e l).
Proof.
  intros Hs. set (fp := d_Fingerprint d). pose proof (frame_ejects e l) as F.
  pose proof (quiet_fail e l) as Hf. unfold handle_scanned.
  pose proof (frame_wf e) as FW.
  do 2 (apply quiet_bind; [eauto with pres..|intros]).
  apply quiet_bind; [eapply pres_emit; eauto|eapply pres_emit; eauto|intros].
  apply handle_existing_tray; [done..|]. by apply handle_new_tray.
Qed.

Lemma scan_loop_scanned e fuel a :
  post e (λ _, True) (scan_loop fuel a)
    (λ r _, match r with Ok sc => scanned e (d_Fingerprint (sc_Disc sc)) | Err _ => True end).
Proof.
  revert a; induction fuel as [|fuel IH]; intros a; cbn [scan_loop]; [by apply post_ret|].
  eapply (post_bind _ _ _ _ (λ r _, match r with Ok sc => scanned e (d_Fingerprint (sc_Disc sc)) | Err _ => True end)).
  { intros w _. unfold scan_once, mbind, gets, ask, call, emit, with_world, ctxErr, mret. simpl.
    destruct (mk_Scan e (w_tick w) _) as [sc|] eqn:E; simpl; [left; eauto|by destruct (_ && _)]. }
  intros [sc|err].
  { eapply (post_bind _ _ _ _ (λ _ _, scanned e (d_Fingerprint (sc_Disc sc)))); [intros w H; exact H|]. intros []. by apply post_ret. }
  eapply (post_bind _ _ _ _ (λ _ _, True)); [done|]. intros []; [by apply post_ret|].
  eapply (post_bind _ _ _ _ (λ _ _, True)); [done|]. intros [[]|]; [by apply post_ret| |].
  all: do 2 (eapply (post_bind _ _ _ _ (λ _ _, True)); [done|intros]).
  all: destruct (_ =? _); [by apply post_ret|].
  all: do 3 (eapply (post_bind _ _ _ _ (λ _ _, True)); [done|intros]).
  all: destruct (_ && _); [by apply post_ret|apply IH].
Qed.

Lemma with_cancelWork_tray e l b : post e (tray_ok e l) (with_world (set_cancelWork b)) (λ _, tray_ok e l).
Proof. intros w [H|H]; [left; by eapply closed_trace, H|by right]. Qed.

Lemma post_pull {A} e (Φ : Prop) (P : World → Prop) (m : M A) Q :
  (Φ → post e P m Q) → post e (λ w, Φ ∧ P w) m Q.
Proof. intros H w [HΦ HP]. by apply H. Qed.

(** None of the discs this run can meet is forgotten meanwhile. *)
Definition keeps_records (e : Env) : Prop := ∀ fp, scanned e fp → unforgotten e fp.

Lemma handle_dvd_tray e l `{!undisturbed e} :
  keeps_records e →
  post e (λ w, store_wf (w_store w) ∧ closed e l w) handle_dvd (λ _, tray_ok e l).
Proof.
  intros Hkeep. pose proof (frame_ejects e l) as F. pose proof (quiet_fail e l) as Hf. pose proof (frame_wf e) as FW.
  unfold handle_dvd. apply quiet_bind; [eauto with pres..|intros].
  apply quiet_bind; [by intros w; apply closed_trace|by intros w|intros].
  eapply (post_bind _ _ _ _ (λ r w, match r with Ok sc => scanned e (d_Fingerprint (sc_Disc sc)) | Err _ => True end ∧
                               store_wf (w_store w) ∧ closed e l w)).
  { intros w [Hw Hl]. split; [|split; [by apply (pres_scanDisc _ _ _ FW)|by apply (pres_scanDisc _ _ _ F)]].
    unfold scanDisc, mbind, ask. by apply scan_loop_scanned. }
  intros r. apply (post_bind _ _ _ _ (λ _, tray_ok e l)); [|intros _; apply with_cancelWork_tray].
  destruct r as [sc|err].
  - apply post_pull. intros Hs. pose proof (Hkeep _ Hs). by apply handle_scanned_tray.
  - eapply post_pre; [|intros w [_ H]; exact H]. apply quiet_end. destruct (is_errDiscGone err); pres_solve.
Qed.

Lemma quiet_bluray_job e jobID discID d src out probe l :
  post e (λ w, store_wf (w_store w) ∧ closed e l w) (bluray_job jobID discID d src out probe) (λ _, tray_ok e l).
Proof.
  pose proof (frame_ejects e l) as F. pose proof (quiet_fail e l) as Hf. unfold bluray_job.
  eapply (post_bind _ _ _ _ (λ r w, match r with Ok _ => encoded e | Err _ => True end ∧ closed e l w)).
  { intros w [_ Hl]. split.
    - unfold encodeBluRay, mbind, state, now_ns, status, with_world, call, mret, logf, emit. simpl.
      destruct (enc_Transcode e _ src out) as [ps [res|err]] eqn:E; simpl.
      + destruct (report ps _ _) as [[] ?]. simpl. exists (w_tick w), src, out, res. by rewrite E.
      + destruct (report ps _ _) as [[] ?]. simpl. done.
    - assert (quiet l e (encodeBluRay src out probe)) as Hq; [|by apply Hq].
      unfold encodeBluRay. pres_solve. }
  intros [res|err].
  - intros w [Henc _]. right. by right.
  - eapply post_pre; [|intros w [_ H]; exact H]. apply quiet_tray.
    pose proof (λ A op H, @pres_db e _ _ F A op H) as Hdb.
    pose proof (λ A op H, @pres_afterCancel e _ _ F A op H) as Hac.
    destruct (is_errCancelled err); pres_solve.
Qed.

Lemma post_ask {A B} e (P : World → Prop) (f : Env → A) (k : A → M B) Q :
  post e P (k (f e)) Q → post e P (mbind (ask f) k) Q.
Proof. intros H w Hw. apply (H w Hw). Qed.

Lemma quiet_bluray_new e d src probe l :
  post e (λ w, store_wf (w_store w) ∧ closed e l w) (bluray_new d src probe) (λ _, tray_ok e l).
Proof.
  pose proof (frame_ejects e l) as F. pose proof (quiet_fail e l) as Hf.
  assert (frame e (λ s s', store_wf s → store_wf s') (λ w, store_wf (w_store w))) as FW.
  { apply (frame_store e _ store_wf). auto. }
  pose proof (λ A op H, @pres_db e _ _ FW A op H) as Hd. unfold bluray_new.
  apply quiet_bind; [by apply (pres_db _ _ _ F)|apply Hd; keeps_wf|].
  intros [id|err]; [|by apply quiet_end, Hf].
  apply quiet_bind; [by apply (pres_db _ _ _ F)|apply Hd; keeps_wf|]. intros r. cbv zeta. apply post_ask.
  destruct (_ <=? _).
  { apply quiet_end. pres_solve. }
  apply post_ask. apply quiet_bind; [by apply (pres_db _ _ _ F)|apply Hd; keeps_wf|].
  intros [jobID|err]; [|by apply quiet_end, Hf].
  apply quiet_bind; [eauto with pres..|intros]. apply post_ask. by apply quiet_bluray_job.
Qed.

Lemma handleBluRay_tray e l `{!undisturbed e} :
  keeps_records e →
  post e (λ w, store_wf (w_store w) ∧ closed e l w) handleBluRay (λ _, tray_ok e l).
Proof.
  intros Hkeep. pose proof (frame_ejects e l) as F. pose proof (quiet_fail e l) as Hf. pose proof (frame_wf e) as FW.
  unfold handleBluRay. apply quiet_bind; [eauto with pres..|intros lab].
  apply quiet_bind; [pres_solve|pres_solve|intros].
  apply quiet_bind; [eauto with pres..|intros src].
  apply quiet_bind; [eauto with pres..|intros].
  eapply (post_bind _ _ _ _ (λ r w, match r with Ok p => ∃ n src, enc_Probe e n src = Ok p | Err _ => True end ∧
                               (store_wf (w_store w) ∧ closed e l w))).
  { intros w [Hw ?]. split; [|split; [by apply stable|by apply (fr_bump _ _ _ F)]]. simpl. destruct (enc_Probe _ _ _) eqn:E; eauto. }
  intros [p|err]; apply post_pull; [|intros _; apply quiet_end; pres_solve].
  intros (n & psrc & Hp). destruct (_ <=? 0); [apply quiet_end; pres_solve|]. do 2 apply post_ask. cbv zeta.
  set (d := bluray_disc _ _ _ _).
  assert (scanned e (d_Fingerprint d)) as Hs by (right; exists n, psrc, p; eauto).
  pose proof (Hkeep _ Hs).
  do 2 (apply quiet_bind; [eauto with pres..|intros]).
  apply handle_existing_tray; [done..|]. by apply quiet_bluray_new.
Qed.

(** ** The whole of a disc *)

Lemma takeDiscSlot_quiet e l : quiet l e takeDiscSlot ∧ pres e (λ w, store_wf (w_store w)) takeDiscSlot.
Proof.
  pose proof (frame_ejects e l) as F. pose proof (frame_wf e) as FW.
  assert (∀ b, quiet l e (with_world (set_slot b))) as Hq by (intros b w; by apply closed_trace).
  assert (∀ b, pres e (λ w, store_wf (w_store w)) (with_world (set_slot b))) as Hw by by intros b w.
  assert (quiet l e (with_env (λ e w, set_store (foldl (flip run_op) (w_store w) (while_waiting e)) w))) as Hq' by (intros w; by apply closed_trace).
  assert (pres e (λ w, store_wf (w_store w))
    (with_env (λ e w, set_store (foldl (flip run_op) (w_store w) (while_waiting e)) w))) as Hw' by (intros w; apply run_ops_wf).
  split; unfold takeDiscSlot; pres_solve.
Qed.

(** C1: The tray opens only on success, or for a failure that has been reported. Whatever the drive, the
    disc, the tools, the database, the person cancelling and the rest of the daemon do, if
    processing a disc ejects it at all then either the database records the disc in hand as ripped
    when it is done, or it is a Blu-ray whose encode succeeded, or eject_on_failure is set and the
    worker has reported a failure of this disc.  While this worker waits for the
    shared slot the others may make any call of the database; while it holds it they make only
    background calls, and none that forgets the disc in hand. *)
Theorem tray_opens_only_on_success e w :
  undisturbed e → keeps_records e → store_wf (w_store w) →
  let w' := (handleDisc handleBluRay e w).2 in
  ejects w' ≠ ejects w →
  (∃ fp, recorded fp (w_store w') ∧ scanned e fp) ∨ encoded e ∨
  (EjectOnFailure (cfg e) = true ∧ (failures w < failures w')%nat).
Proof.
  intros Hu Hkeep Hwf. cbv zeta. intros Hne.
  assert (tray_ok e w (handleDisc handleBluRay e w).2) as [[_ [H|H]]|[H|H]]; [|done|auto..].
  clear Hne. assert (closed e w w) as Hl by (split; auto). remember w as l eqn:E in Hl at 1 |- * at 1. clear E.
  enough (post e (λ w, store_wf (w_store w) ∧ closed e l w) (handleDisc handleBluRay) (λ _, tray_ok e l)) as Hp
    by by apply (Hp w).
  clear w Hwf Hl. pose proof (frame_ejects e l) as F. pose proof (frame_wf e) as FW. unfold handleDisc.
  apply quiet_bind; [eauto with pres..|intros].
  destruct (takeDiscSlot_quiet e l) as [Hq Hw]. apply quiet_bind; [done..|intros []]; cbn [negb].
  2: { apply quiet_end. pres_solve. }
  apply quiet_bind; [eauto with pres..|intros kind].
  apply (post_bind _ _ _ _ (λ _, tray_ok e l)); [|intros _ w1 [H1|H1]; [left; by eapply closed_trace, H1|by right]].
  destruct kind as [[[] ?]|]; try by apply handle_dvd_tray.
  - apply quiet_bind; [eauto with pres..|intros]. by apply handleBluRay_tray.
  - apply quiet_bind; [eauto with pres..|intros]. by apply handle_dvd_tray.
Qed.
End with_unicode.
