(* ===== verification/WorkerRip.v ===== *)
(** * A complete rip

    A rip that succeeds has ripped and verified every title it returns, and
    marked it in the database; the shared slot and the cancel hook are always
    given back. *)

From Stdlib Require Import QArith_base.
From S2P Require Import Prelude GoText GoBase MakeMkv GoPath Table Disc Store Queue StoreWf StoreDiscs Background Drive Monitor Verify Status Worker BluRay WorkerFrame WorkerSafety.
#[local] Open Scope Z_scope.

Section with_unicode.
Context {U : Unicode}.

(** A title's file was written by a rip call and passed the checks. *)
Definition passed (e : Env) (ripDir : string) (t : Title) : Prop :=
  ∃ k src res n,
    (mk_RipTitle e k src (t_Index t) ripDir).2 = Ok res ∧
    verifyOutput (stat_file e n (rr_Path res)) (MinOutputBytes (cfg e)) = Ok tt ∧
    (NativeDVD (cfg e) = true → ∃ n1 n2,
       r_OK (verify_Title (rr_Path res) (stat_file e n1 (rr_Path res)) (ffprobe e n2 (rr_Path res))
               (mkExpectation (t_DurationSecs t) 0 0 0 (MinOutputBytes (cfg e)))) = true).

(** Every row of the disc's titles in [ids] is marked ripped and verified. *)
Definition marked (discID : Z) (ids : list Z) (s : Store) : Prop :=
  Forall (λ r, ti_disc_id r = discID → ti_title_index r ∈ ids → ti_ripped r = true ∧ ti_verified r = true)
    (titles s).

Lemma marked_titles discID ids s s' : titles s' = titles s → marked discID ids s → marked discID ids s'.
Proof. unfold marked. by intros ->. Qed.

Lemma marked_mark discID ids i b s :
  marked discID ids s → marked discID (i :: ids) (MarkTitleRipped discID i b true s).2.
Proof.
  unfold marked. simpl. unfold update_where. rewrite Forall_map. intros H. eapply Forall_impl; [exact H|]. intros r Hr.
  destruct (title_is discID i r) eqn:E; simpl; [done|]. intros Hd [Hi|Hi]%elem_of_cons; [|auto].
  unfold title_is in E. rewrite Hd, Hi, !Z.eqb_refl in E. done.
Qed.

(** They are as long as nobody else works on a disc. *)
Definition kept (e : Env) (discID : Z) (ids : list Z) (s : Store) : Prop := undisturbed e → marked discID ids s.

#[export] Instance stable_kept e discID ids : Stable e (kept e discID ids).
Proof.
  apply stable_ops. intros n op s Hop Hk Hu. specialize (Hk Hu). revert Hk.
  apply marked_titles, background_titles. exact (only_background n op Hop).
Qed.
Lemma frame_kept e discID ids : frame e (λ s s', titles s' = titles s) (λ w, kept e discID ids (w_store w)).
Proof. apply (frame_store e _ (kept e discID ids)). intros s s' Ht Hk Hu. by apply (marked_titles _ _ s), Hk. Qed.

Lemma verify_title_passed e path t :
  post e (λ _, True) (verify_title path t) (λ r _, r = Ok tt →
    ∃ n, verifyOutput (stat_file e n path) (MinOutputBytes (cfg e)) = Ok tt ∧
    (NativeDVD (cfg e) = true → ∃ n1 n2,
       r_OK (verify_Title path (stat_file e n1 path) (ffprobe e n2 path)
               (mkExpectation (t_DurationSecs t) 0 0 0 (MinOutputBytes (cfg e)))) = true)).
Proof.
  intros w _. unfold verify_title, mbind, call, ask, mret. simpl.
  destruct (verifyOutput _ _) as [[]|m] eqn:Ev; [|done]. destruct (NativeDVD (cfg e)); simpl.
  - destruct (r_OK _) eqn:Er; [|done]. intros _. exists (w_tick w). split; [done|]. intros _.
    by exists (S (w_tick w)), (S (S (w_tick w))).
  - intros _. exists (w_tick w). by split.
Qed.

Lemma rip_title_passed e jobID discID src dir i n t ids :
  post e (λ w, kept e discID ids (w_store w)) (rip_title jobID discID src dir i n t)
    (λ r w, r = Ok tt → passed e dir t ∧ kept e discID (t_Index t :: ids) (w_store w)).
Proof.
  pose proof (frame_kept e discID ids) as F. unfold rip_title.
  eapply post_bind; [apply post_pres; eauto with pres|intros []].
  eapply (post_bind _ _ _ _ (λ r w, (∃ k, mk_RipTitle e k src (t_Index t) dir = r) ∧ kept e discID ids (w_store w))).
  { intros w Hw. split; [by eexists|by apply stable_kept]. }
  intros [ps r]. apply post_pull. intros [k Hk]. simpl.
  eapply post_bind; [by apply post_pres; eapply pres_emit|intros []].
  eapply post_bind; [apply post_pres; eapply pres_report, F|intros []].
  destruct r as [res|err].
  2: { eapply post_bind; [apply post_pres; eauto with pres|intros []]; [|by apply post_ret].
       eapply post_bind; [by apply post_pres; eapply pres_afterCancel|intros]. by apply post_ret. }
  eapply post_bind; [apply post_pres; eauto with pres|intros []].
  eapply (post_bind _ _ _ _ (λ r w, (r = Ok tt → passed e dir t) ∧ kept e discID ids (w_store w))).
  { intros w Hw. split; [|by apply (pres_verify_title _ _ _ F)]. intros Hr.
    destruct (verify_title_passed e (rr_Path res) t w I Hr) as (n' & H1 & H2).
    exists k, src, res, n'. by rewrite Hk. }
  intros [[]|m]; apply post_pull; intros Hp; [|by apply post_ret].
  eapply post_bind; [apply post_pres; eauto with pres|intros []].
  eapply post_bind.
  { apply (post_db e (kept e discID ids) _ (λ r s, match r with Ok _ => kept e discID (t_Index t :: ids) s | Err _ => True end));
      [by intros []; apply _| |done]. intros now s Hm Hu. by apply marked_mark, Hm. }
  intros [[]|err]; [|by apply post_ret]. pose proof (frame_kept e discID (t_Index t :: ids)) as F'.
  eapply post_bind; [apply post_pres; eauto with pres|intros].
  eapply post_bind; [apply post_pres; eauto with pres|intros].
  eapply post_bind; [by apply post_pres; eapply pres_db|intros].
  eapply post_bind; [apply post_pres; eauto with pres|intros]. apply post_ret. intros w Hw _. split; auto.
Qed.

Lemma rip_titles_passed e jobID discID src dir i n ts ids :
  post e (λ w, kept e discID ids (w_store w)) (rip_titles jobID discID src dir i n ts)
    (λ r w, r = Ok tt → Forall (passed e dir) ts ∧ kept e discID (reverse (map t_Index ts) ++ ids) (w_store w)).
Proof.
  revert i ids; induction ts as [|t ts IH]; intros i ids; cbn [rip_titles].
  { apply post_ret. by intros w Hw _. }
  eapply post_bind; [by apply (rip_title_passed e jobID discID src dir i n t ids)|]. intros [[]|err]; [|by apply post_ret].
  intros w Hw. destruct (Hw eq_refl) as [Hp Hm]. intros Hr.
  destruct (IH (i + 1) (t_Index t :: ids) w Hm Hr) as [Hps Hms]. split; [by constructor|].
  cbn [map]. by rewrite reverse_cons, <- app_assoc.
Qed.

Lemma marked_nil discID s : marked discID [] s.
Proof. apply Forall_forall. by intros r _ _ ?%not_elem_of_nil. Qed.

(** What a successful rip leaves behind. *)
Definition rip_done (e : Env) (discID : Z) (fp : string) (d' : Disc) (w : World) : Prop :=
  (∃ dir, Forall (passed e dir) (d_Titles d')) ∧ marked discID (map t_Index (d_Titles d')) (w_store w) ∧
  recorded fp (w_store w).

Lemma rip_into_done e jobID discID d raw dir d' w :
  (rip_into jobID discID d raw dir e w).1 = Ok d' →
  Forall (passed e dir) (d_Titles d') ∧
  kept e discID (map t_Index (d_Titles d')) (w_store (rip_into jobID discID d raw dir e w).2).
Proof.
  set (Q := λ (r : outcome goerr Disc) w, ∀ d', r = Ok d' →
    Forall (passed e dir) (d_Titles d') ∧ kept e discID (map t_Index (d_Titles d')) (w_store w)).
  enough (post e (λ _, True) (rip_into jobID discID d raw dir) Q) as H by (intros Hr; by apply (H w I)).
  unfold rip_into. eapply (post_bind _ _ _ _ (λ _ _, True)); [done|]. intros [[src copy]|]; [|by apply post_ret].
  eapply (post_bind _ _ _ _ (λ _ _, True)); [done|]. intros [[d1 raw1]|]; [|by apply post_ret].
  eapply (post_bind _ _ _ _ (λ _ _, True)); [done|]. intros []; [|by apply post_ret].
  eapply (post_bind _ _ _ _ (λ _ _, True)); [done|]. intros []; [|by apply post_ret]. cbv zeta.
  do 4 (eapply (post_bind _ _ _ _ (λ _ _, True)); [done|intros]).
  eapply (post_bind _ _ _ _ (λ _ w, kept e discID [] (w_store w))); [intros w' _ _; apply marked_nil|intros].
  eapply post_bind; [apply rip_titles_passed|]. rewrite app_nil_r. intros [[]|]; [|by apply post_ret].
  eapply (post_bind _ _ _ _ (λ _ w, Forall (passed e dir) (d_Titles d1) ∧
                               kept e discID (map t_Index (d_Titles d1)) (w_store w))).
  { intros w' Hw'. destruct (Hw' eq_refl) as [Hp Hm]. split; [done|].
    assert (kept e discID (map t_Index (d_Titles d1)) (w_store w')) as Hm'.
    { intros Hu. eapply Forall_impl; [exact (Hm Hu)|]. intros r Hr Hd Hi. apply Hr; [done|]. by rewrite elem_of_reverse. }
    by apply (pres_db _ _ _ (frame_kept e discID (map t_Index (d_Titles d1)))). }
  intros []; [|by apply post_ret]. destruct copy; intros w' Hw' d2 [= <-]; exact Hw'.
Qed.

Lemma rip_done_of e jobID discID d raw d' w `{!undisturbed e} `{!unforgotten e (d_Fingerprint d)} :
  known (d_Fingerprint d) discID (w_store w) →
  (rip jobID discID d raw e w).1 = Ok d' →
  rip_done e discID (d_Fingerprint d) d' (rip jobID discID d raw e w).2.
Proof.
  intros Hk Hr. pose proof (rip_recorded e jobID discID d raw w Hk) as Hrec.
  rewrite Hr in Hrec. destruct Hrec as [_ Hrec]. split; [|split; [|done]]; revert Hr; clear Hrec; unfold rip, mbind.
  all: destruct (makeRipDir d e w) as [[dir|] w1]; [|done]; simpl.
  all: destruct (write_fault e (w_tick w1)); [done|]; intros Hr; apply rip_into_done in Hr as [? ?]; eauto.
Qed.


(** ** Nothing is held on to *)

Lemma pres_flags_ejectNow e a b : pres e (λ w, w_slot w = a ∧ w_cancelWork w = b) ejectNow.
Proof.
  intros w [Ha Hb]. unfold ejectNow, mbind, ask. destruct (negb _); [done|]. simpl.
  by destruct (drv_Eject _ _).
Qed.

Lemma pres_flags_fail e a b j m : pres e (λ w, w_slot w = a ∧ w_cancelWork w = b) (fail j m).
Proof.
  pose proof (frame_flags e a b) as F. pose proof (pres_flags_ejectNow e a b). unfold fail. pres_solve.
Qed.

Ltac flags_solve a b e :=
  pose proof (frame_flags e a b) as F; pose proof (pres_flags_ejectNow e a b); pose proof (pres_flags_fail e a b);
  pose proof (λ A op H, @pres_db e _ _ F A op H) as Hdb;
  pose proof (λ A op H, @pres_afterCancel e _ _ F A op H) as Hac;
  pose proof (pres_scanDisc e _ _ F);
  pose proof (λ j i d, pres_rip e _ _ F j i (λ _ _ _ _, I) (λ _ _ _, I) (λ _ _ _ _, I) (λ _ _, I) d (λ _ _ _ _ _, I));
  pres_solve.

Lemma pres_flags_handle_scanned e a b d raw : pres e (λ w, w_slot w = a ∧ w_cancelWork w = b) (handle_scanned d raw).
Proof. unfold handle_scanned, handle_new, rip_job. cbv zeta. flags_solve a b e. Qed.

Lemma pres_flags_bluray e a b : pres e (λ w, w_slot w = a ∧ w_cancelWork w = b) handleBluRay.
Proof. unfold handleBluRay, bluray_new, bluray_job, encodeBluRay. cbv zeta. flags_solve a b e. Qed.

(** C24: However processing a disc ends, the worker holds neither the slot shared by all drives nor
    a cancel hook afterwards: no outcome leaves the other drives waiting or a stale cancellation
    armed. *)
Theorem handleDisc_releases e w :
  w_slot w = false → w_cancelWork w = false →
  let w' := (handleDisc handleBluRay e w).2 in
  w_slot w' = false ∧ w_cancelWork w' = false.
Proof.
  intros Hs Hc. cbv zeta.
  assert (post e (λ w, w_cancelWork w = false) handle_dvd (λ _ w, w_cancelWork w = false)) as Hdvd.
  { intros w0 _. unfold handle_dvd. repeat (unfold mbind at 1; case_match). done. }
  enough (post e (λ w, w_slot w = false ∧ w_cancelWork w = false) (handleDisc handleBluRay)
    (λ _ w, w_slot w = false ∧ w_cancelWork w = false)) as Hp by by apply (Hp w).
  clear w Hs Hc. pose proof (frame_flags e false false) as F. unfold handleDisc.
  eapply post_bind; [apply post_pres; eauto with pres|intros []].
  eapply (post_bind _ _ _ _ (λ got w, (got = false → w_slot w = false) ∧ w_cancelWork w = false)).
  { intros w [Hs Hc]. unfold takeDiscSlot, mbind, call, state, now_ns, status, with_world, logf, emit, mret.
    destruct (slot_free e (w_tick w)); simpl; [done|]. by destruct (slot_free e _). }
  intros []; cbn [negb]; [|apply post_ret; intros w [Hs Hc]; auto].
  eapply (post_bind _ _ _ _ (λ _ w, w_cancelWork w = false)); [by intros w [_ Hc]|]. intros kind.
  eapply (post_bind _ _ _ _ (λ _ w, w_cancelWork w = false)); [|by intros _ w Hc].
  destruct kind as [[[] ?]|]; try exact Hdvd.
  - intros w Hc. eapply (pres_flags_bluray e (w_slot (push _ w)) false); done.
  - intros w Hc. by apply Hdvd.
Qed.
End with_unicode.
