(* ===== verification/WorkerAttempts.v ===== *)
(** * The attempt cap

    However often a disc is put in, whatever happens to each attempt, the
    attempts counted against it do not pass the configured cap, unless a call of
    the database fails and the one after it works: then the count is taken to be
    zero, and one more attempt is made. *)

From Stdlib Require Import QArith_base.
From S2P Require Import Prelude GoText GoBase MakeMkv GoPath Table Disc Store Queue StoreWf StoreDiscs Background Drive Monitor Verify Status Worker BluRay WorkerFrame WorkerSafety.
#[local] Open Scope Z_scope.

Definition attempts (i : Z) (s : Store) : Z :=
  count_where (attempt_counts i (forgotten_after i s)) (jobs s).

(** No disc has more attempts than the cap. *)
Definition capped (max : Z) (s : Store) : Prop := store_wf s ∧ ∀ i, attempts i s ≤ max.

(** The attempts other than one open job. *)
Definition others (jobID i : Z) (s : Store) : Z :=
  count_where (λ r, attempt_counts i (forgotten_after i s) r && negb (j_id r =? jobID)) (jobs s).

(** The cap with room for one open job of a disc. *)
Record room (max jobID discID : Z) (s : Store) : Prop := {
  rm_wf : store_wf s;
  rm_job : Forall (λ r, j_id r = jobID → j_disc_id r = discID) (jobs s);
  rm_disc : others jobID discID s + 1 ≤ max;
  rm_rest : ∀ i, i ≠ discID → others jobID i s ≤ max;
}.

Lemma count_where_split {R} (p q : R → bool) rows :
  count_where p rows = count_where (λ r, p r && negb (q r)) rows + count_where (λ r, p r && q r) rows.
Proof.
  unfold count_where. induction rows as [|r rows IH]; simpl; [done|].
  destruct (p r), (q r); simpl; lia.
Qed.

(** At most one row has a given key. *)
Lemma count_where_key {R} (key : R → Z) p k rows :
  NoDup (map key rows) → count_where (λ r, p r && (key r =? k)) rows ≤ 1.
Proof.
  unfold count_where. induction rows as [|r rows IH]; simpl; [lia|].
  intros [Hr Hnd]%NoDup_cons. specialize (IH Hnd). destruct (p r && (key r =? k)) eqn:E; [|done].
  breflect. enough (List.filter (λ x, p x && (key x =? k)) rows = []) as -> by (simpl; lia).
  clear IH Hnd. induction rows as [|x rows IH]; simpl; [done|].
  assert (key x ≠ k). { intros Hx. apply Hr. cbn [map]. apply elem_of_cons. left. congruence. }
  rewrite (proj2 (Z.eqb_neq (key x) k)), andb_false_r by done. apply IH. intros Hin. apply Hr. by right.
Qed.

Lemma room_capped max jobID discID s : room max jobID discID s → capped max s.
Proof.
  intros [Hwf Hjob Hd Hrest]. split; [done|]. intros i. unfold attempts.
  rewrite (count_where_split _ (λ r, j_id r =? jobID)). fold (others jobID i s).
  destruct (decide (i = discID)) as [->|Hne].
  - pose proof (count_where_key j_id (attempt_counts discID (forgotten_after discID s)) jobID (jobs s)
      (proj1 (wf_jobs s Hwf))). lia.
  - rewrite (count_where_none (λ r, _ && (j_id r =? jobID))); [specialize (Hrest i Hne); lia|].
    eapply Forall_impl; [exact Hjob|]. intros r Hr. simpl. destruct (Z.eqb_spec (j_id r) jobID); [|apply andb_false_r].
    unfold attempt_counts. rewrite (proj2 (Z.eqb_neq (j_disc_id r) i)); [done|]. rewrite Hr; auto.
Qed.

(** What the rest of the daemon does meanwhile keeps both. *)
Lemma background_attempts_le op s i : background op = true → store_wf s → attempts i (run_op op s) ≤ attempts i s.
Proof.
  intros H Hwf. unfold attempts. rewrite (background_jobs _ _ H). apply count_where_le. intros r Hr.
  by apply background_counts.
Qed.
Lemma background_capped max op s : background op = true → capped max s → capped max (run_op op s).
Proof.
  intros H [Hwf Hc]. split; [by apply run_op_wf|]. intros i. etrans; [by apply background_attempts_le|done].
Qed.
#[export] Instance stable_capped e max `{!undisturbed e} : Stable e (capped max).
Proof. apply stable_ops. intros n op s Hop. apply background_capped. exact (only_background n op Hop). Qed.

#[export] Instance stable_attempts e i n `{!undisturbed e} : Stable e (λ s, store_wf s ∧ attempts i s ≤ n).
Proof.
  apply stable_ops. intros k op s Hop [Hwf Hle]. split; [by apply run_op_wf|]. etrans; [|exact Hle].
  apply background_attempts_le; [exact (only_background k op Hop)|done].
Qed.

#[export] Instance stable_room e max jobID discID `{!undisturbed e} : Stable e (room max jobID discID).
Proof.
  apply stable_ops. intros n op s Hop [Hwf Hj Hd Hr]. pose proof (only_background n op Hop) as H.
  assert (∀ i, others jobID i (run_op op s) ≤ others jobID i s) as Hle by (intros i; by apply background_attempts).
  split; [by apply run_op_wf|by rewrite background_jobs|specialize (Hle discID); lia|].
  intros i Hi. specialize (Hle i). specialize (Hr i Hi). lia.
Qed.

(** A step that leaves the other jobs and the forget marks alone keeps the room. *)
Lemma room_step max jobID discID s s' :
  (∀ i, forgotten_after i s' = forgotten_after i s) →
  (jobs s' = jobs s ∨ ∃ f, jobs s' = update_where (λ r, j_id r =? jobID) f (jobs s) ∧
     ∀ r, j_id (f r) = j_id r ∧ j_disc_id (f r) = j_disc_id r) →
  store_wf s' → room max jobID discID s → room max jobID discID s'.
Proof.
  intros Hf Hj Hwf' [Hwf Hjob Hd Hrest].
  assert (∀ i, others jobID i s' = others jobID i s) as Ho.
  { intros i. unfold others. rewrite Hf. destruct Hj as [->|(f & -> & Hk)]; [done|].
    apply count_where_update. intros r Hr. destruct (Hk r) as [-> _]. by rewrite Hr, !andb_false_r. }
  split; [done| |by rewrite Ho|intros i Hi; rewrite Ho; auto].
  destruct Hj as [->|(f & -> & Hk)]; [done|]. apply Forall_update_where; [|done].
  intros r Hr _. destruct (Hk r) as [-> ->]. done.
Qed.

Lemma forgotten_after_discs i s s' :
  (discs s' = discs s ∨ ∃ p f, discs s' = update_where p f (discs s) ∧
     ∀ r, di_id (f r) = di_id r ∧ di_forgotten_after_job (f r) = di_forgotten_after_job r) →
  forgotten_after i s' = forgotten_after i s.
Proof.
  unfold forgotten_after. intros [->|(p & f & -> & Hk)]; [done|].
  rewrite select1_update by (intros r; by destruct (Hk r) as [-> _]).
  destruct (select1 _ (discs s)) as [r|]; simpl; [|done]. destruct (p r); [|done]. by destruct (Hk r) as [_ ->].
Qed.

Lemma rip_step_room fp max jobID discID s s' :
  rip_step fp jobID discID s s' → room max jobID discID s → room max jobID discID s'.
Proof.
  intros Hst Hr. pose proof (rip_step_wf _ _ _ _ _ Hst (rm_wf _ _ _ _ Hr)) as Hwf'.
  revert Hwf' Hr. destruct Hst; intros Hwf'.
  - apply room_step; [by intros; apply forgotten_after_discs; left| |done].
    right. eexists. split; [done|]. done.
  - apply room_step; [by intros; apply forgotten_after_discs; left| |done].
    right. eexists. split; [done|]. done.
  - apply room_step; [by intros; apply forgotten_after_discs; left|by left|done].
  - apply room_step; [|by left|done]. intros. apply forgotten_after_discs. right. eexists _, _. by split.
  - revert Hwf'. destruct (SaveDisc_eq now d raw s) as (s' & -> & _ & G). cbn [snd]. intros Hwf'.
    apply room_step; [|left; exact (tg_jobs _ _ G)|done].
    intros i. rewrite <- (forgotten_after_saved i now d raw s). apply forgotten_after_discs. left.
    exact (tg_discs _ _ G).
Qed.

Lemma frame_room e fp max jobID discID `{!undisturbed e} :
  frame e (rip_step fp jobID discID) (λ w, room max jobID discID (w_store w)).
Proof. apply (frame_store e _ (room max jobID discID)). intros s s'. apply rip_step_room. Qed.

Lemma pres_store_fail e (K : Store → Prop) j m `{!Stable e K} : pres e (λ w, K (w_store w)) (fail j m).
Proof.
  assert (frame e (λ s s', s' = s) (λ w, K (w_store w))) as F by (apply (frame_store e _ K); by intros s s' ->).
  pose proof (pres_store_ejectNow e K). unfold fail. pres_solve.
Qed.

(** Opening a job below the cap leaves room for it. *)
Lemma CreateJob_room now max discID drv a s jobID s' :
  capped max s → attempts discID s < max → CreateJob now discID drv a s = (Ok jobID, s') →
  room max jobID discID s'.
Proof.
  intros [Hwf Hc] Hlt E. pose proof (CreateJob_keeps now discID drv a s Hwf) as Hwf'. rewrite E in Hwf'.
  unfold CreateJob, bind, references, query, exec, ret in E. destruct (_ && _); [|done]. injection E as <- <-.
  assert (∀ r, r ∈ jobs s → (j_id r =? next_rowid j_id (jobs s)) = false) as Hfresh.
  { intros r Hr. apply Z.eqb_neq. pose proof (next_rowid_fresh j_id (jobs s) r Hr). lia. }
  assert (∀ i, others (next_rowid j_id (jobs s)) i (set_jobs (jobs s ++ [mkJobRow (next_rowid j_id (jobs s)) discID
            drv JobPending a now (Some now) None None 0 0]) s) = attempts i s) as Ho.
  { intros i. unfold others, attempts. cbn [jobs set_jobs]. change (forgotten_after i (set_jobs _ s)) with (forgotten_after i s).
    rewrite count_where_app. unfold count_where at 2. simpl. rewrite Z.eqb_refl, andb_false_r. simpl. rewrite Z.add_0_r.
    apply count_where_ext, Forall_forall. intros r Hr. by rewrite (Hfresh r Hr), andb_true_r. }
  split; [done| |rewrite Ho; lia|intros i _; rewrite Ho; auto].
  cbn [jobs set_jobs]. apply Forall_app. split; [|by apply Forall_singleton].
  apply Forall_forall. intros r Hr Heq. specialize (Hfresh r Hr). by rewrite Heq, Z.eqb_refl in Hfresh.
Qed.

Section with_unicode.
Context {U : Unicode}.

(** What both pipelines do between recognising a disc and working on it. *)
Definition job_gate (d : Disc) (raw : string) (work : Z → Z → M unit) : M unit :=
  id <- db (λ now, SaveDisc now d raw) ;;
  match id with
  | Err err => fail 0 ("could not record disc: " +:+ e_text err)
  | Ok discID =>
      r <- db (λ _, AttemptsForDisc discID) ;;
      let attempts := match r with Ok n => n | Err _ => 0 end in
      max <- ask (λ e, MaxRipAttempts (cfg e)) ;;
      if max <=? attempts then
        status (update (set_attempt attempts)) ;;;
        fail 0 ("already failed " +:+ itoa attempts +:+ " times; not retrying automatically")
      else
        drv <- ask driveID ;;
        j <- db (λ now, CreateJob now discID drv (attempts + 1)) ;;
        match j with
        | Err err => fail 0 ("could not open a job: " +:+ e_text err)
        | Ok jobID => status (update (set_attempt (attempts + 1))) ;;; work jobID discID
        end
  end.

Lemma handle_new_gate d raw : handle_new d raw = job_gate d raw (λ j i, rip_job j i d raw).
Proof. reflexivity. Qed.

Lemma bluray_new_gate d src p :
  bluray_new d src p = job_gate d "" (λ j i,
    out <- ask (λ e, Join [TranscodedDir (cfg e); DirName (today e) d; TitleFileName 0]) ;;
    bluray_job j i d src out p).
Proof. reflexivity. Qed.

Lemma SaveDisc_capped now d raw s max : capped max s → capped max (SaveDisc now d raw s).2.
Proof.
  intros [Hwf Hc]. split; [apply keeps_snd; auto with hellbox|]. intros i.
  destruct (SaveDisc_eq now d raw s) as (s' & -> & _ & G). cbn [snd]. unfold attempts.
  rewrite (tg_jobs _ _ G).
  rewrite (forgotten_after_discs i (set_discs (saved_discs now d raw s) s) s'); [|left; exact (tg_discs _ _ G)].
  rewrite forgotten_after_saved. apply Hc.
Qed.

(** The database works until some call, if it ever fails: the daemon may be killed at any point. *)
Definition lasting (e : Env) : Prop := ∀ n, db_fault e n = true → db_fault e (S n) = true.

(** Whether a call of the work's context fails. *)
Definition db_dead (e : Env) (w : World) : bool := cancelled_by e (w_tick w) || db_fault e (w_tick w).

Lemma dead_stays e w : lasting e → db_dead e w = true → db_dead e (bump e w) = true.
Proof.
  unfold db_dead. cbn [w_tick bump]. intros Hl [H|H]%orb_true_iff; apply orb_true_iff; [left|right; by apply Hl].
  revert H. unfold cancelled_by. destruct (cancel_at e); [|done]. rewrite !Nat.leb_le. lia.
Qed.
Lemma db_dies {A} e w (op : Z → DB A) : db_dead e w = true → ∃ err, db op e w = (Err err, bump e w).
Proof. unfold db_dead, db, db_in. cbn [negb andb]. destruct (cancelled_by _ _); cbn [orb]; [eauto|]. intros ->. eauto. Qed.
Lemma db_live {A} e w (op : Z → DB A) :
  db_dead e w = false →
  db op e w = (match (op (unix (clock e (w_tick w))) (w_store w)).1 with Ok a => Ok a | Err x => Err (store_err x) end,
               bump e (set_store (op (unix (clock e (w_tick w))) (w_store w)).2 w)).
Proof. intros [H H']%orb_false_iff. unfold db, db_in. rewrite H, H'. simpl. by destruct (op _ _) as [[] ?]. Qed.

Lemma job_gate_capped e d raw work max `{!undisturbed e} :
  lasting e → MaxRipAttempts (cfg e) ≤ max →
  (∀ jobID discID, pres e (λ w, room max jobID discID (w_store w)) (work jobID discID)) →
  pres e (λ w, capped max (w_store w)) (job_gate d raw work).
Proof.
  intros Hdb Hle Hwork. pose proof (λ j m, pres_store_fail e (capped max) j m) as Hf.
  unfold job_gate. apply pres_bind.
  { assert (frame e (λ s s', ∃ now, s' = (SaveDisc now d raw s).2) (λ w, capped max (w_store w))) as F.
    { apply (frame_store e _ (capped max)). intros s s' [now ->]. apply SaveDisc_capped. }
    apply (pres_db e _ _ F). eauto. }
  assert (∀ w, capped max (w_store w) → capped max (w_store (bump e w))) as Hb by (intros w; apply stable).
  intros [discID|err]; [|apply Hf]. intros w Hc. unfold mbind at 1.
  destruct (db_dead e w) eqn:Ed.
  - destruct (db_dies e w (λ _, AttemptsForDisc discID) Ed) as [err ->]. unfold mbind, ask. cbv zeta.
    destruct (MaxRipAttempts (cfg e) <=? 0); [by apply Hf, Hb|].
    destruct (db_dies e (bump e w) (λ now, CreateJob now discID (driveID e) (0 + 1))) as [err' ->]; [by apply dead_stays|].
    by apply Hf, Hb, Hb.
  - rewrite (db_live e w _ Ed). cbn [fst snd]. rewrite attempts_eq. cbn [fst snd].
    fold (attempts discID (w_store w)). set (n := attempts discID (w_store w)).
    unfold mbind at 1, ask at 1. cbv zeta. set (w1 := bump e (set_store (w_store w) w)).
    assert (capped max (w_store w1) ∧ attempts discID (w_store w1) ≤ n) as [Hc1 Hn].
    { split; [by apply Hb|]. apply (stable_attempts e discID n (w_tick w) (w_store w)). split; [apply Hc|done]. }
    destruct (Z.leb_spec (MaxRipAttempts (cfg e)) n) as [|Hlt]; [unfold mbind; by apply (Hf 0)|].
    unfold mbind at 1, ask at 1. unfold mbind at 1.
    destruct (db_dead e w1) eqn:Ed1; [destruct (db_dies e w1 (λ now, CreateJob now discID (driveID e) (n + 1)) Ed1) as [err ->]; by apply Hf, Hb|].
    rewrite (db_live e w1 _ Ed1). set (now1 := unix (clock e (w_tick w1))).
    destruct (CreateJob now1 discID (driveID e) (n + 1) (w_store w1)) as [[jobID|x] s'] eqn:E; cbn [fst snd].
    + unfold mbind. apply (room_capped _ jobID discID). apply (Hwork jobID discID). simpl.
      apply stable. eapply CreateJob_room; [exact Hc1| |exact E]. lia.
    + apply Hf. simpl. apply stable. unfold CreateJob, bind, references in E. destruct (_ && _); [done|]. by injection E as _ <-.
Qed.

Lemma rip_job_room e jobID discID d raw max `{!undisturbed e} :
  pres e (λ w, room max jobID discID (w_store w)) (rip_job jobID discID d raw).
Proof.
  pose proof (frame_room e (d_Fingerprint d) max jobID discID) as F.
  pose proof (λ j m, pres_store_fail e (room max jobID discID) j m). pose proof (pres_store_ejectNow e (room max jobID discID)).
  pose proof (λ now st t s, rs_state (d_Fingerprint d) jobID discID now st t s) as Hst.
  unfold rip_job. apply pres_bind.
  { apply (pres_rip e _ _ F); try by constructor. }
  pose proof (λ A op H, @pres_db e _ _ F A op H) as Hdb.
  pose proof (λ A op H, @pres_afterCancel e _ _ F A op H) as Hac. pres_solve.
Qed.

(** The database steps of a Blu-ray's job. *)
Inductive bd_step (jobID discID : Z) : Store → Store → Prop :=
| bs_rip s s' : rip_step "" jobID discID s s' → bd_step jobID discID s s'
| bs_record now i p src out sz hw s : bd_step jobID discID s (RecordTranscode now discID i p src out sz hw s).2.

Lemma bd_step_room max jobID discID s s' :
  bd_step jobID discID s s' → room max jobID discID s → room max jobID discID s'.
Proof.
  intros [s1 s2 H|now i p src out sz hw s0]; [by eapply rip_step_room|]. intros Hr.
  assert (store_wf (RecordTranscode now discID i p src out sz hw s0).2) as Hwf'.
  { apply keeps_snd; [auto with hellbox|apply Hr]. }
  assert (jobs (RecordTranscode now discID i p src out sz hw s0).2 = jobs s0 ∧
          discs (RecordTranscode now discID i p src out sz hw s0).2 = discs s0) as [Hj Hd].
  { unfold RecordTranscode, upsert_transcode, bind, references. by destruct (_ || _). }
  eapply room_step; [|by left|done|exact Hr]. intros. apply forgotten_after_discs. by left.
Qed.

Lemma bluray_job_room e jobID discID d src out probe max `{!undisturbed e} :
  pres e (λ w, room max jobID discID (w_store w)) (bluray_job jobID discID d src out probe).
Proof.
  assert (frame e (bd_step jobID discID) (λ w, room max jobID discID (w_store w))) as F.
  { apply (frame_store e _ (room max jobID discID)). intros s s'. apply bd_step_room. }
  pose proof (λ j m, pres_store_fail e (room max jobID discID) j m). pose proof (pres_store_ejectNow e (room max jobID discID)).
  pose proof (λ now st t s, bs_rip _ _ _ _ (rs_state "" jobID discID now st t s)) as Hst.
  pose proof (λ i b v s, bs_rip _ _ _ _ (rs_mark "" jobID discID i b v s)) as Hm.
  pose proof (λ dir s, bs_rip _ _ _ _ (rs_dir "" jobID discID dir s)) as Hd.
  pose proof (bs_record jobID discID) as Hrec.
  pose proof (λ A op H, @pres_db e _ _ F A op H) as Hdb.
  pose proof (λ A op H, @pres_afterCancel e _ _ F A op H) as Hac.
  unfold bluray_job, encodeBluRay. pres_solve.
Qed.

(** What the gate does to the cap, the processing of a disc does. *)
Section one_disc.
Context (e : Env) `{!undisturbed e} (m m' : Z) (Hle : m ≤ m').
Notation cap m := (λ w, capped m (w_store w)).
Hypothesis gate : ∀ d raw work, (∀ jobID discID, pres e (λ w, room m' jobID discID (w_store w)) (work jobID discID)) →
  post e (cap m) (job_gate d raw work) (λ _, cap m').

Lemma capped_mono s : capped m s → capped m' s.
Proof. intros [Hwf Hc]. split; [done|]. intros i. specialize (Hc i). lia. Qed.
Lemma capped_bind {A B} (a : M A) (k : A → M B) :
  pres e (cap m) a → (∀ x, post e (cap m) (k x) (λ _, cap m')) → post e (cap m) (mbind a k) (λ _, cap m').
Proof. intros Ha Hk. eapply post_bind; [apply post_pres, Ha|exact Hk]. Qed.
Lemma capped_end {A} (a : M A) : pres e (cap m) a → post e (cap m) a (λ _, cap m').
Proof. intros Ha w Hw. by apply capped_mono, Ha. Qed.
Lemma capped_then {A B} (a : M A) (k : A → M B) :
  post e (cap m) a (λ _, cap m') → (∀ x, pres e (cap m') (k x)) → post e (cap m) (mbind a k) (λ _, cap m').
Proof. intros Ha Hk. eapply post_bind; [exact Ha|]. intros x. apply Hk. Qed.

Lemma frame_capped n : frame e (λ s s', s' = s) (cap n).
Proof. apply (frame_store e _ (capped n)). by intros s s' ->. Qed.
Lemma pres_capped_world n f : (∀ w, w_store (f w) = w_store w) → pres e (cap n) (with_world f).
Proof. intros Hf w Hw. cbn. by rewrite Hf. Qed.
Lemma existing_gate_capped fp dup new : post e (cap m) new (λ _, cap m') → post e (cap m) (existing_gate fp dup new) (λ _, cap m').
Proof.
  intros Hnew. pose proof (frame_capped m) as F. pose proof (λ j t, pres_store_fail e (capped m) j t). pose proof (pres_store_ejectNow e (capped m)).
  unfold existing_gate. apply capped_bind; [by apply (pres_db _ _ _ F)|]. intros [[rec|]|err]; [|done|apply capped_end; pres_solve].
  destruct (Ripped rec); [apply capped_end; pres_solve|done].
Qed.

Lemma handle_dvd_capped : post e (cap m) handle_dvd (λ _, cap m').
Proof.
  pose proof (frame_capped m) as F. pose proof (λ j t, pres_store_fail e (capped m) j t). pose proof (pres_capped_world m).
  unfold handle_dvd. do 2 (apply capped_bind; [pres_solve|intros _]). apply capped_bind; [by apply (pres_scanDisc _ _ _ F)|]. intros r.
  apply capped_then; [|intros _; by apply pres_capped_world]. destruct r as [sc|err].
  - unfold handle_scanned. do 3 (apply capped_bind; [pres_solve|intros _]). apply existing_gate_capped.
    rewrite handle_new_gate. apply gate. intros. by apply rip_job_room.
  - apply capped_end. destruct (is_errDiscGone err); pres_solve.
Qed.
Lemma handleBluRay_capped : post e (cap m) handleBluRay (λ _, cap m').
Proof.
  pose proof (frame_capped m) as F. pose proof (λ j t, pres_store_fail e (capped m) j t).
  unfold handleBluRay. do 5 (apply capped_bind; [pres_solve|intros ?]).
  match goal with |- post _ _ (match ?p with _ => _ end) _ => destruct p as [p|err] end; [|apply capped_end; pres_solve].
  destruct (_ <=? 0); [apply capped_end; pres_solve|]. do 4 (apply capped_bind; [pres_solve|intros ?]). cbv zeta.
  apply existing_gate_capped. rewrite bluray_new_gate. apply gate. intros. apply pres_bind; [apply pres_ask|]. intros. by apply bluray_job_room.
Qed.
Lemma with_slot_post : post e (cap m) (with_slot handleBluRay) (λ _, cap m').
Proof.
  pose proof (frame_capped m) as F. pose proof handle_dvd_capped as Hdvd.
  unfold with_slot. apply capped_bind; [pres_solve|]. intros kind. apply capped_then; [|intros _; by apply pres_capped_world].
  destruct kind as [[[] ?]|err]; try exact Hdvd.
  - apply capped_bind; [pres_solve|]. intros _. apply handleBluRay_capped.
  - apply capped_bind; [pres_solve|]. intros _. exact Hdvd.
Qed.
End one_disc.

Lemma with_slot_capped e max : undisturbed e → lasting e → MaxRipAttempts (cfg e) ≤ max →
  pres e (λ w, capped max (w_store w)) (with_slot handleBluRay).
Proof.
  intros Hu Hdb Hle. apply (with_slot_post e max max); [lia|]. intros d raw work Hwork. by apply job_gate_capped.
Qed.

(** Whatever fails, processing a disc adds one attempt at most. *)
Lemma job_gate_slips e d raw work m `{!undisturbed e} :
  (∀ jobID discID, pres e (λ w, room (m + 1) jobID discID (w_store w)) (work jobID discID)) →
  post e (λ w, capped m (w_store w)) (job_gate d raw work) (λ _ w, capped (m + 1) (w_store w)).
Proof.
  intros Hwork. pose proof (frame_capped e m) as F. pose proof (λ j t, pres_store_fail e (capped m) j t) as Hf.
  assert (m ≤ m + 1) as Hle by lia. unfold job_gate. apply capped_bind.
  { assert (frame e (λ s s', ∃ now, s' = (SaveDisc now d raw s).2) (λ w, capped m (w_store w))) as F'.
    { apply (frame_store e _ (capped m)). intros s s' [now ->]. apply SaveDisc_capped. }
    apply (pres_db e _ _ F'). eauto. }
  intros [discID|err]; [|apply capped_end; [done|apply Hf]].
  apply capped_bind; [by apply (pres_db _ _ _ F)|]. intros r. cbv zeta. apply post_ask.
  destruct (_ <=? _); [apply capped_end; [done|pres_solve]|]. apply post_ask.
  eapply post_bind.
  - apply (post_db e (capped m) _ (λ j s, match j with Ok jobID => room (m + 1) jobID discID s | Err _ => capped m s end)); [intros []; [exact (stable_room e (m + 1) _ discID)|exact (stable_capped e m)]| |done].
    intros now s Hc. destruct (CreateJob now discID (driveID e) _ s) as [[jobID|x] s'] eqn:E.
    + eapply CreateJob_room; [by eapply capped_mono|destruct Hc as [_ Hc]; specialize (Hc discID); lia|exact E].
    + unfold CreateJob, bind, references in E. destruct (_ && _); [done|]. by injection E as _ <-.
  - intros [jobID|err]; [|apply capped_end; [done|apply Hf]]. intros w Hw. apply (room_capped _ jobID discID).
    unfold mbind. apply (Hwork jobID discID). exact Hw.
Qed.
Lemma with_slot_slips e w m : undisturbed e →
  capped m (w_store w) → capped (m + 1) (w_store (with_slot handleBluRay e w).2).
Proof. intros Hu. revert w. apply (with_slot_post e m (m + 1)); [lia|]. intros. by apply job_gate_slips. Qed.

(** Processing a disc of either kind, however it ends, whenever it is cancelled and also when the
    daemon is killed on the way, never takes any disc past the configured number of attempts, whatever
    background calls the rest of the daemon makes between its own, if what the others do while it waits
    for its turn does not either. *)
Theorem attempts_never_exceed_cap e w :
  undisturbed e → lasting e →
  (∀ s, capped (MaxRipAttempts (cfg e)) s → capped (MaxRipAttempts (cfg e)) (foldl (flip run_op) s (while_waiting e))) →
  capped (MaxRipAttempts (cfg e)) (w_store w) →
  capped (MaxRipAttempts (cfg e)) (w_store (handleDisc handleBluRay e w).2).
Proof.
  intros Hu Hdb Hwait. set (max := MaxRipAttempts (cfg e)) in *. revert w.
  apply (pres_handleDisc e (capped max)); [exact Hwait|by apply with_slot_capped].
Qed.
End with_unicode.
