(* ===== verification/WorkerScan.v ===== *)
(** * Scanning, naming the rip directory, and two ways to get stuck

    The retry loop of a scan and the search for a free rip directory, and what
    a tray that will not open and a cancellation between two checks lead to. *)

From Stdlib Require Import QArith_base.
From S2P Require Import Prelude GoText GoBase MakeMkv GoPath Table Disc Store Queue StoreWf StoreDiscs Drive Monitor Verify Status Worker BluRay WorkerFrame WorkerSafety WorkerRip WorkerAttempts.
#[local] Open Scope Z_scope.

(** ** The retry loop *)

Definition is_scan (x : effect) : bool := match x with ScanCall => true | _ => false end.
Definition scans (w : World) : nat := length (List.filter is_scan (w_trace w)).

Lemma scans_push x w : scans (push x w) = (scans w + if is_scan x then 1 else 0)%nat.
Proof. unfold scans. simpl. rewrite List.filter_app, length_app. simpl. by destruct (is_scan x). Qed.

Ltac scans_lia :=
  unfold scans in *; simpl in *; rewrite ?List.filter_app, ?length_app in *; simpl in *; lia.

(** One attempt: the tool's answer, up to the text of a timeout. *)
Lemma scan_once_eq e w :
  ∃ r, scan_once e w = (r, push ScanCall (bump e w)) ∧
    match mk_Scan e (w_tick w) (DeviceSource (devicePath e)) with Ok sc => r = Ok sc | Err _ => is_ok r = false end.
Proof.
  unfold scan_once, mbind, gets, ask, call, emit, with_world, ctxErr, mret. eexists. split; [done|].
  destruct (mk_Scan _ _ _); [done|]. by destruct (_ && _).
Qed.

(** A disc is scanned at most the configured number of times, whatever the drive and the
    tools answer: the retry loop always ends. *)
Theorem scanDisc_bounded e w :
  (scans (scanDisc e w).2 ≤ scans w + Z.to_nat (ScanAttempts (cfg e)))%nat.
Proof.
  unfold scanDisc, mbind, ask. generalize (Z.to_nat (ScanAttempts (cfg e))) as fuel. intros fuel.
  generalize 1 as a. revert w; induction fuel as [|fuel IH]; intros w a; cbn [scan_loop]; [simpl; lia|].
  unfold mbind at 1. destruct (scan_once_eq e w) as (r & -> & _).
  assert (scans (push ScanCall (bump e w)) = S (scans w)) as Hs by (rewrite scans_push; simpl; unfold scans; simpl; lia).
  destruct r as [sc|err].
  { unfold mbind. destruct (1 <? a); simpl; [rewrite scans_push; simpl|]; lia. }
  unfold mbind at 1, ctxErr at 1. destruct (cancelled_by e _); [simpl; lia|].
  unfold mbind at 1. unfold discGone, mbind, call, mret. simpl.
  destruct (drv_Status e _) as [[]|err']; simpl;
    repeat (destruct (_ =? _) || destruct (cancelled_by _ _ && _)); simpl.
  all: first [scans_lia | etransitivity; [apply IH|]; scans_lia].
Qed.

Section quiet_drive.
Context (e : Env).
Hypothesis Hcancel : cancel_at e = None.
Hypothesis Hdisc : ∀ n, drv_Status e n = Ok StatusDiscOK.
Notation scan_at t := (mk_Scan e t (DeviceSource (devicePath e))).

Lemma scan_loop_first fuel a w r :
  a + Z.of_nat fuel = ScanAttempts (cfg e) + 1 →
  (scan_loop fuel a e w).1 = Ok r ↔
  ∃ k, (k < fuel)%nat ∧ scan_at (w_tick w + 3 * k)%nat = Ok r ∧
       ∀ j, (j < k)%nat → is_ok (scan_at (w_tick w + 3 * j)%nat) = false.
Proof.
  revert a w; induction fuel as [|fuel IH]; intros a w Ha; cbn [scan_loop].
  { split; [done|]. intros (k & ? & _). lia. }
  unfold mbind at 1. destruct (scan_once_eq e w) as (r0 & -> & Hr0).
  destruct (scan_at (w_tick w)) as [sc|err] eqn:E0.
  - subst r0. replace (fst _) with (Ok (E := goerr) sc) by (unfold mbind; by destruct (1 <? a)). split.
    + intros [= <-]. exists O. rewrite Nat.add_0_r, E0. split; [lia|]. split; [done|]. lia.
    + intros ([|k] & _ & Hk & Hj); [rewrite Nat.add_0_r, E0 in Hk; congruence|].
      specialize (Hj O ltac:(lia)). by rewrite Nat.add_0_r, E0 in Hj.
  - destruct r0 as [|err0]; [done|]. unfold mbind at 1, ctxErr at 1, cancelled_by. rewrite Hcancel.
    unfold mbind at 1. unfold discGone, mbind, call, mret. simpl. rewrite Hdisc. simpl.
    assert (∀ P : nat → Prop, (∃ k, (k < S fuel)%nat ∧ scan_at (w_tick w + 3 * k)%nat = Ok r ∧
       ∀ j, (j < k)%nat → is_ok (scan_at (w_tick w + 3 * j)%nat) = false) ↔
       ∃ k, (k < fuel)%nat ∧ scan_at (S (S (S (w_tick w))) + 3 * k)%nat = Ok r ∧
       ∀ j, (j < k)%nat → is_ok (scan_at (S (S (S (w_tick w))) + 3 * j)%nat) = false) as Hshift.
    { intros _. split.
      - intros ([|k] & Hk & Hr & Hj); [rewrite Nat.add_0_r, E0 in Hr; done|]. exists k. split; [lia|].
        replace (S (S (S (w_tick w))) + 3 * k)%nat with (w_tick w + 3 * S k)%nat by lia. split; [done|].
        intros j Hjk. replace (S (S (S (w_tick w))) + 3 * j)%nat with (w_tick w + 3 * S j)%nat by lia. apply Hj. lia.
      - intros (k & Hk & Hr & Hj). exists (S k). split; [lia|].
        replace (w_tick w + 3 * S k)%nat with (S (S (S (w_tick w))) + 3 * k)%nat by lia. split; [done|].
        intros [|j] Hjk; [by rewrite Nat.add_0_r, E0|].
        replace (w_tick w + 3 * S j)%nat with (S (S (S (w_tick w))) + 3 * j)%nat by lia. apply Hj. lia. }
    rewrite (Hshift (λ _, True)). clear Hshift. destruct (Z.eqb_spec a (ScanAttempts (cfg e))) as [->|Hne].
    + split; [done|]. intros (k & ? & _). lia.
    + simpl. unfold cancelled_by. rewrite Hcancel. simpl. apply (IH (a + 1)). lia.
Qed.
End quiet_drive.

(** A disc that stays in the drive is read if any of the configured attempts can read it: the
    scan returns the first attempt's result that succeeds, and fails only when every attempt fails. *)
Theorem scanDisc_first_success e w r :
  cancel_at e = None → (∀ n, drv_Status e n = Ok StatusDiscOK) →
  (scanDisc e w).1 = Ok r ↔
  ∃ k, (k < Z.to_nat (ScanAttempts (cfg e)))%nat ∧
    mk_Scan e (w_tick w + 3 * k)%nat (DeviceSource (devicePath e)) = Ok r ∧
    ∀ j, (j < k)%nat → is_ok (mk_Scan e (w_tick w + 3 * j)%nat (DeviceSource (devicePath e))) = false.
Proof.
  intros Hc Hd. unfold scanDisc, mbind, ask. destruct (Z.leb_spec (ScanAttempts (cfg e)) 0).
  - rewrite Z2Nat.nonpos by done. simpl. split; [done|]. intros (k & ? & _). lia.
  - apply scan_loop_first; [done|done|]. lia.
Qed.

(** ** A free rip directory *)

(** The names makeRipDir tries after [candidate], from counter [i]. *)
Fixpoint later_names (fuel : nat) (base : string) (i : Z) : list string :=
  match fuel with
  | O => []
  | S fuel' => (base +:+ "-" +:+ itoa i) :: later_names fuel' base (i + 1)
  end.

Definition taken (dirs : gmap string bool) (path : string) : bool := bool_decide (dirs !! path = Some true).

Lemma rip_dir_loop_spec e fuel base c i w :
  (∀ n, mkdir_fault e n = None) →
  match List.find (λ p, negb (taken (w_dirs w) p)) (c :: later_names fuel base i) with
  | Some dir => (rip_dir_loop fuel base c i e w).1 = Ok dir ∧
      w_dirs (rip_dir_loop fuel base c i e w).2 = <[dir := false]> (w_dirs w)
  | None => is_ok (rip_dir_loop fuel base c i e w).1 = false ∧ w_dirs (rip_dir_loop fuel base c i e w).2 = w_dirs w
  end.
Proof.
  intros Hm. revert c i w; induction fuel as [|fuel IH]; intros c i w; cbn [rip_dir_loop List.find later_names].
  all: unfold mbind at 1; (try unfold mbind at 2); unfold mkdir, mbind, call, gets, dirIsEmpty; rewrite Hm; simpl.
  all: unfold taken at 1; destruct (w_dirs w !! c) as [[]|] eqn:E; simpl; rewrite ?E; simpl.
  all: try (split; [done|]; first [done | by rewrite insert_id]).
  apply (IH _ (i + 1) (bump e w)).
Qed.

Section with_unicode.
Context {U : Unicode}.

(** The rip directory is the first of fifty names (the disc's own, then with a counter) at which
    there is nothing or an empty directory; a directory that holds anything is never reused, no other
    entry is touched, and only when all fifty are taken does it fail. *)
Theorem makeRipDir_fresh e d w :
  (∀ n, mkdir_fault e n = None) →
  let base := Join [RipsDir (cfg e); DirName (today e) d] in
  let names := base :: later_names 49 base 2 in
  match List.find (λ p, negb (taken (w_dirs w) p)) names with
  | Some dir =>
      (makeRipDir d e w).1 = Ok dir ∧ taken (w_dirs w) dir = false ∧
      w_dirs (makeRipDir d e w).2 = <[dir := false]> (w_dirs w)
  | None =>
      is_ok (makeRipDir d e w).1 = false ∧ Forall (λ p, taken (w_dirs w) p = true) names ∧
      w_dirs (makeRipDir d e w).2 = w_dirs w
  end.
Proof.
  intros Hm base names. pose proof (rip_dir_loop_spec e 49 base base 2 w Hm) as H. fold names in H.
  unfold makeRipDir, mbind, ask. fold base. destruct (List.find _ names) as [dir|] eqn:E.
  - destruct H as [H1 H2]. split; [done|]. split; [|done].
    apply find_some in E as [_ Hn]. by apply negb_true_iff in Hn.
  - destruct H as [H1 H2]. split; [done|]. split; [|done]. apply Forall_forall. intros p Hp.
    apply list_elem_of_In in Hp. pose proof (find_none _ _ E p Hp) as Hn. by apply negb_false_iff in Hn.
Qed.
End with_unicode.

(** ** A tray that will not open *)

(** When the tray does not open after a success, the drive is left in the ejecting state, which
    counts as busy: a later request to eject is refused as a rip in progress, and there is nothing
    to cancel. *)
Theorem eject_failure_sticks e w m :
  EjectOnSuccess (cfg e) = true → drv_Eject e (w_tick w) = Err m → w_cancelWork w = false →
  let w' := (ejectNow e w).2 in
  sn_State (snap (w_status w')) = StateEjecting ∧
  is_ok (Eject e w').1 = false ∧ ejects (Eject e w').2 = ejects w' ∧
  is_ok (Cancel e w').1 = false.
Proof.
  intros He Hd Hc. unfold ejectNow, mbind, ask. rewrite He. simpl. rewrite Hd. simpl.
  set (w' := push _ _). cbv zeta.
  assert (sn_State (snap (w_status w')) = StateEjecting) as Hs by apply setState_state.
  unfold Eject, Cancel, mbind, gets, ask, mret. rewrite Hs. simpl. by rewrite Hc.
Qed.

(** ** Worked runs *)

Definition demo_title : Title := mkTitle 0 7083 20 4000000000 "" 0 "" "" "title_00.mkv" "" [] ∅.
Definition demo_disc : Disc := mkDisc "abcd1234abcd1234" "HEAT" "" TypeDVD 4000000000 (Some "2026-08-01") "" "" "" [demo_title].
Definition demo_cfg : Config := mkConfig "/rips" "/work" "/transcoded" 1000 2 3 300 false false true false.
(** Somebody forgets another disc over and over, and the log is written. *)
Definition demo_meanwhile (n : nat) : list store_op :=
  [OpForgetDisc "feedfeedfeedfeed"; OpLogEvent (Z.of_nat n) "info" "queue: encoding" None None].
(** A drive and tools that work, but for the rip's outcome, the tray and the cancellation. *)
Definition demo_env_db (fault : nat → bool) (cancel : option nat) (rip : outcome goerr RipResult) (tray : outcome string unit) : Env :=
  {| cfg := demo_cfg; label := "left"; driveID := 1; devicePath := "/dev/sr0"; driveModel := "BW-16";
     today := "2026-08-01"; clock := λ n, Z.of_nat n * 1000000000; cancel_at := cancel; timer_wins := λ _, false;
     db_fault := fault; meanwhile := demo_meanwhile; while_waiting := []; slot_free := λ _, true; drv_Status := λ _, Ok StatusDiscOK; drv_Eject := λ _, tray;
     drv_DiscKind := λ _, Ok (DiscDVD, 16); drv_VolumeLabel := λ _, Ok "HEAT";
     drv_ReadRegion := λ _, Ok (mkRegion 1 4 4 0xfe 1); drv_ReadProtection := λ _, Ok (mkProtection 0 0);
     mk_Scan := λ n _, if (n <? 4)%nat then Err (errorf "failed to open disc") else Ok (mkScan demo_disc "raw");
     scan_deadline := λ _, false; mk_RipTitle := λ _ _ _ _, ([], rip); dec_Available := None;
     dec_Existing := λ _ _ _, None; dec_Mirror := λ _ _, ([], Err (errorf "no copy"));
     enc_Probe := λ _ _, Err (errorf "no Blu-ray"); enc_Transcode := λ _ _ _, ([], Err (errorf "no encoder"));
     mkdir_fault := λ _, None; write_fault := λ _, None;
     stat_file := λ _ _, Some (mkFile 4000000000 true ebmlMagic); ffprobe := λ _ _, Err "unused" |}.
Definition demo_env : option nat → outcome goerr RipResult → outcome string unit → Env := demo_env_db (λ _, false).
Definition demo_store : Store := run_op (OpUpsertDrive 1 "usb-1" "/dev/sr0" "left" "BW-16") empty_store.
Definition demo_world : World :=
  mkWorld demo_store (newDriveStatus 0 "usb-1" "left" "/dev/sr0" "BW-16") ∅ false false 0 [].
(** A finished rip of title 0. *)
Definition ripped (path : string) (size : Z) : RipResult := mkRipResult 0 path size "" [] 0.
Definition demo_good : Env := demo_env None (Ok (ripped "/rips/t.mkv" 4000000000)) (Ok tt).

Lemma demo_store_wf : store_wf (w_store demo_world).
Proof. apply run_op_wf, empty_store_wf. Qed.

Lemma demo_undisturbed cancel rip tray : undisturbed (demo_env cancel rip tray).
Proof. intros n op. cbn [meanwhile demo_env demo_env_db]. unfold demo_meanwhile. rewrite !elem_of_cons, elem_of_nil. by intros [->|[->|[]]]. Qed.
Lemma demo_unforgotten cancel rip tray fp : fp ≠ "feedfeedfeedfeed" → unforgotten (demo_env cancel rip tray) fp.
Proof. intros Hfp n. cbn [meanwhile demo_env demo_env_db]. unfold demo_meanwhile. rewrite !elem_of_cons, elem_of_nil. by intros [[= ->]|[?|[]]]. Qed.

Lemma demo_keeps_records : @keeps_records caseless demo_good.
Proof.
  intros fp [(n & src & r & Hr & <-)|(n & src & p & lab & Hp & _)]; [|discriminate Hp]. apply demo_unforgotten.
  cbn [mk_Scan demo_good demo_env demo_env_db] in Hr. destruct (n <? 4)%nat; [discriminate Hr|]. by injection Hr as <-.
Qed.

Definition demo_run (e : Env) : World := (@handleDisc caseless (@handleBluRay caseless) e demo_world).2.

(** The work cancelled while its only title is being read. *)
Definition demo_cancelled : Env := demo_env (Some 18%nat) (Err ctxCanceled) (Ok tt).

(** A cancellation that arrives while a title is being read is reported as a failure: the job is
    recorded as cancelled, but the drive ends up failed, with the disc retained to be dealt with,
    where a cancellation anywhere else ends in the cancelled state. *)
Theorem cancel_during_title_reads_as_failure :
  let w := demo_run demo_cancelled in
  map j_state (jobs (w_store w)) = [JobCancelled] ∧
  sn_State (snap (w_status w)) = StateFailed ∧
  sn_Error (snap (w_status w)) = "cancelled during title 0".
Proof. vm_compute. done. Qed.

Example cancel_during_scan_is_cancelled :
  sn_State (snap (w_status (demo_run (demo_env (Some 3%nat) (Err ctxCanceled) (Ok tt))))) = StateCancelled.
Proof. reflexivity. Qed.

Lemma tray_opens_only_on_success_witness :
  ejects (demo_run demo_good) = [EjectCall true] ∧
  ((∃ fp, recorded fp (w_store (demo_run demo_good)) ∧ @scanned caseless demo_good fp) ∨ encoded demo_good ∨
   (EjectOnFailure (cfg demo_good) = true ∧ (failures demo_world < failures (demo_run demo_good))%nat)).
Proof.
  split; [vm_compute; reflexivity|].
  apply (@tray_opens_only_on_success caseless demo_good demo_world); [apply demo_undisturbed|exact demo_keeps_records|exact demo_store_wf|].
  vm_compute. discriminate.
Defined.

Lemma attempts_never_exceed_cap_witness :
  capped 2 (w_store (demo_run demo_good)) ∧ attempts 1 (w_store (demo_run demo_good)) = 1.
Proof.
  split; [|vm_compute; reflexivity].
  apply (@attempts_never_exceed_cap caseless demo_good demo_world); [apply demo_undisturbed|by intros n|by intros s Hs|].
  split; [exact demo_store_wf|]. intros i. unfold attempts, count_where. simpl. lia.
Defined.

Definition demo_saved : World :=
  set_store (SaveDisc 2 demo_disc "raw" demo_store).2 demo_world.


Lemma handleDisc_releases_witness :
  w_slot (demo_run demo_cancelled) = false ∧ w_cancelWork (demo_run demo_cancelled) = false.
Proof. apply (@handleDisc_releases caseless demo_cancelled demo_world); reflexivity. Defined.

Lemma scanDisc_first_success_witness :
  (scanDisc demo_good (bump demo_good demo_world)).1 = Ok (mkScan demo_disc "raw").
Proof.
  apply (scanDisc_first_success demo_good (bump demo_good demo_world) (mkScan demo_disc "raw")); [reflexivity|done|].
  exists 1%nat. split; [vm_compute; lia|]. split; [reflexivity|].
  intros j Hj. replace j with O by lia. reflexivity.
Defined.

Lemma makeRipDir_fresh_witness :
  (@makeRipDir caseless demo_disc demo_good (set_dirs {["/rips/2026-08-01--heat--abcd1234abcd" := true]} demo_world)).1
    = Ok "/rips/2026-08-01--heat--abcd1234abcd-2".
Proof.
  exact (proj1 (@makeRipDir_fresh caseless demo_good demo_disc
    (set_dirs {["/rips/2026-08-01--heat--abcd1234abcd" := true]} demo_world) (λ _, eq_refl))).
Defined.

Lemma eject_failure_sticks_witness :
  is_ok (Eject (demo_env None (Ok (ripped "" 0)) (Err "busy")) (ejectNow (demo_env None (Ok (ripped "" 0)) (Err "busy")) demo_world).2).1 = false.
Proof.
  refine (proj1 (proj2 (eject_failure_sticks (demo_env None (Ok (ripped "" 0)) (Err "busy")) demo_world "busy" _ _ _)));
    reflexivity.
Defined.
