(* ===== verification/WorkerJobs.v ===== *)
(** * Every job is settled

    A worker opens a job for the disc in hand and moves it through its states.
    [jobs_are_settled]: when the work is not cancelled and the database works,
    the job is complete or failed once the disc has been processed, and no job
    is left in a state that says a drive is at work on it.
    [late_cancel_leaves_job_open]: a cancellation that arrives while a finished
    disc is being recorded does leave one. *)

From Stdlib Require Import QArith_base.
From S2P Require Import Prelude GoText GoBase MakeMkv GoPath Table Disc Store Queue StoreWf StoreDiscs Background Drive Monitor Verify Status Worker BluRay WorkerFrame WorkerSafety WorkerAttempts WorkerScan.
#[local] Open Scope Z_scope.

(** Only the job in hand is open. *)
Definition open_only (jobID : Z) (s : Store) : Prop :=
  Forall (λ r, unfinished (j_state r) = true → j_id r = jobID) (jobs s).
Definition all_settled (s : Store) : Prop := Forall (λ r, unfinished (j_state r) = false) (jobs s).

Lemma settled_open jobID s : all_settled s → open_only jobID s.
Proof. intros H. eapply Forall_impl; [exact H|]. simpl. congruence. Qed.

#[export] Instance stable_open e jobID `{!undisturbed e} : Stable e (open_only jobID).
Proof.
  apply stable_ops. intros n op s Hop. unfold open_only. by rewrite background_jobs by exact (only_background n op Hop).
Qed.
#[export] Instance stable_settled e `{!undisturbed e} : Stable e all_settled.
Proof.
  apply stable_ops. intros n op s Hop. unfold all_settled. by rewrite background_jobs by exact (only_background n op Hop).
Qed.

(** ** The steps of a job *)

Lemma SetJobState_open now jobID st t s : open_only jobID s → open_only jobID (SetJobState now jobID st t s).2.
Proof. intros H. apply Forall_update_where; [|exact H]. intros r _ E%Z.eqb_eq _. exact E. Qed.

Lemma SetJobState_settles now jobID st t s :
  unfinished st = false → open_only jobID s → all_settled (SetJobState now jobID st t s).2.
Proof.
  intros Hst H. unfold all_settled. cbn. unfold update_where. rewrite Forall_map. eapply Forall_impl; [exact H|].
  intros r Hr. simpl. destruct (Z.eqb_spec (j_id r) jobID); [done|]. destruct (unfinished (j_state r)) eqn:Eu; [|done].
  by destruct (Hr Eu).
Qed.

Lemma rip_step_open fp jobID discID s s' : rip_step fp jobID discID s s' → open_only jobID s → open_only jobID s'.
Proof.
  intros Hst Ho; destruct Hst; try exact Ho; [by apply SetJobState_open| |].
  - apply Forall_update_where; [|exact Ho]. by intros r Hr _.
  - destruct (SaveDisc_eq now d raw s) as (s1 & -> & _ & G). unfold open_only. cbn [snd].
    by rewrite (tg_jobs _ _ G).
Qed.

Lemma CreateJob_open now discID drv a s : all_settled s →
  match CreateJob now discID drv a s with (Ok j, s') => open_only j s' | (Err _, s') => all_settled s' end.
Proof.
  intros H. unfold CreateJob, bind, references, query, exec, ret. destruct (_ && _); [|exact H].
  unfold open_only. cbn [jobs set_jobs]. apply Forall_app. split; [by apply settled_open|]. by apply Forall_singleton.
Qed.

Section settle.
Context {U : Unicode} (e : Env) `{!undisturbed e}.
Hypothesis Hcancel : cancel_at e = None.
Hypothesis Hdb : ∀ n, db_fault e n = false.

Lemma frame_open fp jobID discID : frame e (rip_step fp jobID discID) (λ w, open_only jobID (w_store w)).
Proof. apply (frame_store e _ (open_only jobID)). intros s s'. apply rip_step_open. Qed.
Lemma frame_settled : frame e (λ s s', jobs s' = jobs s) (λ w, all_settled (w_store w)).
Proof. apply (frame_store e _ all_settled). intros s s' Hj. unfold all_settled. by rewrite Hj. Qed.

Notation opened j m := (pres e (λ w, open_only j (w_store w)) m).
Notation settled m := (pres e (λ w, all_settled (w_store w)) m).
Notation settles j m := (post e (λ w, open_only j (w_store w)) m (λ _ w, all_settled (w_store w))).

Lemma settle_now {A} b jobID st t (k : outcome goerr unit → M A) :
  unfinished st = false → (∀ r, settled (k r)) →
  settles jobID (mbind (db_in b (λ now, SetJobState now jobID st t)) k).
Proof.
  intros Hst Hk. eapply post_bind; [|intros r; apply post_pres, (Hk r)].
  intros w Hw. unfold db_in, cancelled_by. rewrite Hcancel, Hdb, andb_false_r. cbn [snd]. simpl.
  by apply stable, SetJobState_settles.
Qed.

Lemma settled_fail j m : settled (fail j m).
Proof. apply (pres_store_fail e all_settled _ _). Qed.
Lemma settled_eject : settled ejectNow.
Proof. apply (pres_store_ejectNow e all_settled). Qed.

Lemma rip_job_settles jobID discID d raw : settles jobID (rip_job jobID discID d raw).
Proof.
  pose proof (frame_open (d_Fingerprint d) jobID discID) as F. pose proof frame_settled as FS.
  pose proof settled_fail. pose proof settled_eject. unfold rip_job. eapply post_bind.
  { apply post_pres, (pres_rip e _ _ F); by constructor. }
  intros [d'|err]; [|destruct (is_errCancelled err)]; apply settle_now; try done; pres_solve.
Qed.

Lemma bluray_job_settles jobID discID d src out probe : settles jobID (bluray_job jobID discID d src out probe).
Proof.
  pose proof (frame_open "" jobID discID) as F. pose proof frame_settled as FS.
  pose proof settled_fail. pose proof settled_eject. unfold bluray_job. eapply post_bind.
  { apply post_pres. unfold encodeBluRay. pres_solve. }
  pose proof (λ A op H, @pres_db e _ _ FS A op H) as Hd.
  intros [res|err]; [|destruct (is_errCancelled err); apply settle_now; try done; pres_solve].
  do 4 (eapply post_bind; [apply post_pres; first [by apply (pres_db e _ _ F); constructor|pres_solve]|intros]).
  apply settle_now; [done|]. intros _. apply pres_bind; [apply Hd|pres_solve].
  intros now s. unfold RecordTranscode, upsert_transcode, bind, references. by destruct (_ || _).
Qed.

Lemma job_gate_settles d raw work :
  (∀ jobID discID, settles jobID (work jobID discID)) → settled (job_gate d raw work).
Proof.
  intros Hwork. pose proof frame_settled as FS. pose proof settled_fail. unfold job_gate.
  apply pres_bind; [|intros [discID|]; [|pres_solve]].
  { apply (pres_db e _ _ FS). intros now s. destruct (SaveDisc_eq now d raw s) as (s1 & -> & _ & G). apply (tg_jobs _ _ G). }
  apply pres_bind; [by apply (pres_db e _ _ FS)|]. intros r. cbv zeta. apply pres_bind; [pres_solve|]. intros max.
  destruct (_ <=? _); [pres_solve|]. apply pres_bind; [pres_solve|]. intros drv.
  apply (post_bind e (λ w, all_settled (w_store w)) _ _ (λ r w, match r with Ok j => open_only j (w_store w) | Err _ => all_settled (w_store w) end) (λ _ w, all_settled (w_store w))).
  - apply (post_db e all_settled _ (λ r s, match r with Ok j => open_only j s | Err _ => all_settled s end)).
    + intros []; apply _.
    + intros now s Hs. pose proof (CreateJob_open now discID drv
        (match r with Ok n => n | Err _ => 0 end + 1) s Hs) as Hc. by destruct (CreateJob _ _ _ _ _) as [[]].
    + done.
  - intros [jobID|err]; [|apply settled_fail].
    eapply post_bind; [apply post_pres; eapply pres_status, (frame_open "" jobID discID)|]. intros. apply Hwork.
Qed.

Lemma with_slot_settles : settled (with_slot handleBluRay).
Proof.
  pose proof frame_settled as F. pose proof settled_fail. pose proof settled_eject.
  pose proof (λ A op H, @pres_db e _ _ F A op H) as Hd. pose proof (pres_scanDisc e _ _ F).
  assert (∀ f, (∀ w, w_store (f w) = w_store w) → settled (with_world f)) as Hww.
  { intros f Hf w Hw. simpl. by rewrite Hf. }
  assert (∀ d raw, settled (handle_new d raw)) as Hnew.
  { intros d raw. rewrite handle_new_gate. apply job_gate_settles. intros. apply rip_job_settles. }
  assert (∀ d src p, settled (bluray_new d src p)) as Hbd.
  { intros d src p. rewrite bluray_new_gate. apply job_gate_settles. intros. apply (bluray_job_settles _ _ d). }
  unfold with_slot, releaseDiscSlot, handle_dvd, handle_scanned, handleBluRay. cbv zeta. pres_solve.
Qed.
End settle.

(** The work is not cancelled and the database works. *)
Definition untroubled (e : Env) : Prop := cancel_at e = None ∧ ∀ n, db_fault e n = false.

(** Processing a disc leaves no job open.  When nobody cancels and the
    database works, every job opened for a disc of either kind has reached a
    verdict when the disc has been processed, however the disc, the drive and
    the tools turn out and whatever background calls the others make. *)
Theorem jobs_are_settled `{Unicode} e w :
  undisturbed e → untroubled e → (∀ s, all_settled s → all_settled (foldl (flip run_op) s (while_waiting e))) →
  all_settled (w_store w) → all_settled (w_store (handleDisc handleBluRay e w).2).
Proof.
  intros Hu [Hc Hdb] Hwait. revert w. apply (pres_handleDisc e all_settled); [exact Hwait|].
  by apply with_slot_settles.
Qed.

Lemma jobs_are_settled_witness :
  all_settled (w_store (demo_run demo_good)) ∧ map j_state (jobs (w_store (demo_run demo_good))) = [JobComplete].
Proof.
  split; [|vm_compute; reflexivity].
  apply (@jobs_are_settled caseless demo_good demo_world); [apply demo_undisturbed|done|by intros s Hs|by constructor].
Defined.

(** The work cancelled when the last title is verified and the disc is recorded as ripped. *)
Definition demo_late : Env := demo_env (Some 23%nat) (Ok (ripped "/rips/t.mkv" 4000000000)) (Ok tt).

(** A cancellation that comes while a finished disc is being recorded leaves
    its job open: the disc is recorded as ripped and the tray opens, the job
    says that it is being ripped until the daemon is restarted, and it counts
    as an attempt. *)
Theorem late_cancel_leaves_job_open :
  let w := demo_run demo_late in
  map j_state (jobs (w_store w)) = [JobRipping] ∧ sn_State (snap (w_status w)) = StateTrayOpen ∧
  map di_rip_dir (discs (w_store w)) = [Some "/rips/2026-08-01--heat--abcd1234abcd"] ∧ attempts 1 (w_store w) = 1.
Proof. vm_compute. done. Qed.
