(* ===== verification/WorkerKeeps.v ===== *)
(** * A disc that was ripped stays ripped

    The rip directory of a disc in the database is what says that it was
    ripped.  Processing a disc, its own or another, in this drive or another,
    leaves it: nothing but forgetting the disc takes it away
    ([with_slot_keeps]).  And a disc that is recorded as ripped is not worked
    on again: no job is opened for it ([ripped_disc_is_left_alone]). *)

From Stdlib Require Import QArith_base.
From S2P Require Import Prelude GoText GoBase MakeMkv GoPath Table Disc Store Queue StoreWf StoreDiscs Background Drive Monitor Verify Status Worker BluRay WorkerFrame WorkerSafety WorkerAttempts WorkerScan.
#[local] Open Scope Z_scope.

(** The disc [fp] is on record while another, [fp'], is worked on under an id. *)
Definition beside (fp fp' : string) (discID : Z) (s : Store) : Prop := on_record fp s ∧ known fp' discID s.

#[export] Instance stable_beside e fp fp' discID `{!undisturbed e} `{!unforgotten e fp} : Stable e (beside fp fp' discID).
Proof. apply stable_and; apply _. Qed.

Lemma on_record_FindDisc fp s s' :
  store_wf s' → (FindDisc fp s').1 = (FindDisc fp s).1 → on_record fp s → on_record fp s'.
Proof. intros Hwf Hf [_ (rec & Hrec & Hr)]. split; [done|]. exists rec. by rewrite Hf. Qed.

(** The database steps of working on the other disc. *)
Inductive work_step (fp' : string) (jobID discID : Z) : Store → Store → Prop :=
| ws_rip s s' : rip_step fp' jobID discID s s' → work_step fp' jobID discID s s'
| ws_other s s' : discs s' = discs s → (store_wf s → store_wf s') → work_step fp' jobID discID s s'.

Lemma work_step_beside fp fp' jobID discID s s' :
  fp' ≠ fp → work_step fp' jobID discID s s' → beside fp fp' discID s → beside fp fp' discID s'.
Proof.
  intros Hne [s1 s2 Hst|s1 s2 Hd Hwf] [Hrec Hk].
  2: { destruct Hk as [? (r & Hr & Hid)]. split; [|split; [auto|exists r; by rewrite Hd]].
       eapply on_record_FindDisc; [auto|by apply FindDisc_discs|done]. }
  split; [|by eapply rip_step_known].
  eapply on_record_FindDisc; [eapply rip_step_wf; [exact Hst|apply Hk]| |exact Hrec].
  destruct Hst as [| | |dir s0|now d raw s0 Hfp]; try reflexivity.
  - destruct Hk as [Hwf (r & [Hin Hfp]%select1_Some & Hid)]. unfold FindDisc, query. simpl. do 2 f_equal.
    rewrite select1_update_other; [done|]. intros x Hx E%Z.eqb_eq.
    assert (x = r) as -> by (eapply (key_inj di_id); [apply (wf_discs s0 Hwf)|done|done|congruence]).
    unfold fp_is in Hfp. apply bool_decide_eq_true in Hfp. simpl. rewrite Hfp. split; by apply bool_decide_eq_false.
  - apply SaveDisc_preserves; [exact 0|congruence].
Qed.

Section keeps.
Context {U : Unicode} (e : Env) (fp : string) `{!undisturbed e} `{!unforgotten e fp}.

Notation keeps_record m := (pres e (λ w, on_record fp (w_store w)) m).
Notation works_beside fp' i m := (post e (λ w, beside fp fp' i (w_store w)) m (λ _ w, on_record fp (w_store w))).

Lemma frame_beside fp' jobID discID : fp' ≠ fp →
  frame e (work_step fp' jobID discID) (λ w, beside fp fp' discID (w_store w)).
Proof. intros Hne. apply (frame_store e _ (beside fp fp' discID)). intros s s'. by apply work_step_beside. Qed.

Lemma beside_end fp' discID (m : M unit) :
  pres e (λ w, beside fp fp' discID (w_store w)) m → works_beside fp' discID m.
Proof. intros Hm w Hw. by apply Hm. Qed.

Lemma fail_beside fp' discID j m : pres e (λ w, beside fp fp' discID (w_store w)) (fail j m).
Proof. apply (pres_store_fail e (beside fp fp' discID) _ _). Qed.

Lemma rip_job_beside jobID discID d raw : d_Fingerprint d ≠ fp →
  works_beside (d_Fingerprint d) discID (rip_job jobID discID d raw).
Proof.
  intros Hne. pose proof (frame_beside _ jobID discID Hne) as F. apply beside_end.
  pose proof (fail_beside (d_Fingerprint d) discID).
  pose proof (pres_store_ejectNow e (beside fp (d_Fingerprint d) discID)). unfold rip_job. apply pres_bind.
  { apply (pres_rip e _ _ F); intros; constructor; by constructor. }
  pose proof (λ A op H, @pres_db e _ _ F A op H) as Hdb.
  pose proof (λ A op H, @pres_afterCancel e _ _ F A op H) as Hac.
  pose proof (λ now st t s, ws_rip _ _ _ _ _ (rs_state (d_Fingerprint d) jobID discID now st t s)) as Hst. pres_solve.
Qed.

Lemma bluray_job_beside jobID discID d src out probe fp' : fp' ≠ fp →
  works_beside fp' discID (bluray_job jobID discID d src out probe).
Proof.
  intros Hne. pose proof (frame_beside fp' jobID discID Hne) as F. apply beside_end.
  pose proof (fail_beside fp' discID). pose proof (pres_store_ejectNow e (beside fp fp' discID)).
  pose proof (λ A op H, @pres_db e _ _ F A op H) as Hdb.
  pose proof (λ A op H, @pres_afterCancel e _ _ F A op H) as Hac.
  pose proof (λ now st t s, ws_rip _ _ _ _ _ (rs_state fp' jobID discID now st t s)) as Hst.
  pose proof (λ i b v s, ws_rip _ _ _ _ _ (rs_mark fp' jobID discID i b v s)) as Hm.
  pose proof (λ dir s, ws_rip _ _ _ _ _ (rs_dir fp' jobID discID dir s)) as Hd.
  assert (∀ now i p src out sz hw s, work_step fp' jobID discID s (RecordTranscode now discID i p src out sz hw s).2) as Hrec.
  { intros. apply ws_other; [|keeps_wf]. unfold RecordTranscode, upsert_transcode, bind, references. by destruct (_ || _). }
  unfold bluray_job, encodeBluRay. pres_solve.
Qed.

Lemma job_gate_keeps d raw work : d_Fingerprint d ≠ fp →
  (∀ jobID discID, works_beside (d_Fingerprint d) discID (work jobID discID)) → keeps_record (job_gate d raw work).
Proof.
  intros Hne Hwork. unfold job_gate.
  apply (post_bind e (λ w, on_record fp (w_store w)) _ _
    (λ r w, match r with Ok id => beside fp (d_Fingerprint d) id (w_store w) | Err _ => on_record fp (w_store w) end)
    (λ _ w, on_record fp (w_store w))).
  { apply (post_db e (on_record fp) _ (λ r s, match r with Ok id => beside fp (d_Fingerprint d) id s | Err _ => on_record fp s end)).
    - intros []; apply _.
    - intros now s Hs. pose proof (SaveDisc_known now d raw s) as Hk.
      pose proof (SaveDisc_keeps now d raw s (proj1 Hs)) as Hwf. pose proof (SaveDisc_preserves now d raw s fp 0) as [Hf _].
      destruct (SaveDisc now d raw s) as [[id|x] s'].
      + assert (known (d_Fingerprint d) id s') as Hk' by (apply (Hk id s'); [apply Hs|done]). split; [|done].
        eapply on_record_FindDisc; [exact Hwf|by apply Hf|exact Hs].
      + eapply on_record_FindDisc; [exact Hwf|by apply Hf|exact Hs].
    - done. }
  intros [discID|err]; [|apply (pres_store_fail e (on_record fp) _ _)].
  pose proof (frame_beside _ 0 discID Hne) as F. pose proof (fail_beside (d_Fingerprint d) discID).
  eapply post_bind; [by apply post_pres, (pres_db e _ _ F); intros; apply ws_other|]. intros r. cbv zeta. apply post_ask.
  destruct (_ <=? _); [apply beside_end; pres_solve|]. apply post_ask.
  eapply post_bind; [apply post_pres, (pres_db e _ _ F)|].
  { intros now s. apply ws_other; [|keeps_wf]. unfold CreateJob, bind, references. by destruct (_ && _). }
  intros [jobID|err]; [|by apply beside_end].
  eapply post_bind; [apply post_pres; eapply pres_status, F|]. intros. apply Hwork.
Qed.

(** A disc on record is found to be: whatever would be done with a new one is not. *)
Lemma existing_gate_stops (K : Store → Prop) dup new `{!Stable e K} :
  pres e (λ w, on_record fp (w_store w) ∧ K (w_store w)) (existing_gate fp dup new).
Proof.
  set (K' := λ s, on_record fp s ∧ K s). assert (Stable e K') as HK by (apply stable_and; apply _).
  change (pres e (λ w, K' (w_store w)) (existing_gate fp dup new)).
  assert (frame e (λ s s', s' = s) (λ w, K' (w_store w))) as F by (apply (frame_store e _ K'); by intros s s' ->).
  pose proof (λ j m, pres_store_fail e K' j m) as Hf. pose proof (pres_store_ejectNow e K').
  set (Q := λ r : outcome goerr (option DiscRecord), match r with Ok x => ∃ rec, x = Some rec ∧ Ripped rec = true | Err _ => True end).
  unfold existing_gate. apply (post_bind e (λ w, K' (w_store w)) _ _ (λ r w, K' (w_store w) ∧ Q r) (λ _ w, K' (w_store w))).
  { intros w Hw. split; [by apply (pres_db _ _ _ F)|]. apply (post_db e K' _ (λ r _, Q r) (λ r n s Hq, Hq)); [|done|exact Hw].
    intros now s [[_ (rec & Hrec & Hr)] _]. unfold FindDisc, query in *. cbn in *. injection Hrec as Hrec. rewrite Hrec. by exists rec. }
  intros [x|err]; [|intros w [Hw _]; by apply Hf]. intros w [Hw (rec & -> & Hr)]. rewrite Hr. revert w Hw.
  change (pres e (λ w, K' (w_store w))
    (status (update (set_rip_dir (dc_RipDir rec))) ;;; state StateDuplicate ;;; logf "info" dup ;;; ejectNow)).
  pres_solve.
Qed.

Lemma existing_gate_keeps fp' dup new : (fp' ≠ fp → keeps_record new) → keeps_record (existing_gate fp' dup new).
Proof.
  intros Hnew. pose proof (frame_recorded e fp) as F.
  pose proof (λ j m, pres_store_fail e (on_record fp) j m). pose proof (pres_store_ejectNow e (on_record fp)).
  destruct (decide (fp' = fp)) as [->|Hne].
  - intros w Hw. by apply (existing_gate_stops (λ _, True) dup new).
  - specialize (Hnew Hne). unfold existing_gate. apply pres_bind; [by apply (pres_db _ _ _ F)|pres_solve].
Qed.

Lemma with_slot_keeps : keeps_record (with_slot handleBluRay).
Proof.
  pose proof (frame_recorded e fp) as F.
  pose proof (λ j m, pres_store_fail e (on_record fp) j m). pose proof (pres_scanDisc e _ _ F).
  assert (∀ f, (∀ w, w_store (f w) = w_store w) → keeps_record (with_world f)) as Hww.
  { intros f Hf w Hw. simpl. by rewrite Hf. }
  assert (∀ d raw dup, keeps_record (existing_gate (d_Fingerprint d) dup (handle_new d raw))) as Hnew.
  { intros d raw dup. apply existing_gate_keeps. intros Hne. rewrite handle_new_gate. apply job_gate_keeps; [done|].
    intros. by apply rip_job_beside. }
  assert (∀ d src p dup, keeps_record (existing_gate (d_Fingerprint d) dup (bluray_new d src p))) as Hbd.
  { intros d src p dup. apply existing_gate_keeps. intros Hne. rewrite bluray_new_gate. apply job_gate_keeps; [done|].
    intros. by apply bluray_job_beside. }
  unfold existing_gate in *.
  unfold with_slot, releaseDiscSlot, handle_dvd, handle_scanned, handleBluRay. cbv zeta. pres_solve.
Qed.
End keeps.

Lemma pres_ask_bind {A B} e I (f : Env → A) (k : A → M B) : pres e I (k (f e)) → pres e I (mbind (ask f) k).
Proof. intros H w Hw. apply (H w Hw). Qed.

Section alone.
Context {U : Unicode} (e : Env) (js : list jobRow) `{!undisturbed e} (Hkeep : keeps_records e).

(** Every disc that this run can meet is on record, and the jobs are as they were. *)
Definition all_on_record (s : Store) : Prop := (∀ fp, scanned e fp → on_record fp s) ∧ jobs s = js.

#[local] Instance stable_all : Stable e all_on_record.
Proof.
  intros n s [Hs Hj]. split.
  - intros fp Hfp. pose proof (Hkeep fp Hfp). by apply stable_on_record, Hs.
  - revert Hj. apply (stable_ops e (λ s, jobs s = js)). intros k op s' Hop <-.
    apply background_jobs. exact (only_background k op Hop).
Qed.

Notation alone m := (pres e (λ w, all_on_record (w_store w)) m).

Lemma existing_gate_alone fp dup new : scanned e fp → alone (existing_gate fp dup new).
Proof.
  intros Hs w Hw. pose proof (Hkeep fp Hs). apply (existing_gate_stops e fp all_on_record dup new w). split; [by apply Hw|done].
Qed.

Lemma with_slot_alone : alone (with_slot handleBluRay).
Proof.
  assert (frame e (λ s s', s' = s) (λ w, all_on_record (w_store w))) as F by (apply (frame_store e _ all_on_record); by intros s s' ->).
  pose proof (λ j m, pres_store_fail e all_on_record j m).
  assert (∀ f, (∀ w, w_store (f w) = w_store w) → alone (with_world f)) as Hww.
  { intros f Hf w Hw. simpl. by rewrite Hf. }
  assert (∀ d raw, scanned e (d_Fingerprint d) → alone (handle_scanned d raw)) as Hsc.
  { intros d raw Hs. pose proof (λ dup, existing_gate_alone (d_Fingerprint d) dup (handle_new d raw) Hs).
    unfold existing_gate in *. unfold handle_scanned. pres_solve. }
  assert (alone handle_dvd) as Hdvd.
  { unfold handle_dvd. apply pres_bind; [pres_solve|intros]. apply pres_bind; [pres_solve|intros].
    apply (post_bind e (λ w, all_on_record (w_store w)) _ _
      (λ r w, match r with Ok sc => scanned e (d_Fingerprint (sc_Disc sc)) | Err _ => True end ∧ all_on_record (w_store w))
      (λ _ w, all_on_record (w_store w))).
    { intros w Hw. split; [|by apply (pres_scanDisc _ _ _ F)]. unfold scanDisc, mbind, ask. by apply scan_loop_scanned. }
    intros [sc|err]; apply post_pull; intros Hs; apply (post_pres e (λ w, all_on_record (w_store w)));
      [specialize (Hsc _ (sc_Raw sc) Hs)|]; pres_solve. }
  assert (alone handleBluRay) as Hbd.
  { unfold handleBluRay. do 4 (apply pres_bind; [pres_solve|intros]).
    apply (post_bind e (λ w, all_on_record (w_store w)) _ _
      (λ r w, match r with Ok p => ∃ n src, enc_Probe e n src = Ok p | Err _ => True end ∧ all_on_record (w_store w))
      (λ _ w, all_on_record (w_store w))).
    { intros w Hw. split; [|by apply stable]. simpl. destruct (enc_Probe _ _ _) eqn:E; eauto. }
    intros [p|err]; apply post_pull; intros Hp; apply (post_pres e (λ w, all_on_record (w_store w))); [|pres_solve].
    destruct Hp as (n & psrc & Hp). destruct (_ <=? 0); [pres_solve|]. do 2 apply pres_ask_bind. cbv zeta.
    match goal with |- context [set_disc _ (d_Fingerprint ?x)] => set (d := x) end.
    assert (scanned e (d_Fingerprint d)) as Hs by (right; exists n, psrc, p; eauto).
    pose proof (λ dup new, existing_gate_alone (d_Fingerprint d) dup new Hs) as Hg. unfold existing_gate in Hg.
    do 2 (apply pres_bind; [pres_solve|intros]). apply Hg. }
  unfold with_slot, releaseDiscSlot. pres_solve.
Qed.
End alone.

(** C23: A disc that was ripped is not ripped again.  When every disc that a drive
    can turn out to hold is recorded as ripped, and none is forgotten,
    processing it opens no job and changes none: whatever the drive answers
    and the tools do, nothing is read off the disc but its description.  It
    stays recorded. *)
Theorem ripped_disc_is_left_alone `{Unicode} e w :
  undisturbed e → keeps_records e → store_wf (w_store w) → (∀ fp, scanned e fp → recorded fp (w_store w)) →
  let w' := (with_slot handleBluRay e w).2 in
  jobs (w_store w') = jobs (w_store w) ∧ ∀ fp, scanned e fp → recorded fp (w_store w').
Proof.
  intros Hu Hk Hwf Hs. destruct (with_slot_alone e (jobs (w_store w)) Hk w) as [Hr Hj].
  - split; [|done]. intros fp Hfp. split; [done|by apply Hs].
  - split; [exact Hj|]. intros fp Hfp. by apply Hr.
Qed.

Definition demo_again : World := set_store (SetDiscRipDir 1 "/rips/heat" (SaveDisc 2 demo_disc "raw" demo_store).2).2 demo_world.

Lemma demo_scanned fp : @scanned caseless demo_good fp → fp = "abcd1234abcd1234".
Proof.
  intros [(n & src & r & Hr & <-)|(n & src & p & lab & Hp & _)]; [|discriminate Hp].
  cbn [mk_Scan demo_good demo_env demo_env_db] in Hr. destruct (n <? 4)%nat; [discriminate Hr|]. by injection Hr as <-.
Qed.

Lemma ripped_disc_is_left_alone_witness :
  jobs (w_store (@with_slot caseless (@handleBluRay caseless) demo_good demo_again).2) = [] ∧
  ejects (@with_slot caseless (@handleBluRay caseless) demo_good demo_again).2 = [EjectCall true].
Proof.
  split; [|vm_compute; reflexivity].
  refine (proj1 (@ripped_disc_is_left_alone caseless demo_good demo_again (demo_undisturbed _ _ _) demo_keeps_records _ _)).
  - apply keeps_snd; [auto with hellbox|]. apply keeps_snd; [auto with hellbox|]. exact demo_store_wf.
  - intros fp ->%demo_scanned. eexists. split; vm_compute; reflexivity.
Defined.
