(* ===== verification/Slot.v ===== *)
(** * The slot the drives share (internal/daemon/worker.go, daemon.go)

    Every drive's worker runs on its own; handleDisc takes the daemon's disc
    slot, a channel with room for one, before touching its disc, and a deferred
    call gives it back.  The workers' moves interleave freely. *)

From S2P Require Import Prelude.
From Stdlib Require Import Relations.

(** make(chan struct{}, 1), by how many values are in it. *)
Definition discSlotCap : nat := 1.
(** A send that does not block, and a receive that does not block. *)
Definition slot_send (n : nat) : option nat := if (n <? discSlotCap)%nat then Some (S n) else None.
Definition slot_recv (n : nat) : nat := pred n.

(** Where a worker is in handleDisc: outside, in the wait of takeDiscSlot, or past it. *)
Inductive phase := Outside | Waiting | Working.
#[global] Instance phase_eq_dec : EqDecision phase.
Proof. solve_decision. Defined.

Record Slots := mkSlots { sl_held : nat; sl_phase : gmap nat phase }.

Inductive slot_step : Slots → Slots → Prop :=
| take_at_once d n n' ph : ph !! d = Some Outside → slot_send n = Some n' →
    slot_step (mkSlots n ph) (mkSlots n' (<[d := Working]> ph))
| start_waiting d n ph : ph !! d = Some Outside → slot_send n = None →
    slot_step (mkSlots n ph) (mkSlots n (<[d := Waiting]> ph))
| take_after_wait d n n' ph : ph !! d = Some Waiting → slot_send n = Some n' →
    slot_step (mkSlots n ph) (mkSlots n' (<[d := Working]> ph))
(** ctx.Done() wins: handleDisc returns before the release is deferred. *)
| stop_waiting d n ph : ph !! d = Some Waiting →
    slot_step (mkSlots n ph) (mkSlots n (<[d := Outside]> ph))
| release d n ph : ph !! d = Some Working →
    slot_step (mkSlots n ph) (mkSlots (slot_recv n) (<[d := Outside]> ph)).

Definition slots_start (s : Slots) : Prop := sl_held s = 0%nat ∧ map_Forall (λ _ p, p = Outside) (sl_phase s).
Definition slots_reachable (s : Slots) : Prop := ∃ s0, slots_start s0 ∧ rtc slot_step s0 s.

(** ** The channel holds a value exactly while one worker works *)

Definition works (s : Slots) (d : nat) : Prop := sl_phase s !! d = Some Working.

Definition slots_inv (s : Slots) : Prop :=
  (sl_held s = 0%nat ∧ ∀ d, ¬ works s d) ∨ (sl_held s = 1%nat ∧ ∃ d, works s d ∧ ∀ d', works s d' → d' = d).

Lemma works_insert n ph d p d' :
  works (mkSlots n (<[d := p]> ph)) d' ↔ (d' = d ∧ p = Working) ∨ (d' ≠ d ∧ ph !! d' = Some Working).
Proof.
  unfold works. cbn [sl_phase]. destruct (decide (d' = d)) as [->|Hd].
  - rewrite lookup_insert_eq. split; [intros [= ->]; auto|]. by intros [[_ ->]|[? _]].
  - rewrite lookup_insert_ne by done. split; [auto|]. by intros [[? _]|[_ ?]].
Qed.

Lemma slots_start_inv s : slots_start s → slots_inv s.
Proof. intros [H0 Hout]. left. split; [done|]. intros d Hd. by specialize (Hout d _ Hd). Qed.

Lemma slot_step_inv s s' : slot_step s s' → slots_inv s → slots_inv s'.
Proof.
  unfold slots_inv. destruct 1 as [d n n' ph Hd Hs|d n ph Hd Hs|d n n' ph Hd Hs|d n ph Hd|d n ph Hd]; cbn [sl_held].
  1,3: unfold slot_send, discSlotCap in Hs; destruct (Nat.ltb_spec n 1) as [Hn|]; [|done];
    assert (n = 0)%nat as -> by lia; injection Hs as <-;
    intros [[_ Hno]|[? _]]; [|done]; right; (split; [done|]); exists d; rewrite works_insert;
    (split; [by left|]); intros d'; rewrite works_insert; intros [[? _]|[_ Hw]]; [done|by destruct (Hno d')].
  1,2: intros [[-> Hno]|[-> (h & Hh & Huniq)]]; [left|right]; (split; [done|]);
    [intros d'; rewrite works_insert; intros [[_ ?]|[_ Hw]]; [done|by destruct (Hno d')]|];
    exists h; rewrite works_insert; (split; [right; split; [by intros ->; unfold works in Hh; cbn in Hh; congruence|done]|]);
    intros d'; rewrite works_insert; intros [[_ ?]|[_ Hw]]; [done|by apply Huniq].
  intros [[_ Hno]|[-> (h & Hh & Huniq)]]; [by destruct (Hno d)|]. left. split; [done|].
  intros d'. rewrite works_insert. intros [[_ ?]|[Hne Hw]]; [done|].
  apply Hne. by rewrite (Huniq d' Hw), (Huniq d Hd).
Qed.

Lemma slots_reachable_inv s : slots_reachable s → slots_inv s.
Proof.
  intros (s0 & Hs0 & Hr). apply slots_start_inv in Hs0. induction Hr as [|s1 s2 s3 Hstep _ IH]; [done|].
  apply IH. by eapply slot_step_inv.
Qed.

(** However the drives' workers interleave, at most one of them is past taking the slot; and
    the slot is never lost: when nobody works, a waiting worker can take it. *)
Theorem one_disc_at_a_time s :
  slots_reachable s →
  (∀ d d', works s d → works s d' → d = d') ∧
  ((∀ d, ¬ works s d) → ∀ d, sl_phase s !! d = Some Waiting → ∃ s', slot_step s s' ∧ works s' d).
Proof.
  intros Hr. destruct (slots_reachable_inv s Hr) as [[H0 Hno]|[H1 (h & Hh & Huniq)]]; destruct s as [n ph]; cbn in *; subst.
  - split; [intros d d' Hd; by destruct (Hno d)|]. intros _ d Hd. eexists. split; [by eapply take_after_wait|].
    rewrite works_insert. by left.
  - split; [intros d d' Hd Hd'; by rewrite (Huniq d), (Huniq d')|]. intros Hno. by destruct (Hno h).
Qed.

(** Two drives: the second waits for the first and then gets its turn. *)
Definition two_drives : Slots := mkSlots 1 {[1%nat := Working; 2%nat := Waiting]}.

Lemma one_disc_at_a_time_witness : works two_drives 1 ∧ ∀ d, works two_drives d → 1%nat = d.
Proof.
  split; [reflexivity|]. intros d Hd. apply (one_disc_at_a_time two_drives); [|reflexivity|exact Hd].
  exists (mkSlots 0 {[1%nat := Outside; 2%nat := Outside]}). split.
  - split; [reflexivity|]. by apply (bool_decide_unpack _).
  - eapply rtc_l; [apply (take_at_once 1 0 1); reflexivity|].
    eapply rtc_l; [apply (start_waiting 2 1); reflexivity|].
    match goal with |- rtc _ (mkSlots _ ?m) _ => replace m with (sl_phase two_drives) by (by apply (bool_decide_unpack _)) end.
    apply rtc_refl.
Defined.
