(* ===== verification/System.v ===== *)
(** * The daemon at work: every drive, the slot they share, and one database

    The workers of all drives, the server, the queue runner and the discovery
    of drives run at once (Run in internal/daemon/daemon.go starts them) and
    share the database and the disc slot.  A worker that holds the slot
    processes its disc ([with_slot], the part of handleDisc behind
    takeDiscSlot) while the others go on making background calls; being alone
    past the slot it meets nobody else's disc writes, which is why its run is
    one step here, with the calls of the others inside it.  The daemon may be
    killed at any point, which is a run whose calls of the database fail from
    there on, and started again.

    [daemon_keeps_cap]: no disc is attempted more often than configured, but for
    one attempt more each time the database fails at one call and works at the
    next; [unread_count_passes_cap] is such a time.
    [rips_outlive_everything]: a disc recorded as ripped stays so until
    somebody asks to forget it.  [idle_daemon_has_no_open_job]: with nobody
    cancelling, every job is settled when no drive is at work. *)

From Stdlib Require Import QArith_base Relations.
From S2P Require Import Prelude GoText GoBase MakeMkv Table Disc Store Queue StoreWf StoreDiscs Background Status Worker BluRay WorkerFrame WorkerSafety WorkerAttempts WorkerScan WorkerJobs WorkerKeeps Slot.
#[local] Open Scope Z_scope.

Record Sys := mkSys { sy_store : Store; sy_slots : Slots }.

(** What is taken for granted of a history: the surroundings in which discs are processed, the calls the
    others make, and whether the sweep at the start may fail. *)
Record Rules := mkRules { r_env : Env → Prop; r_op : store_op → Prop; r_unswept : Prop }.

Section system.
Context {U : Unicode} (R : Rules).

Inductive sys_step : Sys → Sys → Prop :=
(** A call of the server, the runner, the discovery of drives or the log. *)
| sys_background op st sl : background op = true → r_op R op → sys_step (mkSys st sl) (mkSys (run_op op st) sl)
(** A worker takes the slot, waits for it, or gives up waiting. *)
| sys_slot st sl sl' : slot_step sl sl' → (∀ d, works sl d → works sl' d) → sys_step (mkSys st sl) (mkSys st sl')
(** The worker that holds it processes its disc and gives it back. *)
| sys_disc d e w sl sl' : works sl d → slot_step sl sl' → ¬ works sl' d →
    undisturbed e → (∀ n op, op ∈ meanwhile e n → r_op R op) → r_env R e →
    sys_step (mkSys (w_store w) sl) (mkSys (w_store (with_slot handleBluRay e w).2) sl')
(** The daemon ends, at any point, and is started again; Run sweeps up the jobs that were left. *)
| sys_restart now st sl sl' : slots_start sl' → sys_step (mkSys st sl) (mkSys (ReclaimUnfinishedJobs now st).2 sl')
(** The same when the sweep fails, which is only logged. *)
| sys_restart_unswept st sl sl' : slots_start sl' → r_unswept R → sys_step (mkSys st sl) (mkSys st sl')
(** The runner starts. *)
| sys_runner st sl : sys_step (mkSys st sl) (mkSys (ReclaimRunningTranscodes st).2 sl).

Definition sys_start (s : Sys) : Prop := sy_store s = empty_store ∧ slots_start (sy_slots s).
Definition sys_reachable (s : Sys) : Prop := ∃ s0, sys_start s0 ∧ rtc sys_step s0 s.

(** What every move keeps of the database. *)
Lemma sys_keeps (K : Store → Prop) s s' :
  (∀ op st, background op = true → r_op R op → K st → K (run_op op st)) →
  (∀ e, undisturbed e → (∀ n op, op ∈ meanwhile e n → r_op R op) → r_env R e →
     pres e (λ w, K (w_store w)) (with_slot handleBluRay)) →
  (∀ now st, K st → K (ReclaimUnfinishedJobs now st).2) → (∀ st, K st → K (ReclaimRunningTranscodes st).2) →
  rtc sys_step s s' → K (sy_store s) → K (sy_store s').
Proof.
  intros Hop Hdisc Hjobs Hrun. induction 1 as [|s1 s2 s3 Hst _ IH]; [done|]. intros Hs. apply IH. clear IH.
  destruct Hst; cbn [sy_store] in *; auto. by apply Hdisc.
Qed.

(** The slot is used as Slot says, also over restarts. *)
Lemma sys_slots s s' : rtc sys_step s s' → slots_inv (sy_slots s) → slots_inv (sy_slots s').
Proof.
  induction 1 as [|s1 s2 s3 Hst _ IH]; [done|]. intros Hs. apply IH. clear IH.
  destruct Hst; cbn [sy_slots] in *; try done; try (by apply slots_start_inv); by eapply slot_step_inv.
Qed.
End system.

(** ** The cap *)

Definition any_rules (max : Z) : Rules :=
  mkRules (λ e, lasting e ∧ MaxRipAttempts (cfg e) = max) (λ _, True) True.

Lemma reclaim_capped max now s : capped max s → capped max (ReclaimUnfinishedJobs now s).2.
Proof.
  intros [Hwf Hc]. split; [keeps_wf|]. intros i.
  destruct (ReclaimUnfinishedJobs_spec now s) as (s' & -> & _ & Ha & _). specialize (Ha i). rewrite attempts_eq in Ha.
  injection Ha as Ha. unfold attempts. cbn [snd]. rewrite Ha. etrans; [|apply (Hc i)]. apply count_where_le.
  by intros r _ [? _]%andb_true_iff.
Qed.

(** A history of the daemon, and how many of its discs were processed with a database that failed at one
    call and worked again at the next: anything may happen in these. *)
Definition unruly : Rules := mkRules (λ _, True) (λ _, True) True.
Inductive cap_history `{Unicode} (max : Z) : nat → Sys → Prop :=
| history_start s : sys_start s → cap_history max 0 s
| history_step k s s' : cap_history max k s → sys_step (any_rules max) s s' → cap_history max k s'
| history_fault k s s' : cap_history max k s → sys_step unruly s s' → cap_history max (S k) s'.

Lemma sys_step_capped `{Unicode} R m m' s s' : m ≤ m' →
  (∀ e w, undisturbed e → r_env R e → capped m (w_store w) → capped m' (w_store (with_slot handleBluRay e w).2)) →
  sys_step R s s' → capped m (sy_store s) → capped m' (sy_store s').
Proof.
  intros Hle Hdisc Hst Hs. assert (∀ st, capped m st → capped m' st) as Hmono by by apply capped_mono.
  destruct Hst; cbn [sy_store] in *.
  - apply Hmono. by apply background_capped.
  - by apply Hmono.
  - by apply Hdisc.
  - apply Hmono. by apply reclaim_capped.
  - by apply Hmono.
  - apply Hmono. destruct Hs as [Hwf Hc]. split; [keeps_wf|exact Hc].
Qed.

(** C5: No disc is attempted more often than configured, but for a database
    that fails for a moment.  From an empty database, over any history of all the
    drives, discs, requests, encodes, cancellations, failures of the tools,
    kills and restarts, in any order, the attempts counted against a disc exceed
    the configured number at most by the number of discs that were processed
    with a database that failed at one call and worked at the next, because an
    unreadable count is taken for zero; a database that stays away once it
    fails lets no attempt pass.  And there is never more than one drive at work. *)
Theorem daemon_keeps_cap `{Unicode} max k s :
  0 ≤ max → cap_history max k s →
  capped (max + Z.of_nat k) (sy_store s) ∧ ∀ d d', works (sy_slots s) d → works (sy_slots s) d' → d = d'.
Proof.
  intros Hmax Hh. assert (slots_inv (sy_slots s)) as Hsl.
  { induction Hh as [s [_ Hs]|k s s' _ IH Hst|k s s' _ IH Hst]; [by apply slots_start_inv|..]; eapply sys_slots; (apply rtc_once, Hst || exact IH). }
  split; [|by destruct Hsl as [[_ Hno]|[_ (h & _ & Hu)]]; intros d d' Hd Hd'; [destruct (Hno d)|rewrite (Hu d), (Hu d')]].
  clear Hsl. induction Hh as [s [-> _]|k s s' _ IH Hst|k s s' _ IH Hst].
  - split; [apply empty_store_wf|]. intros i. change (0 ≤ max + 0). lia.
  - eapply sys_step_capped; [reflexivity| |exact Hst|exact IH]. intros e w Hu [Hl Hm] Hc. apply with_slot_capped; [done..|lia|done].
  - replace (max + Z.of_nat (S k)) with (max + Z.of_nat k + 1) by lia.
    eapply sys_step_capped; [| |exact Hst|exact IH]; [lia|]. intros e w Hu _. by apply with_slot_slips.
Qed.

(** ** The record *)

(** Nobody asks to forget the disc. *)
Definition spared (fp : string) : Rules := mkRules (λ _, True) (λ op, op ≠ OpForgetDisc fp) True.

(** C6: A disc that was ripped stays ripped.  Whatever the drives, the people and
    the daemon do from then on, kills and restarts included, the disc stays
    recorded as ripped as long as nobody asks to forget it. *)
Theorem rips_outlive_everything `{Unicode} fp s s' :
  rtc (sys_step (spared fp)) s s' → store_wf (sy_store s) → recorded fp (sy_store s) → recorded fp (sy_store s').
Proof.
  intros Hr Hwf Hrec. enough (on_record fp (sy_store s')) as [_ ?] by done.
  eapply (sys_keeps (spared fp) (on_record fp)); [| | | |exact Hr|by split].
  - intros op st Hop Hne Hs. pose proof Hs as [Hwf' _].
    eapply on_record_FindDisc; [by apply run_op_wf|by apply background_FindDisc|exact Hs].
  - intros e Hu Hops _. assert (unforgotten e fp) as Hf by (intros n Hn; by apply (Hops n _ Hn)).
    by apply with_slot_keeps.
  - intros now st [Hw Hs]. split; [keeps_wf|]. by eapply recorded_discs.
  - intros st [Hw Hs]. split; [keeps_wf|]. by eapply recorded_discs.
Qed.

(** ** The jobs *)

(** Nobody cancels, the database works, and the daemon's first sweep too. *)
Definition untroubled_rules : Rules := mkRules untroubled (λ _, True) False.

(** C22: An idle daemon has no open job: between the discs every job has reached a verdict. *)
Theorem idle_daemon_has_no_open_job `{Unicode} s :
  sys_reachable untroubled_rules s → all_settled (sy_store s).
Proof.
  intros (s0 & [H0 _] & Hr). eapply (sys_keeps untroubled_rules all_settled); [| | | |exact Hr|rewrite H0; by constructor].
  - intros op st Hop _ Hs. unfold all_settled. by rewrite background_jobs.
  - intros e Hu _ [Hc Hdb]. by apply with_slot_settles.
  - intros now st _. destruct (ReclaimUnfinishedJobs_spec now st) as (s' & -> & Hs & _). exact Hs.
  - intros st Hs. exact Hs.
Qed.

(** ** A short history: a drive is found, its disc is ripped, the daemon is restarted *)

Definition demo_slots (held : nat) (p : phase) : Slots := mkSlots held {[0%nat := p]}.
Definition demo_sys0 : Sys := mkSys empty_store (demo_slots 0 Outside).
Definition demo_ripped : Store := w_store (@with_slot caseless (@handleBluRay caseless) demo_good demo_world).2.
Definition demo_sys1 : Sys := mkSys demo_ripped (demo_slots 0 Outside).
Definition demo_sys2 : Sys := mkSys (ReclaimUnfinishedJobs 99 demo_ripped).2 (demo_slots 0 Outside).

Lemma demo_slots_start : slots_start (demo_slots 0 Outside).
Proof. split; [reflexivity|]. by apply (bool_decide_unpack _). Qed.

Lemma demo_takes : slot_step (demo_slots 0 Outside) (demo_slots 1 Working).
Proof.
  replace (demo_slots 1 Working) with (mkSlots 1 (<[0%nat := Working]> {[0%nat := Outside]}))
    by (unfold demo_slots; by rewrite insert_singleton_eq).
  apply take_at_once; reflexivity.
Qed.
Lemma demo_releases : slot_step (demo_slots 1 Working) (demo_slots 0 Outside).
Proof.
  replace (demo_slots 0 Outside) with (mkSlots (slot_recv 1) (<[0%nat := Outside]> {[0%nat := Working]}))
    by (unfold demo_slots; by rewrite insert_singleton_eq).
  apply release. reflexivity.
Qed.

Lemma demo_history (R : Rules) : r_env R demo_good → (∀ op, r_op R op) → rtc (@sys_step caseless R) demo_sys0 demo_sys1.
Proof.
  intros He Hop.
  assert (@sys_step caseless R demo_sys0 (mkSys demo_store (demo_slots 0 Outside))) as H1.
  { apply (sys_background R (OpUpsertDrive 1 "usb-1" "/dev/sr0" "left" "BW-16")); [done|by apply Hop]. }
  assert (@sys_step caseless R (mkSys demo_store (demo_slots 0 Outside)) (mkSys demo_store (demo_slots 1 Working))) as H2.
  { apply sys_slot; [exact demo_takes|]. intros d. unfold works. cbn.
    destruct (decide (d = 0%nat)) as [->|Hd]; [done|]. by rewrite !lookup_singleton_ne. }
  assert (@sys_step caseless R (mkSys (w_store demo_world) (demo_slots 1 Working)) demo_sys1) as H3.
  { unfold demo_sys1, demo_ripped. apply (sys_disc R 0%nat); [reflexivity|exact demo_releases|done|apply demo_undisturbed|by intros|exact He]. }
  eapply rtc_l; [exact H1|]. eapply rtc_l; [exact H2|]. eapply rtc_l; [exact H3|apply rtc_refl].
Qed.

(** The same disc, which the drive cannot read, put in three times: the third time it is refused, but
    not when the count of its attempts cannot be read. *)
Definition unread : outcome goerr RipResult := Err (errorf "read error").
Definition put_in (e : Env) (s : Store) : Store :=
  w_store (@with_slot caseless (@handleBluRay caseless) e (set_store s demo_world)).2.
Definition twice_failed : Store := Nat.iter 2 (put_in (demo_env None unread (Ok tt))) demo_store.
(** The call that counts the attempts fails. *)
Definition momentary : Env := demo_env_db (λ n, (n =? 7)%nat) None unread (Ok tt).

(** a database that fails for a moment lets a disc pass the cap. *)
Theorem unread_count_passes_cap :
  MaxRipAttempts (cfg momentary) = 2 ∧ attempts 1 twice_failed = 2 ∧
  attempts 1 (put_in (demo_env None unread (Ok tt)) twice_failed) = 2 ∧ attempts 1 (put_in momentary twice_failed) = 3.
Proof. vm_compute. done. Qed.

Lemma demo_cap_history : @cap_history caseless 2 0 demo_sys1.
Proof.
  assert (@cap_history caseless 2 0 demo_sys0) as H0 by (constructor; split; [reflexivity|exact demo_slots_start]).
  assert (rtc (@sys_step caseless (any_rules 2)) demo_sys0 demo_sys1) as H by by apply demo_history.
  clear -H0 H. induction H as [|s1 s2 s3 Hst _ IH]; [done|]. apply IH. by eapply history_step.
Qed.

Lemma daemon_keeps_cap_witness :
  (capped 2 (sy_store demo_sys1) ∧ attempts 1 (sy_store demo_sys1) = 1) ∧
  capped 3 (sy_store demo_sys2).
Proof.
  split; [split; [|vm_compute; reflexivity]|].
  - refine (proj1 (@daemon_keeps_cap caseless 2 0 demo_sys1 _ demo_cap_history)). lia.
  - refine (proj1 (@daemon_keeps_cap caseless 2 1 demo_sys2 _ _)); [lia|].
    eapply history_fault; [exact demo_cap_history|]. apply sys_restart. exact demo_slots_start.
Defined.

Lemma rips_outlive_everything_witness :
  recorded "abcd1234abcd1234" (sy_store demo_sys1) ∧ recorded "abcd1234abcd1234" (sy_store demo_sys2).
Proof.
  assert (recorded "abcd1234abcd1234" (sy_store demo_sys1)) as Hrec by (eexists; split; vm_compute; reflexivity).
  split; [exact Hrec|]. apply (@rips_outlive_everything caseless "abcd1234abcd1234" demo_sys1); [| |exact Hrec].
  - eapply rtc_l; [|apply rtc_refl]. apply sys_restart. exact demo_slots_start.
  - change demo_ripped with (w_store (with_slot handleBluRay demo_good demo_world).2).
    apply (with_slot_capped demo_good 2 (demo_undisturbed _ _ _)); [by intros n|done|].
    split; [exact demo_store_wf|]. intros i. unfold attempts, count_where. simpl. lia.
Defined.

Lemma idle_daemon_has_no_open_job_witness :
  all_settled (sy_store demo_sys1) ∧ map j_state (jobs (sy_store demo_sys1)) = [JobComplete].
Proof.
  split; [|vm_compute; reflexivity]. apply (@idle_daemon_has_no_open_job caseless).
  exists demo_sys0. split; [split; [reflexivity|exact demo_slots_start]|]. by apply demo_history.
Defined.
