(* ===== verification/Library.v ===== *)
(** * Filing into the library (internal/library/library.go)

    Telling a film disc from an episode disc by the shape of its titles, naming
    it, planning where each title goes, and the hardlink that puts it there.
    The code's float64 comparisons are on whole seconds against factors 2 and
    1/4, where they agree with the exact ones used here: doubling is exact, and
    the quotient differs from 1/4 by at least 1/(4 * 5400) when it differs. *)

From S2P Require Import Prelude GoText GoPath Disc.

Inductive Kind := KindMovie | KindTV | KindUnknown.
#[global] Instance Kind_eq_dec : EqDecision Kind.
Proof. solve_decision. Defined.

Definition featureRatio : Z := 2.
Definition minFeatureSecs : Z := 45 * 60.
(** episodeSpread = 1/4 *)
Definition episodeSpread_den : Z := 4.
Definition minEpisodeSecs : Z := 10 * 60.
Definition maxEpisodeSecs : Z := 90 * 60.

Definition longer_first (a b : Z) : Prop := b ≤ a.
#[global] Instance longer_first_dec : RelDecision longer_first.
Proof. intros a b. unfold longer_first. apply _. Defined.
#[global] Instance longer_first_total : Total longer_first.
Proof. intros a b. unfold longer_first. lia. Qed.
#[global] Instance longer_first_trans : Transitive longer_first.
Proof. intros a b c. unfold longer_first. lia. Qed.
#[global] Instance longer_first_antisymm : AntiSymm (=) longer_first.
Proof. intros a b. unfold longer_first. lia. Qed.

Definition withinSpread (value median : Z) : bool :=
  if median <=? 0 then false
  else (episodeSpread_den * (value - median) <=? median) && (- median <=? episodeSpread_den * (value - median)).

(** durations[len(durations)/2] *)
Definition median_of (durations : list Z) : Z := default 0 (durations !! (length durations / 2)%nat).

Definition looksLikeEpisodes (durations : list Z) : bool :=
  if (length durations <? 2)%nat then false
  else
    let median := median_of durations in
    if (median <? minEpisodeSecs) || (maxEpisodeSecs <? median) then false
    else
      let alike := length (List.filter (λ d, (minEpisodeSecs <=? d) && withinSpread d median) durations) in
      (2 <=? alike)%nat && (length durations <=? alike * 2)%nat.

Definition Classify (titles : list Title) : Kind :=
  let durations := merge_sort longer_first (map t_DurationSecs titles) in
  match durations with
  | [] => KindUnknown
  | longest :: rest =>
      if bool_decide (rest = []) then (if minFeatureSecs <=? longest then KindMovie else KindUnknown)
      else if looksLikeEpisodes rest then KindTV
      else if (minFeatureSecs <=? longest) && (featureRatio * median_of durations <=? longest) then KindMovie
      else if looksLikeEpisodes durations then KindTV
      else KindUnknown
  end.

(** ** Names *)

Definition formatMarkers : list string := ["lb"; "ws"; "fs"; "ps"].
Definition discMarkers : list string := ["disc"; "disk"; "dvd"; "side"].

Definition replace_seps (c : ascii) : ascii :=
  if byte_eqb "_"%char c || byte_eqb "."%char c || byte_eqb dash c then " "%char else c.

Section names.
Context {U : Unicode}.

Definition isNumberish (s : string) : bool :=
  let s := TrimSpace s in
  if bool_decide (s = "") then false
  else if is_ascii s then str_forall is_digit_byte s else u_all_digits s.

Definition titleCase (w : string) : string :=
  if bool_decide (w = "") then w
  else if (if is_ascii w then str_exists is_lower_byte w else u_has_lower w) then w
  else
    let r := ToLower w in
    if is_ascii r then match r with String c r' => String (upper_byte c) r' | EmptyString => r end
    else u_upper_first r.

(** The loop over the words, with the word before. *)
Fixpoint keep_words (prev : option string) (words : list string) : list string :=
  match words with
  | [] => []
  | w :: ws =>
      let lower := ToLower w in
      let after_marker := match prev with Some p => bool_decide (ToLower p ∈ discMarkers) | None => false end in
      if bool_decide (lower ∈ formatMarkers) || bool_decide (lower ∈ discMarkers) ||
         (isNumberish w && after_marker)
      then keep_words (Some w) ws
      else w :: keep_words (Some w) ws
  end.

Definition Name (volumeLabel : string) : string :=
  let s := TrimSpace volumeLabel in
  if bool_decide (s = "") then ""
  else
    let words := Fields (str_map replace_seps s) in
    let kept := keep_words None words in
    let kept := if bool_decide (kept = []) then words else kept in
    join " " (map titleCase kept).

(** ** Where titles go *)

Record Placement := mkPlacement {
  pl_TitleIndex : Z;
  pl_Path : string;
  pl_Feature : bool;
}.

Definition title_le (a b : Title) : Prop := t_Index a ≤ t_Index b.
#[global] Instance title_le_dec : RelDecision title_le.
Proof. intros a b. unfold title_le. apply _. Defined.
#[global] Instance title_le_total : Total title_le.
Proof. intros a b. unfold title_le. lia. Qed.
#[global] Instance title_le_trans : Transitive title_le.
Proof. intros a b c. unfold title_le. lia. Qed.

Fixpoint longest_from (best bestDur : Z) (titles : list Title) : Z :=
  match titles with
  | [] => best
  | t :: ts => if bestDur <? t_DurationSecs t then longest_from (t_Index t) (t_DurationSecs t) ts
               else longest_from best bestDur ts
  end.
Definition longestTitle (titles : list Title) : Z := longest_from (-1) (-1) titles.

Definition plan_name (d : Disc) : string :=
  let name := Name (d_VolumeLabel d) in
  if bool_decide (name = "") then "Unlabeled " +:+ Short (d_Fingerprint d) else name.

Definition movie_file (name : string) : string := name +:+ ".mkv".
Definition extra_file (name : string) (i : Z) : string := name +:+ (" - t" +:+ itoa02 i +:+ ".mkv").
Definition episode_file (name short : string) (i : Z) : string :=
  name +:+ (" - " +:+ short +:+ " - t" +:+ itoa02 i +:+ ".mkv").

Definition place (libraryDir : string) (d : Disc) (kind : Kind) (feature : Z) (t : Title) : Placement :=
  let name := plan_name d in
  match kind with
  | KindMovie =>
      if t_Index t =? feature
      then mkPlacement (t_Index t) (Join [libraryDir; "Movies"; name; movie_file name]) true
      else mkPlacement (t_Index t) (Join [libraryDir; "Movies"; name; "extras"; extra_file name (t_Index t)]) false
  | _ => mkPlacement (t_Index t)
           (Join [libraryDir; "TV"; name; episode_file name (Short (d_Fingerprint d)) (t_Index t)]) false
  end.

Definition Plan (libraryDir : string) (d : Disc) (kind : Kind) : list Placement :=
  let titles := merge_sort title_le (d_Titles d) in
  map (place libraryDir d kind (longestTitle titles)) titles.
End names.

(** ** The link *)

Inductive linkErr := ErrExists | LinkFailed (msg : string).
#[global] Instance linkErr_eq_dec : EqDecision linkErr.
Proof. solve_decision. Defined.

(** On the paths and the files they lead to; MkdirAll and the link itself can fail. *)
Definition Link {F} (mkdir_fault link_fault : option string) (src dst : string) (fs : gmap string F)
    : outcome linkErr (gmap string F) :=
  match mkdir_fault with
  | Some m => Err (LinkFailed ("create " +:+ Dir dst +:+ ": " +:+ m))
  | None =>
      match fs !! dst, fs !! src, link_fault with
      | Some _, _, _ => Err ErrExists
      | None, Some f, None => Ok (<[dst := f]> fs)
      | None, None, _ => Err (LinkFailed ("link " +:+ src +:+ " to " +:+ dst +:+ ": no such file or directory"))
      | None, Some _, Some m => Err (LinkFailed ("link " +:+ src +:+ " to " +:+ dst +:+ ": " +:+ m))
      end
  end.

(** ** Examples *)

Example name_holiday : @Name caseless "ROMAN_HOLIDAY_DISC_1" = "Roman Holiday". Proof. reflexivity. Qed.
Example name_balls : @Name caseless "SPACEBALLS_LB" = "Spaceballs". Proof. reflexivity. Qed.
Example name_only_disc : @Name caseless "DISC_1" = "Disc 1". Proof. reflexivity. Qed.

Definition of_length (i secs : Z) : Title := mkTitle i secs 0 0 "" 0 "" "" "" "" [] ∅.
(** A two-parter and two episodes; a feature listed twice among extras. *)
Example classify_star_trek : Classify [of_length 0 5400; of_length 1 2700; of_length 2 2710] = KindTV.
Proof. reflexivity. Qed.
Example classify_twice : Classify [of_length 0 7860; of_length 1 7860; of_length 2 300; of_length 3 200; of_length 4 120]
  = KindMovie.
Proof. reflexivity. Qed.

(** ** Classification looks at nothing but runtimes *)

(** What a disc is taken for depends only on its titles' runtimes, not on their order, names
    or sizes: any reordering of titles with the same runtimes is classified the same. *)
Theorem Classify_runtimes_only titles titles' :
  map t_DurationSecs titles ≡ₚ map t_DurationSecs titles' → Classify titles = Classify titles'.
Proof.
  intros Hp. unfold Classify.
  assert (merge_sort longer_first (map t_DurationSecs titles) = merge_sort longer_first (map t_DurationSecs titles'))
    as ->; [|done].
  apply (Sorted_unique longer_first); [apply (Sorted_merge_sort longer_first)..|]. by rewrite !merge_sort_Permutation.
Qed.

(** ** The feature of a film *)

Lemma longest_from_spec best bestDur ts :
  let i := longest_from best bestDur ts in
  (i = best ∧ Forall (λ t, t_DurationSecs t ≤ bestDur) ts) ∨
  (∃ pre t post, ts = pre ++ t :: post ∧ i = t_Index t ∧ bestDur < t_DurationSecs t ∧
     Forall (λ x, t_DurationSecs x < t_DurationSecs t) pre ∧ Forall (λ x, t_DurationSecs x ≤ t_DurationSecs t) post).
Proof.
  revert best bestDur; induction ts as [|t ts IH]; intros best bestDur; simpl; [by left|].
  destruct (Z.ltb_spec bestDur (t_DurationSecs t)) as [Hlt|Hle].
  - right. destruct (IH (t_Index t) (t_DurationSecs t)) as [[-> Hall]|(pre & x & post & -> & -> & Hx & Hpre & Hpost)].
    + by exists [], t, ts.
    + exists (t :: pre), x, post. split; [done|]. split; [done|]. split; [lia|]. split; [|done]. by constructor.
  - destruct (IH best bestDur) as [[-> Hall]|(pre & x & post & -> & -> & Hx & Hpre & Hpost)].
    + left. split; [done|]. by constructor.
    + right. exists (t :: pre), x, post. split; [done|]. split; [done|]. split; [lia|]. split; [|done].
      constructor; [lia|done].
Qed.

(** The lowest-numbered of the longest titles. *)
Definition is_feature (titles : list Title) (t : Title) : Prop :=
  t ∈ titles ∧ Forall (λ x, t_DurationSecs x ≤ t_DurationSecs t) titles ∧
  Forall (λ x, t_DurationSecs x = t_DurationSecs t → t_Index t ≤ t_Index x) titles.

Lemma longestTitle_spec titles :
  titles ≠ [] → Forall (λ t, 0 ≤ t_DurationSecs t) titles →
  ∃ t, is_feature titles t ∧ longestTitle (merge_sort title_le titles) = t_Index t.
Proof.
  intros Hne Hpos. set (ts := merge_sort title_le titles).
  assert (ts ≡ₚ titles) as Hp by apply merge_sort_Permutation.
  pose proof (StronglySorted_merge_sort title_le titles) as Hsort. fold ts in Hsort.
  unfold longestTitle.
  destruct (longest_from_spec (-1) (-1) ts) as [[_ Hall]|(pre & t & post & E & -> & _ & Hpre & Hpost)].
  - exfalso. destruct titles as [|t titles]; [done|]. apply Forall_cons in Hpos as [Ht _].
    rewrite Hp, Forall_cons in Hall. lia.
  - exists t. split; [|done]. unfold is_feature. rewrite <- Hp, E, !Forall_app, !Forall_cons.
    rewrite E in Hsort. apply StronglySorted_app in Hsort as (Hcross & _ & Hst).
    apply StronglySorted_cons in Hst as [Hge _]. split_and!; try done.
    + set_solver.
    + eapply Forall_impl; [exact Hpre|]. simpl. lia.
    + eapply Forall_impl; [exact Hpre|]. simpl. lia.
    + eapply Forall_impl; [exact Hge|]. by unfold title_le.
Qed.
