(* ===== verification/LibraryPlan.v ===== *)
(** * What a filing plan guarantees

    Every title is placed once, no two at the same path, all below the library
    directory whatever the volume label says, and a film has one feature. *)

From S2P Require Import Prelude GoText GoPath Sha256 Disc Library.

(** ** Labels lose their dots *)

Definition tame (c : ascii) : bool := is_ascii_byte c && negb (byte_eqb "."%char c).

Lemma str_map_forall (p q : ascii → bool) f s :
  (∀ c, p c = true → q (f c) = true) → str_forall p s = true → str_forall q (str_map f s) = true.
Proof.
  intros Hf. induction s as [|c s IH]; simpl; [done|]. intros [Hc Hs]%andb_true_iff.
  by rewrite (Hf c Hc), (IH Hs).
Qed.

Lemma join_forall q sep l :
  str_forall q sep = true → Forall (λ w, str_forall q w = true) l → str_forall q (join sep l) = true.
Proof.
  intros Hs. unfold join. induction 1 as [|w ws Hw Hws IH]; [done|]. destruct ws as [|w' ws]; [done|].
  change (String.concat sep (w :: w' :: ws)) with (w +:+ (sep +:+ String.concat sep (w' :: ws))).
  by rewrite !str_forall_app, Hw, Hs, IH.
Qed.

(** Mapping the case of a byte gives no dot and stays ASCII. *)
Lemma tame_lower c : tame c = true → tame (lower_byte c) = true.
Proof. by destruct c as [[] [] [] [] [] [] [] []]. Qed.
Lemma tame_upper c : tame c = true → tame (upper_byte c) = true.
Proof. by destruct c as [[] [] [] [] [] [] [] []]. Qed.
Lemma tame_replace c : is_ascii_byte c = true → tame (replace_seps c) = true.
Proof. by destruct c as [[] [] [] [] [] [] [] []]. Qed.
Lemma tame_ascii s : str_forall tame s = true → is_ascii s = true.
Proof. apply str_forall_impl. intros c. unfold tame. by intros [? _]%andb_true_iff. Qed.

Section names.
Context {U : Unicode}.

Lemma TrimSpace_ascii q s : is_ascii s = true → str_forall q s = true → str_forall q (TrimSpace s) = true.
Proof.
  intros Ha Hq. unfold TrimSpace.
  pose proof (trim_left_forall is_space_byte is_ascii_byte s Ha) as Hl.
  pose proof (trim_left_forall is_space_byte q s Hq) as Hlq.
  destruct (trim_left is_space_byte s) as [|c s1] eqn:E; [done|]. cbn [str_head].
  pose proof Hl as Hl'. cbn [str_forall] in Hl'. apply andb_true_iff in Hl' as [-> _].
  pose proof (trim_right_forall is_space_byte is_ascii_byte _ Hl) as Hr.
  pose proof (trim_right_forall is_space_byte q _ Hlq) as Hrq.
  destruct (str_last (trim_right is_space_byte (String c s1))) as [c'|] eqn:El; [|done].
  assert (is_ascii_byte c' = true) as ->; [|done].
  revert Hr El. generalize (trim_right is_space_byte (String c s1)). clear. intros s. 
  induction s as [|x s IH]; simpl; [done|]. intros [Hx Hs]%andb_true_iff. destruct s; [by intros [= <-]|by apply IH].
Qed.

Lemma titleCase_tame w : str_forall tame w = true → str_forall tame (titleCase w) = true.
Proof.
  intros Hw. pose proof (tame_ascii w Hw) as Ha. unfold titleCase, ToLower. rewrite Ha.
  case_bool_decide; [done|]. destruct (str_exists _ w); [done|].
  pose proof (str_map_forall tame tame lower_byte w tame_lower Hw) as Hl. rewrite (tame_ascii _ Hl).
  destruct (str_map lower_byte w) as [|c r]; [done|]. simpl in *. apply andb_true_iff in Hl as [Hc Hr].
  by rewrite (tame_upper c Hc), Hr.
Qed.

Lemma keep_words_sub prev ws : ∀ w, w ∈ keep_words prev ws → w ∈ ws.
Proof.
  revert prev; induction ws as [|x ws IH]; intros prev w; simpl; [done|].
  destruct (_ || _); [intros Hw; right; by eapply IH|].
  intros [->|Hw]%elem_of_cons; [by left|right; by eapply IH].
Qed.

Lemma Name_tame label : is_ascii label = true → str_forall tame (Name label) = true.
Proof.
  intros Ha. unfold Name. case_bool_decide; [done|].
  pose proof (TrimSpace_ascii is_ascii_byte label Ha Ha) as Ht.
  pose proof (str_map_forall is_ascii_byte tame replace_seps _ tame_replace Ht) as Hr.
  unfold Fields. rewrite (tame_ascii _ Hr). set (words := fields_ascii _).
  assert (Forall (λ w, str_forall tame w = true) words) as Hw.
  { unfold words, fields_ascii. apply Forall_filter_keep, split_at_forall, Hr. }
  apply join_forall; [done|]. apply Forall_map. apply Forall_forall. intros w Hin. apply titleCase_tame.
  rewrite Forall_forall in Hw. apply Hw. case_bool_decide; [done|]. by eapply keep_words_sub.
Qed.
End names.

(** ** Paths below a directory *)

(** [path] is [dir] followed by plain elements. *)
Definition below (dir path : string) : Prop :=
  ∃ es, es ≠ [] ∧ Forall (λ e, plain e ∧ slash_free e = true) es ∧ path = Clean dir +:+ "/" +:+ join "/" es.

Lemma split_on_app s t : split_on slash (s +:+ "/" +:+ t) = split_on slash s ++ split_on slash t.
Proof.
  change ("/" +:+ t) with (String slash t). unfold split_on.
  induction s as [|c s IH]; cbn [String.append split_at]; [done|].
  rewrite IH. destruct (byte_eqb slash c); [done|].
  by destruct (split_at_cons (byte_eqb slash) s) as (w & ws & ->).
Qed.

Lemma dotless_piece w : str_forall tame w = true → w = "" ∨ plain w.
Proof.
  intros Hw. destruct (decide (w = "")) as [|Hne]; [by left|right]. split; [done|].
  split; intros ->; by vm_compute in Hw.
Qed.

(** Elements that are empty or plain only deepen the path. *)
Lemma clean_plain r st es :
  Forall (λ e, e = "" ∨ plain e) es →
  foldl (clean_step r) st es = reverse (filter (λ e, e ≠ "") es) ++ st.
Proof.
  intros Hes. revert st; induction Hes as [|e es He _ IH]; intros st; [done|]. cbn [foldl]. rewrite IH.
  destruct He as [->|Hp].
  - rewrite filter_cons_False by (intros H; by apply H). done.
  - rewrite clean_step_plain by done. rewrite filter_cons_True by apply Hp. by rewrite reverse_cons, <- app_assoc.
Qed.

Lemma join_app_slash l k : l ≠ [] → k ≠ [] → join "/" (l ++ k) = join "/" l +:+ "/" +:+ join "/" k.
Proof.
  intros Hl. induction k as [|e k IH] using rev_ind; [done|]. intros _.
  destruct k as [|y k]; [by apply join_snoc_slash|]. rewrite app_assoc, join_snoc_slash, IH by (by destruct l).
  rewrite join_snoc_slash by done. by rewrite <- !str_app_assoc.
Qed.

Lemma clean_stack_nonempty s : Forall (λ e, e ≠ "") (clean_stack s).
Proof.
  unfold clean_stack. generalize (is_rooted s). intros r.
  assert (Forall (λ e, e ≠ "") (@nil string)) as Hn by constructor. revert Hn. generalize (@nil string).
  induction (split_on slash s) as [|e es IH]; intros st Hst; simpl; [done|]. apply IH.
  destruct (decide (e = "")) as [->|He]; [done|]. by apply clean_step_Forall.
Qed.

Lemma is_rooted_app dir t : dir ≠ "" → is_rooted (dir +:+ t) = is_rooted dir.
Proof. by destruct dir. Qed.

Lemma Clean_below dir rest :
  dir ≠ "" → clean_stack dir ≠ [] → Forall (λ e, e = "" ∨ plain e) (split_on slash rest) →
  filter (λ e, e ≠ "") (split_on slash rest) ≠ [] →
  Clean (dir +:+ "/" +:+ rest) = Clean dir +:+ "/" +:+ join "/" (filter (λ e, e ≠ "") (split_on slash rest)).
Proof.
  intros Hd Hst Hp Hne. set (es := filter _ _) in *.
  assert (clean_stack (dir +:+ "/" +:+ rest) = reverse es ++ clean_stack dir) as Hs.
  { unfold clean_stack at 1. rewrite split_on_app, foldl_app, is_rooted_app by done.
    fold (clean_stack dir). by apply clean_plain. }
  unfold Clean. rewrite Hs, reverse_app, reverse_involutive, is_rooted_app by done.
  assert (reverse (clean_stack dir) ≠ []) as Hr.
  { intros H. apply Hst. by rewrite <- (reverse_involutive (clean_stack dir)), H. }
  rewrite (join_app_slash (reverse (clean_stack dir)) es) by done.
  assert (join "/" (reverse (clean_stack dir)) ≠ "") as Hj.
  { apply join_nonempty; [done|]. apply Forall_reverse, clean_stack_nonempty. }
  destruct (is_rooted dir); [by rewrite <- str_app_assoc|].
  rewrite bool_decide_eq_false_2 by (by destruct (join "/" (reverse (clean_stack dir)))).
  by rewrite bool_decide_eq_false_2.
Qed.

(** ** The planned paths *)

Lemma split_app_suffix s suf :
  slash_free suf = true →
  ∃ init last, split_on slash s = init ++ [last] ∧ split_on slash (s +:+ suf) = init ++ [last +:+ suf].
Proof.
  intros Hs. unfold split_on. induction s as [|c s (init & last & E1 & E2)]; cbn [String.append split_at].
  - exists [], "". split; [done|]. by apply split_at_none.
  - rewrite E1, E2. destruct (byte_eqb slash c); [by exists ("" :: init), last|].
    destruct init as [|w init]; [by exists [], (String c last)|by exists (String c w :: init), last].
Qed.

Lemma suffix_plain last suf : 2 < len suf → plain (last +:+ suf).
Proof. intros Hl. apply plain_long. rewrite len_app. pose proof (len_nonneg last). lia. Qed.

(** The elements of a name followed by a file built on it. *)
Lemma file_pieces name suf :
  str_forall tame name = true → slash_free suf = true → 2 < len suf →
  ∃ init last, split_on slash (name +:+ suf) = init ++ [last +:+ suf] ∧
    split_on slash name = init ++ [last] ∧
    Forall (λ e, e = "" ∨ plain e) (split_on slash name) ∧
    Forall (λ e, e = "" ∨ plain e) (split_on slash (name +:+ suf)).
Proof.
  intros Hn Hs Hl. destruct (split_app_suffix name suf Hs) as (init & last & E1 & E2).
  assert (Forall (λ e, e = "" ∨ plain e) (split_on slash name)) as Hp.
  { eapply Forall_impl; [by apply (split_at_forall (byte_eqb slash) tame)|]. intros w. apply dotless_piece. }
  exists init, last. split; [done|]. split; [done|]. split; [done|].
  rewrite E2, E1 in *. apply Forall_app in Hp as [Hp _]. apply Forall_app. split; [done|].
  apply Forall_singleton. right. by apply suffix_plain.
Qed.

Lemma split_join_pieces l : l ≠ [] → split_on slash (join "/" l) = concat (map (split_on slash) l).
Proof.
  intros Hl. unfold join. induction l as [|x l IH]; [done|]. destruct l as [|y l]; [simpl; by rewrite app_nil_r|].
  change (String.concat "/" (x :: y :: l)) with (x +:+ "/" +:+ String.concat "/" (y :: l)).
  rewrite split_on_app, IH by done. done.
Qed.

Lemma tame_pieces s : str_forall tame s = true →
  Forall (λ e, e = "" ∨ plain e) (split_on slash s).
Proof.
  intros Hs. eapply Forall_impl; [by apply (split_at_forall (byte_eqb slash) tame)|]. intros w. apply dotless_piece.
Qed.

(** A path under the library, through directories without dots, to a file built on a name. *)
Lemma planned_path lib mids name suf :
  lib ≠ "" → clean_stack lib ≠ [] → mids ≠ [] → Forall (λ m, m ≠ "" ∧ str_forall tame m = true) mids →
  str_forall tame name = true → slash_free suf = true → 2 < len suf →
  ∃ es, Forall (λ e, plain e ∧ slash_free e = true) es ∧
    let last := List.last (split_on slash name) "" +:+ suf in
    Join ([lib] ++ mids ++ [name +:+ suf]) = Clean lib +:+ "/" +:+ join "/" (es ++ [last]) ∧
    plain last ∧ slash_free last = true.
Proof.
  intros Hlib Hst Hmids Hmp Hn Hs Hl.
  destruct (file_pieces name suf Hn Hs Hl) as (init & last & E2 & E1 & Hpn & Hpf).
  pose proof (split_on_slash_free name) as Hf. rewrite E1, Forall_app in Hf. destruct Hf as [Hsi Hsl].
  apply Forall_cons in Hsl as [Hsl _]. set (pieces := concat (map (split_on slash) mids) ++ init).
  assert (Forall (λ e, (e = "" ∨ plain e) ∧ slash_free e = true) pieces) as Hpieces.
  { unfold pieces. apply Forall_app. split.
    - apply Forall_concat, Forall_map. eapply Forall_impl; [exact Hmp|]. intros m [_ Hm].
      apply Forall_and. split; [by apply tame_pieces|apply split_on_slash_free].
    - apply Forall_and. split; [|done]. rewrite E1, Forall_app in Hpn. by destruct Hpn. }
  set (es := filter (λ e, e ≠ "") pieces). exists es. rewrite E1, last_last. cbv zeta.
  assert (plain (last +:+ suf)) as Hplast by by apply suffix_plain.
  split; [|split; [|split; [done|]]].
  - apply Forall_forall. intros e [He Hin]%list_elem_of_filter. rewrite Forall_forall in Hpieces.
    destruct (Hpieces e Hin) as [[?|?] ?]; done.
  - assert (name +:+ suf ≠ "") as Hfne by (apply append_not_empty; by intros ->).
    unfold Join. rewrite filter_all.
    2: { apply Forall_app. split; [by apply Forall_singleton|]. apply Forall_app. split; [|by apply Forall_singleton].
         eapply Forall_impl; [exact Hmp|]. by intros e [? _]. }
    cbn [app]. change (join "/" (lib :: mids ++ [name +:+ suf])) with (String.concat "/" (lib :: mids ++ [name +:+ suf])).
    assert (String.concat "/" (lib :: mids ++ [name +:+ suf]) = lib +:+ "/" +:+ join "/" (mids ++ [name +:+ suf])) as ->
      by by destruct mids.
    assert (split_on slash (join "/" (mids ++ [name +:+ suf])) = pieces ++ [last +:+ suf]) as Hsp.
    { rewrite split_join_pieces by (by destruct mids). rewrite map_app, concat_app. cbn [map concat].
      rewrite E2, app_nil_r. unfold pieces. by rewrite <- app_assoc. }
    assert (filter (λ e, e ≠ "") (pieces ++ [last +:+ suf]) = es ++ [last +:+ suf]) as Hfl.
    { rewrite filter_app. f_equal. apply filter_all, Forall_singleton, Hplast. }
    rewrite Clean_below; [by rewrite Hsp, Hfl|done|done| |].
    + rewrite Hsp. apply Forall_app. split; [eapply Forall_impl; [exact Hpieces|]; by intros e [? _]|].
      apply Forall_singleton. by right.
    + rewrite Hsp, Hfl. by destruct es.
  - unfold slash_free in *. by rewrite str_forall_app, Hsl, Hs.
Qed.

Section plan.
Context {U : Unicode}.
Context (lib : string) (d : Disc).
Hypothesis Hlib : lib ≠ "".
Hypothesis Hroot : clean_stack lib ≠ [].
Hypothesis Hlabel : is_ascii (d_VolumeLabel d) = true.
Hypothesis Hfp : str_forall is_hex_byte (d_Fingerprint d) = true.

Lemma hex_tame c : is_hex_byte c = true → tame c = true.
Proof. by destruct c as [[] [] [] [] [] [] [] []]. Qed.
Lemma hex_slash_free c : is_hex_byte c = true → negb (byte_eqb slash c) = true.
Proof. by destruct c as [[] [] [] [] [] [] [] []]. Qed.

Lemma Short_forall p : (∀ c, is_hex_byte c = true → p c = true) → str_forall p (Short (d_Fingerprint d)) = true.
Proof.
  intros Hp. eapply str_forall_impl; [exact Hp|]. unfold Short. destruct (_ <? 12); [done|]. by apply str_take_forall.
Qed.

Lemma plan_name_tame : str_forall tame (plan_name d) = true ∧ plan_name d ≠ "".
Proof.
  unfold plan_name. case_bool_decide; [|split; [by apply Name_tame|done]].
  split; [|done]. rewrite str_forall_app. by rewrite (Short_forall tame hex_tame).
Qed.

(** The suffix a title's file adds to the name. *)
Definition suffix (kind : Kind) (feature : Z) (t : Title) : string :=
  match kind with
  | KindMovie => if t_Index t =? feature then ".mkv" else " - t" +:+ itoa02 (t_Index t) +:+ ".mkv"
  | _ => " - " +:+ Short (d_Fingerprint d) +:+ " - t" +:+ itoa02 (t_Index t) +:+ ".mkv"
  end.
Definition mids (kind : Kind) (feature : Z) (t : Title) : list string :=
  match kind with
  | KindMovie => if t_Index t =? feature then ["Movies"; plan_name d] else ["Movies"; plan_name d; "extras"]
  | _ => ["TV"; plan_name d]
  end.

Lemma place_path kind feature t :
  pl_Path (place lib d kind feature t) = Join ([lib] ++ mids kind feature t ++ [plan_name d +:+ suffix kind feature t]).
Proof. unfold place, mids, suffix. destruct kind; [destruct (_ =? _)|..]; done. Qed.

Lemma itoa02_slash_free i : slash_free (itoa02 i) = true.
Proof. unfold itoa02, slash_free. destruct (_ && _); simpl; by rewrite (numeral_no slash). Qed.

Lemma suffix_ok kind feature t : slash_free (suffix kind feature t) = true ∧ 2 < len (suffix kind feature t).
Proof.
  assert (slash_free (Short (d_Fingerprint d)) = true) as Hs by by apply Short_forall, hex_slash_free.
  pose proof (itoa02_slash_free (t_Index t)) as Hi. unfold suffix, slash_free in *.
  pose proof (len_nonneg (itoa02 (t_Index t))). pose proof (len_nonneg (Short (d_Fingerprint d))).
  destruct kind; [destruct (_ =? _)|..]; rewrite ?str_forall_app, ?Hs, ?Hi; (split; [done|]);
    rewrite ?len_app; change (len ".mkv") with 4; change (len " - ") with 3; change (len " - t") with 4; lia.
Qed.

Lemma place_decomposed kind feature t :
  ∃ es, Forall (λ e, plain e ∧ slash_free e = true) es ∧
    let last := List.last (split_on slash (plan_name d)) "" +:+ suffix kind feature t in
    pl_Path (place lib d kind feature t) = Clean lib +:+ "/" +:+ join "/" (es ++ [last]) ∧
    plain last ∧ slash_free last = true.
Proof.
  rewrite place_path. destruct plan_name_tame as [Ht Hne]. destruct (suffix_ok kind feature t) as [Hs Hl].
  apply planned_path; try done.
  - unfold mids. by destruct kind; [destruct (_ =? _)|..].
  - unfold mids. destruct kind; [destruct (_ =? _)|..]; repeat constructor; done.
Qed.

Lemma itoa02_mkv_inj i j : 0 ≤ i → 0 ≤ j → itoa02 i +:+ ".mkv" = itoa02 j +:+ ".mkv" → i = j.
Proof.
  intros Hi Hj E. apply itoa02_inj; try done.
  assert (∀ n, str_forall (λ x, negb (byte_eqb "."%char x)) (itoa02 n) = true) as Hd.
  { intros n. unfold itoa02. destruct (_ && _); simpl; rewrite (numeral_no "."%char); done. }
  destruct (str_app_sep_inj "."%char (itoa02 i) (itoa02 j) "mkv" "mkv"); auto.
Qed.

Lemma suffix_inj kind feature t t' :
  0 ≤ t_Index t → 0 ≤ t_Index t' → suffix kind feature t = suffix kind feature t' → t_Index t = t_Index t'.
Proof.
  intros Ht Ht'. unfold suffix.
  destruct kind; [destruct (Z.eqb_spec (t_Index t) feature), (Z.eqb_spec (t_Index t') feature)|..].
  - congruence.
  - done.
  - done.
  - intros E. apply str_app_inv_head in E. by apply itoa02_mkv_inj.
  - intros E. apply str_app_inv_head in E. apply str_app_inv_head in E. apply str_app_inv_head in E.
    by apply itoa02_mkv_inj.
  - intros E. apply str_app_inv_head in E. apply str_app_inv_head in E. apply str_app_inv_head in E.
    by apply itoa02_mkv_inj.
Qed.

Lemma place_inj kind feature t t' :
  0 ≤ t_Index t → 0 ≤ t_Index t' →
  pl_Path (place lib d kind feature t) = pl_Path (place lib d kind feature t') → t_Index t = t_Index t'.
Proof.
  intros Ht Ht' E. destruct (place_decomposed kind feature t) as (es & Hes & Hp & _ & Hsl).
  destruct (place_decomposed kind feature t') as (es' & Hes' & Hp' & _ & Hsl').
  rewrite Hp, Hp' in E. apply str_app_inv_head in E. apply str_app_inv_head in E.
  assert (∀ l x, Forall (λ e, plain e ∧ slash_free e = true) l → slash_free x = true →
            Forall (λ e, slash_free e = true) (l ++ [x])) as Hsf.
  { intros l x Hl Hx. apply Forall_app. split; [|by apply Forall_singleton].
    eapply Forall_impl; [exact Hl|]. by intros e [_ ?]. }
  apply join_inj in E; [|by apply Hsf|by apply Hsf|by destruct es|by destruct es'].
  apply app_inj_tail in E as [_ E]. apply str_app_inv_head in E. by eapply suffix_inj.
Qed.
End plan.

(** ** The plan as a whole *)

Section whole.
Context {U : Unicode}.
Context (lib : string) (d : Disc).
Hypothesis Hlib : lib ≠ "".
Hypothesis Hroot : clean_stack lib ≠ [].
Hypothesis Hlabel : is_ascii (d_VolumeLabel d) = true.
Hypothesis Hfp : str_forall is_hex_byte (d_Fingerprint d) = true.

Lemma Plan_indices kind : map pl_TitleIndex (Plan lib d kind) ≡ₚ map t_Index (d_Titles d).
Proof.
  unfold Plan. rewrite map_map. set (f := longestTitle _).
  rewrite (map_ext _ t_Index) by (intros t; unfold place; destruct kind; [destruct (_ =? _)|..]; done).
  apply Permutation_map, merge_sort_Permutation.
Qed.

Lemma place_below kind feature t : below lib (pl_Path (place lib d kind feature t)).
Proof.
  destruct (place_decomposed lib d Hlib Hroot Hlabel Hfp kind feature t) as (es & Hes & Hp & Hpl & Hsl).
  exists (es ++ [List.last (split_on slash (plan_name d)) "" +:+ suffix d kind feature t]).
  split; [by destruct es|]. split; [|done]. apply Forall_app. split; [done|]. by apply Forall_singleton.
Qed.

Lemma places_NoDup kind feature ts :
  Forall (λ t, 0 ≤ t_Index t) ts → NoDup (map t_Index ts) →
  NoDup (map pl_Path (map (place lib d kind feature) ts)).
Proof.
  induction ts as [|t ts IH]; intros Hpos Hnd; cbn [map] in *; [constructor|].
  apply Forall_cons in Hpos as [Ht Hpos]. apply NoDup_cons in Hnd as [Hin Hnd].
  apply NoDup_cons. split; [|by apply IH]. rewrite map_map. intros (x & E & Hx)%list_elem_of_In%in_map_iff.
  rewrite Forall_forall in Hpos. apply Hin, list_elem_of_In, in_map_iff. exists x. split; [|done].
  symmetry. eapply (place_inj lib d Hlib Hroot Hlabel Hfp); [done| |by symmetry].
  by apply Hpos, list_elem_of_In.
Qed.
End whole.

(** A plan places every title of the disc exactly once, no two at the same path, and every
    path lies below the configured library directory through ordinary path elements, whatever the
    volume label says: a label with slashes or dots cannot climb out of the library. *)
Theorem Plan_paths `{Unicode} lib d kind :
  lib ≠ "" → clean_stack lib ≠ [] → is_ascii (d_VolumeLabel d) = true →
  str_forall is_hex_byte (d_Fingerprint d) = true →
  Forall (λ t, 0 ≤ t_Index t) (d_Titles d) → NoDup (map t_Index (d_Titles d)) →
  map pl_TitleIndex (Plan lib d kind) ≡ₚ map t_Index (d_Titles d) ∧
  NoDup (map pl_Path (Plan lib d kind)) ∧
  Forall (λ p, below lib (pl_Path p)) (Plan lib d kind).
Proof.
  intros Hlib Hroot Hl Hf Hpos Hnd. split; [by apply Plan_indices|]. unfold Plan.
  pose proof (merge_sort_Permutation title_le (d_Titles d)) as Hp. split.
  - apply places_NoDup; try done; by rewrite Hp.
  - apply Forall_map, Forall_forall. intros t _. by apply place_below.
Qed.

(** The plan of a film marks exactly one title as the feature: the longest, and of several
    equally long (a feature listed twice) the lowest-numbered. It alone gets the film's own file
    name; no title of an episode disc is a feature. *)
Theorem Plan_feature `{Unicode} lib d :
  d_Titles d ≠ [] → Forall (λ t, 0 ≤ t_DurationSecs t) (d_Titles d) →
  (∃ t, is_feature (d_Titles d) t ∧
    ∀ p, p ∈ Plan lib d KindMovie → pl_Feature p = true ↔ pl_TitleIndex p = t_Index t) ∧
  (∀ p, p ∈ Plan lib d KindMovie → pl_Feature p = true →
     pl_Path p = Join [lib; "Movies"; plan_name d; movie_file (plan_name d)]) ∧
  Forall (λ p, pl_Feature p = false) (Plan lib d KindTV).
Proof.
  intros Hne Hpos. destruct (longestTitle_spec _ Hne Hpos) as (t & Hft & E). unfold Plan. rewrite E.
  split_and!.
  - exists t. split; [done|]. intros p (x & -> & _)%list_elem_of_fmap. unfold place.
    destruct (Z.eqb_spec (t_Index x) (t_Index t)) as [Ex|Ex]; simpl; by rewrite ?Ex.
  - intros p (x & -> & _)%list_elem_of_fmap. unfold place. by destruct (_ =? _).
  - by apply Forall_map, Forall_forall.
Qed.

(** A film with its feature twice, and a label that tries to leave the library. *)
Definition demo_film : Disc :=
  mkDisc "0123456789abcdef" "../../ETC_DISC_2" "" TypeDVD 0 None "" "" ""
    [of_length 1 7860; of_length 0 7860; of_length 3 300].

Lemma Plan_paths_witness :
  map pl_Path (@Plan caseless "/srv/library" demo_film KindMovie) =
    ["/srv/library/Movies/ /etc/ /etc.mkv"; "/srv/library/Movies/ /etc/extras/ /etc - t01.mkv";
     "/srv/library/Movies/ /etc/extras/ /etc - t03.mkv"] ∧
  NoDup (map pl_Path (@Plan caseless "/srv/library" demo_film KindMovie)).
Proof.
  split; [vm_compute; reflexivity|].
  apply (@Plan_paths caseless "/srv/library" demo_film KindMovie);
    [done|by vm_compute|done|done|by repeat constructor|by apply (bool_decide_unpack _)].
Defined.

Lemma Plan_feature_witness : ∃ t, is_feature (d_Titles demo_film) t ∧
  ∀ p, p ∈ @Plan caseless "/srv/library" demo_film KindMovie → pl_Feature p = true ↔ pl_TitleIndex p = t_Index t.
Proof. apply (@Plan_feature caseless); [done|by repeat constructor]. Defined.
