(* ===== verification/Encoder.v ===== *)
(** * The encoder (internal/transcode/transcode.go, probe.go, select.go)

    What is read of an input, which of its streams are kept, the ffmpeg command
    line, progress, and the encode through a temporary name.  ffmpeg and ffprobe
    are parameters: what a process prints, what it writes to its output file as
    it runs, how it exits.  float64 values are exact fractions. *)

From Stdlib Require Import QArith_base.
From S2P Require Import Prelude GoText GoPath.
#[local] Open Scope Z_scope.

(** ** Streams and sources (probe.go) *)

Record Stream := mkStream {
  sm_Index : Z;
  sm_Kind : string;
  sm_Codec : string;
  sm_Channels : Z;
  sm_Language : string;
  sm_Title : string;
  sm_Default : bool;
}.
#[global] Instance Stream_eq_dec : EqDecision Stream.
Proof. solve_decision. Defined.

(** time.Duration: nanoseconds. *)
Definition Second : Z := 1000000000.

Record EncInput := mkEncInput {
  so_Duration : Z;
  so_Interlaced : bool;
  so_Width : Z;
  so_Height : Z;
  so_FieldOrder : string;
  so_Streams : list Stream;
}.
Definition noInput : EncInput := mkEncInput 0 false 0 0 "" [].

Definition losslessAudio : list string :=
  ["truehd"; "dts"; "flac"; "mlp"; "pcm_bluray"; "pcm_dvd"; "pcm_s16le"; "pcm_s24le"].
Definition interlacedOrders : list string := ["tt"; "bb"; "tb"; "bt"].

(** ffprobe's JSON, decoded. *)
Record ProbeStream := mkProbeStream {
  po_Index : Z;
  po_CodecType : string;
  po_CodecName : string;
  po_Width : Z;
  po_Height : Z;
  po_FieldOrder : string;
  po_Channels : Z;
  po_Language : string;
  po_Title : string;
  po_Default : Z;
}.
Record probeOutput := mkProbeOutput { po_Streams : list ProbeStream; po_Duration : string }.

(** ** The command line (transcode.go) *)

Record Encoder := mkEncoder { Bin : string; Device : string }.
Definition Hardware (e : Encoder) : bool := negb (bool_decide (Device e = "")).

Definition ProbeBin (e : Encoder) : string :=
  if has_suffix (Bin e) "ffmpeg" then TrimSuffix (Bin e) "ffmpeg" +:+ "ffprobe" else "ffprobe".

Definition New (bin device : string) : Encoder :=
  mkEncoder (if bool_decide (bin = "") then "ffmpeg" else bin) device.

Definition DefaultDevice : string := "/dev/dri/renderD128".
Definition ResolveDevice (present : bool) (configured : string) : string :=
  if negb (bool_decide (configured = "auto")) then configured
  else if present then DefaultDevice else "".

Record Profile := mkProfile {
  pf_Name : string;
  pf_Quality : Z;
  pf_Preset : string;
  pf_MaxKbps : Z;
  pf_Interlaced : bool;
  pf_MaxHeight : Z;
  pf_SourceHeight : Z;
  pf_Streams : list Stream;
  pf_Language : string;
  pf_AudioKbps : Z;
}.

Record Selection := mkSelection {
  sel_Maps : list string;
  sel_TranscodeAudio : bool;
  sel_Dropped : list string;
  sel_Kept : list string;
}.
Definition noSelection : Selection := mkSelection [] false [] [].

Definition filters (p : Profile) (hardware : bool) : string :=
  join ","
    ((if pf_Interlaced p then [if hardware then "deinterlace_vaapi=rate=field" else "yadif=mode=send_field"] else []) ++
     (if (0 <? pf_MaxHeight p) && (pf_MaxHeight p <? pf_SourceHeight p)
      then [if hardware then "scale_vaapi=w=-1:h=" +:+ itoa (pf_MaxHeight p) else "scale=-2:" +:+ itoa (pf_MaxHeight p)]
      else [])).

Definition quote : string := String (byte_of 34) "".
Definition map_arg (s : Stream) : string := "0:" +:+ itoa (sm_Index s).

Definition describe (kind : string) (s : Stream) : string :=
  join " " ([kind; sm_Codec s] ++
    (if 2 <? sm_Channels s then [itoa (sm_Channels s - 1) +:+ ".1"]
     else if 0 <? sm_Channels s then [itoa (sm_Channels s) +:+ "ch"] else []) ++
    (if bool_decide (sm_Language s = "") then [] else [sm_Language s]) ++
    (if bool_decide (sm_Title s = "") then [] else [quote +:+ sm_Title s +:+ quote])).

(** ** Choosing streams (select.go) *)

Definition commentaryWords : list string := ["comment"; "director"; "cast"; "crew"; "isolated score"].

Definition matching (streams : list Stream) (language : string) : list Stream :=
  List.filter (λ s, negb (bool_decide (sm_Language s = "")) &&
    (bool_decide (sm_Language s = language) || has_prefix language (sm_Language s) ||
     has_prefix (sm_Language s) language)) streams.

Definition filterByLanguage (streams : list Stream) (language : string) : list Stream :=
  if bool_decide (language = "") then streams
  else match matching streams language with [] => streams | m => m end.

Definition contains_index (streams : list Stream) (index : Z) : bool :=
  existsb (λ s, sm_Index s =? index) streams.

(** The loop over inLang[1:]. *)
Definition better (best s : Stream) : Stream :=
  if sm_Channels best <? sm_Channels s then s
  else if (sm_Channels s =? sm_Channels best) && sm_Default s && negb (sm_Default best) then s
  else best.

(** The loop's locals in Select. *)
Record SelectState := mkSelectState {
  ss_videoSeen : bool;
  ss_sel : Selection;
  ss_audio : list Stream;
  ss_subs : list Stream;
}.
Definition keep (kind : string) (s : Stream) (sel : Selection) : Selection :=
  mkSelection (sel_Maps sel ++ [map_arg s]) (sel_TranscodeAudio sel) (sel_Dropped sel)
    (sel_Kept sel ++ [describe kind s]).
Definition drop_stream (what : string) (sel : Selection) : Selection :=
  mkSelection (sel_Maps sel) (sel_TranscodeAudio sel) (sel_Dropped sel ++ [what]) (sel_Kept sel).
Definition set_TranscodeAudio (b : bool) (sel : Selection) : Selection :=
  mkSelection (sel_Maps sel) b (sel_Dropped sel) (sel_Kept sel).

Definition select_step (st : SelectState) (s : Stream) : SelectState :=
  if bool_decide (sm_Kind s = "video") then
    if negb (ss_videoSeen st) then mkSelectState true (keep "video" s (ss_sel st)) (ss_audio st) (ss_subs st)
    else mkSelectState true (drop_stream ("extra video stream " +:+ itoa (sm_Index s)) (ss_sel st)) (ss_audio st) (ss_subs st)
  else if bool_decide (sm_Kind s = "audio") then
    mkSelectState (ss_videoSeen st) (ss_sel st) (ss_audio st ++ [s]) (ss_subs st)
  else if bool_decide (sm_Kind s = "subtitle") then
    mkSelectState (ss_videoSeen st) (ss_sel st) (ss_audio st) (ss_subs st ++ [s])
  else st.

Section encoder.
Context {U : Unicode}.

Definition Lossless (s : Stream) : bool := bool_decide (ToLower (sm_Codec s) ∈ losslessAudio).

Definition isCommentary (s : Stream) : bool :=
  existsb (contains (ToLower (sm_Title s))) commentaryWords.

Definition audio_candidates (audio : list Stream) (language : string) : list Stream :=
  let feature := match List.filter (λ s, negb (isCommentary s)) audio with [] => audio | f => f end in
  if bool_decide (language = "") then feature
  else match matching feature language with [] => feature | m => m end.

Definition pickAudio (audio : list Stream) (language : string) : option Stream :=
  match audio_candidates audio language with
  | [] => None
  | best :: rest => Some (foldl better best rest)
  end.

Definition Select (streams : list Stream) (language : string) : Selection :=
  let language := ToLower (TrimSpace language) in
  let st := foldl select_step (mkSelectState false noSelection [] []) streams in
  let sel := ss_sel st in
  let sel :=
    match pickAudio (ss_audio st) language with
    | Some chosen =>
        let sel := set_TranscodeAudio (Lossless chosen) (keep "audio" chosen sel) in
        foldl (λ sel s, if sm_Index s =? sm_Index chosen then sel else drop_stream (describe "audio" s) sel)
          sel (ss_audio st)
    | None => sel
    end in
  let kept := filterByLanguage (ss_subs st) language in
  let sel := foldl (λ sel s, keep "subtitle" s sel) sel kept in
  foldl (λ sel s, if contains_index kept (sm_Index s) then sel else drop_stream (describe "subtitle" s) sel)
    sel (ss_subs st).

(** Probe, from what ffprobe printed: the error of running it or of reading its output, or the decoded output. *)
Definition probe_stream (st : ProbeStream) : Stream :=
  mkStream (po_Index st) (po_CodecType st) (po_CodecName st) (po_Channels st)
    (ToLower (TrimSpace (po_Language st))) (po_Title st) (negb (po_Default st =? 0)).

Definition Probe (out : outcome string probeOutput) : outcome string EncInput :=
  match out with
  | Err m => Err m
  | Ok p =>
      let duration :=
        match ParseFloat (TrimSpace (po_Duration p)) with
        | Some (n, d) => if 0 <? n then n * Second / d else 0
        | None => 0
        end in
      let streams := map probe_stream (po_Streams p) in
      Ok (match List.find (λ st, bool_decide (po_CodecType st = "video")) (po_Streams p) with
          | Some v => mkEncInput duration (bool_decide (ToLower (TrimSpace (po_FieldOrder v)) ∈ interlacedOrders))
                        (po_Width v) (po_Height v) (po_FieldOrder v) streams
          | None => mkEncInput duration false 0 0 "" streams
          end)
  end.

Definition selection (p : Profile) : Selection :=
  match pf_Streams p with [] => noSelection | _ => Select (pf_Streams p) (pf_Language p) end.

Definition args (e : Encoder) (src dst : string) (p : Profile) : list string :=
  let sel := selection p in
  ["-hide_banner"; "-nostdin"; "-y"] ++
  (if Hardware e then ["-hwaccel"; "vaapi"; "-hwaccel_device"; Device e; "-hwaccel_output_format"; "vaapi"] else []) ++
  ["-i"; src] ++
  (let vf := filters p (Hardware e) in if bool_decide (vf = "") then [] else ["-vf"; vf]) ++
  match sel_Maps sel with
  | [] => ["-map"; "0"; "-map"; "-0:d?"]
  | ms => mjoin (map (λ m, ["-map"; m]) ms)
  end ++
  ["-map_chapters"; "0"] ++
  (if sel_TranscodeAudio sel && (0 <? pf_AudioKbps p)
   then ["-c:a"; "ac3"; "-b:a"; itoa (pf_AudioKbps p) +:+ "k"] else ["-c:a"; "copy"]) ++
  ["-c:s"; "copy"] ++
  (if Hardware e then
     ["-c:v"; "h264_vaapi"] ++
     (if 0 <? pf_MaxKbps p
      then ["-rc_mode"; "QVBR"; "-global_quality"; itoa (pf_Quality p);
            "-b:v"; itoa ((pf_MaxKbps p * 4) `quot` 5) +:+ "k"; "-maxrate"; itoa (pf_MaxKbps p) +:+ "k"]
      else ["-qp"; itoa (pf_Quality p)])
   else
     ["-c:v"; "libx264"; "-crf"; itoa (pf_Quality p)] ++
     (if bool_decide (pf_Preset p = "") then [] else ["-preset"; pf_Preset p]) ++
     (if 0 <? pf_MaxKbps p
      then ["-maxrate"; itoa (pf_MaxKbps p) +:+ "k"; "-bufsize"; itoa (pf_MaxKbps p * 2) +:+ "k"] else [])) ++
  ["-f"; "matroska"] ++
  ["-progress"; "pipe:1"; "-nostats"; dst].
End encoder.

(** ** Progress *)

Record Progress := mkProg { pg_Fraction : Q; pg_Speed : Q }.
Definition noProgress : Progress := mkProg 0 0.

(** f clamped to [0, 1], for a positive duration. *)
Definition clamped (us srcDuration : Z) : Q :=
  let n := int64 (us * 1000) in
  if n <? 0 then 0%Q else if srcDuration <? n then 1%Q else n # Z.to_pos srcDuration.

Section progress.
Context {U : Unicode}.

Definition updateProgress (prog : Progress) (key value : string) (srcDuration : Z) : option Progress :=
  if bool_decide (key ∈ ["out_time_us"; "out_time_ms"]) then
    match Atoi value with
    | Some us => if srcDuration <=? 0 then None else Some (mkProg (clamped us srcDuration) (pg_Speed prog))
    | None => None
    end
  else if bool_decide (key = "speed") then
    match ParseFloat (TrimSuffix (TrimSpace value) "x") with
    | Some (n, d) => Some (mkProg (pg_Fraction prog) (n # Z.to_pos d))
    | None => None
    end
  else None.

(** strings.Cut at the first equals sign. *)
Fixpoint cut_eq (s : string) : option (string * string) :=
  match s with
  | EmptyString => None
  | String c s' =>
      if byte_eqb "="%char c then Some ("", s')
      else match cut_eq s' with Some (k, v) => Some (String c k, v) | None => None end
  end.

(** What is reported while ffmpeg prints [lines]. *)
Fixpoint scan_progress (prog : Progress) (srcDuration : Z) (lines : list string) : list Progress :=
  match lines with
  | [] => []
  | l :: ls =>
      match cut_eq (TrimSpace l) with
      | Some (key, value) =>
          match updateProgress prog key value srcDuration with
          | Some prog' => prog' :: scan_progress prog' srcDuration ls
          | None => scan_progress prog srcDuration ls
          end
      | None => scan_progress prog srcDuration ls
      end
  end.
End progress.

Definition lastLines (s : string) (n : nat) : string :=
  let lines := split_on newline (trim_right (byte_eqb newline) s) in
  join "; " (if (n <? length lines)%nat then drop (length lines - n) lines else lines).

(** ** The encode *)

(** A file: what its name leads to, and its size. *)
Record File := mkFile { f_inode : Z; f_size : Z }.
Notation FS := (gmap string File).

(** A run of ffmpeg: whether its pipe and process could be made, what it prints, the contents its
    output file goes through, how it exits. *)
Record FFmpeg := mkFFmpeg {
  ff_pipe : option string;
  ff_start : option string;
  ff_lines : list string;
  ff_writes : list File;
  ff_exit : option string;
  ff_stderr : string;
}.

Record Result := mkResult {
  res_Path : string;
  res_SizeBytes : Z;
  res_Hardware : bool;
  res_Raw : string;
  res_Streams : Selection;
}.

(** What the machine answers to one Transcode: MkdirAll, ffmpeg, whether the context was cancelled by
    the time ffmpeg ended, the rename. *)
Record EncodeEnv := mkEncodeEnv {
  ee_mkdir : option string;
  ee_ffmpeg : list string → FFmpeg;
  ee_cancelled : bool;
  ee_rename : option string;
}.

Definition part_path (dst : string) : string := Join [Dir dst; "." +:+ Base dst +:+ ".part"].

(** The file systems a growing output file leads through. *)
Definition written (tmp : string) (fs : FS) (ws : list File) : list FS := map (λ w, <[tmp := w]> fs) ws.

(** What was returned, what was reported, and every state of the file system, the last one first. *)
Record Encode := mkEncode {
  en_result : outcome string Result;
  en_progress : list Progress;
  en_states : list FS;
}.

Section transcode.
Context {U : Unicode}.

(** After ffmpeg has exited, with the states so far, the last one first. *)
Definition finish_encode (e : Encoder) (x : EncodeEnv) (dst : string) (p : Profile) (fs : FS) (states : list FS)
    (run : FFmpeg) : outcome string Result * list FS :=
  let tmp := part_path dst in
  match ff_exit run with
  | Some m =>
      (Err (if ee_cancelled x then "context canceled" else "ffmpeg: " +:+ m +:+ ": " +:+ lastLines (ff_stderr run) 3),
       delete tmp fs :: states)
  | None =>
      match fs !! tmp with
      | None => (Err "ffmpeg reported success but wrote no output: no such file or directory", delete tmp fs :: states)
      | Some f =>
          match ee_rename x with
          | Some m => (Err ("move the transcode into place: " +:+ m), delete tmp fs :: states)
          | None =>
              let fs' := <[dst := f]> (delete tmp fs) in
              (Ok (mkResult dst (f_size f) (Hardware e) (ff_stderr run) (selection p)), delete tmp fs' :: fs' :: states)
          end
      end
  end.

Definition Transcode (e : Encoder) (x : EncodeEnv) (src dst : string) (p : Profile) (srcDuration : Z) (fs : FS)
    : Encode :=
  match ee_mkdir x with
  | Some m => mkEncode (Err ("create " +:+ Dir dst +:+ ": " +:+ m)) [] [fs]
  | None =>
      let tmp := part_path dst in
      let run := ee_ffmpeg x (args e src tmp p) in
      match ff_pipe run, ff_start run with
      | Some m, _ => mkEncode (Err ("stdout pipe: " +:+ m)) [] [delete tmp fs; fs]
      | None, Some m => mkEncode (Err ("start " +:+ Bin e +:+ ": " +:+ m)) [] [delete tmp fs; fs]
      | None, None =>
          let states := reverse (written tmp fs (ff_writes run)) ++ [fs] in
          let '(r, states) := finish_encode e x dst p (default fs (head states)) states run in
          mkEncode r (scan_progress noProgress srcDuration (ff_lines run)) states
      end
  end.
End transcode.

(** ** Examples *)

Definition aud (i : Z) (codec lang title : string) (def : bool) (ch : Z) : Stream :=
  mkStream i "audio" codec ch lang title def.
Definition sub (i : Z) (codec lang : string) : Stream := mkStream i "subtitle" codec 0 lang "" false.
Definition vid (i : Z) : Stream := mkStream i "video" "h264" 0 "" "" false.

Example select_bluray :
  let sel := @Select caseless [vid 0; aud 1 "truehd" "eng" "" true 8; aud 2 "ac3" "eng" "" false 6;
                               aud 3 "dts" "fra" "" false 6; sub 4 "pgs" "eng"] "eng" in
  sel_Maps sel = ["0:0"; "0:1"; "0:4"] ∧ sel_TranscodeAudio sel = true ∧ length (sel_Dropped sel) = 2%nat.
Proof. by vm_compute. Qed.
Example select_commentary :
  sel_Maps (@Select caseless [vid 0; aud 1 "ac3" "eng" "Director's Commentary" true 2; aud 2 "ac3" "eng" "" false 6] "eng")
  = ["0:0"; "0:2"].
Proof. by vm_compute. Qed.
Example part_name : part_path "/out/disc/title_00.mkv" = "/out/disc/.title_00.mkv.part". Proof. reflexivity. Qed.
Example probe_bin : ProbeBin (New "/opt/bin/ffmpeg" "") = "/opt/bin/ffprobe". Proof. reflexivity. Qed.
