(* ===== verification/EncoderFacts.v ===== *)
(** * What the encoder guarantees

    Stream selection loses nothing silently and never picks a narrower or a
    commentary track over the feature's; progress is a fraction; an encode shows
    at its destination only when it is whole. *)

From Stdlib Require Import QArith_base.
From S2P Require Import Prelude GoText GoPath Encoder.
#[local] Open Scope Z_scope.

(** ** The loop of Select *)

Definition of_kind (kind : string) : list Stream → list Stream :=
  List.filter (λ s, bool_decide (sm_Kind s = kind)).

Definition extra_video (s : Stream) : string := "extra video stream " +:+ itoa (sm_Index s).

Lemma fold_keep kind l sel :
  foldl (λ sel s, keep kind s sel) sel l =
  mkSelection (sel_Maps sel ++ map map_arg l) (sel_TranscodeAudio sel) (sel_Dropped sel)
    (sel_Kept sel ++ map (describe kind) l).
Proof.
  revert sel; induction l as [|s l IH]; intros [ms ta dr ke]; cbn [foldl map]; [by rewrite !app_nil_r|].
  rewrite IH. cbn [keep sel_Maps sel_TranscodeAudio sel_Dropped sel_Kept]. by rewrite <- !app_assoc.
Qed.

Lemma fold_drop kind (skip : Stream → bool) l sel :
  foldl (λ sel s, if skip s then sel else drop_stream (describe kind s) sel) sel l =
  mkSelection (sel_Maps sel) (sel_TranscodeAudio sel)
    (sel_Dropped sel ++ map (describe kind) (List.filter (λ s, negb (skip s)) l)) (sel_Kept sel).
Proof.
  revert sel; induction l as [|s l IH]; intros [ms ta dr ke]; cbn [foldl List.filter]; [by rewrite !app_nil_r|].
  rewrite IH. destruct (skip s); cbn [negb map drop_stream sel_Maps sel_TranscodeAudio sel_Dropped sel_Kept]; [done|].
  by rewrite <- !app_assoc.
Qed.

Lemma select_loop streams st :
  foldl select_step st streams =
  let vs := of_kind "video" streams in
  let new := if ss_videoSeen st then [] else take 1 vs in
  let extra := if ss_videoSeen st then vs else drop 1 vs in
  mkSelectState (ss_videoSeen st || negb (bool_decide (vs = [])))
    (mkSelection (sel_Maps (ss_sel st) ++ map map_arg new) (sel_TranscodeAudio (ss_sel st))
       (sel_Dropped (ss_sel st) ++ map extra_video extra) (sel_Kept (ss_sel st) ++ map (describe "video") new))
    (ss_audio st ++ of_kind "audio" streams) (ss_subs st ++ of_kind "subtitle" streams).
Proof.
  unfold of_kind. revert st; induction streams as [|s streams IH]; intros [seen [ms ta dr ke] au su]; cbv zeta.
  - destruct seen; cbn; by rewrite !app_nil_r.
  - cbn [foldl List.filter]. rewrite IH. clear IH. cbv zeta. unfold select_step.
    cbn [ss_videoSeen ss_sel ss_audio ss_subs].
    destruct (decide (sm_Kind s = "video")) as [Ev|Hv].
    { rewrite Ev. cbn [bool_decide]. rewrite (bool_decide_eq_true_2 ("video" = "video")) by done.
      rewrite (bool_decide_eq_false_2 ("video" = "audio")), (bool_decide_eq_false_2 ("video" = "subtitle")) by done.
      destruct seen; cbn; rewrite ?app_nil_r, <- ?app_assoc; done. }
    rewrite (bool_decide_eq_false_2 (sm_Kind s = "video")) by done.
    destruct (decide (sm_Kind s = "audio")) as [Ea|Ha].
    { rewrite Ea. rewrite (bool_decide_eq_true_2 ("audio" = "audio")) by done.
      rewrite (bool_decide_eq_false_2 ("audio" = "subtitle")) by done.
      cbn [ss_videoSeen ss_sel ss_audio ss_subs]. by rewrite <- app_assoc. }
    rewrite (bool_decide_eq_false_2 (sm_Kind s = "audio")) by done.
    destruct (decide (sm_Kind s = "subtitle")) as [Es|Hs].
    { rewrite Es. rewrite (bool_decide_eq_true_2 ("subtitle" = "subtitle")) by done.
      cbn [ss_videoSeen ss_sel ss_audio ss_subs]. by rewrite <- app_assoc. }
    by rewrite (bool_decide_eq_false_2 (sm_Kind s = "subtitle")).
Qed.

Section selecting.
Context {U : Unicode}.

(** Select without its loops. *)
Lemma Select_closed streams language :
  let lang := ToLower (TrimSpace language) in
  let vs := of_kind "video" streams in
  let au := of_kind "audio" streams in
  let su := of_kind "subtitle" streams in
  let chosen := option_list (pickAudio au lang) in
  let kept := filterByLanguage su lang in
  Select streams language =
  mkSelection (map map_arg (take 1 vs ++ chosen ++ kept)) (existsb Lossless chosen)
    (map extra_video (drop 1 vs) ++
     map (describe "audio") (match chosen with [] => [] | c :: _ => List.filter (λ s, negb (sm_Index s =? sm_Index c)) au end) ++
     map (describe "subtitle") (List.filter (λ s, negb (contains_index kept (sm_Index s))) su))
    (map (describe "video") (take 1 vs) ++ map (describe "audio") chosen ++ map (describe "subtitle") kept).
Proof.
  cbv zeta. unfold Select. rewrite select_loop. cbv zeta.
  cbn [ss_videoSeen ss_sel ss_audio ss_subs sel_Maps sel_TranscodeAudio sel_Dropped sel_Kept noSelection app].
  rewrite (fold_drop "subtitle"), fold_keep.
  destruct (pickAudio _ _) as [c|].
  - change (option_list (Some c)) with [c]. cbn [existsb app]. rewrite (fold_drop "audio"). unfold keep, set_TranscodeAudio.
    cbn [sel_Maps sel_TranscodeAudio sel_Dropped sel_Kept]. by rewrite orb_false_r, !map_app, <- !app_assoc.
  - cbn [sel_Maps sel_TranscodeAudio sel_Dropped sel_Kept]. by rewrite !map_app.
Qed.

(** ** The audio picked *)

Lemma better_spec best s :
  (better best s = best ∨ better best s = s) ∧
  sm_Channels best ≤ sm_Channels (better best s) ∧ sm_Channels s ≤ sm_Channels (better best s) ∧
  (sm_Channels best = sm_Channels (better best s) → sm_Default best = true → sm_Default (better best s) = true) ∧
  (sm_Channels s = sm_Channels (better best s) → sm_Default s = true → sm_Default (better best s) = true).
Proof.
  unfold better. destruct (Z.ltb_spec (sm_Channels best) (sm_Channels s)); [split_and!; auto; lia|].
  destruct (Z.eqb_spec (sm_Channels s) (sm_Channels best)) as [E|E]; cbn [andb].
  - destruct (sm_Default s) eqn:Es, (sm_Default best) eqn:Eb; cbn; split_and!; auto; try lia; congruence.
  - split_and!; auto; try lia; congruence.
Qed.

(** At least as wide as every candidate, and flagged as default if an equally wide one is. *)
Definition widest (a : Stream) (l : list Stream) : Prop :=
  Forall (λ s, sm_Channels s ≤ sm_Channels a ∧
    (sm_Channels s = sm_Channels a → sm_Default s = true → sm_Default a = true)) l.

Lemma fold_better best rest : foldl better best rest ∈ best :: rest ∧ widest (foldl better best rest) (best :: rest).
Proof.
  unfold widest. revert best; induction rest as [|s rest IH]; intros best; cbn [foldl].
  - split; [by left|]. constructor; [split; [lia|done]|constructor].
  - destruct (IH (better best s)) as [Hin Hw]. apply Forall_cons in Hw as [[Hb Hbd] Hw].
    destruct (better_spec best s) as (Hor & H1 & H2 & H3 & H4). split.
    + apply elem_of_cons in Hin as [->|Hin]; [|set_solver]. destruct Hor as [->| ->]; set_solver.
    + apply Forall_cons. split; [split; [lia|]|]; [intros E D; apply Hbd; [lia|apply H3; [lia|done]]|].
      apply Forall_cons. split; [|done]. split; [lia|]. intros E D. apply Hbd; [lia|apply H4; [lia|done]].
Qed.

Definition in_language (lang : string) (s : Stream) : bool :=
  negb (bool_decide (sm_Language s = "")) &&
  (bool_decide (sm_Language s = lang) || has_prefix lang (sm_Language s) || has_prefix (sm_Language s) lang).

(** A filter that matches nothing is no filter. *)
Lemma filter_or_all {A} (p : A → bool) l a :
  a ∈ match List.filter p l with [] => l | f => f end →
  a ∈ l ∧ (p a = true ∨ Forall (λ x, p x = false) l) ∧
  ∀ b, b ∈ l → p b = p a → b ∈ match List.filter p l with [] => l | f => f end.
Proof.
  intros Ha. assert (∀ b, b ∈ List.filter p l ↔ b ∈ l ∧ p b = true) as Hf.
  { intros b. by rewrite !list_elem_of_In, filter_In. }
  destruct (List.filter p l) as [|x f] eqn:E.
  - split; [done|]. split; [|done]. right. apply Forall_forall. intros b Hb.
    destruct (p b) eqn:Eb; [|done]. by assert (b ∈ []) as ?%not_elem_of_nil by by apply Hf.
  - apply Hf in Ha as [Ha Hp]. split; [done|]. split; [by left|]. intros b Hb Hpb. apply Hf. split; [done|congruence].
Qed.

Lemma matching_sub l lang s : s ∈ matching l lang → s ∈ l.
Proof. unfold matching. intros [? _]%list_elem_of_In%filter_In. by apply list_elem_of_In. Qed.

Lemma filter_or_all_nil {A} (p : A → bool) l : match List.filter p l with [] => l | f => f end = [] → l = [].
Proof. by destruct (List.filter p l). Qed.

Lemma candidates_nonempty audio lang : audio_candidates audio lang = [] → audio = [].
Proof.
  unfold audio_candidates. case_bool_decide; [apply filter_or_all_nil|].
  intros E%filter_or_all_nil. by apply filter_or_all_nil in E.
Qed.

Lemma candidates_spec audio lang a :
  a ∈ audio_candidates audio lang →
  a ∈ audio ∧
  (isCommentary a = true → Forall (λ s, isCommentary s = true) audio) ∧
  (lang ≠ "" → ∀ b, b ∈ audio → isCommentary b = isCommentary a → in_language lang b = true → in_language lang a = true) ∧
  ∀ b, b ∈ audio → isCommentary b = isCommentary a → lang = "" ∨ in_language lang b = in_language lang a →
    b ∈ audio_candidates audio lang.
Proof.
  unfold audio_candidates. set (feature := match List.filter _ audio with [] => audio | f => f end).
  assert (∀ a, a ∈ feature → a ∈ audio ∧ (isCommentary a = true → Forall (λ s, isCommentary s = true) audio) ∧
            ∀ b, b ∈ audio → isCommentary b = isCommentary a → b ∈ feature) as Hfeat.
  { intros x (Hx & Hc & Hb)%filter_or_all. split; [done|]. split.
    - intros E. destruct Hc as [Hc|Hc]; [by rewrite E in Hc|]. eapply Forall_impl; [exact Hc|]. simpl. intros s. apply negb_false_iff.
    - intros b Hin Heq. apply Hb; [done|by rewrite Heq]. }
  clearbody feature. intros Ha. case_bool_decide as El.
  - destruct (Hfeat a Ha) as (H1 & H2 & H3). split_and!; auto; done.
  - apply filter_or_all in Ha as (Ha & Hl & Hb). destruct (Hfeat a Ha) as (H1 & H2 & H3). split_and!; auto.
    + intros _ b Hbin Hc Hlang. destruct Hl as [Hl|Hl]; [done|]. rewrite Forall_forall in Hl.
      pose proof (Hl b (H3 b Hbin Hc)) as Hn. unfold in_language in Hlang. congruence.
    + intros b Hbin Hc [?|Hlang]; [done|]. apply Hb; [by apply H3|done].
Qed.
End selecting.

(** When there is audio one track is picked: never a commentary unless all are, in the
    preferred language if any eligible track is, and of those eligible the one with the most
    channels, the disc's default flag only breaking ties. *)
Theorem pickAudio_spec `{Unicode} audio lang :
  (pickAudio audio lang = None ↔ audio = []) ∧
  ∀ a, pickAudio audio lang = Some a →
    a ∈ audio ∧
    (isCommentary a = true → Forall (λ s, isCommentary s = true) audio) ∧
    (lang ≠ "" → ∀ b, b ∈ audio → isCommentary b = isCommentary a → in_language lang b = true → in_language lang a = true) ∧
    widest a (List.filter (λ b, eqb (isCommentary b) (isCommentary a) &&
                                (bool_decide (lang = "") || eqb (in_language lang b) (in_language lang a))) audio).
Proof.
  unfold pickAudio. split.
  { split; [|intros ->; unfold audio_candidates; by case_bool_decide]. destruct (audio_candidates audio lang) eqn:E; [|done]. intros _. by eapply candidates_nonempty. }
  intros a Ha. destruct (audio_candidates audio lang) as [|x l] eqn:E; [done|]. injection Ha as <-.
  destruct (fold_better x l) as [Hin Hw]. rewrite <- E in Hin, Hw.
  destruct (candidates_spec _ _ _ Hin) as (H1 & H2 & H3 & H4). split_and!; try done.
  unfold widest in *. rewrite Forall_forall in Hw. apply Forall_forall.
  intros b [Hb Hc]%list_elem_of_In%filter_In. apply andb_true_iff in Hc as [Hc%eqb_prop Hl]. apply Hw, H4; [|done|].
  - by apply list_elem_of_In.
  - apply orb_true_iff in Hl as [Hl%bool_decide_eq_true|Hl%eqb_prop]; auto.
Qed.

(** ** Every stream is accounted for *)

Lemma NoDup_map_filter {A B} (g : A → B) (p : A → bool) l : NoDup (map g l) → NoDup (map g (List.filter p l)).
Proof.
  induction l as [|x l IH]; [done|]. cbn [map List.filter]. intros [Hx Hl]%NoDup_cons.
  destruct (p x); [|by apply IH]. cbn [map]. apply NoDup_cons. split; [|by apply IH].
  intros (y & E & [Hy _]%filter_In)%list_elem_of_In%in_map_iff. apply Hx, list_elem_of_In, in_map_iff. by exists y.
Qed.

Lemma filter_split_length {A} (p : A → bool) l :
  (length (List.filter p l) + length (List.filter (λ x, negb (p x)) l) = length l)%nat.
Proof. induction l as [|x l IH]; [done|]. cbn [List.filter]. destruct (p x); cbn [negb length]; lia. Qed.

Lemma filter_ext_elem {A} (p q : A → bool) l : (∀ x, x ∈ l → p x = q x) → List.filter p l = List.filter q l.
Proof.
  induction l as [|x l IH]; [done|]. intros H. cbn [List.filter].
  rewrite (H x) by by left. rewrite IH; [done|]. intros y Hy. apply H. by right.
Qed.

Lemma index_inj l s t : NoDup (map sm_Index l) → s ∈ l → t ∈ l → sm_Index s = sm_Index t → s = t.
Proof.
  induction l as [|x l IH]; [by intros _ ?%not_elem_of_nil|]. cbn [map]. intros [Hx Hl]%NoDup_cons.
  assert (∀ y, y ∈ l → sm_Index y ≠ sm_Index x) as Hn.
  { intros y Hy E. apply Hx. rewrite <- E. apply list_elem_of_In, in_map, list_elem_of_In, Hy. }
  intros [->|Hs]%elem_of_cons [->|Ht]%elem_of_cons E; auto; exfalso; by eapply Hn.
Qed.

(** The streams an index list leaves out are those its predicate leaves out. *)
Lemma left_out (p : Stream → bool) l :
  NoDup (map sm_Index l) →
  List.filter (λ s, negb (contains_index (List.filter p l) (sm_Index s))) l = List.filter (λ s, negb (p s)) l.
Proof.
  intros Hnd. apply filter_ext_elem. intros s Hs. f_equal. apply eq_bool_prop_intro.
  unfold contains_index. split.
  - intros (t & Ht & E%Z.eqb_eq)%Is_true_true%existsb_exists. apply filter_In in Ht as [Ht Hp].
    apply Is_true_true. rewrite (index_inj l s t); [done..|by apply list_elem_of_In|done].
  - intros Hp%Is_true_true. apply Is_true_true, existsb_exists. exists s. split; [|apply Z.eqb_refl].
    apply filter_In. by rewrite <- list_elem_of_In.
Qed.

Lemma filter_all_true {A} (l : list A) : List.filter (λ _, true) l = l.
Proof. induction l as [|x l IH]; [done|]. cbn [List.filter]. by rewrite IH. Qed.

Lemma filterByLanguage_filter subs lang :
  ∃ p, filterByLanguage subs lang = List.filter p subs ∧ (subs ≠ [] → filterByLanguage subs lang ≠ []).
Proof.
  unfold filterByLanguage. case_bool_decide; [exists (λ _, true); by rewrite filter_all_true|].
  destruct (matching subs lang) eqn:E; [exists (λ _, true); by rewrite filter_all_true|].
  eexists. split; [|done]. by rewrite <- E.
Qed.

Lemma audio_dropped au a :
  NoDup (map sm_Index au) → a ∈ au →
  S (length (List.filter (λ s, negb (sm_Index s =? sm_Index a)) au)) = length au.
Proof.
  intros Hnd Ha. rewrite <- (filter_split_length (λ s, sm_Index s =? sm_Index a) au).
  assert (length (List.filter (λ s, sm_Index s =? sm_Index a) au) = 1%nat) as ->; [|done].
  induction au as [|x au IH]; [by apply not_elem_of_nil in Ha|]. cbn [map] in Hnd. apply NoDup_cons in Hnd as [Hx Hnd].
  assert (∀ i, i ∉ map sm_Index au → List.filter (λ s, sm_Index s =? i) au = []) as Hnone.
  { clear. intros i Hi. induction au as [|y au IH]; [done|]. cbn [List.filter map] in *.
    apply not_elem_of_cons in Hi as [Hy Hi]. destruct (Z.eqb_spec (sm_Index y) i); [congruence|auto]. }
  cbn [List.filter]. apply elem_of_cons in Ha as [->|Ha].
  - rewrite Z.eqb_refl. cbn [length]. by rewrite Hnone.
  - destruct (Z.eqb_spec (sm_Index x) (sm_Index a)) as [E|E]; [|by apply IH].
    exfalso. apply Hx. rewrite E. by apply list_elem_of_In, in_map, list_elem_of_In.
Qed.

(** Of a file's streams the output gets the first video, one audio track and the wanted
    subtitles, in that order; whatever kind the source has the output has too, even when no track
    is in the wanted language; and every stream is either mapped or named among the dropped. *)
Theorem Select_accounts `{Unicode} streams language :
  NoDup (map sm_Index streams) →
  let sel := Select streams language in
  let vs := of_kind "video" streams in
  let au := of_kind "audio" streams in
  let su := of_kind "subtitle" streams in
  (∃ a k, sel_Maps sel = map map_arg (take 1 vs ++ a ++ k) ∧ Forall (λ s, s ∈ au) a ∧ Forall (λ s, s ∈ su) k ∧
     length a = Nat.min 1 (length au) ∧ (su ≠ [] → k ≠ []) ∧
     sel_TranscodeAudio sel = existsb Lossless a) ∧
  (length (sel_Maps sel) + length (sel_Dropped sel) = length vs + length au + length su)%nat ∧
  length (sel_Kept sel) = length (sel_Maps sel).
Proof.
  intros Hnd. cbv zeta. rewrite Select_closed. cbv zeta. set (lang := ToLower (TrimSpace language)).
  set (vs := of_kind "video" streams). set (au := of_kind "audio" streams). set (su := of_kind "subtitle" streams).
  cbn [sel_Maps sel_TranscodeAudio sel_Dropped sel_Kept].
  assert (NoDup (map sm_Index au)) as Hau by by apply NoDup_map_filter.
  assert (NoDup (map sm_Index su)) as Hsu by by apply NoDup_map_filter.
  destruct (filterByLanguage_filter su lang) as (p & Hk & Hkne).
  assert (∀ a, pickAudio au lang = Some a → a ∈ au) as Hin.
  { unfold pickAudio. intros a. destruct (audio_candidates au lang) as [|x l] eqn:E; [done|]. intros [= <-].
    destruct (fold_better x l) as [Hx _]. rewrite <- E in Hx. by apply candidates_spec in Hx as [? _]. }
  assert (pickAudio au lang = None → au = []) as Hnone.
  { unfold pickAudio. destruct (audio_candidates au lang) eqn:E; [|done]. intros _. by eapply candidates_nonempty. }
  split_and!.
  - eexists _, _. split; [done|]. split_and!; try done.
    + destruct (pickAudio au lang) as [a|]; [by apply Forall_singleton, Hin|constructor].
    + rewrite Hk. apply Forall_forall. intros s [Hs _]%list_elem_of_In%filter_In. by apply list_elem_of_In.
    + destruct (pickAudio au lang) as [a|]; [|by rewrite Hnone]. specialize (Hin a eq_refl). by destruct au as [|? [|]];
        [apply not_elem_of_nil in Hin|..].
  - rewrite !length_map, !length_app, !length_map, length_take, length_drop, Hk, (left_out p) by done.
    pose proof (filter_split_length p su). destruct (pickAudio au lang) as [a|].
    + pose proof (audio_dropped au a Hau (Hin a eq_refl)). 
      change (option_list (Some a)) with [a]. cbn [length]. lia.
    + rewrite Hnone by done. change (option_list (@None Stream)) with (@nil Stream). cbn [length map]. lia.
  - by rewrite !length_map, !length_app, !length_map.
Qed.

(** ** Progress *)

Definition fraction_ok (p : Progress) : Prop := (0 <= pg_Fraction p)%Q ∧ (pg_Fraction p <= 1)%Q.

Lemma clamped_bounds us d : 0 < d → (0 <= clamped us d)%Q ∧ (clamped us d <= 1)%Q.
Proof.
  intros Hd. unfold clamped. cbv zeta. generalize (int64 (us * 1000)). intros n.
  destruct (Z.ltb_spec n 0); [by split; unfold Qle; simpl|].
  destruct (Z.ltb_spec d n); [by split; unfold Qle; simpl|].
  unfold Qle. simpl. split; [lia|]. rewrite Z2Pos.id; lia.
Qed.

(** Every report of an encode's progress is a fraction between 0 and 1, whatever ffmpeg
    prints, int64 overflow included; with no known duration it stays 0. *)
Theorem progress_bounded `{Unicode} srcDuration lines :
  Forall fraction_ok (scan_progress noProgress srcDuration lines) ∧
  (srcDuration ≤ 0 → Forall (λ p, pg_Fraction p = 0%Q) (scan_progress noProgress srcDuration lines)).
Proof.
  assert (∀ prog, fraction_ok prog → Forall fraction_ok (scan_progress prog srcDuration lines)) as Hok.
  { induction lines as [|l ls IH]; intros prog Hp; cbn [scan_progress]; [constructor|].
    destruct (cut_eq _) as [[k v]|]; [|by apply IH]. unfold updateProgress.
    repeat case_match; simplify_eq; try by apply IH.
    - assert (fraction_ok (mkProg (clamped z srcDuration) (pg_Speed prog))) by (breflect; by apply clamped_bounds).
      constructor; [done|by apply IH].
    - constructor; [done|by apply IH]. }
  split; [apply Hok; by split; unfold Qle|]. clear Hok. intros Hd.
  assert (∀ prog, pg_Fraction prog = 0%Q → Forall (λ p, pg_Fraction p = 0%Q) (scan_progress prog srcDuration lines)) as H0.
  { induction lines as [|l ls IH]; intros prog Hp; cbn [scan_progress]; [constructor|].
    destruct (cut_eq _) as [[k v]|]; [|by apply IH]. unfold updateProgress.
    repeat case_match; simplify_eq; try by apply IH.
    - breflect. lia.
    - constructor; [done|by apply IH]. }
  by apply H0.
Qed.

(** ** The destination appears whole or not at all *)

Lemma part_path_ne dst : Base dst ≠ "/" → part_path dst ≠ dst.
Proof.
  intros Hb E. pose proof (Base_slash_free dst Hb) as Hf. unfold part_path in E.
  assert (Base (part_path dst) = "." +:+ Base dst +:+ ".part") as Hp.
  { apply (Base_Join [Dir dst]).
    - unfold slash_free in *. by rewrite !str_forall_app, Hf.
    - apply plain_long. rewrite !len_app. pose proof (len_nonneg (Base dst)).
      change (len ".") with 1. change (len ".part") with 5. lia. }
  unfold part_path in Hp. rewrite E in Hp. apply (f_equal len) in Hp. rewrite !len_app in Hp.
  change (len ".") with 1 in Hp. change (len ".part") with 5 in Hp. lia.
Qed.

(** What a finished run of ffmpeg leaves at the temporary name. *)
Definition left_at (tmp : string) (fs : FS) (run : FFmpeg) : option File :=
  match last (ff_writes run) with Some f => Some f | None => fs !! tmp end.

Section atomic.
Context {U : Unicode}.
Context (e : Encoder) (x : EncodeEnv) (src dst : string) (p : Profile) (d : Z) (fs : FS).
Hypothesis Hbase : Base dst ≠ "/".
Let tmp := part_path dst.
Let run := ee_ffmpeg x (args e src tmp p).

(** A state in which nothing but the temporary file has changed. *)
Definition undisturbed (s : FS) : Prop := ∀ q, q ≠ tmp → s !! q = fs !! q.
(** A state in which the destination holds what a run of ffmpeg that ended well wrote. *)
Definition moved (s : FS) : Prop :=
  ff_exit run = None ∧ s !! dst = left_at tmp fs run ∧ ∀ q, q ≠ tmp → q ≠ dst → s !! q = fs !! q.

Lemma undisturbed_delete s : undisturbed s → undisturbed (delete tmp s).
Proof. intros H q Hq. rewrite lookup_delete_ne by done. by apply H. Qed.

Lemma running_states :
  let states := reverse (written tmp fs (ff_writes run)) ++ [fs] in
  Forall undisturbed states ∧ default fs (head states) !! tmp = left_at tmp fs run.
Proof.
  cbv zeta. unfold left_at, written. split.
  - apply Forall_app. split; [|by apply Forall_singleton]. apply Forall_reverse, Forall_map, Forall_forall.
    intros w _ q Hq. by rewrite lookup_insert_ne by done.
  - destruct (ff_writes run) as [|w ws _] using rev_ind; [done|].
    rewrite map_app, reverse_app, last_snoc. cbn. by rewrite lookup_insert_eq.
Qed.

Lemma finish_spec :
  let states := reverse (written tmp fs (ff_writes run)) ++ [fs] in
  let '(r, states') := finish_encode e x dst p (default fs (head states)) states run in
  Forall (λ s, undisturbed s ∨ moved s) states' ∧
  ∃ final, head states' = Some final ∧ final !! tmp = None ∧
  match r with
  | Ok res => moved final ∧ res_Path res = dst ∧ f_size <$> final !! dst = Some (res_SizeBytes res)
  | Err _ => undisturbed final
  end.
Proof.
  pose proof (part_path_ne dst Hbase : tmp ≠ dst) as Hne.
  destruct running_states as [Hst Hlast]. cbv zeta in *. set (states := _ ++ [fs]) in *.
  assert (undisturbed (default fs (head states))) as Hu.
  { destruct states as [|s states']; [done|]. by apply Forall_cons in Hst as [? _]. }
  assert (Forall (λ s, undisturbed s ∨ moved s) states) as Hst' by (eapply Forall_impl; [exact Hst|]; by left).
  assert (Forall (λ s, undisturbed s ∨ moved s) (delete tmp (default fs (head states)) :: states)) as Hfail.
  { constructor; [left; by apply undisturbed_delete|done]. }
  set (cur := default fs (head states)) in *. clearbody cur states. unfold finish_encode. fold tmp.
  destruct (ff_exit run) as [m|] eqn:Ex.
  { split; [done|]. eexists. split; [done|]. split; [apply lookup_delete_eq|by apply undisturbed_delete]. }
  destruct (cur !! tmp) as [f|] eqn:Ef; [|destruct (ee_rename x) as [m|]].
  2-3: split; [done|]; eexists; split; [done|]; split; [apply lookup_delete_eq|by apply undisturbed_delete].
  destruct (ee_rename x) as [m|].
  { split; [done|]. eexists. split; [done|]. split; [apply lookup_delete_eq|by apply undisturbed_delete]. }
  assert (∀ s, s = <[dst:=f]> (delete tmp cur) ∨ s = delete tmp (<[dst:=f]> (delete tmp cur)) →
            moved s ∧ s !! dst = Some f) as Hm.
  { intros s Hs. assert (s !! dst = Some f) as Hd.
    { destruct Hs as [->| ->]; rewrite ?lookup_delete_ne by done; apply lookup_insert_eq. }
    split; [|done]. split; [done|]. split; [by rewrite Hd, <- Hlast|]. intros q Hq Hqd.
    rewrite <- (Hu q Hq). destruct Hs as [->| ->]; rewrite ?lookup_delete_ne by done;
      rewrite lookup_insert_ne by done; by apply lookup_delete_ne. }
  split; [constructor; [right; apply Hm; by right|constructor; [right; apply Hm; by left|done]]|].
  eexists. split; [done|]. split; [apply lookup_delete_eq|].
  edestruct (Hm (delete tmp (<[dst:=f]> (delete tmp cur)))) as [Hmv Hd]; [by right|].
  split; [done|]. split; [done|]. by rewrite Hd.
Qed.
End atomic.

Lemma Transcode_states `{Unicode} e x src dst p d fs :
  Base dst ≠ "/" →
  let r := Transcode e x src dst p d fs in
  Forall (λ s, undisturbed dst fs s ∨ moved e x src dst p fs s) (en_states r) ∧
  ∃ final, head (en_states r) = Some final ∧
  match en_result r with
  | Ok res => moved e x src dst p fs final ∧ final !! part_path dst = None ∧ res_Path res = dst ∧
      f_size <$> final !! dst = Some (res_SizeBytes res)
  | Err _ => undisturbed dst fs final ∧ (ee_mkdir x = None → final !! part_path dst = None)
  end.
Proof.
  intros Hb. cbv zeta. unfold Transcode.
  assert (undisturbed dst fs fs) as H0 by done.
  assert (undisturbed dst fs (delete (part_path dst) fs)) as H1 by by apply undisturbed_delete.
  destruct (ee_mkdir x) as [m|].
  { split; [constructor; [by left|constructor]|]. by exists fs. }
  set (run := ee_ffmpeg x _).
  assert (∀ m, let r := mkEncode (Err m) [] [delete (part_path dst) fs; fs] in
     Forall (λ s, undisturbed dst fs s ∨ moved e x src dst p fs s) (en_states r) ∧
     ∃ final, head (en_states r) = Some final ∧ undisturbed dst fs final ∧
       (@None string = None → final !! part_path dst = None)) as Hearly.
  { intros m. split; [constructor; [by left|constructor; [by left|constructor]]|].
    eexists. split; [done|]. split; [done|]. intros _. apply lookup_delete_eq. }
  destruct (ff_pipe run) as [m|]; [apply Hearly|]. destruct (ff_start run) as [m|]; [apply Hearly|].
  pose proof (finish_spec e x src dst p fs Hb) as Hfin. cbv zeta in Hfin. fold run in Hfin.
  destruct (finish_encode _ _ _ _ _ _ run) as [r states']. destruct Hfin as (Hf & final & Hh & Ht & Hr).
  split; [done|]. exists final. split; [done|]. cbn [en_result]. destruct r as [res|m]; [|by split].
  destruct Hr as (? & ? & ?). by split_and!.
Qed.

(** C25: An encode is atomic: in every state the file system passes through, every path but the
    destination and the temporary name is untouched, and the destination is as it was before or
    holds the whole output of an ffmpeg that exited well. An error leaves the destination as it
    was and no temporary file; success leaves the output there, of the size reported. *)
Theorem Transcode_atomic `{Unicode} e x src dst p d fs :
  Base dst ≠ "/" →
  let r := Transcode e x src dst p d fs in
  Forall (λ s, undisturbed dst fs s ∨ moved e x src dst p fs s) (en_states r) ∧
  ∃ final, head (en_states r) = Some final ∧
  match en_result r with
  | Ok res => moved e x src dst p fs final ∧ final !! part_path dst = None ∧ res_Path res = dst ∧
      f_size <$> final !! dst = Some (res_SizeBytes res)
  | Err _ => undisturbed dst fs final ∧ (ee_mkdir x = None → final !! part_path dst = None)
  end.
Proof. apply Transcode_states. Qed.

(** ** Concrete runs *)

Definition demo_streams : list Stream :=
  [vid 0; aud 1 "ac3" "eng" "" true 2; aud 2 "dts" "eng" "" false 6; aud 3 "ac3" "eng" "Director's Commentary" false 8;
   sub 4 "pgs" "fra"].

(** The disc's default is the stereo track; the wider one is kept. *)
Lemma Select_accounts_witness :
  sel_Maps (@Select caseless demo_streams "en") = ["0:0"; "0:2"; "0:4"] ∧
  length (sel_Kept (@Select caseless demo_streams "en")) = length (sel_Maps (@Select caseless demo_streams "en")).
Proof.
  split; [vm_compute; reflexivity|]. apply (@Select_accounts caseless demo_streams "en").
  by apply (bool_decide_unpack _).
Defined.

Definition demo_encode (exit : option string) : Encode :=
  @Transcode caseless (mkEncoder "ffmpeg" "") (mkEncodeEnv None (λ _, mkFFmpeg None None ["out_time_us=5000000"; "speed=2x"]
      [mkFile 7 10; mkFile 7 99] exit "oops") false None)
    "/rips/a/title_00.mkv" "/out/a/title_00.mkv" (mkProfile "default" 20 "" 0 false 0 480 [] "" 0) (10 * Second)
    {["/rips/a/title_00.mkv" := mkFile 1 500]}.

Lemma Transcode_atomic_witness :
  map pg_Fraction (en_progress (demo_encode None)) = [5000000000 # 10000000000; 5000000000 # 10000000000]%Q ∧
  ∃ final, head (en_states (demo_encode (Some "exit status 1"))) = Some final ∧
    final !! "/out/a/title_00.mkv" = None.
Proof.
  split; [vm_compute; reflexivity|]. unfold demo_encode.
  edestruct (@Transcode_atomic caseless) as (_ & final & Hh & Hr); [|exists final; split; [exact Hh|]].
  - by vm_compute.
  - destruct Hr as [Hu _]. rewrite (Hu "/out/a/title_00.mkv"); [vm_compute; reflexivity|by vm_compute].
Defined.
