(* ===== verification/Transcoder.v ===== *)
(** * The queue runner and the filing of finished titles
    (internal/daemon/transcode.go, internal/daemon/library.go)

    State passing over a world of the database, the file system, the published
    snapshot and the log.  What the machine answers is an oracle indexed by the
    number of calls made before; the daemon's context is cancelled from the
    [q_cancel_at]-th call on, and [q_stop] is a person stopping the encode in
    flight.  A database call under a cancelled context fails without touching
    the tables.  The workers and the server use the same database: what they
    write between two calls is [q_meanwhile]. *)

From Stdlib Require Import QArith_base.
From S2P Require Import Prelude GoText GoPath Table Disc Store Queue StoreWf Verify Library Encoder.
#[local] Open Scope Z_scope.

Definition maxTranscodeAttempts : Z := 2.

Record TConfig := mkTConfig {
  c_Transcode : bool;
  c_FileToLibrary : bool;
  c_TranscodedDir : string;
  c_LibraryDir : string;
  c_TranscodeQuality : Z;
  c_TranscodeMaxKbps : Z;
  c_TranscodeMaxHeight : Z;
  c_PreferredLanguage : string;
  c_AudioKbps : Z;
  c_SoftwarePreset : string;
}.

Record TranscodeSnapshot := mkTranscodeSnapshot {
  x_Running : bool;
  x_Disc : string;
  x_TitleIndex : Z;
  x_Fraction : Q;
  x_Speed : Q;
  x_Hardware : bool;
  x_Pending : Z;
  x_Failed : Z;
}.

Record QEnv := mkQEnv {
  q_cfg : TConfig;
  q_enc : Encoder;
  (** The clock, in seconds. *)
  q_clock : nat → Z;
  q_cancel_at : option nat;
  q_db_fault : nat → bool;
  q_stop : nat → bool;
  (** What ffprobe prints of a file, decoded. *)
  q_probe : nat → string → outcome string probeOutput;
  q_encode : nat → EncodeEnv;
  (** How long the encode took, as printed. *)
  q_elapsed : nat → string;
  q_mkdir : nat → option string;
  q_link : nat → option string;
  (** What the rest of the daemon writes to the database between a call and the next. *)
  q_meanwhile : nat → list store_op;
}.

Record QWorld := mkQWorld {
  q_store : Store;
  q_fs : FS;
  q_snap : TranscodeSnapshot;
  (** d.cancelTranscode is set: an encode is in flight. *)
  q_cancelTranscode : bool;
  (** A value waits in transcodeWake. *)
  q_wake : bool;
  q_tick : nat;
  q_log : list (string * string);
}.

(** ** The monad *)

Definition Q_ (A : Type) : Type := QEnv → QWorld → A * QWorld.
Definition qret {A} (a : A) : Q_ A := λ _ w, (a, w).
Definition qbind {A B} (m : Q_ A) (k : A → Q_ B) : Q_ B := λ e w, let '(a, w') := m e w in k a e w'.
Declare Scope runner_scope.
Delimit Scope runner_scope with runner.
#[global] Open Scope runner_scope.
Notation "x <- m ;; k" := (qbind m (λ x, k))
  (at level 100, m at next level, right associativity) : runner_scope.
Notation "m ;;; k" := (qbind m (λ _, k))
  (at level 100, k at level 200, right associativity) : runner_scope.

Definition qask {A} (f : QEnv → A) : Q_ A := λ e w, (f e, w).
Definition qget {A} (f : QWorld → A) : Q_ A := λ _ w, (f w, w).
Definition qmod (f : QWorld → QWorld) : Q_ unit := λ _ w, (tt, f w).

Definition qset_store (s : Store) (w : QWorld) : QWorld :=
  mkQWorld s (q_fs w) (q_snap w) (q_cancelTranscode w) (q_wake w) (q_tick w) (q_log w).
Definition qset_fs (fs : FS) (w : QWorld) : QWorld :=
  mkQWorld (q_store w) fs (q_snap w) (q_cancelTranscode w) (q_wake w) (q_tick w) (q_log w).
Definition qset_snap (f : TranscodeSnapshot → TranscodeSnapshot) (w : QWorld) : QWorld :=
  mkQWorld (q_store w) (q_fs w) (f (q_snap w)) (q_cancelTranscode w) (q_wake w) (q_tick w) (q_log w).
Definition qset_cancel (b : bool) (w : QWorld) : QWorld :=
  mkQWorld (q_store w) (q_fs w) (q_snap w) b (q_wake w) (q_tick w) (q_log w).
Definition qset_wake (b : bool) (w : QWorld) : QWorld :=
  mkQWorld (q_store w) (q_fs w) (q_snap w) (q_cancelTranscode w) b (q_tick w) (q_log w).
Definition qbump (e : QEnv) (w : QWorld) : QWorld :=
  mkQWorld (foldl (flip run_op) (q_store w) (q_meanwhile e (q_tick w))) (q_fs w) (q_snap w) (q_cancelTranscode w) (q_wake w) (S (q_tick w)) (q_log w).
Definition qpush (l : string * string) (w : QWorld) : QWorld :=
  mkQWorld (q_store w) (q_fs w) (q_snap w) (q_cancelTranscode w) (q_wake w) (q_tick w) (q_log w ++ [l]).

Definition qcall {A} (f : QEnv → nat → A) : Q_ A := λ e w, (f e (q_tick w), qbump e w).

Definition qcancelled (e : QEnv) (n : nat) : bool :=
  match q_cancel_at e with Some k => (k <=? n)%nat | None => false end.
(** ctx.Err() != nil, of the daemon's context and of the encode's. *)
Definition qctxErr : Q_ bool := λ e w, (qcancelled e (q_tick w), w).
Definition encErr : Q_ bool := λ e w, (qcancelled e (q_tick w) || q_stop e (q_tick w), w).

Definition qdb_in {A} (detached : bool) (op : Z → DB A) : Q_ (outcome string A) := λ e w,
  let n := q_tick w in
  if negb detached && qcancelled e n then (Err "context canceled", qbump e w)
  else if q_db_fault e n then (Err "disk I/O error", qbump e w)
  else match op (q_clock e n) (q_store w) with
       | (Ok a, s) => (Ok a, qbump e (qset_store s w))
       | (Err x, s) => (Err (storeErr_text x), qbump e (qset_store s w))
       end.
Definition qdb {A} : (Z → DB A) → Q_ (outcome string A) := qdb_in false.

(** Daemon.logEvent: the line goes out and into the database, under a context of its own. *)
Definition logEvent (level message : string) : Q_ unit :=
  qmod (qpush (level, message)) ;;;
  _ <- qdb_in true (λ now, LogEvent now level message None None) ;;
  qret tt.

(** transcodeStatus.update *)
Definition snapshot (f : TranscodeSnapshot → TranscodeSnapshot) : Q_ unit := qmod (qset_snap f).

Definition clearCurrent : Q_ unit :=
  snapshot (λ s, mkTranscodeSnapshot false "" 0 0 0 false (x_Pending s) (x_Failed s)).

Definition plural (n : Z) : string := if n =? 1 then "" else "s".

Definition refreshTranscodeCounts : Q_ unit :=
  r <- qdb (λ _, TranscodeQueue maxTranscodeAttempts) ;;
  match r with
  | Err _ => qret tt
  | Ok (pending, failed) =>
      snapshot (λ s, mkTranscodeSnapshot (x_Running s) (x_Disc s) (x_TitleIndex s) (x_Fraction s) (x_Speed s)
                       (x_Hardware s) pending failed)
  end.

Definition nudgeTranscoder : Q_ unit := qmod (qset_wake true).

Definition CancelTranscode : Q_ (outcome string unit) :=
  set <- qget q_cancelTranscode ;;
  qret (if set : bool then Ok tt else Err "nothing is being transcoded").

Definition logStreams (label : string) (sel : Selection) : Q_ unit :=
  (match sel_Kept sel with
   | [] => qret tt
   | l => logEvent "info" (label +:+ ": kept " +:+ join ", " l)
   end) ;;;
  match sel_Dropped sel with
  | [] => qret tt
  | l => logEvent "info" (label +:+ ": dropped " +:+ join ", " l)
  end.

Definition transcodeOutputPath (dir : string) (job : TranscodeJob) : string :=
  Join [dir; Base (Dir (tj_SourcePath job)); TitleFileName (tj_TitleIndex job)].

Definition kind_string (k : Kind) : string :=
  match k with KindMovie => "movie" | KindTV => "tv" | KindUnknown => "unknown" end.

(** ** Filing *)

Section runner.
Context {U : Unicode}.

Definition displayName (label fingerprint : string) : string :=
  let l := TrimSpace label in if bool_decide (l = "") then Short fingerprint else l.

(** library.Link on the world's files. *)
Definition link_file (src dst : string) : Q_ (outcome linkErr unit) := λ e w,
  match Link (q_mkdir e (q_tick w)) (q_link e (q_tick w)) src dst (q_fs w) with
  | Ok fs => (Ok tt, qbump e (qset_fs fs w))
  | Err x => (Err x, qbump e w)
  end.

Definition fileTitle (discID titleIndex : Z) (source : string) : Q_ unit :=
  on <- qask (λ e, c_FileToLibrary (q_cfg e)) ;;
  if negb on then qret tt else
  r <- qdb (λ _, DiscWithTitles discID) ;;
  match r with
  | Err m => logEvent "warn" ("could not read disc " +:+ itoa discID +:+ " to file it: " +:+ m)
  | Ok rec =>
      lib <- qask (λ e, c_LibraryDir (q_cfg e)) ;;
      let kind := Classify (d_Titles rec) in
      match List.find (λ p, pl_TitleIndex p =? titleIndex) (Plan lib rec kind) with
      | None => qret tt
      | Some p =>
          let name := displayName (d_VolumeLabel rec) (d_Fingerprint rec) in
          linked <- link_file source (pl_Path p) ;;
          match linked with
          | Err ErrExists =>
              _ <- qdb (λ now, RecordLibraryLink now discID titleIndex (pl_Path p)) ;;
              qret tt
          | Err (LinkFailed m) => logEvent "warn" ("could not file title " +:+ itoa titleIndex +:+ " of " +:+ name +:+ ": " +:+ m)
          | Ok _ =>
              r <- qdb (λ now, RecordLibraryLink now discID titleIndex (pl_Path p)) ;;
              (match r with
               | Err m => logEvent "warn" ("filed title " +:+ itoa titleIndex +:+ " but could not record it: " +:+ m)
               | Ok _ => qret tt
               end) ;;;
              let what := if pl_Feature p then "feature" else kind_string kind in
              logEvent "info" ("filed " +:+ name +:+ " title " +:+ itoa titleIndex +:+ " as " +:+ pl_Path p +:+ " (" +:+ what +:+ ")")
          end
      end
  end.

Fixpoint file_pending (pending : list Unfiled) : Q_ unit :=
  match pending with
  | [] => qret tt
  | u :: us =>
      stop <- qctxErr ;;
      if stop : bool then qret tt else
      fs <- qget q_fs ;;
      (match fs !! u_OutputPath u with
       | None => qret tt
       | Some _ => fileTitle (u_DiscID u) (u_TitleIndex u) (u_OutputPath u)
       end) ;;;
      file_pending us
  end.

Definition fileUnfiled : Q_ unit :=
  on <- qask (λ e, c_FileToLibrary (q_cfg e)) ;;
  if negb on then qret tt else
  r <- qdb (λ _, UnfiledTranscodes) ;;
  match r with
  | Err m =>
      stop <- qctxErr ;;
      if stop : bool then qret tt else logEvent "warn" ("could not check what still needs filing: " +:+ m)
  | Ok pending => file_pending pending
  end.

(** ** One encode *)

Definition profile_of (c : TConfig) (job : TranscodeJob) (src : EncInput) : Profile :=
  mkProfile (tj_Profile job) (c_TranscodeQuality c) (c_SoftwarePreset c) (c_TranscodeMaxKbps c) (so_Interlaced src)
    (c_TranscodeMaxHeight c) (so_Height src) (so_Streams src) (c_PreferredLanguage c) (c_AudioKbps c).

Definition show_progress (ps : list Progress) (s : TranscodeSnapshot) : TranscodeSnapshot :=
  match last ps with
  | Some p => mkTranscodeSnapshot (x_Running s) (x_Disc s) (x_TitleIndex s) (pg_Fraction p) (pg_Speed p)
                (x_Hardware s) (x_Pending s) (x_Failed s)
  | None => s
  end.

(** d.enc.Transcode on the world's files. *)
Definition encode_file (src dst : string) (p : Profile) (duration : Z) : Q_ (outcome string Result) := λ e w,
  let r := Transcode (q_enc e) (q_encode e (q_tick w)) src dst p duration (q_fs w) in
  (en_result r, qbump e (qset_snap (show_progress (en_progress r)) (qset_fs (default (q_fs w) (head (en_states r))) w))).

(** What is known of the input: probed, with the scan's duration as the fallback. *)
Definition probe_job (job : TranscodeJob) : Q_ (EncInput * Z) :=
  out <- qcall (λ e n, q_probe e n (tj_SourcePath job)) ;;
  src <- (match Probe out with
          | Ok src => qret src
          | Err m =>
              logEvent "warn" ("could not probe " +:+ tj_SourcePath job +:+ ": " +:+ m +:+ "; encoding it as progressive") ;;;
              qret noInput
          end) ;;
  if so_Duration src <=? 0 then
    r <- qdb (λ _, TitleDuration (tj_DiscID job) (tj_TitleIndex job)) ;;
    qret (src, match r with Ok secs => secs * Second | Err _ => so_Duration src end)
  else qret (src, so_Duration src).

(** What is recorded once the encoder has returned. *)
Definition record_encode (job : TranscodeJob) (label : string) (r : outcome string Result) : Q_ unit :=
  let what := label +:+ " title " +:+ itoa (tj_TitleIndex job) in
  stopped <- encErr ;;
  if stopped : bool then
    _ <- qdb_in true (λ _, RequeueTranscode (tj_ID job)) ;;
    down <- qctxErr ;;
    if down : bool then qret tt
    else logEvent "info" ("transcode of " +:+ what +:+ " cancelled; it stays in the queue")
  else match r with
  | Err m =>
      _ <- qdb (λ now, FailTranscode now (tj_ID job) m) ;;
      logEvent "error" ("transcode of " +:+ what +:+ " failed: " +:+ m)
  | Ok res =>
      f <- qdb (λ now, FinishTranscode now (tj_ID job) (res_Path res) (res_SizeBytes res) (res_Hardware res)) ;;
      (match f with
       | Err m => logEvent "warn" ("could not record the transcode of " +:+ what +:+ ": " +:+ m)
       | Ok _ => qret tt
       end) ;;;
      fileTitle (tj_DiscID job) (tj_TitleIndex job) (res_Path res) ;;;
      elapsed <- qcall q_elapsed ;;
      logEvent "info" ("transcoded " +:+ what +:+ " — " +:+ humanBytes (res_SizeBytes res) +:+ " in " +:+ elapsed +:+
        " (" +:+ (if res_Hardware res then "hardware" else "software") +:+ ")") ;;;
      logStreams what (res_Streams res)
  end.

Definition transcodeOne (job : TranscodeJob) : Q_ unit :=
  c <- qask q_cfg ;;
  hw <- qask (λ e, Hardware (q_enc e)) ;;
  let out := transcodeOutputPath (c_TranscodedDir c) job in
  let label := if bool_decide (tj_VolumeLabel job = "") then "disc " +:+ itoa (tj_DiscID job) else tj_VolumeLabel job in
  snapshot (λ s, mkTranscodeSnapshot true label (tj_TitleIndex job) 0 0 hw (x_Pending s) (x_Failed s)) ;;;
  qmod (qset_cancel true) ;;;
  p <- probe_job job ;;
  (if so_Interlaced p.1
   then logEvent "info" (label +:+ " title " +:+ itoa (tj_TitleIndex job) +:+ " is interlaced (" +:+ so_FieldOrder p.1 +:+
          ") and will be deinterlaced")
   else qret tt) ;;;
  r <- encode_file (tj_SourcePath job) out (profile_of c job p.1) p.2 ;;
  record_encode job label r ;;;
  qmod (qset_cancel false) ;;;
  clearCurrent.

(** ** The queue *)

Inductive drained := Drained | Stopped | OutOfFuel.

(** The inner loop of runTranscodes: everything available, one after the other. *)
Fixpoint drain (fuel : nat) : Q_ drained :=
  match fuel with
  | O => qret OutOfFuel
  | S fuel =>
      r <- qdb (λ now, NextTranscode now maxTranscodeAttempts) ;;
      match r with
      | Err m =>
          stop <- qctxErr ;;
          (if stop : bool then qret tt else logEvent "warn" ("could not read the transcode queue: " +:+ m)) ;;;
          qret Drained
      | Ok None => qret Drained
      | Ok (Some job) =>
          transcodeOne job ;;;
          stop <- qctxErr ;;
          if stop : bool then qret Stopped else drain fuel
      end
  end.

(** The outer loop, for [wakes] wake-ups before the context ends, each draining with [fuel]. *)
Fixpoint run_cycles (fuel wakes : nat) : Q_ drained :=
  r <- drain fuel ;;
  match r with
  | Drained =>
      refreshTranscodeCounts ;;;
      fileUnfiled ;;;
      match wakes with
      | O => qret Drained
      | S wakes => qmod (qset_wake false) ;;; run_cycles fuel wakes
      end
  | r => qret r
  end.

Definition runTranscodes (fuel wakes : nat) : Q_ drained :=
  on <- qask (λ e, c_Transcode (q_cfg e)) ;;
  if negb on then qret Drained else
  r <- qdb (λ _, ReclaimRunningTranscodes) ;;
  (match r with
   | Err m =>
       stop <- qctxErr ;;
       if stop : bool then qret tt else logEvent "warn" ("could not reclaim interrupted transcodes: " +:+ m)
   | Ok n =>
       if 0 <? n then logEvent "info" (itoa n +:+ " transcode" +:+ plural n +:+ " interrupted by a restart returned to the queue")
       else qret tt
   end) ;;;
  run_cycles fuel wakes.

Fixpoint queue_titles (discID : Z) (ripDir : string) (titles : list Title) (queued : Z) : Q_ Z :=
  match titles with
  | [] => qret queued
  | t :: ts =>
      r <- qdb (λ now, QueueTranscode now discID (t_Index t) "default" (Join [ripDir; TitleFileName (t_Index t)])) ;;
      match r with
      | Err m =>
          logEvent "warn" ("could not queue title " +:+ itoa (t_Index t) +:+ " for transcoding: " +:+ m) ;;;
          queue_titles discID ripDir ts queued
      | Ok _ => queue_titles discID ripDir ts (queued + 1)
      end
  end.

Definition queueTranscodes (discID : Z) (ripDir : string) (titles : list Title) : Q_ unit :=
  on <- qask (λ e, c_Transcode (q_cfg e)) ;;
  if negb on then qret tt else
  queued <- queue_titles discID ripDir titles 0 ;;
  if queued =? 0 then qret tt else
  logEvent "info" ("queued " +:+ itoa queued +:+ " title" +:+ plural queued +:+ " for transcoding") ;;;
  refreshTranscodeCounts ;;;
  nudgeTranscoder.

(** The loop of requeueDisc; an error ends it with what was queued so far. *)
Fixpoint requeue_titles (name ripDir : string) (discID : Z) (indices : list Z) (queued : Z) : Q_ (outcome string Z) :=
  match indices with
  | [] => qret (Ok queued)
  | idx :: rest =>
      let src := Join [ripDir; TitleFileName idx] in
      fs <- qget q_fs ;;
      match fs !! src with
      | None =>
          logEvent "warn" ("title " +:+ itoa idx +:+ " of " +:+ name +:+ " is missing from " +:+ ripDir +:+ "; skipping it") ;;;
          requeue_titles name ripDir discID rest queued
      | Some _ =>
          r <- qdb (λ now, QueueTranscode now discID idx "default" src) ;;
          match r with
          | Err m => qret (Err m)
          | Ok _ => requeue_titles name ripDir discID rest (queued + 1)
          end
      end
  end.

Definition requeueDisc (fingerprint : string) : Q_ (outcome string (Z * string)) :=
  on <- qask (λ e, c_Transcode (q_cfg e)) ;;
  if negb on then qret (Err "transcoding is off; set transcode = true to use this") else
  r <- qdb (λ _, FindDisc fingerprint) ;;
  match r with
  | Err m => qret (Err m)
  | Ok None => qret (Err ("no disc with fingerprint " +:+ fingerprint))
  | Ok (Some rec) =>
      let name := displayName (dc_VolumeLabel rec) fingerprint in
      if negb (Ripped rec) then qret (Err (name +:+ " has no completed rip to transcode from")) else
      r <- qdb (λ _, RippedTitles (dc_ID rec)) ;;
      match r with
      | Err m => qret (Err m)
      | Ok [] => qret (Err (name +:+ " has no verified titles"))
      | Ok indices =>
          r <- requeue_titles name (dc_RipDir rec) (dc_ID rec) indices 0 ;;
          match r with
          | Err m => qret (Err m)
          | Ok queued =>
              if queued =? 0
              then qret (Err ("none of the titles of " +:+ name +:+ " are still on disk under " +:+ dc_RipDir rec)) else
              logEvent "info" ("queued " +:+ itoa queued +:+ " title" +:+ plural queued +:+ " of " +:+ name +:+ " for transcoding again") ;;;
              refreshTranscodeCounts ;;;
              nudgeTranscoder ;;;
              qret (Ok (queued, name))
          end
      end
  end.

(** The queue.retry request (internal/daemon/server.go). *)
Definition queueRetry (id : Z) : Q_ (outcome string string) :=
  if id =? 0 then qret (Err "retry needs a job id") else
  r <- qdb (λ _, TranscodeJobByID id) ;;
  match r with
  | Err m => qret (Err m)
  | Ok None => qret (Err ("no queued job " +:+ itoa id))
  | Ok (Some job) =>
      if bool_decide (tj_State job = TranscodeRunning)
      then qret (Err ("job " +:+ itoa id +:+ " is running; cancel it first")) else
      r <- qdb (λ _, ResetTranscodeAttempts id) ;;
      match r with
      | Err m => qret (Err m)
      | Ok _ =>
          refreshTranscodeCounts ;;;
          nudgeTranscoder ;;;
          qret (Ok ("title " +:+ itoa (tj_TitleIndex job)))
      end
  end.
End runner.
