(* ===== verification/TranscoderFrame.v ===== *)
(** * What the runner's steps leave alone

    A frame for every step of the queue runner but the three that settle a job:
    the queue and the discs stay, the database stays well formed, and the file
    system only gains links to files it had. *)

From S2P Require Import Prelude GoText GoPath Table Disc Store Queue StoreWf Background Library Encoder Transcoder.

(** ** What the rest of the daemon does meanwhile *)

(** [D] is what a theorem wants kept of the discs: a relation that every call leaving them alone keeps. *)
Class DiscRel (D : Store → Store → Prop) : Prop := {
  dr_preorder :: PreOrder D;
  dr_same s s' : discs s' = discs s → (store_wf s → store_wf s') → D s s';
}.
(** The others leave the queue and the library links alone, and of the discs what is wanted. *)
Class apart (D : Store → Store → Prop) (e : QEnv) : Prop := {
  ap_foreign n op : op ∈ q_meanwhile e n → foreign op = true;
  ap_discs n op s : op ∈ q_meanwhile e n → store_wf s → D s (run_op op s);
}.

Definition any_discs (s s' : Store) : Prop := True.
#[global] Instance any_discs_rel : DiscRel any_discs.
Proof. split; [split|]; done. Qed.
Lemma foreign_apart e : (∀ n, forallb foreign (q_meanwhile e n) = true) → apart any_discs e.
Proof. intros H. split; [|done]. intros n op Hop. by eapply forallb_forall, list_elem_of_In. Qed.
Definition same_discs (s s' : Store) : Prop := discs s' = discs s.
#[global] Instance same_discs_rel : DiscRel same_discs.
Proof. split; [split; [done|]|done]. intros s1 s2 s3. unfold same_discs. congruence. Qed.

(** A call fails without effect, or is made and succeeds or fails. *)
Lemma qdb_cases {A} (op : Z → DB A) e w :
  (∃ m, qdb op e w = (Err m, qbump e w)) ∨
  (∃ a s', op (q_clock e (q_tick w)) (q_store w) = (Ok a, s') ∧ qdb op e w = (Ok a, qbump e (qset_store s' w))) ∨
  (∃ x s', op (q_clock e (q_tick w)) (q_store w) = (Err x, s') ∧ qdb op e w = (Err (storeErr_text x), qbump e (qset_store s' w))).
Proof.
  unfold qdb, qdb_in. destruct (negb false && qcancelled e (q_tick w)); [left; eauto|]. destruct (q_db_fault e (q_tick w)); [left; eauto|].
  destruct (op _ (q_store w)) as [[a|x] s'] eqn:E; eauto 8.
Qed.

(** ** Frames *)

Definition qpres {A} (e : QEnv) (R : QWorld → QWorld → Prop) (m : Q_ A) : Prop := ∀ w, R w (m e w).2.

Section frames.
Context (e : QEnv) (R : QWorld → QWorld → Prop) `{!PreOrder R}.

Lemma qpres_ret {A} (a : A) : qpres e R (qret a).
Proof. intros w. simpl. reflexivity. Qed.
Lemma qpres_ask {A} (f : QEnv → A) : qpres e R (qask f).
Proof. intros w. simpl. reflexivity. Qed.
Lemma qpres_get {A} (f : QWorld → A) : qpres e R (qget f).
Proof. intros w. simpl. reflexivity. Qed.
Lemma qpres_ctxErr : qpres e R qctxErr.
Proof. intros w. simpl. reflexivity. Qed.
Lemma qpres_encErr : qpres e R encErr.
Proof. intros w. simpl. reflexivity. Qed.
Lemma qpres_mod f : (∀ w, R w (f w)) → qpres e R (qmod f).
Proof. intros Hf w. apply Hf. Qed.
Lemma qpres_bind {A B} (m : Q_ A) (k : A → Q_ B) : qpres e R m → (∀ a, qpres e R (k a)) → qpres e R (qbind m k).
Proof.
  intros Hm Hk w. unfold qbind. specialize (Hm w). destruct (m e w) as [a w']. etrans; [exact Hm|apply Hk].
Qed.
Lemma qpres_db {A} d (op : Z → DB A) :
  (∀ w, R w (qbump e w)) → (∀ now w, R w (qset_store (op now (q_store w)).2 w)) → qpres e R (qdb_in d op).
Proof.
  intros Hb Hop w. unfold qdb_in. destruct (_ && _); [apply Hb|]. destruct (q_db_fault _ _); [apply Hb|].
  specialize (Hop (q_clock e (q_tick w)) w).
  destruct (op _ _) as [[a|x] s]; simpl in *; (etrans; [exact Hop|apply Hb]).
Qed.
End frames.

(** The queue, what is wanted of the discs, well-formedness and every file keep; new names are links. *)
Record filing (D : Store → Store → Prop) (w w' : QWorld) : Prop := {
  fl_tc : transcodes (q_store w') = transcodes (q_store w);
  fl_discs : store_wf (q_store w) → D (q_store w) (q_store w');
  fl_wf : store_wf (q_store w) → store_wf (q_store w');
  fl_fs : q_fs w ⊆ q_fs w';
  fl_src : ∀ p f, q_fs w' !! p = Some f → ∃ src, q_fs w !! src = Some f;
}.

Section filing.
Context (D : Store → Store → Prop) `{!DiscRel D}.

#[export] Instance filing_preorder : PreOrder (filing D).
Proof.
  split.
  - intros w. split; eauto; done.
  - intros w1 w2 w3 [T1 D1 W1 F1 S1] [T2 D2 W2 F2 S2]. split; [congruence| |auto|by etrans|].
    + intros Hwf. etrans; [by apply D1|by apply D2, W1].
    + intros p f (src & Hsrc)%S2. by eapply S1.
Qed.

Lemma filing_store w s :
  transcodes s = transcodes (q_store w) → discs s = discs (q_store w) → (store_wf (q_store w) → store_wf s) →
  filing D w (qset_store s w).
Proof. intros. split; simpl; eauto; try done. intros _. by apply dr_same. Qed.

Lemma filing_same w w' : q_store w' = q_store w → q_fs w' = q_fs w → filing D w w'.
Proof. intros Es Ef. split; rewrite ?Es, ?Ef; eauto; done. Qed.

Context (e : QEnv) `{!apart D e}.

(** A sequence of the others' calls. *)
Lemma apart_ops n s ops : (∀ op, op ∈ ops → op ∈ q_meanwhile e n) →
  let s' := foldl (flip run_op) s ops in
  transcodes s' = transcodes s ∧ library_links s' = library_links s ∧ (store_wf s → store_wf s' ∧ D s s').
Proof.
  revert s. induction ops as [|op ops IH]; intros s Hops; cbn [foldl flip]; [done|].
  destruct (foreign_queue op s) as [Ht Hl]; [eapply ap_foreign, Hops; by left|].
  destruct (IH (run_op op s)) as (Ht' & Hl' & Hwf'); [intros op' Hop; apply Hops; by right|].
  split; [congruence|]. split; [congruence|]. intros Hwf. pose proof (run_op_wf op s Hwf) as Hwf1.
  destruct (Hwf' Hwf1) as [? ?]. split; [done|]. etrans; [|done]. eapply ap_discs; [apply Hops; by left|done].
Qed.
Lemma filing_bump w : filing D w (qbump e w).
Proof.
  destruct (apart_ops (q_tick w) (q_store w) (q_meanwhile e (q_tick w)) (λ _ H, H)) as (Ht & _ & Hwf).
  split; simpl; eauto; try done; intros H; by apply Hwf.
Qed.
Lemma bump_links w : library_links (q_store (qbump e w)) = library_links (q_store w).
Proof. by destruct (apart_ops (q_tick w) (q_store w) (q_meanwhile e (q_tick w)) (λ _ H, H)) as (_ & Hl & _). Qed.

Lemma filing_db {A} d (op : Z → DB A) :
  (∀ now s, transcodes (op now s).2 = transcodes s ∧ discs (op now s).2 = discs s) →
  (∀ now, keeps (op now)) → qpres e (filing D) (qdb_in d op).
Proof.
  intros Hop Hk. apply qpres_db; [apply _|apply filing_bump|]. intros now w. destruct (Hop now (q_store w)).
  apply filing_store; [done..|]. by apply keeps_snd.
Qed.

(** A query changes nothing. *)
Lemma filing_query {A} d (op : Z → DB A) : (∀ now s, (op now s).2 = s) → qpres e (filing D) (qdb_in d op).
Proof.
  intros Hop. apply qpres_db; [apply _|apply filing_bump|]. intros now w. rewrite Hop. by apply filing_same.
Qed.
End filing.

Lemma DiscWithTitles_reads discID s : (DiscWithTitles discID s).2 = s.
Proof. unfold DiscWithTitles, bind, queryRow, query, ret. by destruct (select1 _ _). Qed.

Lemma LogEvent_frame now l m j d s :
  transcodes (LogEvent now l m j d s).2 = transcodes s ∧ discs (LogEvent now l m j d s).2 = discs s.
Proof. unfold LogEvent, bind, references. by destruct (_ && _). Qed.

Lemma RecordLibraryLink_frame now discID i path s :
  transcodes (RecordLibraryLink now discID i path s).2 = transcodes s ∧
  discs (RecordLibraryLink now discID i path s).2 = discs s.
Proof. unfold RecordLibraryLink, bind, references. by destruct (_ || _). Qed.

(** Link creates a name for the source's file, or changes nothing. *)
Lemma Link_spec {F} mk lf src dst (fs : gmap string F) :
  match Link mk lf src dst fs with
  | Ok fs' => fs !! dst = None ∧ ∃ f, fs !! src = Some f ∧ fs' = <[dst := f]> fs
  | Err ErrExists => is_Some (fs !! dst)
  | Err _ => True
  end.
Proof. unfold Link. by repeat case_match; simplify_eq; eauto. Qed.

Section steps.
Context (D : Store → Store → Prop) `{!DiscRel D} (e : QEnv) `{!apart D e}.

Lemma logEvent_frame l m : qpres e (filing D) (logEvent l m).
Proof.
  unfold logEvent. apply qpres_bind; [apply _|apply qpres_mod; intros w; by apply filing_same|]. intros _.
  apply qpres_bind; [apply _| |intros _; apply qpres_ret, _].
  by apply (filing_db D e); [intros; apply LogEvent_frame|intros; apply LogEvent_keeps].
Qed.

Lemma record_link_frame discID i path :
  qpres e (filing D) (qdb (λ now, RecordLibraryLink now discID i path)).
Proof. by apply (filing_db D e); [intros; apply RecordLibraryLink_frame|intros; apply RecordLibraryLink_keeps]. Qed.

Lemma link_file_frame src dst : qpres e (filing D) (link_file src dst).
Proof.
  intros w. unfold link_file. pose proof (Link_spec (q_mkdir e (q_tick w)) (q_link e (q_tick w)) src dst (q_fs w)) as H.
  destruct (Link _ _ _ _ _) as [fs|x]; [|by apply (filing_bump D e)]. destruct H as (Hd & f & Hs & ->).
  etrans; [|by apply (filing_bump D e)]. split; simpl; [done..| |].
  - by apply insert_subseteq.
  - intros p g Hg. destruct (decide (p = dst)) as [->|Hp].
    + rewrite lookup_insert_eq in Hg. simplify_eq. eauto.
    + rewrite lookup_insert_ne in Hg by done. eauto.
Qed.

End steps.

(** Walk a program by its binds and branches. *)
Ltac qframe :=
  repeat match goal with
  | |- qpres _ (filing _) (qbind _ _) => apply qpres_bind; [apply _| |intros ?]
  | |- qpres _ (filing _) (qret _) => apply qpres_ret, _
  | |- qpres _ (filing _) (qask _) => apply qpres_ask, _
  | |- qpres _ (filing _) (qget _) => apply qpres_get, _
  | |- qpres _ (filing _) qctxErr => apply qpres_ctxErr, _
  | |- qpres _ (filing _) (logEvent _ _) => by apply logEvent_frame
  | |- qpres _ (filing _) (link_file _ _) => by apply link_file_frame
  | |- qpres _ (filing _) (qdb (λ _, RecordLibraryLink _ _ _ _)) => by apply record_link_frame
  | |- qpres _ (filing _) (qcall _) => intros ?; by apply (filing_bump _ _)
  | |- qpres _ (filing _) (snapshot _) => apply qpres_mod; intros ?; by apply filing_same
  | |- qpres _ (filing _) (qmod (qset_cancel _)) => apply qpres_mod; intros ?; by apply filing_same
  | |- qpres _ (filing _) (qmod (qset_wake _)) => apply qpres_mod; intros ?; by apply filing_same
  | |- qpres _ (filing _) (match ?x with _ => _ end) => destruct x
  end.

Section runner.
Context {U : Unicode} (D : Store → Store → Prop) `{!DiscRel D} (e : QEnv) `{!apart D e}.

Lemma fileTitle_frame discID i source : qpres e (filing D) (fileTitle discID i source).
Proof.
  unfold fileTitle. qframe. all: cbv zeta; qframe.
  apply (filing_query D e). intros. apply DiscWithTitles_reads.
Qed.

Lemma file_pending_frame us : qpres e (filing D) (file_pending us).
Proof.
  induction us as [|u us IH]; cbn [file_pending]; qframe; try done. apply fileTitle_frame.
Qed.

Lemma fileUnfiled_frame : qpres e (filing D) fileUnfiled.
Proof. unfold fileUnfiled. qframe; [by apply (filing_query D e)|apply file_pending_frame]. Qed.

Lemma refresh_frame : qpres e (filing D) refreshTranscodeCounts.
Proof. unfold refreshTranscodeCounts. qframe. by apply (filing_query D e). Qed.

Lemma probe_job_frame job : qpres e (filing D) (probe_job job).
Proof. unfold probe_job. qframe. by apply (filing_query D e). Qed.

Lemma logStreams_frame label sel : qpres e (filing D) (logStreams label sel).
Proof. unfold logStreams. qframe. Qed.
End runner.
