(* ===== verification/TranscoderFacts.v ===== *)
(** * What the queue runner guarantees

    Every encode settles its job or fails to record it, the queue drains, filing replaces nothing and
    records only names that lead to a file; and what a cancellation and a taken
    name lead to. *)

From Stdlib Require Import QArith_base.
From S2P Require Import Prelude GoText GoPath Table Disc Store Queue StoreWf StoreQueue Background Library LibraryPlan Encoder EncoderFacts Transcoder TranscoderFrame.
#[local] Open Scope Z_scope.

(** ** Filing *)

(** Every recorded link leads to a file. *)
Definition links_live (w : QWorld) : Prop :=
  Forall (λ r, is_Some (q_fs w !! l_path r)) (library_links (q_store w)).

Record live (w w' : QWorld) : Prop := {
  lv_fs : q_fs w ⊆ q_fs w';
  lv_links : links_live w → links_live w';
}.
#[global] Instance live_preorder : PreOrder live.
Proof.
  split; [by split|]. intros w1 w2 w3 [F1 L1] [F2 L2]. split; [by etrans|auto].
Qed.

Lemma links_live_mono w w' :
  library_links (q_store w') = library_links (q_store w) → q_fs w ⊆ q_fs w' → live w w'.
Proof.
  intros El Hf. split; [done|]. unfold links_live. rewrite El. intros H. eapply Forall_impl; [exact H|].
  simpl. intros r [f Hr]. exists f. by eapply lookup_weaken.
Qed.

Section live.
Context (e : QEnv) `{!apart any_discs e}.

Lemma live_bump w : live w (qbump e w).
Proof. apply links_live_mono; [by apply (bump_links any_discs)|done]. Qed.

Lemma live_db {A} d (op : Z → DB A) :
  (∀ now s, library_links (op now s).2 = library_links s) → qpres e live (qdb_in d op).
Proof.
  intros Hop. apply qpres_db; [apply _|apply live_bump|]. intros. by apply links_live_mono; simpl.
Qed.

Lemma live_logEvent l m : qpres e live (logEvent l m).
Proof.
  unfold logEvent. apply qpres_bind; [apply _|apply qpres_mod; intros w; by apply links_live_mono|]. intros _.
  apply qpres_bind; [apply _| |intros _; apply qpres_ret, _]. apply live_db. intros.
  unfold LogEvent, bind, references. by destruct (_ && _).
Qed.

Lemma live_link src dst : qpres e live (link_file src dst).
Proof.
  intros w. unfold link_file. pose proof (Link_spec (q_mkdir e (q_tick w)) (q_link e (q_tick w)) src dst (q_fs w)) as H.
  destruct (Link _ _ _ _ _) as [fs|x]; [|apply live_bump]. destruct H as (Hd & f & _ & ->).
  etrans; [|apply live_bump]. apply links_live_mono; [done|]. by apply insert_subseteq.
Qed.

Lemma live_record d discID i path w :
  is_Some (q_fs w !! path) → live w (qdb_in d (λ now, RecordLibraryLink now discID i path) e w).2.
Proof.
  intros Hp. unfold qdb_in. destruct (_ && _); [apply live_bump|]. destruct (q_db_fault _ _); [apply live_bump|].
  unfold RecordLibraryLink, bind, references. destruct (_ || _); cbn [exec]; (etrans; [|apply live_bump]); [|by apply links_live_mono].
  split; [done|]. unfold links_live. simpl. intros H. apply Forall_upsert; [|done|done]. by intros.
Qed.

(** The name is taken after a link, made or found. *)
Lemma link_file_taken src dst w :
  match (link_file src dst e w).1 with
  | Ok _ | Err ErrExists => is_Some (q_fs (link_file src dst e w).2 !! dst)
  | Err _ => True
  end.
Proof.
  unfold link_file. pose proof (Link_spec (q_mkdir e (q_tick w)) (q_link e (q_tick w)) src dst (q_fs w)) as H.
  destruct (Link _ _ _ _ _) as [fs|[|m]]; simpl; [|done|done].
  destruct H as (_ & f & _ & ->). rewrite lookup_insert_eq. eauto.
Qed.

Lemma live_bind {A B} (m : Q_ A) (k : A → Q_ B) w :
  live w (m e w).2 → (∀ a, qpres e live (k a)) → live w (qbind m k e w).2.
Proof. intros Hm Hk. unfold qbind. destruct (m e w) as [a w']. etrans; [exact Hm|apply Hk]. Qed.

Context {U : Unicode}.

Lemma fileTitle_live discID i source : qpres e live (fileTitle discID i source).
Proof.
  unfold fileTitle. apply qpres_bind; [apply _|apply qpres_ask, _|]. intros on. destruct (negb on); [apply qpres_ret, _|].
  apply qpres_bind; [apply _|apply live_db; intros; by rewrite DiscWithTitles_reads|]. intros [rec|m]; [|apply live_logEvent].
  apply qpres_bind; [apply _|apply qpres_ask, _|]. intros lib. cbv zeta.
  destruct (List.find _ _) as [p|]; [|apply qpres_ret, _]. intros w. unfold qbind at 1.
  pose proof (link_file_taken source (pl_Path p) w) as Ht. pose proof (live_link source (pl_Path p) w) as Hl.
  destruct (link_file source (pl_Path p) e w) as [r w1]. cbn [fst snd] in *. etrans; [exact Hl|]. clear Hl.
  destruct r as [u|[|m]]; [|apply live_bind; [by apply live_record|intros _; apply qpres_ret, _]|apply live_logEvent].
  apply live_bind; [by apply live_record|]. intros r.
  apply qpres_bind; [apply _|destruct r; [apply qpres_ret, _|apply live_logEvent]|]. intros _. apply live_logEvent.
Qed.

Lemma file_pending_live us : qpres e live (file_pending us).
Proof.
  induction us as [|u us IH]; cbn [file_pending]; [apply qpres_ret, _|].
  apply qpres_bind; [apply _|apply qpres_ctxErr, _|]. intros [|]; [apply qpres_ret, _|].
  apply qpres_bind; [apply _|apply qpres_get, _|]. intros fs. apply qpres_bind; [apply _| |done].
  destruct (fs !! _); [apply fileTitle_live|apply qpres_ret, _].
Qed.

Lemma fileUnfiled_live : qpres e live fileUnfiled.
Proof.
  unfold fileUnfiled. apply qpres_bind; [apply _|apply qpres_ask, _|]. intros [|]; [|apply qpres_ret, _]. cbn [negb].
  apply qpres_bind; [apply _|by apply live_db|]. intros [us|m]; [apply file_pending_live|].
  apply qpres_bind; [apply _|apply qpres_ctxErr, _|]. intros [|]; [apply qpres_ret, _|apply live_logEvent].
Qed.
End live.

(** C26: Filing, of one title or of everything unfiled, whatever fails on the way, replaces and
    removes no file, creates only links to files that were there, and keeps every link it records
    leading to a file. The workers' writes between its calls do not upset this. *)
Theorem filing_replaces_nothing `{Unicode} e w discID titleIndex source :
  apart any_discs e →
  let w1 := (fileTitle discID titleIndex source e w).2 in
  let w2 := (fileUnfiled e w).2 in
  Forall (λ w', q_fs w ⊆ q_fs w' ∧ (∀ p f, q_fs w' !! p = Some f → ∃ src, q_fs w !! src = Some f) ∧
    (links_live w → links_live w')) [w1; w2].
Proof.
  intros Ha. cbv zeta.
  pose proof (fileTitle_live e discID titleIndex source w). pose proof (fileTitle_frame any_discs e discID titleIndex source w).
  pose proof (fileUnfiled_live e w). pose proof (fileUnfiled_frame any_discs e w).
  repeat constructor; by (eapply lv_fs || eapply fl_src || eapply lv_links).
Qed.

(** ** A name that is taken *)

(** A machine on which nothing fails and nobody shuts down. *)
Definition calm (e : QEnv) : Prop := q_cancel_at e = None ∧ ∀ n, q_db_fault e n = false.

Lemma qdb_calm {A} d (op : Z → DB A) e w :
  calm e → qdb_in d op e w =
    match op (q_clock e (q_tick w)) (q_store w) with
    | (Ok a, s) => (Ok a, qbump e (qset_store s w))
    | (Err x, s) => (Err (storeErr_text x), qbump e (qset_store s w))
    end.
Proof. intros [Hc Hf]. unfold qdb_in, qcancelled. by rewrite Hc, Hf, andb_false_r. Qed.

Lemma DiscWithTitles_has discID s rec s' : DiscWithTitles discID s = (Ok rec, s') → has_disc discID s = true.
Proof.
  unfold DiscWithTitles, bind, queryRow. destruct (select1 _ _) as [d|] eqn:E; [|done]. intros _.
  apply select1_Some in E as [Hd Hi]. unfold has_disc. apply existsb_true_elem. eauto.
Qed.

Lemma RecordLibraryLink_ok now discID i path s :
  has_disc discID s = true → ∃ s', RecordLibraryLink now discID i path s = (Ok tt, s').
Proof. intros Hd. unfold RecordLibraryLink, bind, references, exec. rewrite Hd, orb_true_r. eauto. Qed.

Lemma recorded_link now discID i path s :
  has_disc discID s = true →
  (LibraryLink discID i (RecordLibraryLink now discID i path s).2).1 = Ok (path, true).
Proof.
  intros Hd. unfold RecordLibraryLink, bind, references, exec. rewrite Hd, orb_true_r.
  unfold LibraryLink, query. cbn [snd fst library_links set_links]. rewrite select1_upsert_same.
  - by destruct (select1 _ _).
  - intros r. done.
  - unfold link_is. simpl. by rewrite !Z.eqb_refl.
Qed.

(** Nobody else writes to the database meanwhile. *)
Definition alone (e : QEnv) : Prop := ∀ n, q_meanwhile e n = [].
Lemma qbump_alone e w : alone e → q_store (qbump e w) = q_store w.
Proof. intros Ha. unfold qbump. by rewrite Ha. Qed.
Lemma alone_apart D e : DiscRel D → alone e → apart D e.
Proof. intros _ Ha. split; intros n op; intros; rewrite Ha in *; by destruct (not_elem_of_nil op). Qed.

(** When something is already at a title's place in the library, filing the title records that
    place as its own, says nothing, and takes the title off the reconciliation list, whether or
    not the file there is the title's: two films whose discs carry the same label are planned at
    the same place, and the second one never reaches the library. *)
Theorem taken_name_counts_as_filed `{Unicode} e w discID i source rec p other :
  calm e → alone e → c_FileToLibrary (q_cfg e) = true → (∀ n, q_mkdir e n = None) →
  DiscWithTitles discID (q_store w) = (Ok rec, q_store w) →
  List.find (λ p, pl_TitleIndex p =? i) (Plan (c_LibraryDir (q_cfg e)) rec (Classify (d_Titles rec))) = Some p →
  q_fs w !! pl_Path p = Some other →
  let w' := (fileTitle discID i source e w).2 in
  q_fs w' = q_fs w ∧ q_log w' = q_log w ∧
  (LibraryLink discID i (q_store w')).1 = Ok (pl_Path p, true) ∧
  ∀ us, (UnfiledTranscodes (q_store w')).1 = Ok us → Forall (λ u, ¬ (u_DiscID u = discID ∧ u_TitleIndex u = i)) us.
Proof.
  intros Hc Ha Hon Hmk Hrec Hp Hfs. pose proof (DiscWithTitles_has _ _ _ _ Hrec) as Hd.
  set (w1 := qbump e (qbump e (qset_store (q_store w) w))).
  assert (q_store w1 = q_store w) as Hw1 by (unfold w1; by rewrite !qbump_alone).
  assert ((fileTitle discID i source e w).2 =
    qbump e (qset_store (RecordLibraryLink (q_clock e (q_tick w1)) discID i (pl_Path p) (q_store w)).2 w1)) as ->.
  { unfold fileTitle, qbind, qask. rewrite Hon. cbn [negb]. unfold qdb. rewrite (qdb_calm _ (λ _, DiscWithTitles discID)) by done.
    rewrite Hrec. cbv beta iota zeta. rewrite Hp. unfold link_file, Link. rewrite Hmk. cbn [q_fs qbump qset_store].
    rewrite Hfs. cbv beta iota zeta. rewrite qdb_calm by done. fold w1.
    destruct (RecordLibraryLink_ok (q_clock e (q_tick w1)) discID i (pl_Path p) (q_store w) Hd) as [s' Es].
    by rewrite Hw1, Es. }
  cbv zeta. split; [done|]. split; [done|]. rewrite qbump_alone by done. cbn [q_store qset_store]. split; [by apply recorded_link|].
  intros us Hus. apply Forall_forall. intros u Hu Heq.
  apply (elem_of_UnfiledTranscodes _ u us Hus) in Hu as [_ Hl].
  by apply (RecordLibraryLink_links _ discID i (pl_Path p) (q_store w) u Hd) in Hl as [_ []].
Qed.

(** ** Settling a job *)

Section settling.
Context {U : Unicode}.

(** What the runner records about a job. *)
Definition settle (now : Z) (job : TranscodeJob) (stopped : bool) (r : outcome string Result) : DB unit :=
  if stopped then RequeueTranscode (tj_ID job)
  else match r with
       | Err m => FailTranscode now (tj_ID job) m
       | Ok res => FinishTranscode now (tj_ID job) (res_Path res) (res_SizeBytes res) (res_Hardware res)
       end.

Lemma settle_ok now job stopped r s : ∃ s', settle now job stopped r s = (Ok tt, s').
Proof. unfold settle. destruct stopped; [|destruct r]; eexists; done. Qed.

Lemma settle_keeps now job stopped r : keeps (settle now job stopped r).
Proof. unfold settle. destruct stopped; [|destruct r]; auto with hellbox. Qed.

Lemma settle_discs now job stopped r s : discs (settle now job stopped r s).2 = discs s.
Proof. unfold settle. by destruct stopped; [|destruct r]. Qed.

Context (D : Store → Store → Prop) `{!DiscRel D} (e : QEnv) `{!apart D e}.

(** A call that cannot fail by itself, and what follows it. *)
Lemma filing_after_db {B} d (op : Z → DB unit) (k : outcome string unit → Q_ B) w :
  (∃ s', op (q_clock e (q_tick w)) (q_store w) = (Ok tt, s')) → (d = false → qcancelled e (q_tick w) = false) →
  (∀ o, qpres e (filing D) (k o)) →
  filing D (qset_store (if q_db_fault e (q_tick w) then q_store w else (op (q_clock e (q_tick w)) (q_store w)).2) w)
    (qbind (qdb_in d op) k e w).2.
Proof.
  intros [s' Ho] Hc Hk. unfold qbind, qdb_in.
  assert (negb d && qcancelled e (q_tick w) = false) as -> by (destruct d; [done|by apply Hc]).
  destruct (q_db_fault e (q_tick w)); [|rewrite Ho]; (etrans; [|apply Hk]); [|by apply (filing_bump D e)].
  etrans; [|by apply (filing_bump D e)]. by apply filing_same.
Qed.

(** What recording the encode leaves: the job settled, or the database as it was when the call fails. *)
Definition stopped_at (n : nat) : bool := qcancelled e n || q_stop e n.
Lemma record_encode_frame w job label r :
  let s' := if q_db_fault e (q_tick w) then q_store w
            else (settle (q_clock e (q_tick w)) job (stopped_at (q_tick w)) r (q_store w)).2 in
  filing D (qset_store s' w) (record_encode job label r e w).2.
Proof.
  cbv zeta. unfold record_encode. cbv zeta. unfold qbind at 1. unfold encErr at 1. fold (stopped_at (q_tick w)).
  destruct (stopped_at (q_tick w)) eqn:Es; cbn [settle].
  - apply (filing_after_db true (λ _, RequeueTranscode (tj_ID job))); [by eexists|done|]. intros o. qframe.
  - apply orb_false_iff in Es as [Hcc _]. destruct r as [res|m].
    + apply (filing_after_db false (λ now, FinishTranscode now (tj_ID job) (res_Path res) (res_SizeBytes res) (res_Hardware res)));
        [by eexists|done|]. intros o. qframe; [by apply fileTitle_frame|by apply logStreams_frame].
    + apply (filing_after_db false (λ now, FailTranscode now (tj_ID job) m)); [by eexists|done|]. intros o. qframe.
Qed.

Lemma output_base dir job : Base (transcodeOutputPath dir job) = TitleFileName (tj_TitleIndex job).
Proof.
  unfold transcodeOutputPath. apply (Base_Join [dir; Base (Dir (tj_SourcePath job))]).
  - unfold TitleFileName, slash_free. rewrite !str_forall_app. pose proof (itoa02_slash_free (tj_TitleIndex job)) as H.
    unfold slash_free in H. by rewrite H.
  - apply plain_long. unfold TitleFileName. rewrite !len_app. pose proof (len_nonneg (itoa02 (tj_TitleIndex job))).
    change (len "title_") with 6. change (len ".mkv") with 4. lia.
Qed.

(** The world in which the encode has ended: the queue is the one before, and a success has put
    its file at the output path. *)
Record encoded (w : QWorld) (job : TranscodeJob) (r : outcome string Result) (wm : QWorld) : Prop := {
  ed_tc : transcodes (q_store wm) = transcodes (q_store w);
  ed_discs : store_wf (q_store w) → D (q_store w) (q_store wm);
  ed_wf : store_wf (q_store w) → store_wf (q_store wm);
  ed_out : ∀ res, r = Ok res → res_Path res = transcodeOutputPath (c_TranscodedDir (q_cfg e)) job ∧
    f_size <$> q_fs wm !! res_Path res = Some (res_SizeBytes res);
}.

Lemma encode_file_spec src dst p d w :
  Base dst ≠ "/" →
  let '(r, w') := encode_file src dst p d e w in
  q_store w' = q_store (qbump e w) ∧ ∀ res, r = Ok res → res_Path res = dst ∧ f_size <$> q_fs w' !! res_Path res = Some (res_SizeBytes res).
Proof.
  intros Hb. unfold encode_file. split; [done|]. intros res Hres.
  destruct (Transcode_states (q_enc e) (q_encode e (q_tick w)) src dst p d (q_fs w) Hb) as (_ & final & Hh & Hr).
  rewrite Hres in Hr. destruct Hr as (_ & _ & -> & Hsz). split; [done|]. cbn [q_fs qbump qset_snap qset_fs]. by rewrite Hh.
Qed.

Lemma transcodeOne_encoded w job :
  ∃ r wm label, encoded w job r wm ∧
    (transcodeOne job e w).2 = (clearCurrent e (qset_cancel false (record_encode job label r e wm).2)).2.
Proof.
  unfold transcodeOne, qbind, qask, snapshot, qmod. cbv zeta.
  match goal with |- context [probe_job job e ?w0] => set (w1 := w0) end.
  assert (filing D w w1) as Hw1 by by apply filing_same.
  pose proof (probe_job_frame D e job w1) as Hp. destruct (probe_job job e w1) as [p w2]. cbn [fst snd] in *.
  match goal with |- context [(if so_Interlaced p.1 then ?a else ?b) e w2] => set (m := if so_Interlaced p.1 then a else b) end.
  assert (filing D w2 (m e w2).2) as Hm.
  { unfold m. destruct (so_Interlaced p.1); [by apply logEvent_frame|reflexivity]. }
  destruct (m e w2) as [u w3]. clear m. cbn [fst snd] in *.
  match goal with |- context [encode_file ?a ?b ?c ?d e w3] => pose proof (encode_file_spec a b c d w3) as He; destruct (encode_file a b c d e w3) as [r w4] end.
  destruct He as [Es Eo]; [rewrite output_base; by intros ?%(f_equal (String.get 0))|].
  match goal with |- context [record_encode job ?l r e w4] => exists r, w4, l end.
  assert (filing D w (qbump e w3)) as [T Di W _ _].
  { etrans; [exact Hw1|]. etrans; [exact Hp|]. etrans; [exact Hm|]. by apply (filing_bump D e). }
  split; [split; rewrite ?Es; auto|]. by destruct (record_encode _ _ _ _ _).
Qed.
End settling.

(** The row a settled job has. *)
Definition settled_row (now : Z) (stopped : bool) (r : outcome string Result) (x : transcodeRow) : transcodeRow :=
  if stopped then
    mkTranscodeRow (tc_id x) (tc_disc_id x) (tc_title_index x) TranscodePending (tc_profile x)
      (tc_source_path x) (tc_output_path x) (tc_size_bytes x) (Z.max (tc_attempt x - 1) 0)
      (tc_hardware x) (tc_created_at x) None None (tc_error x)
  else match r with
  | Err m => mkTranscodeRow (tc_id x) (tc_disc_id x) (tc_title_index x) TranscodeFailed (tc_profile x)
      (tc_source_path x) (tc_output_path x) (tc_size_bytes x) (tc_attempt x) (tc_hardware x)
      (tc_created_at x) (tc_started_at x) (Some now) (Some m)
  | Ok res => mkTranscodeRow (tc_id x) (tc_disc_id x) (tc_title_index x) TranscodeComplete (tc_profile x)
      (tc_source_path x) (Some (res_Path res)) (res_SizeBytes res) (tc_attempt x) (res_Hardware res)
      (tc_created_at x) (tc_started_at x) (Some now) None
  end.

Lemma settle_rows now job stopped r s :
  transcodes (settle now job stopped r s).2 =
  update_where (λ x, tc_id x =? tj_ID job) (settled_row now stopped r) (transcodes s).
Proof. unfold settle, settled_row. by destruct stopped; [|destruct r]. Qed.

Lemma settled_row_id now stopped r x : tc_id (settled_row now stopped r x) = tc_id x.
Proof. unfold settled_row. by destruct stopped; [|destruct r]. Qed.

Section outcomes.
Context {U : Unicode} (D : Store → Store → Prop) `{!DiscRel D} (e : QEnv) `{!apart D e}.

Lemma transcodeOne_rows w job :
  let w' := (transcodeOne job e w).2 in
  q_cancelTranscode w' = false ∧ x_Running (q_snap w') = false ∧
  (store_wf (q_store w) → store_wf (q_store w')) ∧ (store_wf (q_store w) → D (q_store w) (q_store w')) ∧
  ∃ now n r, transcodes (q_store w') =
      (if q_db_fault e n then transcodes (q_store w)
       else update_where (λ x, tc_id x =? tj_ID job) (settled_row now (stopped_at e n) r) (transcodes (q_store w))) ∧
    ∀ res, r = Ok res → res_Path res = transcodeOutputPath (c_TranscodedDir (q_cfg e)) job ∧
      f_size <$> q_fs w' !! res_Path res = Some (res_SizeBytes res).
Proof.
  cbv zeta. destruct (transcodeOne_encoded D e w job) as (r & wm & label & [T Di W O] & ->).
  pose proof (record_encode_frame D e wm job label r) as [T' D' W' F' _].
  set (wr := (record_encode job label r e wm).2) in *. cbn [q_store qset_store q_fs] in *.
  set (s' := if q_db_fault e (q_tick wm) then _ else _) in *.
  assert ((store_wf (q_store wm) → store_wf s') ∧ discs s' = discs (q_store wm)) as [Hk Hds].
  { unfold s'. destruct (q_db_fault _ _); [done|]. split; [apply keeps_snd, settle_keeps|apply settle_discs]. }
  unfold clearCurrent, snapshot, qmod. cbn [snd q_store q_cancelTranscode q_snap qset_snap qset_cancel x_Running q_fs].
  split; [done|]. split; [done|]. split; [auto|]. split.
  { intros Hwf. etrans; [by apply Di|]. etrans; [|by apply D', Hk, W]. by apply dr_same. }
  exists (q_clock e (q_tick wm)), (q_tick wm), r. split.
  { rewrite T', <- T. unfold s'. destruct (q_db_fault _ _); [done|]. apply settle_rows. }
  intros res Hres. destruct (O res Hres) as [-> Hf]. split; [done|].
  apply fmap_Some in Hf as (f & Hf & ->). by rewrite (lookup_weaken _ _ _ _ Hf F').
Qed.

(** On a machine on which nothing fails the job is settled. *)
Lemma transcodeOne_rows_calm w job :
  calm e →
  let w' := (transcodeOne job e w).2 in
  (store_wf (q_store w) → store_wf (q_store w')) ∧ (store_wf (q_store w) → D (q_store w) (q_store w')) ∧
  ∃ now n r, transcodes (q_store w') =
    update_where (λ x, tc_id x =? tj_ID job) (settled_row now (q_stop e n) r) (transcodes (q_store w)).
Proof.
  intros [Hc Hf]. cbv zeta. destruct (transcodeOne_rows w job) as (_ & _ & ? & ? & now & n & r & Hr & _).
  split; [done|]. split; [done|]. exists now, n, r. rewrite Hr, Hf. unfold stopped_at, qcancelled. by rewrite Hc.
Qed.
End outcomes.

(** C9: An encode settles its job, or a database call failed.  Whatever fails
    and whether or not the daemon is being stopped, after an encode no encode is
    shown as running and there is none to cancel, and the job is in one of four
    states: stopped by a person or by the daemon's stop, it waits again with the
    attempt given back; failed, the reason is recorded; complete, and then only
    with the output file in place at the recorded path, of the recorded size; or
    as it was, still marked as running, when the database call that was to
    record it failed.  No other job changes.  The rest of the daemon goes on
    writing to the database all the while, but not to the queue. *)
Theorem transcodeOne_settles `{Unicode} e w job x :
  apart any_discs e → select1 (λ r, tc_id r =? tj_ID job) (transcodes (q_store w)) = Some x →
  let w' := (transcodeOne job e w).2 in
  q_cancelTranscode w' = false ∧ x_Running (q_snap w') = false ∧
  (∃ y, select1 (λ r, tc_id r =? tj_ID job) (transcodes (q_store w')) = Some y ∧
    (tc_state y = TranscodePending ∧ tc_attempt y = Z.max (tc_attempt x - 1) 0 ∧ (∃ n, q_stop e n = true ∨ qcancelled e n = true) ∨
     tc_state y = TranscodeFailed ∧ is_Some (tc_error y) ∧ tc_attempt y = tc_attempt x ∨
     (tc_state y = TranscodeComplete ∧ ∃ f, tc_output_path y = Some (transcodeOutputPath (c_TranscodedDir (q_cfg e)) job) ∧
       q_fs w' !! transcodeOutputPath (c_TranscodedDir (q_cfg e)) job = Some f ∧ tc_size_bytes y = f_size f) ∨
     y = x ∧ ∃ n, q_db_fault e n = true)) ∧
  ∀ i, i ≠ tj_ID job →
    select1 (λ r, tc_id r =? i) (transcodes (q_store w')) = select1 (λ r, tc_id r =? i) (transcodes (q_store w)).
Proof.
  intros Ha Hx. cbv zeta. destruct (transcodeOne_rows any_discs e w job) as (? & ? & _ & _ & now & n & r & -> & Hout).
  split; [done|]. split; [done|]. destruct (q_db_fault e n) eqn:Ef; [split; [exists x; split; [done|]; do 3 right; by eauto|done]|]. split.
  - exists (settled_row now (stopped_at e n) r x). split.
    { rewrite select1_update_same by (intros; by rewrite settled_row_id). by rewrite Hx. }
    unfold settled_row. destruct (stopped_at e n) eqn:Es.
    { left. split; [done|]. split; [done|]. exists n. apply orb_true_iff in Es. tauto. }
    right. destruct r as [res|m]; [right; left|left; by eauto].
    destruct (Hout res eq_refl) as [Hp Hf]. apply fmap_Some in Hf as (f & Hf & Hsz). rewrite Hp in Hf.
    split; [done|]. exists f. split; [by simpl; rewrite Hp|done].
  - intros i Hi. apply select1_update_other. intros y _ Hy%Z.eqb_eq. rewrite settled_row_id, Hy. split; by apply Z.eqb_neq.
Qed.

(** ** Draining the queue *)

Definition finished (r : transcodeRow) : Prop := tc_state r = TranscodeComplete ∨ tc_state r = TranscodeFailed.

(** What a job is for. *)
Definition job_of (r : transcodeRow) : Z * Z * Z * string := (tc_id r, tc_disc_id r, tc_title_index r, tc_source_path r).
Lemma job_of_id x y : job_of y = job_of x → tc_id y = tc_id x.
Proof. unfold job_of. congruence. Qed.

(** A queue in which some waiting jobs have been finished and nothing else happened. *)
Definition advanced (max : Z) : list transcodeRow → list transcodeRow → Prop :=
  Forall2 (λ x y, job_of y = job_of x ∧ (y = x ∨ (waiting max x ∧ finished y))).

#[global] Instance waiting_dec max r : Decision (waiting max r).
Proof. unfold waiting. apply _. Defined.

Lemma finished_not_waiting max r : finished r → ¬ waiting max r.
Proof. intros Hf [Hw _]. destruct Hf as [E|E]; congruence. Qed.

Lemma advanced_refl max l : advanced max l l.
Proof. unfold advanced. induction l; constructor; auto. Qed.

Lemma advanced_trans max l1 l2 l3 : advanced max l1 l2 → advanced max l2 l3 → advanced max l1 l3.
Proof.
  unfold advanced. intros H. revert l3. induction H as [|x y l k [Hid Hxy] _ IH]; intros l3 H3; inversion H3; subst; constructor; auto.
  match goal with H : job_of _ = job_of y ∧ _ |- _ => destruct H as [Hid' [->|[Hw Hf]]] end; split; [congruence|done|congruence|].
  right. split; [|done]. destruct Hxy as [->|[_ Hy]]; [done|]. by apply finished_not_waiting with (max := max) in Hy.
Qed.

(** How many jobs are waiting. *)
Definition backlog (max : Z) (l : list transcodeRow) : nat := length (filter (waiting max) l).

Lemma advanced_backlog max l k :
  advanced max l k → (backlog max k ≤ backlog max l)%nat ∧
    ((∃ x y, x ∈ l ∧ waiting max x ∧ y ∈ k ∧ tc_id y = tc_id x ∧ finished y) → NoDup (map tc_id l) → (backlog max k < backlog max l)%nat).
Proof.
  unfold advanced, backlog. induction 1 as [|x y l k [Hid Hxy] Hlk [IHle IHlt]].
  { split; [done|]. by intros (x & _ & ?%not_elem_of_nil & _). }
  rewrite !filter_cons. split.
  - destruct Hxy as [->|[Hw Hf]]; [case_decide; simpl; lia|].
    rewrite (decide_True _ _ Hw), decide_False by (by apply finished_not_waiting). simpl. lia.
  - intros (a & b & Ha & Hwa & Hb & Hab & Hfb) Hnd. cbn [map] in Hnd. apply NoDup_cons in Hnd as [Hx Hnd].
    destruct Hxy as [->|[Hw Hf]].
    + assert ((backlog max k < backlog max l)%nat) as Hlt; [|unfold backlog in Hlt; case_decide; simpl; lia].
      apply IHlt; [|done]. apply elem_of_cons in Ha as [->|Ha].
      * exfalso. apply elem_of_cons in Hb as [->|Hb]; [by apply (finished_not_waiting max) in Hfb|].
        apply Hx. rewrite <- Hab. clear -Hlk Hb. induction Hlk as [|u v l k [E%job_of_id _] _ IH]; [by apply not_elem_of_nil in Hb|].
        apply elem_of_cons in Hb as [->|Hb]; cbn [map]; [rewrite E; by left|right; by apply IH].
      * exists a, b. apply elem_of_cons in Hb as [->|Hb]; [|done].
        exfalso. apply Hx. rewrite Hab. by apply list_elem_of_In, in_map, list_elem_of_In.
    + rewrite (decide_True _ _ Hw), decide_False by (by apply finished_not_waiting). simpl. lia.
Qed.

Lemma Forall2_update_where {R} (P : R → R → Prop) (p : R → bool) f (rows : list R) :
  (∀ r, r ∈ rows → P r (if p r then f r else r)) → Forall2 P rows (update_where p f rows).
Proof.
  unfold update_where. induction rows as [|r rows IH]; intros H; constructor; [apply H; by left|]. apply IH. intros x Hx. apply H. by right.
Qed.

Section draining.
Context {U : Unicode} (D : Store → Store → Prop) `{!DiscRel D} (e : QEnv) `{!apart D e}.

Lemma NextTranscode_discs now m s : discs (NextTranscode now m s).2 = discs s.
Proof. unfold NextTranscode, tx. by destruct (select_min _ _). Qed.

(** The world in which the encode of a claimed job begins. *)
Lemma claimed w now j s1 :
  store_wf (q_store w) → NextTranscode now maxTranscodeAttempts (q_store w) = (Ok (Some j), s1) →
  let w1 := qbump e (qset_store s1 w) in
  transcodes (q_store w1) = transcodes s1 ∧ store_wf (q_store w1) ∧ D (q_store w) (q_store w1).
Proof.
  intros Hwf E. cbv zeta. pose proof (NextTranscode_keeps now maxTranscodeAttempts _ Hwf) as Hwf1. rewrite E in Hwf1.
  pose proof (NextTranscode_discs now maxTranscodeAttempts (q_store w)) as Hd1. rewrite E in Hd1.
  destruct (filing_bump D e (qset_store s1 w)) as [T Di W _ _]. split; [done|]. split; [by apply W|].
  etrans; [by apply dr_same|by apply Di].
Qed.

(** One claimed job, encoded and settled. *)
Lemma drain_step w now j s1 :
  calm e → (∀ n, q_stop e n = false) → store_wf (q_store w) →
  NextTranscode now maxTranscodeAttempts (q_store w) = (Ok (Some j), s1) →
  let w2 := (transcodeOne j e (qbump e (qset_store s1 w))).2 in
  store_wf (q_store w2) ∧ D (q_store w) (q_store w2) ∧
  advanced maxTranscodeAttempts (transcodes (q_store w)) (transcodes (q_store w2)) ∧
  (backlog maxTranscodeAttempts (transcodes (q_store w2)) < backlog maxTranscodeAttempts (transcodes (q_store w)))%nat.
Proof.
  intros Hc Hs Hwf E. cbv zeta. destruct (claimed w now j s1 Hwf E) as (Ht1 & Hwf1 & HD1).
  destruct (transcodeOne_rows_calm D e (qbump e (qset_store s1 w)) j Hc) as (Hwf' & HD' & now' & n & r & Hrows).
  destruct (NextTranscode_Some _ _ _ _ _ Hwf E) as (x & Hx & Hw & Hid & _ & _ & _ & _ & _ & ->).
  split; [by apply Hwf'|]. split; [etrans; [exact HD1|by apply HD']|]. rewrite Hrows, Hs, Ht1. cbn [transcodes set_transcodes].
  rewrite Hid, (update_where_twice _ _ (with_claim (tc_attempt x + 1) now)) by done.
  assert (∀ y, finished (settled_row now' false r (with_claim (tc_attempt x + 1) now y))) as Hfin.
  { intros y. unfold settled_row, finished. destruct r; auto. }
  assert (∀ y, job_of (settled_row now' false r (with_claim (tc_attempt x + 1) now y)) = job_of y) as Hjob.
  { intros y. unfold settled_row. by destruct r. }
  assert (NoDup (map tc_id (transcodes (q_store w)))) as Hnd by apply (wf_tc _ Hwf).
  set (rows := update_where _ _ _).
  assert (advanced maxTranscodeAttempts (transcodes (q_store w)) rows) as Hadv.
  { apply Forall2_update_where. intros y Hy. destruct (Z.eqb_spec (tc_id y) (tc_id x)) as [Ey|Ey]; [|by split; [|left]].
    split; [apply Hjob|]. right. split; [|done]. by rewrite (key_inj tc_id _ _ _ Hnd Hy Hx Ey). }
  split; [done|]. apply advanced_backlog; [done| |done].
  exists x, (settled_row now' false r (with_claim (tc_attempt x + 1) now x)). split_and!; try done.
  - apply elem_of_update_where. exists x. by rewrite Z.eqb_refl.
  - by rewrite settled_row_id.
Qed.
(** Enough fuel drains the queue: what waited is finished, and the discs stay. *)
Lemma drain_advances fuel w :
  calm e → (∀ n, q_stop e n = false) → store_wf (q_store w) →
  (backlog maxTranscodeAttempts (transcodes (q_store w)) < fuel)%nat →
  let '(r, w') := drain fuel e w in r = Drained ∧ store_wf (q_store w') ∧ D (q_store w) (q_store w') ∧
    advanced maxTranscodeAttempts (transcodes (q_store w)) (transcodes (q_store w')) ∧
    Forall (λ y, ¬ waiting maxTranscodeAttempts y) (transcodes (q_store w')).
Proof.
  intros Hc Hs. revert w. induction fuel as [|fuel IH]; intros w Hwf Hfuel; [lia|]. cbn [drain]. unfold qbind at 1, qdb.
  rewrite qdb_calm by done. set (now := q_clock e (q_tick w)).
  destruct (NextTranscode now maxTranscodeAttempts (q_store w)) as [[[j|]|x] s1] eqn:E.
  - destruct (drain_step w now j s1 Hc Hs Hwf E) as (Hwf2 & Hd2 & Hadv & Hlt). unfold qbind at 1.
    destruct (transcodeOne j e (qbump e (qset_store s1 w))) as [[] w2]. cbn [snd] in *.
    unfold qbind, qctxErr, qcancelled. destruct Hc as [Hc0 Hf]. rewrite Hc0.
    specialize (IH w2 Hwf2 ltac:(lia)). destruct (drain fuel e w2) as [r w']. destruct IH as (-> & ? & Hd & Hadv' & ?).
    split; [done|]. split; [done|]. split; [by etrans|]. split; [by eapply advanced_trans|done].
  - assert (s1 = q_store w) as -> by (unfold NextTranscode, tx in E; destruct (select_min _ _); by simplify_eq/=).
    destruct (filing_bump D e (qset_store (q_store w) w)) as [T Di W _ _]. cbn [q_store qset_store] in *.
    split; [done|]. split; [by apply W|]. split; [by apply Di|]. rewrite T. split; [apply advanced_refl|].
    apply (NextTranscode_None now maxTranscodeAttempts _ Hwf). eauto.
  - unfold NextTranscode, tx in E. by destruct (select_min _ _).
Qed.

End draining.

(** C10: With a working database and nobody stopping an encode or adding to the queue, but the
    workers going on with their discs between any two of its calls, the runner empties the queue: as many
    claims as there are jobs waiting within the budget, plus the one that finds none, are enough;
    afterwards nothing waits, every job that waited is complete or failed, for the same title of the
    same disc, and every other job is as it was. *)
Theorem drain_empties_queue `{Unicode} fuel e w :
  calm e → apart any_discs e → (∀ n, q_stop e n = false) → store_wf (q_store w) →
  (backlog maxTranscodeAttempts (transcodes (q_store w)) < fuel)%nat →
  let '(r, w') := drain fuel e w in
  r = Drained ∧ store_wf (q_store w') ∧
  Forall2 (λ x y, job_of y = job_of x ∧ if decide (waiting maxTranscodeAttempts x) then finished y else y = x)
    (transcodes (q_store w)) (transcodes (q_store w')).
Proof.
  intros Hc Ha Hs Hwf Hfuel. pose proof (drain_advances any_discs e fuel w Hc Hs Hwf Hfuel) as Hd.
  destruct (drain fuel e w) as [r w']. destruct Hd as (-> & Hwf' & _ & Hadv & Hno). split; [done|]. split; [done|].
  unfold advanced in Hadv. clear -Hadv Hno. induction Hadv as [|x y l k [Hid Hxy] _ IH]; constructor.
  - apply Forall_cons in Hno as [Hy _]. split; [done|]. destruct Hxy as [->|[Hw Hf]]; case_decide; tauto.
  - apply IH. by apply Forall_cons in Hno as [_ ?].
Qed.

(** ** A person stopping an encode *)

Lemma next_again now now' m now2 r0 s j s1 s2 :
  store_wf s → NextTranscode now m s = (Ok (Some j), s1) →
  transcodes s2 = update_where (λ x, tc_id x =? tj_ID j) (settled_row now2 true r0) (transcodes s1) →
  discs s2 = discs s → (NextTranscode now' m s2).1 = Ok (Some j).
Proof.
  intros Hwf E Ht Hd. destruct (NextTranscode_Some _ _ _ _ _ Hwf E) as (x & Hx & Hw & Hid & _ & _ & _ & _ & _ & Hs1).
  rewrite Hs1 in Ht. cbn [transcodes set_transcodes] in Ht.
  rewrite Hid, (update_where_twice _ _ (with_claim (tc_attempt x + 1) now)) in Ht by done.
  unfold NextTranscode, tx in *. destruct (select_min _ (List.filter (claimable m s) _)) as [r|] eqn:Em; [|done].
  unfold bind, exec, ret in E. cbn in E. injection E as <- _. cbn [tj_ID] in Hid.
  assert (r = x) as ->.
  { apply select_min_elem, list_elem_of_In, filter_In in Em as [Hr%list_elem_of_In _].
    eapply (key_inj tc_id); [apply (wf_tc s Hwf)|done..]. }
  pose proof (wf_tc_ok s Hwf) as Hok. rewrite Forall_forall in Hok. destruct (Hok x Hx) as [Ha _ _ _]. destruct Hw as [Hp Hlt].
  rewrite Ht. unfold update_where.
  set (g := λ y, if tc_id y =? tc_id x then settled_row now2 true r0 (with_claim (tc_attempt x + 1) now y) else y).
  assert (∀ y, y ∈ transcodes s → claimable m s2 (g y) = claimable m s y) as Hcl.
  { intros y Hy. unfold g, claimable, has_disc. rewrite Hd. destruct (Z.eqb_spec (tc_id y) (tc_id x)) as [Ey|Ey]; [|done].
    rewrite (key_inj tc_id _ _ _ (proj1 (wf_tc s Hwf)) Hy Hx Ey). simpl. rewrite Hp.
    by replace (Z.max (tc_attempt x + 1 - 1) 0) with (tc_attempt x) by lia. }
  assert (List.filter (claimable m s2) (map g (transcodes s)) = map g (List.filter (claimable m s) (transcodes s))) as ->.
  { clear -Hcl. induction (transcodes s) as [|y l IH]; [done|]. cbn [map List.filter]. rewrite (Hcl y) by by left.
    rewrite IH by (intros z Hz; apply Hcl; by right). by destruct (claimable m s y). }
  rewrite select_min_map, Em; [|intros a b; unfold g; by destruct (_ =? _), (_ =? _)].
  cbn [fmap option_fmap option_map]. unfold g. rewrite Z.eqb_refl. simpl. rewrite Hd.
  by replace (Z.max (tc_attempt x + 1 - 1) 0) with (tc_attempt x) by lia.
Qed.

Lemma stopped_step `{Unicode} e w now j s1 :
  calm e → apart same_discs e → (∀ n, q_stop e n = true) → store_wf (q_store w) →
  NextTranscode now maxTranscodeAttempts (q_store w) = (Ok (Some j), s1) →
  let w2 := (transcodeOne j e (qbump e (qset_store s1 w))).2 in
  store_wf (q_store w2) ∧ ∀ now', (NextTranscode now' maxTranscodeAttempts (q_store w2)).1 = Ok (Some j).
Proof.
  intros Hc Ha Hs Hwf E. cbv zeta. destruct (claimed same_discs e w now j s1 Hwf E) as (Ht1 & Hwf1 & HD1).
  destruct (transcodeOne_rows_calm same_discs e (qbump e (qset_store s1 w)) j Hc) as (Hwf' & HD' & now' & n & r & Hrows).
  split; [by apply Hwf'|]. intros now2. rewrite Hs, Ht1 in Hrows. eapply (next_again now now2 _ now' r (q_store w)); [done|exact E|exact Hrows|].
  specialize (HD' Hwf1). unfold same_discs in *. congruence.
Qed.

(** Stopping an encode does not let the queue go on: the job keeps its place and is claimed
    again at once, so the very same encode restarts, and as long as each restart is stopped the
    runner never gets past it to the jobs behind. (Meanwhile nothing is written to the queue or
    the discs.) *)
Theorem stopped_encode_restarts `{Unicode} e w now j s1 :
  calm e → apart same_discs e → (∀ n, q_stop e n = true) → store_wf (q_store w) →
  NextTranscode now maxTranscodeAttempts (q_store w) = (Ok (Some j), s1) →
  (∀ now', (NextTranscode now' maxTranscodeAttempts (q_store (transcodeOne j e (qbump e (qset_store s1 w))).2)).1 = Ok (Some j)) ∧
  ∀ fuel, (drain fuel e w).1 = OutOfFuel.
Proof.
  intros Hc Ha Hs Hwf E. split; [by apply (stopped_step e w now j s1)|]. intros fuel.
  assert (∀ now', (NextTranscode now' maxTranscodeAttempts (q_store w)).1 = Ok (Some j)) as Hnext.
  { intros now'. unfold NextTranscode, tx in *. destruct (select_min _ _); [|done]. cbn in *. by simplify_eq. }
  clear E s1 now. revert w Hwf Hnext. induction fuel as [|fuel IH]; intros w Hwf Hnext; [done|].
  cbn [drain]. unfold qbind at 1, qdb. rewrite qdb_calm by done. specialize (Hnext (q_clock e (q_tick w))).
  destruct (NextTranscode _ _ _) as [o s1] eqn:E. cbn [fst] in Hnext. subst o.
  destruct (stopped_step e w _ j s1 Hc Ha Hs Hwf E) as [Hwf2 Hn2]. unfold qbind at 1.
  destruct (transcodeOne j e (qbump e (qset_store s1 w))) as [[] w2]. cbn [snd] in *.
  unfold qbind, qctxErr, qcancelled. destruct Hc as [Hc0 Hf]. rewrite Hc0. by apply IH.
Qed.

(** ** Concrete runs *)

(** Two films whose discs are both labelled DVD_VIDEO, each with its one title ripped. *)
Definition film (fp : string) : Disc := mkDisc fp "DVD_VIDEO" "" TypeDVD 1 None "" "" "" [of_length 0 7200].
Definition film_ops : list store_op :=
  [OpSaveDisc 1 (film "aaaaaaaaaaaaaaaa") ""; OpSaveDisc 2 (film "bbbbbbbbbbbbbbbb") "";
   OpMarkTitleRipped 1 0 9 true; OpMarkTitleRipped 2 0 9 true;
   OpQueueTranscode 3 1 0 "default" "/rips/a/title_00.mkv"; OpQueueTranscode 4 2 0 "default" "/rips/b/title_00.mkv"].
Definition films : Store := foldl (flip run_op) empty_store film_ops.
Lemma films_wf : store_wf films.
Proof. apply run_ops_wf, empty_store_wf. Qed.

Definition film_cfg : TConfig := mkTConfig true true "/out" "/lib" 20 0 0 "eng" 448 "".
(** ffmpeg writes a file of its own for each source. *)
Definition film_ffmpeg (args : list string) : FFmpeg :=
  mkFFmpeg None None [] [mkFile (if bool_decide ("/rips/a/title_00.mkv" ∈ args) then 100 else 200) 7] None "".
Definition film_beside (stop : bool) (meanwhile : nat → list store_op) : QEnv :=
  mkQEnv film_cfg (mkEncoder "ffmpeg" "") (λ n, Z.of_nat n + 10) None (λ _, false) (λ _, stop)
    (λ _ _, Ok (mkProbeOutput [] "7200.0")) (λ _, mkEncodeEnv None film_ffmpeg false None) (λ _, "1m0s") (λ _, None) (λ _, None) meanwhile.
Definition film_env (stop : bool) : QEnv := film_beside stop (λ _, []).
(** Meanwhile the first disc is forgotten, and a drive's worker gives up a job and says so. *)
Definition elsewhere (n : nat) : list store_op :=
  if (n =? 2)%nat then [OpForgetDisc "aaaaaaaaaaaaaaaa"; OpSetJobState 9 1 JobFailed "no disc"; OpLogEvent 9 "warn" "no disc" None None]
  else [].
Definition film_busy : QEnv := film_beside false elsewhere.
Definition chatter (n : nat) : list store_op := [OpLogEvent 9 "info" "still reading" None None].
Definition film_chatter : QEnv := film_beside true chatter.
Definition film_world : QWorld :=
  mkQWorld films {["/rips/a/title_00.mkv" := mkFile 1 9; "/rips/b/title_00.mkv" := mkFile 2 9]}
    (mkTranscodeSnapshot false "" 0 0 0 false 0 0) false false 0 [].
Definition film_run : QWorld := (@drain caseless 3 film_busy film_world).2.

Lemma film_calm stop : calm (film_env stop).
Proof. done. Qed.
Lemma film_alone stop : alone (film_env stop).
Proof. done. Qed.
Lemma film_busy_apart : apart any_discs film_busy.
Proof. apply foreign_apart. intros n. cbn. unfold elsewhere. by destruct (n =? 2)%nat. Qed.
Lemma film_chatter_apart : apart same_discs film_chatter.
Proof.
  split; intros n op; [|intros s]; cbn; unfold chatter; intros ->%list_elem_of_singleton; [done|]. intros _.
  apply (LogEvent_frame 9).
Qed.

Lemma filing_replaces_nothing_witness :
  let w1 := (@fileTitle caseless 1 0 "/rips/a/title_00.mkv" film_busy film_world).2 in
  q_fs film_world ⊆ q_fs w1 ∧ is_Some (q_fs w1 !! "/lib/Movies/Video/Video.mkv") ∧ links_live w1.
Proof.
  pose proof (@filing_replaces_nothing caseless film_busy film_world 1 0 "/rips/a/title_00.mkv" film_busy_apart) as H.
  apply Forall_cons in H as [(H1 & _ & H3) _]. cbv zeta.
  split; [exact H1|]. split; [vm_compute; eauto|]. apply H3. constructor.
Defined.

Lemma drain_empties_queue_witness :
  (@drain caseless 3 film_busy film_world).1 = Drained ∧
  map tc_state (transcodes (q_store film_run)) = [TranscodeComplete; TranscodeComplete].
Proof.
  split; [|vm_compute; reflexivity].
  pose proof (@drain_empties_queue caseless 3 film_busy film_world (film_calm false) film_busy_apart (λ _, eq_refl) films_wf) as Hd.
  destruct (@drain caseless 3 film_busy film_world) as [r w'].
  destruct Hd as [-> _]; [apply Nat.ltb_lt; vm_compute; reflexivity|reflexivity].
Defined.

(** The second film is filed under the first one's file, and only that file is there. *)
Definition first_filed : QWorld :=
  (@transcodeOne caseless (mkTranscodeJob 1 1 0 TranscodeRunning "default" "/rips/a/title_00.mkv" 1 "DVD_VIDEO")
     (film_env false) film_world).2.

Lemma taken_name_counts_as_filed_witness :
  q_fs first_filed !! "/lib/Movies/Video/Video.mkv" = Some (mkFile 100 7) ∧
  let w' := (@fileTitle caseless 2 0 "/out/b/title_00.mkv" (film_env false) first_filed).2 in
  q_fs w' = q_fs first_filed ∧ (LibraryLink 2 0 (q_store w')).1 = Ok ("/lib/Movies/Video/Video.mkv", true).
Proof.
  split; [vm_compute; reflexivity|]. cbv zeta.
  edestruct (@taken_name_counts_as_filed caseless (film_env false) first_filed 2 0 "/out/b/title_00.mkv")
    as (H1 & _ & H3 & _);
    [apply film_calm|apply film_alone|reflexivity|intros; reflexivity|vm_compute; reflexivity|vm_compute; reflexivity|vm_compute; reflexivity|].
  split; [exact H1|exact H3].
Defined.

Lemma stopped_encode_restarts_witness :
  (@drain caseless 7 film_chatter film_world).1 = OutOfFuel.
Proof.
  destruct (NextTranscode 5 maxTranscodeAttempts films) as [[[j|]|x] s1] eqn:E; [|vm_compute in E; discriminate..].
  apply (@stopped_encode_restarts caseless film_chatter film_world 5 j s1 (film_calm true) film_chatter_apart (λ _, eq_refl) films_wf E).
Defined.

(** The same encode with a database that works and with one that fails when the encode is to be recorded. *)
Definition film_faulty : QEnv :=
  let e := film_env false in
  mkQEnv (q_cfg e) (q_enc e) (q_clock e) None (λ n, (n =? 2)%nat) (q_stop e) (q_probe e) (q_encode e) (q_elapsed e)
    (q_mkdir e) (q_link e) (q_meanwhile e).
Lemma transcodeOne_settles_witness :
  let job := mkTranscodeJob 1 1 0 TranscodeRunning "default" "/rips/a/title_00.mkv" 1 "DVD_VIDEO" in
  let after e := (@transcodeOne caseless job e film_world).2 in
  (∃ y, select1 (λ r, tc_id r =? 1) (transcodes (q_store (after film_busy))) = Some y ∧ tc_state y = TranscodeComplete) ∧
  select1 (λ r, tc_id r =? 1) (transcodes (q_store (after film_faulty))) = select1 (λ r, tc_id r =? 1) (transcodes (q_store film_world)) ∧
  q_cancelTranscode (after film_faulty) = false.
Proof.
  cbv zeta. destruct (select1 (λ r, tc_id r =? 1) (transcodes (q_store film_world))) as [x|] eqn:E; [|vm_compute in E; discriminate].
  set (job := mkTranscodeJob 1 1 0 TranscodeRunning "default" "/rips/a/title_00.mkv" 1 "DVD_VIDEO").
  split; [|split].
  - destruct (@transcodeOne_settles caseless film_busy film_world job x film_busy_apart E) as (_ & _ & (y & Hy & _) & _).
    exists y. split; [exact Hy|]. vm_compute in Hy. by simplify_eq.
  - rewrite <- E. vm_compute. reflexivity.
  - apply (@transcodeOne_settles caseless film_faulty film_world job x); [|exact E]. by apply foreign_apart.
Defined.
