(* ===== verification/Wake.v ===== *)
(** * Waking the queue runner (internal/daemon/transcode.go)

    runTranscodes claims jobs until none is left, refreshes the counts, files
    what is unfiled and then waits: for a value in transcodeWake, a channel with
    room for one, or for the ticker.  The goroutines that queue titles
    (queueTranscodes on a worker's, requeueDisc and queue.retry on a
    connection's) write to the database first and then send without blocking
    (nudgeTranscoder).  All of them interleave freely, and titles may be queued
    and announced at any moment, also between the runner's finding nothing and
    its waiting.

    [queued_titles_are_announced]: the runner does not sleep through a queued
    title; the ticker is needed for that only after a call that failed.  [queueing_wakes_runner]: the
    functions that queue do what the relation takes for granted of them, and
    [half_queued_disc_is_not_announced] the case in which one does not. *)

From Stdlib Require Import QArith_base Relations.
From S2P Require Import Prelude GoText GoPath Table Disc Store Queue StoreWf StoreDiscs StoreQueue Background Library Encoder Transcoder TranscoderFrame TranscoderFacts.
#[local] Open Scope Z_scope.

(** ** The protocol *)

(** Where the runner is: about to claim a job, at work on one, done with what there was, or gone. *)
Inductive rphase := Reading | Encoding (job : TranscodeJob) | Resting | Ended.
(** Where a goroutine that may queue titles is: elsewhere, or at it with so many queued. *)
Inductive qphase := Away | Adding (queued : nat).

Record Wakes := mkWakes { wk_store : Store; wk_wake : bool; wk_runner : rphase; wk_queuers : gmap nat qphase }.

(** What may happen: a read of the queue that fails, queueing that ends with an error half way, the ticker. *)
Record Chances := mkChances { ch_unread : Prop; ch_half : Prop; ch_tick : Prop }.

(** The calls that queue nothing. *)
Definition aside (op : store_op) : bool :=
  match op with OpRecordTranscode _ _ _ _ _ _ _ _ | OpRecordLibraryLink _ _ _ _ => true | _ => foreign op end.

Inductive wake_step (C : Chances) : Wakes → Wakes → Prop :=
(** The runner: NextTranscode, transcodeOne with the row it leaves, and select. *)
| wk_claim now j st st' b q : NextTranscode now maxTranscodeAttempts st = (Ok (Some j), st') →
    wake_step C (mkWakes st b Reading q) (mkWakes st' b (Encoding j) q)
| wk_none now st st' b q : NextTranscode now maxTranscodeAttempts st = (Ok None, st') →
    wake_step C (mkWakes st b Reading q) (mkWakes st' b Resting q)
| wk_unread st b q : ch_unread C → wake_step C (mkWakes st b Reading q) (mkWakes st b Resting q)
| wk_settled now j stopped r st b q :
    wake_step C (mkWakes st b (Encoding j) q) (mkWakes (settle now j stopped r st).2 b Reading q)
| wk_unsettled j st b q : wake_step C (mkWakes st b (Encoding j) q) (mkWakes st b Reading q)
| wk_woken st q : wake_step C (mkWakes st true Resting q) (mkWakes st false Reading q)
| wk_ticked st b q : ch_tick C → wake_step C (mkWakes st b Resting q) (mkWakes st b Reading q)
| wk_ended st b p q : wake_step C (mkWakes st b p q) (mkWakes st b Ended q)
(** A goroutine queues titles, or gives one its attempts back, and then sends. *)
| wk_enters g st b p q : q !! g = Some Away → wake_step C (mkWakes st b p q) (mkWakes st b p (<[g := Adding 0]> q))
| wk_adds g n now discID i src st st' b p q : q !! g = Some (Adding n) →
    QueueTranscode now discID i "default" src st = (Ok tt, st') →
    wake_step C (mkWakes st b p q) (mkWakes st' b p (<[g := Adding (S n)]> q))
| wk_resets g n id st st' b p q : q !! g = Some (Adding n) → ResetTranscodeAttempts id st = (Ok tt, st') →
    wake_step C (mkWakes st b p q) (mkWakes st' b p (<[g := Adding (S n)]> q))
| wk_nothing g st b p q : q !! g = Some (Adding 0) → wake_step C (mkWakes st b p q) (mkWakes st b p (<[g := Away]> q))
| wk_nudges g n st b p q : q !! g = Some (Adding n) → n ≠ 0%nat →
    wake_step C (mkWakes st b p q) (mkWakes st true p (<[g := Away]> q))
| wk_half g n st b p q : ch_half C → q !! g = Some (Adding n) →
    wake_step C (mkWakes st b p q) (mkWakes st b p (<[g := Away]> q))
(** Anybody else. *)
| wk_aside op st b p q : aside op = true → wake_step C (mkWakes st b p q) (mkWakes (run_op op st) b p q).

Definition wakes_start (s : Wakes) : Prop :=
  store_wf (wk_store s) ∧ wk_runner s = Reading ∧ map_Forall (λ _ p, p = Away) (wk_queuers s).
Definition wakes_reachable (C : Chances) (s : Wakes) : Prop := ∃ s0, wakes_start s0 ∧ rtc (wake_step C) s0 s.

(** Nothing waits to be encoded. *)
Definition none_waiting (s : Store) : Prop := Forall (λ r, ¬ waiting maxTranscodeAttempts r) (transcodes s).
#[global] Instance none_waiting_dec s : Decision (none_waiting s).
Proof. unfold none_waiting. apply _. Defined.
(** Somebody has queued a title and has not said so yet. *)
Definition owed (q : gmap nat qphase) : Prop := ∃ g n, q !! g = Some (Adding n) ∧ n ≠ 0%nat.

(** ** What the calls do to the waiting jobs *)

Lemma aside_none_waiting op s : aside op = true → none_waiting s → none_waiting (run_op op s).
Proof.
  unfold none_waiting. intros H Hno. destruct (foreign op) eqn:Hf; [by rewrite (proj1 (foreign_queue op s Hf))|].
  destruct op; cbn in H, Hf; try congruence; cbn [run_op].
  - unfold RecordTranscode, upsert_transcode, bind, references, exec. destruct (_ || _); [|done]. cbn [snd transcodes set_transcodes].
    apply Forall_upsert; [intros r _ _| |done]; by intros [E _].
  - by rewrite (proj1 (RecordLibraryLink_frame _ _ _ _ _)).
Qed.

(** ** The runner does not sleep through a queued title *)

(** The chances of the code, in which all that may happen does, and those of a run without failures
    and without the ticker. *)
Definition any_chance : Chances := mkChances True True True.
Definition certain : Chances := mkChances False False False.

(** No read of the queue fails, and no queueing ends half way. *)
Definition reliable (C : Chances) : Prop := ¬ ch_unread C ∧ ¬ ch_half C.
Record wakes_inv (C : Chances) (s : Wakes) : Prop := {
  wi_wf : store_wf (wk_store s);
  wi_rest : reliable C → wk_runner s = Resting → wk_wake s = true ∨ owed (wk_queuers s) ∨ none_waiting (wk_store s);
}.

Lemma owed_insert g n q : n ≠ 0%nat → owed (<[g := Adding n]> q).
Proof. intros Hn. exists g, n. by rewrite lookup_insert_eq. Qed.
Lemma owed_other g p q : (q !! g = Some Away ∨ q !! g = Some (Adding 0)) → owed q → owed (<[g := p]> q).
Proof.
  intros Hg (h & n & Hh & Hn). exists h, n. split; [|done]. rewrite lookup_insert_ne; [done|]. intros ->. destruct Hg; congruence.
Qed.

Lemma wake_step_inv C s s' : wake_step C s s' → wakes_inv C s → wakes_inv C s'.
Proof.
  intros Hst [Hwf Hr]. destruct Hst; cbn [wk_store wk_runner wk_wake wk_queuers] in *; split; cbn; try done; auto.
  - eapply (NextTranscode_keeps now maxTranscodeAttempts st) in Hwf. by rewrite H in Hwf.
  - eapply (NextTranscode_keeps now maxTranscodeAttempts st) in Hwf. by rewrite H in Hwf.
  - intros _ _. right. right. unfold none_waiting. assert (st' = st) as ->; [|by apply (NextTranscode_None now); [|eexists]].
    unfold NextTranscode, tx in H. by destruct (select_min _ _); simplify_eq/=.
  - by intros [? _].
  - apply keeps_snd; [apply settle_keeps|done].
  - intros HC E. destruct (Hr HC E) as [?|[?|?]]; [auto| |auto]. right. left. apply owed_other; auto.
  - apply (QueueTranscode_keeps now discID i "default" src) in Hwf. by rewrite H0 in Hwf.
  - intros _ _. right. left. by apply owed_insert.
  - apply (ResetTranscodeAttempts_keeps id) in Hwf. by rewrite H0 in Hwf.
  - intros _ _. right. left. by apply owed_insert.
  - intros HC E. destruct (Hr HC E) as [?|[?|?]]; [auto| |auto]. right. left. apply owed_other; auto.
  - by intros [_ ?].
  - by apply run_op_wf.
  - intros HC E. destruct (Hr HC E) as [?|[?|?]]; [auto..|]. right. right. by apply aside_none_waiting.
Qed.

Lemma wakes_reachable_inv C s : wakes_reachable C s → wakes_inv C s.
Proof.
  intros (s0 & (Hwf & Hr & _) & Hst). assert (wakes_inv C s0) as H by (split; [done|congruence]).
  clear Hwf Hr. induction Hst as [|s1 s2 s3 Hs _ IH]; [done|]. by eapply IH, wake_step_inv.
Qed.

(** A runner that reads the queue claims a job if one waits. *)
Lemma claims C st b q : store_wf st → ¬ none_waiting st →
  ∃ j st', wake_step C (mkWakes st b Reading q) (mkWakes st' b (Encoding j) q).
Proof.
  intros Hwf Hw. pose proof (NextTranscode_never_fails 0 maxTranscodeAttempts st) as Hn.
  destruct (NextTranscode 0 maxTranscodeAttempts st) as [[[j|]|x] st'] eqn:E; [|exfalso|done].
  - exists j, st'. by eapply wk_claim.
  - by apply Hw, (NextTranscode_None 0 maxTranscodeAttempts st Hwf); exists st'.
Qed.

(** C11: The runner does not sleep through a queued title.  However the runner,
    the goroutines that queue titles and the rest of the daemon interleave, as
    long as a title waits within its budget and the runner has not ended, the
    runner is encoding or can come to claim a job within three steps, the last of
    them its own.  As long as no read of the queue fails and no queueing ends
    half way, it needs no ticker for that: there is always a value in the channel,
    or a goroutine on its way to send one.  Whatever fails, it is so with the
    ticker, which the code has. *)
Theorem queued_titles_are_announced C s :
  ch_tick C ∨ reliable C → wakes_reachable C s → ¬ none_waiting (wk_store s) → wk_runner s ≠ Ended →
  ∃ n s' j, nsteps (wake_step C) n s s' ∧ (n ≤ 3)%nat ∧ wk_runner s' = Encoding j.
Proof.
  intros HC Hs%wakes_reachable_inv Hw Hne. destruct Hs as [Hwf Hr]. destruct s as [st b p q]. cbn in *.
  destruct p as [|j| |]; [| |clear Hne|done].
  - destruct (claims C st b q Hwf Hw) as (j & st' & Hst). exists 1%nat, (mkWakes st' b (Encoding j) q), j. split; [by apply nsteps_once|]. split; [lia|done].
  - exists 0%nat, (mkWakes st b (Encoding j) q), j. split; [constructor|]. split; [lia|done].
  - destruct HC as [Ht|HC]; [|destruct (Hr HC eq_refl) as [->|[(g & n & Hg & Hn)|?]]; [| |done]].
    + destruct (claims C st b q Hwf Hw) as (j & st' & Hst). exists 2%nat, (mkWakes st' b (Encoding j) q), j.
      split; [|split; [lia|done]]. eapply nsteps_l; [by apply wk_ticked|]. by apply nsteps_once.
    + destruct (claims C st false q Hwf Hw) as (j & st' & Hst). exists 2%nat, (mkWakes st' false (Encoding j) q), j.
      split; [|split; [lia|done]]. eapply nsteps_l; [apply wk_woken|]. by apply nsteps_once.
    + destruct (claims C st false (<[g := Away]> q) Hwf Hw) as (j & st' & Hst). exists 3%nat, (mkWakes st' false (Encoding j) (<[g := Away]> q)), j.
      split; [|split; [lia|done]]. eapply nsteps_l; [by eapply wk_nudges|]. eapply nsteps_l; [apply wk_woken|]. by apply nsteps_once.
Qed.

(** ** The functions that queue *)

Lemma QueueTranscode_result now discID i p src s :
  match QueueTranscode now discID i p src s with (Err _, s') => s' = s | (Ok _, _) => True end.
Proof. unfold QueueTranscode, upsert_transcode, bind, references. by destruct (_ || _). Qed.

Section queueing.
Context {U : Unicode} (e : QEnv) `{!apart any_discs e}.

Lemma bump_transcodes w : transcodes (q_store (qbump e w)) = transcodes (q_store w).
Proof. apply (fl_tc _ _ _ (filing_bump any_discs e w)). Qed.

(** A call that queues a title, or fails and leaves the queue. *)
Lemma qdb_queue discID i src w :
  let '(r, w') := qdb (λ now, QueueTranscode now discID i "default" src) e w in
  is_ok r = false → transcodes (q_store w') = transcodes (q_store w).
Proof.
  destruct (qdb_cases (λ now, QueueTranscode now discID i "default" src) e w)
    as [(m & ->)|[(a & s' & E & ->)|(x & s' & E & ->)]]; intros H; [by rewrite bump_transcodes|done|].
  rewrite bump_transcodes. pose proof (QueueTranscode_result (q_clock e (q_tick w)) discID i "default" src (q_store w)) as Hq.
  rewrite E in Hq. by rewrite Hq.
Qed.

Lemma queue_titles_none discID dir ts : ∀ q w,
  let '(n, w') := queue_titles discID dir ts q e w in
  q ≤ n ∧ (n = q → transcodes (q_store w') = transcodes (q_store w)).
Proof.
  induction ts as [|t ts IH]; intros q w; cbn [queue_titles]; [done|]. unfold qbind at 1.
  pose proof (qdb_queue discID (t_Index t) (Join [dir; TitleFileName (t_Index t)]) w) as Hq.
  destruct (qdb _ e w) as [[a|m] w1].
  - specialize (IH (q + 1) w1). destruct (queue_titles _ _ _ _ _ _) as [n w']. destruct IH as [Hn _]. split; lia.
  - specialize (Hq eq_refl). unfold qbind.
    match goal with |- context [logEvent ?l ?x e w1] => pose proof (fl_tc _ _ _ (logEvent_frame any_discs e l x w1)) as Hl; destruct (logEvent l x e w1) as [u w2] end.
    specialize (IH q w2). destruct (queue_titles _ _ _ _ _ _) as [n w']. destruct IH as [Hn Hs]. split; [done|].
    intros E. cbn [snd] in Hl. rewrite (Hs E). congruence.
Qed.

Lemma queueTranscodes_wakes discID dir ts w :
  let w' := (queueTranscodes discID dir ts e w).2 in
  q_wake w' = true ∨ transcodes (q_store w') = transcodes (q_store w).
Proof.
  cbv zeta. unfold queueTranscodes, qbind, qask. destruct (negb _); [by right|].
  pose proof (queue_titles_none discID dir ts 0 w) as H. destruct (queue_titles discID dir ts 0 e w) as [n w1].
  destruct H as [_ Hn]. destruct (Z.eqb_spec n 0) as [->|_]; [right; by apply Hn|left].
  by destruct (logEvent _ _ e w1) as [u w2], (refreshTranscodeCounts e w2).
Qed.

Lemma requeueDisc_wakes fp w r w' : requeueDisc fp e w = (Ok r, w') → q_wake w' = true.
Proof.
  unfold requeueDisc, qbind, qask. destruct (negb _); [done|]. destruct (qdb _ e w) as [[[rec|]|m] w1]; [|done..].
  destruct (negb _); [done|]. destruct (qdb _ e w1) as [[[|i l]|m] w2]; [done| |done].
  destruct (requeue_titles _ _ _ _ _ e w2) as [[n|m] w3]; [|done]. destruct (n =? 0); [done|].
  destruct (logEvent _ _ e w3) as [u w4], (refreshTranscodeCounts e w4) as [u' w5]. by intros [= _ <-].
Qed.

Lemma queueRetry_wakes id w r w' : queueRetry id e w = (Ok r, w') → q_wake w' = true.
Proof.
  unfold queueRetry. destruct (id =? 0); [done|]. unfold qbind, qask. destruct (qdb _ e w) as [[[j|]|m] w1]; [|done..].
  case_bool_decide; [done|]. destruct (qdb _ e w1) as [[u|m] w2]; [|done].
  destruct (refreshTranscodeCounts e w2) as [u' w3]. by intros [= _ <-].
Qed.
End queueing.

(** The functions that queue titles wake the runner: a disc handed over by a worker has left
    the queue alone or a value is in the channel afterwards, and so when a disc is queued again or a
    title is retried with success. *)
Theorem queueing_wakes_runner `{Unicode} e w discID dir ts fp id :
  apart any_discs e →
  let w1 := (queueTranscodes discID dir ts e w).2 in
  (q_wake w1 = true ∨ transcodes (q_store w1) = transcodes (q_store w)) ∧
  (∀ r w2, requeueDisc fp e w = (Ok r, w2) → q_wake w2 = true) ∧
  ∀ r w3, queueRetry id e w = (Ok r, w3) → q_wake w3 = true.
Proof.
  intros Ha. split; [by apply queueTranscodes_wakes|]. split; [by apply requeueDisc_wakes|by apply queueRetry_wakes].
Qed.

(** ** Concrete runs *)

(** Two discs are known and nothing is queued; the runner has found nothing when a title is queued. *)
Definition idle_films : Store := foldl (flip run_op) empty_store (take 4 film_ops).
Definition idle_start : Wakes := mkWakes idle_films false Reading {[0%nat := Away]}.
Definition queued_film : Store := run_op (OpQueueTranscode 3 1 0 "default" "/rips/a/title_00.mkv") idle_films.
Definition film_queued : Wakes := mkWakes queued_film false Resting (<[0%nat := Adding 1]> (<[0%nat := Adding 0]> {[0%nat := Away]})).

Lemma film_queued_reachable : wakes_reachable certain film_queued.
Proof.
  exists idle_start. split.
  { split; [apply run_ops_wf, empty_store_wf|]. split; [done|]. by apply map_Forall_singleton. }
  eapply rtc_l; [apply (wk_none certain 5 _ idle_films); vm_compute; reflexivity|].
  eapply rtc_l; [apply (wk_enters certain 0); apply lookup_singleton_eq|].
  eapply rtc_l; [|apply rtc_refl].
  apply (wk_adds certain 0 0 3 1 0 "/rips/a/title_00.mkv"); [apply lookup_insert_eq|vm_compute; reflexivity].
Qed.

(** The same with a read that failed: a title waits, there is no value and nobody is to send one. *)
Definition film_unread : Wakes := mkWakes queued_film false Resting {[0%nat := Away]}.
Lemma film_unread_reachable : wakes_reachable any_chance film_unread.
Proof.
  exists (mkWakes queued_film false Reading {[0%nat := Away]}). split.
  { split; [apply run_op_wf, run_ops_wf, empty_store_wf|]. split; [done|]. by apply map_Forall_singleton. }
  eapply rtc_l; [|apply rtc_refl]. by apply wk_unread.
Qed.

Lemma queued_titles_are_announced_witness :
  (∃ n s' j, nsteps (wake_step certain) n film_queued s' ∧ (n ≤ 3)%nat ∧ wk_runner s' = Encoding j) ∧
  ∃ n s' j, nsteps (wake_step any_chance) n film_unread s' ∧ (n ≤ 3)%nat ∧ wk_runner s' = Encoding j.
Proof.
  split.
  - apply (queued_titles_are_announced certain film_queued); [by right; split; intros []|exact film_queued_reachable| |done].
    apply (bool_decide_unpack _). vm_compute. exact I.
  - apply (queued_titles_are_announced any_chance film_unread); [by left|exact film_unread_reachable| |done].
    apply (bool_decide_unpack _). vm_compute. exact I.
Defined.

Lemma queueing_wakes_runner_witness :
  let w1 := (queueTranscodes 1 "/rips/a" [of_length 0 7200] film_busy (qset_store idle_films film_world)).2 in
  transcodes (q_store w1) ≠ [] ∧ q_wake w1 = true.
Proof.
  cbv zeta. assert (transcodes (q_store (queueTranscodes 1 "/rips/a" [of_length 0 7200] film_busy (qset_store idle_films film_world)).2) ≠ [])
    as Hne by (vm_compute; discriminate).
  split; [exact Hne|].
  destruct (@queueing_wakes_runner caseless film_busy (qset_store idle_films film_world) 1 "/rips/a" [of_length 0 7200] "" 0 film_busy_apart)
    as [[H|H] _]; [exact H|]. destruct Hne. rewrite H. vm_compute. reflexivity.
Defined.

(** A disc with two titles is queued again, and the database fails at the second. *)
Definition serial : Disc := mkDisc "cccccccccccccccc" "SERIAL" "" TypeDVD 1 None "" "" "" [of_length 0 2700; of_length 1 2700].
Definition serial_ops : list store_op :=
  [OpSaveDisc 1 serial ""; OpSetDiscRipDir 1 "/rips/c"; OpMarkTitleRipped 1 0 9 true; OpMarkTitleRipped 1 1 9 true].
Definition serial_world : QWorld :=
  mkQWorld (foldl (flip run_op) empty_store serial_ops)
    {["/rips/c/title_00.mkv" := mkFile 1 9; "/rips/c/title_01.mkv" := mkFile 2 9]}
    (mkTranscodeSnapshot false "" 0 0 0 false 0 0) false false 0 [].
Definition second_fails : QEnv :=
  let e := film_env false in
  mkQEnv (q_cfg e) (q_enc e) (q_clock e) None (λ n, (n =? 3)%nat) (q_stop e) (q_probe e) (q_encode e) (q_elapsed e)
    (q_mkdir e) (q_link e) (q_meanwhile e).

(** requeueDisc that fails half way leaves the titles it has queued in the queue, but wakes nobody and
    reports none: they wait for the ticker. *)
Theorem half_queued_disc_is_not_announced :
  let '(r, w') := @requeueDisc caseless "cccccccccccccccc" second_fails serial_world in
  r = Err "disk I/O error" ∧ q_wake w' = false ∧ ¬ none_waiting (q_store w') ∧ x_Pending (q_snap w') = 0.
Proof.
  destruct (@requeueDisc _ _ _ _) as [r w'] eqn:E. vm_compute in E. injection E as <- <-.
  split; [done|]. split; [done|]. split; [|done]. apply (bool_decide_unpack _). vm_compute. exact I.
Qed.
