(* ===== verification/Pipeline.v ===== *)
(** * From the tray to a finished encode (handleDisc in
    internal/daemon/worker.go, queueTranscodes and runTranscodes in
    internal/daemon/transcode.go)

    The worker hands a ripped disc to the queue of the same database, and the
    runner works it off.  The three components are put together here as
    NewWorker does: the callback [onRipped] is queueTranscodes.

    [ripped_disc_is_encoded]: when the rip of a disc succeeds, every title of
    it is encoded or recorded as failed once the queue is empty, unless its
    encodes were used up before, and the disc stays recorded as ripped; [rip_hands_on]: what the worker hands on. *)

From S2P Require Import Prelude GoText GoBase GoPath Table Disc Store Queue StoreWf StoreDiscs StoreQueue Background Status Worker BluRay WorkerFrame WorkerSafety WorkerRip WorkerScan Transcoder TranscoderFrame TranscoderFacts.
#[local] Open Scope Z_scope.

(** The callbacks the daemon makes a worker with, on the effects that call them. *)
Definition callback `{Unicode} (x : effect) : Q_ unit :=
  match x with
  | OnRipped discID ripDir titles => queueTranscodes discID ripDir titles
  | OnBluRayDone discID titleIndex output => fileTitle discID titleIndex output
  | _ => qret tt
  end.

Section pipeline.
Context {U : Unicode}.

(** ** Queueing *)

(** How often a title has been encoded. *)
Definition encodes (discID i : Z) (s : Store) : Z := from_option tc_attempt 0 (select1 (transcode_is discID i) (transcodes s)).
(** A title's job is pending, to be encoded from its file in a directory. *)
Definition queued (discID : Z) (dir : string) (i : Z) (s : Store) : Prop :=
  ∃ r, select1 (transcode_is discID i) (transcodes s) = Some r ∧ tc_state r = TranscodePending ∧
    tc_source_path r = Join [dir; TitleFileName i].

(** Queueing a title makes its job pending and leaves the count of its encodes. *)
Lemma QueueTranscode_queued now discID i dir s :
  has_disc discID s = true →
  let '(r, s') := QueueTranscode now discID i "default" (Join [dir; TitleFileName i]) s in
  r = Ok tt ∧ discs s' = discs s ∧ (∀ j, encodes discID j s' = encodes discID j s) ∧ queued discID dir i s' ∧
  ∀ j, queued discID dir j s → queued discID dir j s'.
Proof.
  intros Hd. unfold QueueTranscode, upsert_transcode, bind, references, exec. rewrite Hd, orb_true_r.
  cbn [transcodes set_transcodes snd fst]. split; [done|]. split; [done|].
  match goal with |- context [set_transcodes ?x s] => set (rows := x) end.
  assert (∃ r, select1 (transcode_is discID i) rows = Some r ∧ tc_state r = TranscodePending ∧
    tc_source_path r = Join [dir; TitleFileName i] ∧ tc_attempt r = encodes discID i s) as (r & Hr & Hw & Hs & Hat).
  { unfold rows. rewrite select1_upsert_same; [|done|unfold transcode_is; cbn; by rewrite !Z.eqb_refl].
    eexists. split; [reflexivity|]. unfold encodes. by destruct (select1 _ _) as [r0|] eqn:E. }
  assert (∀ j, j ≠ i → select1 (transcode_is discID j) rows = select1 (transcode_is discID j) (transcodes s)) as Ho.
  { intros j Hj. assert (∀ x, tc_disc_id x = discID → tc_title_index x = i → transcode_is discID j x = false) as Hx.
    { intros x _ Hx. unfold transcode_is. rewrite Hx, (proj2 (Z.eqb_neq i j)), andb_false_r; auto. }
    apply select1_upsert_other; [|by apply Hx].
    unfold transcode_is at 1. intros x _ [H1%Z.eqb_eq H2%Z.eqb_eq]%andb_true_iff. split; apply Hx; auto. }
  split; [|split].
  - intros j. unfold encodes at 1. cbn [transcodes set_transcodes]. destruct (decide (j = i)) as [->|Hj]; [by rewrite Hr|by rewrite Ho].
  - by exists r.
  - intros j (x & Hx & H). destruct (decide (j = i)) as [->|Hj]; [by exists r|]. exists x. cbn [transcodes set_transcodes]. by rewrite Ho.
Qed.

(** A disc is known under its id, and recorded as ripped. *)
Definition ripped_as (fp : string) (discID : Z) (s : Store) : Prop := known fp discID s ∧ recorded fp s.
(** What the rest of the daemon is to leave alone while the disc's titles are encoded. *)
Definition still_ripped (fp : string) (discID : Z) (s s' : Store) : Prop := ripped_as fp discID s → ripped_as fp discID s'.

#[export] Instance still_ripped_rel fp discID : DiscRel (still_ripped fp discID).
Proof.
  unfold still_ripped. split; [split; [by intros s|intros s1 s2 s3; auto]|].
  intros s s' Hd Hwf [[Hw (r & Hr & Hid)] Hrec]. split; [split; [auto|exists r; by rewrite Hd]|by eapply recorded_discs].
Qed.

(** The calls of the server and the discovery of drives do, as long as the disc is not forgotten. *)
Lemma background_apart fp discID e :
  (∀ n, forallb (λ op, foreign op && background op) (q_meanwhile e n) = true) → (∀ n, OpForgetDisc fp ∉ q_meanwhile e n) →
  apart (still_ripped fp discID) e.
Proof.
  intros Hall Hne.
  assert (∀ n op, op ∈ q_meanwhile e n → foreign op = true ∧ background op = true) as Hop.
  { intros n op Hin%list_elem_of_In. specialize (Hall n). rewrite forallb_forall in Hall. by apply andb_true_iff, Hall. }
  split; intros n op; [intros Hin; by apply (Hop n)|]. intros s Hin Hwf [[_ (r & Hr & Hid)] (rec & Hrec & Hrip)].
  destruct (Hop n op Hin) as [_ Hb]. split.
  - split; [by apply run_op_wf|]. destruct (background_known op s fp r Hb Hr) as (r' & ? & ?). exists r'. split; congruence.
  - exists rec. rewrite background_FindDisc; [done..| |done]. intros ->. by apply (Hne n).
Qed.

Lemma ripped_as_has fp discID s : ripped_as fp discID s → has_disc discID s = true.
Proof. intros [[_ (r & [Hin _]%select1_Some & <-)] _]. apply existsb_true_elem. exists r. split; [done|]. by apply Z.eqb_eq. Qed.

Lemma queue_titles_queued fp e discID dir ts : calm e → apart (still_ripped fp discID) e → ∀ q w,
  ripped_as fp discID (q_store w) →
  let '(n, w') := queue_titles discID dir ts q e w in
  n = q + Z.of_nat (length ts) ∧ ripped_as fp discID (q_store w') ∧
  (∀ i, encodes discID i (q_store w') = encodes discID i (q_store w)) ∧
  ∀ i, queued discID dir i (q_store w) ∨ i ∈ map t_Index ts → queued discID dir i (q_store w').
Proof.
  intros Hc Ha. induction ts as [|t ts IH]; intros q w Hk; cbn [queue_titles].
  { split; [cbn; lia|]. split; [done|]. split; [done|]. intros i [H|H%not_elem_of_nil]; done. }
  unfold qbind, qdb. rewrite qdb_calm by done. set (now := q_clock e (q_tick w)).
  pose proof (QueueTranscode_queued now discID (t_Index t) dir _ (ripped_as_has _ _ _ Hk)) as H.
  pose proof (QueueTranscode_keeps now discID (t_Index t) "default" (Join [dir; TitleFileName (t_Index t)]) (q_store w)) as Hwf.
  destruct (QueueTranscode _ _ _ _ _ _) as [r s1]. destruct H as (-> & Hds & Hb1 & Hq & Hmono).
  destruct (filing_bump (still_ripped fp discID) e (qset_store s1 w)) as [T Di _ _ _].
  assert (ripped_as fp discID s1) as Hk1 by by apply (@dr_same _ (still_ripped_rel fp discID) (q_store w) s1 Hds Hwf).
  specialize (IH (q + 1) (qbump e (qset_store s1 w)) (Di (proj1 (proj1 Hk1)) Hk1)).
  cbn [q_store qset_store] in T. unfold encodes, queued in *. rewrite T in IH.
  destruct (queue_titles _ _ _ _ _ _) as [n w']. destruct IH as (-> & Hk' & Hen & Hall).
  split; [cbn [length]; lia|]. split; [done|]. split; [intros i; by rewrite Hen|].
  intros i [H|H]; apply Hall; [left; by apply Hmono|]. cbn [map] in H. apply elem_of_cons in H as [->|H]; auto.
Qed.

(** ** What a ripped disc is handed on with *)

(** The directory the status shows. *)
Definition shown_dir (w : World) : string := sn_RipDir (snap (w_status w)).
Definition keeps_dir {A} (m : M A) : Prop := ∀ e w, shown_dir (m e w).2 = shown_dir w.

Lemma kd_ret {A} (a : A) : keeps_dir (mret a).
Proof. done. Qed.
Lemma kd_ask {A} (f : Env → A) : keeps_dir (ask f).
Proof. done. Qed.
Lemma kd_gets {A} (f : World → A) : keeps_dir (gets f).
Proof. done. Qed.
Lemma kd_ctxErr : keeps_dir ctxErr.
Proof. done. Qed.
Lemma kd_now : keeps_dir now_ns.
Proof. done. Qed.
Lemma kd_call {A} (f : Env → nat → A) : keeps_dir (call f).
Proof. done. Qed.
Lemma kd_emit x : keeps_dir (emit x).
Proof. done. Qed.
Lemma kd_logf l f : keeps_dir (logf l f).
Proof. done. Qed.
Lemma kd_occupy d : keeps_dir (occupy d).
Proof. done. Qed.
Lemma kd_db_in {A} b (op : Z → DB A) : keeps_dir (db_in b op).
Proof. intros e w. unfold db_in. repeat case_match; done. Qed.
Lemma kd_bind {A B} (m : M A) (k : A → M B) : keeps_dir m → (∀ a, keeps_dir (k a)) → keeps_dir (mbind m k).
Proof. intros Hm Hk e w. unfold mbind. specialize (Hm e w). destruct (m e w) as [a w']. cbn in Hm. rewrite <- Hm. apply Hk. Qed.
Lemma kd_progress i f o : keeps_dir (Worker.status (setProgress i f o)).
Proof. done. Qed.
Lemma kd_begin n t : keeps_dir (Worker.status (beginRip n t)).
Proof. done. Qed.
Lemma kd_done n t : keeps_dir (Worker.status (titleDone n t)).
Proof. intros e w. unfold Worker.status, with_world, shown_dir, titleDone. cbn. repeat case_match; done. Qed.
Lemma kd_count n : keeps_dir (Worker.status (update (set_title_count n))).
Proof. done. Qed.
Lemma kd_state s : resting s = false → keeps_dir (state s).
Proof.
  intros Hs e w. unfold state, mbind, now_ns, Worker.status, with_world, shown_dir, setState. cbn.
  case_bool_decide; [done|]. by rewrite Hs.
Qed.
Lemma kd_report ps : keeps_dir (report ps).
Proof. induction ps; cbn [report]; [apply kd_ret|]. by apply kd_bind. Qed.
#[local] Hint Resolve kd_ret kd_ask kd_gets kd_ctxErr kd_now kd_call kd_emit kd_logf kd_occupy kd_db_in kd_progress
  kd_begin kd_done kd_count kd_state kd_report : kd.
Ltac kd_step :=
  match goal with
  | |- keeps_dir (mbind _ _) => apply kd_bind; [|intros]
  | |- keeps_dir (if ?b then _ else _) => destruct b
  | |- keeps_dir (match ?x with _ => _ end) => destruct x
  end.
Ltac kd_solve := intros; repeat (first [solve [eauto with kd] | kd_step]).

Lemma kd_rip_into jobID discID d raw dir : keeps_dir (rip_into jobID discID d raw dir).
Proof.
  assert (∀ d, keeps_dir (ripSource d)) as H1 by (unfold ripSource, decryptNeeded; kd_solve).
  assert (∀ src, keeps_dir (rescan_titles src d raw)) as H2.
  { unfold rescan_titles, rescanCopy, db. cbv zeta. kd_solve. }
  assert (∀ src i n t, keeps_dir (rip_title jobID discID src dir i n t)) as H3.
  { unfold rip_title, verify_title, db, afterCancel. cbv zeta. kd_solve. }
  assert (∀ src ts i n, keeps_dir (rip_titles jobID discID src dir i n ts)) as H4.
  { intros src ts. induction ts as [|t ts IH]; intros i n; cbn [rip_titles]; kd_solve. }
  unfold rip_into, writeDiscJSON, write_scan, db. cbv zeta. kd_solve.
Qed.

(** A rip that succeeds shows the directory its titles are in. *)
Lemma rip_shows_dir e jobID discID d raw d' w : (rip jobID discID d raw e w).1 = Ok d' →
  Forall (passed e (shown_dir (rip jobID discID d raw e w).2)) (d_Titles d').
Proof.
  unfold rip, mbind. destruct (makeRipDir d e w) as [[dir|] w1]; [|done]. cbn.
  destruct (write_fault e (w_tick w1)); [done|]. cbn. rewrite (kd_rip_into jobID discID d raw dir).
  intros Hr. by apply rip_into_done in Hr as [? _].
Qed.

Lemma ejectNow_trace e w : ∃ l, w_trace (ejectNow e w).2 = w_trace w ++ l.
Proof.
  unfold ejectNow, mbind, ask. destruct (negb _); [exists []; by rewrite app_nil_r|]. cbn.
  destruct (drv_Eject _ _); eexists; cbn; by rewrite <- ?app_assoc.
Qed.

(** The database when the callback is called: the job was recorded as complete, and nothing between
    that and the callback asks the machine for anything. *)
Definition handed_over (jobID discID : Z) (d : Disc) (raw : string) (e : Env) (w : World) : Store :=
  w_store (db (λ now, SetJobState now jobID JobComplete "") e (rip jobID discID d raw e w).2).2.

(** The end of rip_job after a rip that succeeded. *)
Lemma rip_job_ok e jobID discID d raw d' w : (rip jobID discID d raw e w).1 = Ok d' →
  ∃ w1, w_store w1 = handed_over jobID discID d raw e w ∧
    let w2 := push (OnRipped discID (shown_dir (rip jobID discID d raw e w).2) (d_Titles d')) w1 in
    (rip_job jobID discID d raw e w).2 = (ejectNow e w2).2.
Proof.
  intros Hr. unfold handed_over, rip_job, mbind. destruct (rip jobID discID d raw e w) as [r wr]. cbn [fst snd] in *. subst r.
  pose proof (kd_db_in false (λ now, SetJobState now jobID JobComplete "") e wr) as Hd. fold (@db unit) in Hd.
  destruct (db (λ now, SetJobState now jobID JobComplete "") e wr) as [r1 w1]. cbn [snd] in *.
  pose proof (kd_state StateComplete eq_refl e w1) as Hs.
  assert (w_store (state StateComplete e w1).2 = w_store w1) as Est by done.
  destruct (state StateComplete e w1) as [u w2]. cbn [snd] in *.
  unfold logf, emit, gets, with_world. cbv beta iota.
  match goal with |- context [push (OnRipped _ _ _) ?x] => exists x end. split; [exact Est|].
  cbn [w_status push]. unfold shown_dir in *. by rewrite <- Hd, <- Hs.
Qed.

(** ** From the drive to the encode *)

(** Handing a disc on makes a pending job of each title, and gives none its encodes back. *)
Lemma queueTranscodes_queued fp e w discID dir ts : calm e → apart (still_ripped fp discID) e → c_Transcode (q_cfg e) = true →
  ripped_as fp discID (q_store w) →
  let w' := (queueTranscodes discID dir ts e w).2 in
  ripped_as fp discID (q_store w') ∧ (∀ i, encodes discID i (q_store w') = encodes discID i (q_store w)) ∧ ∀ t, t ∈ ts → queued discID dir (t_Index t) (q_store w').
Proof.
  intros Hc Ha Hon Hk. cbv zeta. unfold queueTranscodes, qbind, qask. rewrite Hon. cbn [negb].
  pose proof (queue_titles_queued fp e discID dir ts Hc Ha 0 w Hk) as H.
  destruct (queue_titles discID dir ts 0 e w) as [n w1]. destruct H as (-> & Hk1 & Hen & Hq).
  assert (∀ t, t ∈ ts → queued discID dir (t_Index t) (q_store w1)) as Hall.
  { intros t Ht. apply Hq. right. by apply (list_elem_of_fmap_2 t_Index). }
  destruct (_ =? 0); [done|].
  match goal with |- context [logEvent ?l ?m e w1] => pose proof (logEvent_frame (still_ripped fp discID) e l m w1) as H1; destruct (logEvent l m e w1) as [u w2] end.
  pose proof (refresh_frame (still_ripped fp discID) e w2) as H2. cbn [snd] in *. destruct (refreshTranscodeCounts e w2) as [u3 w3]. cbn [snd] in *.
  assert (filing (still_ripped fp discID) w1 w3) as [T Di W _ _] by by etrans.
  unfold nudgeTranscoder, qmod. cbn [snd q_store qset_wake]. split; [by apply Di; [apply Hk1|]|].
  split; [intros i; rewrite <- Hen; unfold encodes; by rewrite T|]. intros t Ht. destruct (Hall t Ht) as (r & Hr). exists r. by rewrite T.
Qed.

(** A title's job once the queue is empty: encoded or recorded as failed, unless it had used up its
    encodes before, when it is left pending. *)
Definition encoded_or_failed (discID : Z) (dir : string) (before s : Store) (t : Title) : Prop :=
  ∃ r, r ∈ transcodes s ∧ tc_disc_id r = discID ∧ tc_title_index r = t_Index t ∧
    tc_source_path r = Join [dir; TitleFileName (t_Index t)] ∧
    if encodes discID (t_Index t) before <? maxTranscodeAttempts then finished r
    else tc_state r = TranscodePending ∧ tc_attempt r = encodes discID (t_Index t) before.

Lemma drained_job max l k r discID i : advanced max l k → Forall (λ y, ¬ waiting max y) k →
  select1 (transcode_is discID i) l = Some r → tc_state r = TranscodePending →
  ∃ y, y ∈ k ∧ tc_disc_id y = discID ∧ tc_title_index y = i ∧ tc_source_path y = tc_source_path r ∧
    if tc_attempt r <? max then finished y else y = r.
Proof.
  intros Hadv Hno [Hin Hp]%select1_Some Hw. unfold transcode_is in Hp. apply andb_true_iff in Hp as [H1%Z.eqb_eq H2%Z.eqb_eq].
  apply list_elem_of_lookup in Hin as [n Hn]. destruct (Forall2_lookup_l _ _ _ _ _ Hadv Hn) as (y & Hy & Hj & Hy').
  apply list_elem_of_lookup_2 in Hy as Hin. rewrite Forall_forall in Hno. unfold job_of in Hj. injection Hj as _ Hj1 Hj2 Hj3.
  exists y. split; [done|]. split; [congruence|]. split; [congruence|]. split; [done|].
  destruct (Z.ltb_spec (tc_attempt r) max) as [Hlt|Hge].
  - destruct Hy' as [->|[_ Hf]]; [by destruct (Hno r Hin)|done].
  - destruct Hy' as [->|[[_ Hlt] _]]; [done|lia].
Qed.

(** C3: from the tray to a finished encode.  When the rip of a disc that the
    database knows succeeds, the worker calls the daemon with its titles and the
    directory they were ripped into and verified in.  With encoding on, once the
    runner, with a working database and nobody stopping an encode, has been
    given as many turns as there are jobs and one more, the queue is empty, the
    disc is recorded as ripped, and every title of it is either encoded or
    recorded as failed, from the file in that directory, but for a title that
    had used up its encodes before the disc was handed over, which stays pending
    with its count.  The rest of the daemon goes on meanwhile: while the disc is
    ripped it does not forget the disc, while its titles are encoded it leaves
    the queue and the disc's record alone. *)
Theorem ripped_disc_is_encoded e jobID discID d raw d' w :
  undisturbed e → unforgotten e (d_Fingerprint d) →
  known (d_Fingerprint d) discID (w_store w) →
  (rip jobID discID d raw e w).1 = Ok d' →
  let s := handed_over jobID discID d raw e w in
  ∃ dir, OnRipped discID dir (d_Titles d') ∈ w_trace (rip_job jobID discID d raw e w).2 ∧
  Forall (passed e dir) (d_Titles d') ∧
  (∀ qe q fuel, calm qe → apart (still_ripped (d_Fingerprint d) discID) qe → (∀ n, q_stop qe n = false) → c_Transcode (q_cfg qe) = true →
    let q1 := (callback (OnRipped discID dir (d_Titles d')) qe (qset_store s q)).2 in
    (length (transcodes (q_store q1)) < fuel)%nat →
    let '(r, q2) := drain fuel qe q1 in
    r = Drained ∧ recorded (d_Fingerprint d) (q_store q2) ∧
    Forall (encoded_or_failed discID dir s (q_store q2)) (d_Titles d')).
Proof.
  intros Hu Hf Hk Hr. cbv zeta. destruct (rip_job_ok e jobID discID d raw d' w Hr) as (w1 & _ & Hjob).
  set (s' := handed_over jobID discID d raw e w). set (wr := (rip jobID discID d raw e w).2) in *. exists (shown_dir wr).
  split. { rewrite Hjob. destruct (ejectNow_trace e (push (OnRipped discID (shown_dir wr) (d_Titles d')) w1)) as [l ->].
    cbn [w_trace push]. set_solver. }
  split; [by apply rip_shows_dir|]. intros qe q fuel Hc Ha Hs Ht Hfuel. set (fp := d_Fingerprint d) in *.
  pose proof (frame_known e fp jobID discID) as FK.
  assert (ripped_as fp discID s') as Hk'.
  { split.
    - apply (pres_db e _ _ FK); [intros; apply rs_state|].
      apply (pres_rip e _ _ FK jobID discID (rs_state _ _ _) (rs_progress _ _ _) (rs_mark _ _ _) (rs_dir _ _ _) d); [|done].
      intros. by apply rs_save.
    - apply (pres_db e _ _ (frame_recorded e fp)); [split; [done|keeps_wf]|].
      pose proof (rip_recorded e jobID discID d raw w Hk) as H. by rewrite Hr in H. }
  destruct (queueTranscodes_queued fp qe (qset_store s' q) discID (shown_dir wr) (d_Titles d') Hc Ha Ht Hk') as (Hk1 & Hen & Hq).
  cbn [callback] in *. set (q1 := (queueTranscodes _ _ _ _ _).2) in *.
  assert (backlog maxTranscodeAttempts (transcodes (q_store q1)) < fuel)%nat as Hlt.
  { eapply Nat.le_lt_trans; [|exact Hfuel]. unfold backlog. apply length_filter. }
  pose proof (drain_advances (still_ripped fp discID) qe fuel q1 Hc Hs (proj1 (proj1 Hk1)) Hlt) as Hdr'. destruct (drain fuel qe q1) as [r q2].
  destruct Hdr' as (-> & _ & Hd2 & Hadv & Hno). split; [done|]. split; [by apply Hd2|].
  apply Forall_forall. intros t Hin. destruct (Hq t Hin) as (x & Hx & Hw & Hsrc).
  destruct (drained_job _ _ _ _ _ _ Hadv Hno Hx Hw) as (y & H1 & H2 & H3 & H4 & H5). exists y.
  split; [done|]. split; [done|]. split; [done|]. split; [congruence|]. fold s' in Hen.
  assert (tc_attempt x = encodes discID (t_Index t) s') as Hat.
  { rewrite <- (Hen (t_Index t) : _ = encodes _ _ s'). unfold encodes. fold q1. by rewrite Hx. }
  rewrite <- Hat. destruct (_ <? _); [done|]. subst y. by split.
Qed.
End pipeline.

(** ** One disc, from the drive to the encode *)

Definition demo_handed : Store := @handed_over caseless 1 1 demo_disc "raw" demo_good demo_saved.

(** While the disc is encoded another one is forgotten, and it is logged. *)
Definition film_other : QEnv :=
  film_beside false (λ n, if (n =? 1)%nat then [OpForgetDisc "bbbbbbbbbbbbbbbb"; OpLogEvent 9 "info" "forgot it" None None] else []).
Lemma film_other_apart fp discID : fp ≠ "bbbbbbbbbbbbbbbb" → apart (still_ripped fp discID) film_other.
Proof.
  intros Hne. apply background_apart; intros n; cbn.
  - by destruct (n =? 1)%nat.
  - destruct (n =? 1)%nat; [|by apply not_elem_of_nil]. rewrite !not_elem_of_cons. split; [congruence|]. split; [done|]. by apply not_elem_of_nil.
Qed.

Lemma ripped_disc_is_encoded_witness :
  ∃ dir, Forall (@passed caseless demo_good dir) [demo_title] ∧
    let q1 := (@callback caseless (OnRipped 1 dir [demo_title]) film_other (qset_store demo_handed film_world)).2 in
    let '(r, q2) := @drain caseless 2 film_other q1 in
    r = Drained ∧ recorded (d_Fingerprint demo_disc) (q_store q2) ∧ encoded_or_failed 1 dir demo_handed (q_store q2) demo_title.
Proof.
  destruct (@ripped_disc_is_encoded caseless demo_good 1 1 demo_disc "raw" demo_disc demo_saved) as (dir & _ & Hp & H).
  - apply demo_undisturbed.
  - by apply demo_unforgotten.
  - split; [apply keeps_snd; [apply SaveDisc_keeps|exact demo_store_wf]|]. vm_compute. eauto.
  - vm_compute. reflexivity.
  - exists dir. split; [exact Hp|]. cbv zeta.
    specialize (H film_other film_world 2%nat (film_calm false) (film_other_apart (d_Fingerprint demo_disc) 1 ltac:(done)) (λ _, eq_refl) eq_refl). cbv zeta in H.
    change (d_Titles demo_disc) with [demo_title] in H. fold demo_handed in H.
    destruct (drain _ _ _) as [r q2]. destruct H as (H1 & H2 & H3).
    + apply Nat.ltb_lt. vm_compute. reflexivity.
    + apply Forall_cons in H3 as [H3 _]. split; [exact H1|]. split; [exact H2|exact H3].
Defined.
(** The same run, computed. *)
Example one_disc :
  let w' := (@rip_job caseless 1 1 demo_disc "raw" demo_good demo_saved).2 in
  let handed := List.filter (λ x, match x with OnRipped _ _ _ => true | _ => false end) (w_trace w') in
  let q := foldl (λ q x, (@callback caseless x (film_env false) q).2) (qset_store demo_handed film_world) handed in
  (λ r, (tc_state r, tc_source_path r)) <$> transcodes (q_store (@drain caseless 2 (film_env false) q).2) =
    [(TranscodeComplete, "/rips/2026-08-01--heat--abcd1234abcd/title_00.mkv")].
Proof. vm_compute. reflexivity. Qed.
(** The same, of a title that failed to encode twice before. *)
Example spent_disc :
  let again now := [OpQueueTranscode now 1 0 "default" "/old/title_00.mkv"; OpNextTranscode now maxTranscodeAttempts; OpFailTranscode now 1 "no"] in
  let s := foldl (flip run_op) demo_handed (again 3 ++ again 5) in
  let q := (@callback caseless (OnRipped 1 "/rips/new" [demo_title]) (film_env false) (qset_store s film_world)).2 in
  (λ r, (tc_state r, tc_attempt r, tc_source_path r)) <$> transcodes (q_store (@drain caseless 2 (film_env false) q).2) =
    [(TranscodePending, 2, "/rips/new/title_00.mkv")].
Proof. vm_compute. reflexivity. Qed.
