(* ===== verification/Daemon.v ===== *)
(** * The daemon (internal/daemon/daemon.go, check.go)

    The drives it watches, its health checks, the refreshing of the MakeMKV
    key, its start, and the self-test.  The state is the record [Daemon]; what
    the machine and the commands answer is an environment per operation; the
    clock and the faults of the event log are indexed by the line logged.

    [one_worker_per_drive] and [syncDrives_watches] say which drives are
    watched; [watched_path_is_fixed] is the limit that a drive is watched at
    the path it was first seen at.  [refreshes_are_spaced] and
    [refresh_only_for_a_bad_key] bound the requests for a key;
    [health_verdict] says what makes the daemon unhealthy.  DaemonRun has the
    goroutines of Run. *)

From S2P Require Import Prelude GoText GoPath GoBase Transcoder Verify Key MakeMkv Table Store Encoder Config Drive Discover.
#[local] Open Scope Z_scope.

Record Health := mkHealth { h_Name : string; h_OK : bool; h_Detail : string; h_Fatal : bool }.
(** Status.Healthy (internal/proto/proto.go) *)
Definition Healthy (hs : list Health) : bool := forallb (λ h, h_OK h || negb (h_Fatal h)) hs.

(** A worker, as the daemon sees it. *)
Record Watched := mkWatched { wk_drv : DriveInfo; wk_label : string; wk_id : Z }.

Record Daemon := mkDaemon {
  d_cfg : Config;
  d_mk : Runner;
  d_enc : Encoder;
  d_st : Store;
  d_workers : gmap string Watched;
  (** The goroutines w.Run that were started, by stable id. *)
  d_running : list string;
  d_health : list Health;
  d_lastKeyRefresh : Z;
  d_keyRefreshTried : bool;
  d_log : list (string * string * option Z);
}.

(** New; [render_node]: the default VAAPI device exists. *)
Definition daemon_New (home : outcome string string) (render_node : bool) (cfg : Config) (st : Store) : Daemon :=
  let mk := MakeMkv.New home (c_MakeMKVBin cfg) (c_MakeMKVSettingsPath cfg) in
  mkDaemon cfg (mkRunner (MakeMkv.Bin mk) (SettingsPath mk) (c_RipStallTimeout cfg))
    (Encoder.New (c_FFmpegBin cfg) (ResolveDevice render_node (c_VAAPIDevice cfg)))
    st ∅ [] [] 0 false [].

Definition set_st (s : Store) (d : Daemon) : Daemon :=
  mkDaemon (d_cfg d) (d_mk d) (d_enc d) s (d_workers d) (d_running d) (d_health d) (d_lastKeyRefresh d) (d_keyRefreshTried d) (d_log d).
Definition set_health (h : list Health) (d : Daemon) : Daemon :=
  mkDaemon (d_cfg d) (d_mk d) (d_enc d) (d_st d) (d_workers d) (d_running d) h (d_lastKeyRefresh d) (d_keyRefreshTried d) (d_log d).
Definition set_refreshed (now : Z) (d : Daemon) : Daemon :=
  mkDaemon (d_cfg d) (d_mk d) (d_enc d) (d_st d) (d_workers d) (d_running d) (d_health d) now true (d_log d).
Definition add_worker (id : string) (w : Watched) (d : Daemon) : Daemon :=
  mkDaemon (d_cfg d) (d_mk d) (d_enc d) (d_st d) (<[id := w]> (d_workers d)) (d_running d) (d_health d) (d_lastKeyRefresh d) (d_keyRefreshTried d) (d_log d).
Definition start_worker (id : string) (d : Daemon) : Daemon :=
  mkDaemon (d_cfg d) (d_mk d) (d_enc d) (d_st d) (d_workers d) (d_running d ++ [id]) (d_health d) (d_lastKeyRefresh d) (d_keyRefreshTried d) (d_log d).

(** What Discover sees, the time, and the faults of the database by drive. *)
Record SyncEnv := mkSyncEnv { sy_machine : Machine; sy_now : Z; sy_fault : string → option string }.
(** The time a refresh is judged at and begins at, its faults, the page, the files. *)
Record RefreshEnv := mkRefreshEnv {
  re_since : Z;
  re_now : Z;
  re_settings : SettingsEnv;
  re_get : string → outcome string response;
  re_files : Files;
}.
(** A run of makemkvcon: its lines, its end, whether its context was done. *)
Record ToolRun := mkToolRun { tr_lines : list string; tr_end : cmdEnd; tr_done : bool }.
Record HealthEnv := mkHealthEnv {
  he_ffmpeg : option string;
  he_device : option string;
  he_makemkv : option string;
  he_version : ToolRun;
  he_settings : readFile;
  he_key : ToolRun;
  he_refresh : RefreshEnv;
  he_settings' : readFile;
  he_key' : ToolRun;
  (** os.Stat of a directory: whether it is one; the probe file. *)
  he_stat : string → outcome string bool;
  he_create : string → option string;
  he_remove : string → option string;
  (** Statfs: free blocks and their size. *)
  he_statfs : string → outcome string (Z * Z);
}.

Section daemon.
Context {U : Unicode}.
Context (unescape quote_other : string → string).
Context (clock : nat → Z) (log_fault : nat → bool).

Definition logEvent (level message : string) (driveID : option Z) (d : Daemon) : Daemon :=
  let n := length (d_log d) in
  let s := if log_fault n then d_st d else (LogEvent (clock n) level message None driveID (d_st d)).2 in
  mkDaemon (d_cfg d) (d_mk d) (d_enc d) s (d_workers d) (d_running d) (d_health d) (d_lastKeyRefresh d) (d_keyRefreshTried d)
    (d_log d ++ [(level, message, driveID)]).

(** ** Drives *)

Definition defaultLabel (dr : DriveInfo) : string :=
  let m := TrimSpace (di_Model dr) in if bool_decide (m = "") then di_StableID dr else m.
Definition disabled (cfg : Config) (id : string) : bool :=
  match DriveFor cfg id with Some c => dc_Disabled c | None => false end.
Definition label_of (cfg : Config) (dr : DriveInfo) : string :=
  let l := match DriveFor cfg (di_StableID dr) with Some c => dc_Label c | None => "" end in
  if bool_decide (l = "") then defaultLabel dr else l.

Definition sync_drive (v : SyncEnv) (d : Daemon) (dr : DriveInfo) : Daemon * option string :=
  let id := di_StableID dr in
  if disabled (d_cfg d) id then (d, None)
  else match d_workers d !! id with
  | Some w =>
      if bool_decide (di_DevicePath (wk_drv w) = di_DevicePath dr) then (d, None)
      else (logEvent "info" (wk_label w +:+ " moved from " +:+ di_DevicePath (wk_drv w) +:+ " to " +:+ di_DevicePath dr) None d, None)
  | None =>
      let label := label_of (d_cfg d) dr in
      match sy_fault v id with
      | Some e => (d, Some e)
      | None =>
          match UpsertDrive (sy_now v) id (di_DevicePath dr) label (TrimSpace (di_Vendor dr +:+ " " +:+ di_Model dr)) (d_st d) with
          | (Err x, s) => (set_st s d, Some (storeErr_text x))
          | (Ok driveID, s) =>
              let d := add_worker id (mkWatched dr label driveID) (set_st s d) in
              let d := logEvent "info" ("watching " +:+ drive_Describe dr +:+ " as " +:+ Key.quote quote_other label) (Some driveID) d in
              (start_worker id d, None)
          end
      end
  end.
Fixpoint sync_drives (v : SyncEnv) (d : Daemon) (found : list DriveInfo) : Daemon * option string :=
  match found with
  | [] => (d, None)
  | dr :: found =>
      match sync_drive v d dr with
      | (d, Some e) => (d, Some e)
      | (d, None) => sync_drives v d found
      end
  end.
Definition syncDrives (v : SyncEnv) (d : Daemon) : Daemon * option string :=
  match Discover (sy_machine v) with
  | Err e => (d, Some e)
  | Ok found => sync_drives v d found
  end.

(** sort.Slice by label, of the workers in the order the map is walked. *)
Definition by_label (a b : Watched) : Prop := String.leb (wk_label a) (wk_label b) = true.
#[local] Instance by_label_dec : RelDecision by_label.
Proof. intros a b. unfold by_label. apply _. Defined.
Definition snapshotWorkers (walk : list (string * Watched)) : list Watched := merge_sort by_label (walk.*2).

(** strings.EqualFold; [fold_other] compares when a string is not ASCII. *)
Definition EqualFold (fold_other : string → string → bool) (a b : string) : bool :=
  if is_ascii a && is_ascii b then bool_decide (str_map lower_byte a = str_map lower_byte b) else fold_other a b.

(** workerFor, the labels being tried in the order [walk] of the map. *)
Definition workerFor (fold_other : string → string → bool) (d : Daemon) (walk : list (string * Watched)) (name : string) : outcome string Watched :=
  match (if bool_decide (name = "") then match map_to_list (d_workers d) with [(_, w)] => Some w | _ => None end else None) with
  | Some w => Ok w
  | None =>
      match d_workers d !! name with
      | Some w => Ok w
      | None =>
          match filter (λ x, EqualFold fold_other (wk_label x.2) name = true) walk with
          | (_, w) :: _ => Ok w
          | [] => Err ("no drive named " +:+ Key.quote quote_other name)
          end
      end
  end.
Definition haveBluRayDrive (walk : list (string * Watched)) : bool :=
  existsb (λ w, ReadsBluRay (wk_drv w)) (snapshotWorkers walk).

(** ** The key *)

Definition settingsPath (d : Daemon) : string := SettingsPath (d_mk d).

(** refreshKey: the steps on the settings file, and the entry when it tried. *)
Definition refreshKey (v : RefreshEnv) (d : Daemon) : Daemon * list fstep * option Health :=
  if d_keyRefreshTried d && (re_since v - d_lastKeyRefresh d <? c_KeyRefreshInterval (d_cfg d)) then (d, [], None)
  else
    let d := set_refreshed (re_now v) d in
    let path := settingsPath d in
    let entry ok detail := Some (mkHealth "key refresh" ok detail false) in
    if bool_decide (path = "") then
      (d, [], entry false "cannot locate MakeMKV's settings.conf; set makemkv_settings_path in the config")
    else
      let '(steps, r) := RefreshBetaKey unescape quote_other (re_settings v) (re_get v) (re_files v)
                           (c_BetaKeyURL (d_cfg d)) path in
      match r with
      | Err e => (logEvent "warn" ("could not refresh the MakeMKV key: " +:+ e) None d, steps, entry false e)
      | Ok res =>
          if negb (Changed res) then
            let msg := "the published key is already installed; MakeMKV has not issued a replacement yet" in
            (logEvent "warn" ("MakeMKV key refresh: " +:+ msg) None d, steps, entry false msg)
          else
            let msg := "installed the published beta key " +:+ betaKey_String (Fetched res) in
            (logEvent "info" ("MakeMKV key refresh: " +:+ msg) None d, steps, entry true msg)
      end.

(** ** Health *)

Definition encoderHealth (d : Daemon) (ffmpeg device : option string) : list Health :=
  if negb (c_Transcode (d_cfg d)) then []
  else match ffmpeg with
  | Some e => [mkHealth "ffmpeg" false (e +:+ " — install ffmpeg, or set transcode = false") true]
  | None =>
      mkHealth "ffmpeg" true "present" false ::
      (if negb (Hardware (d_enc d)) then
         [mkHealth "encoder" true "software — no VAAPI device configured; transcoding will be several times slower" false]
       else match device with
       | Some e => [mkHealth "encoder" false (e +:+ " — transcoding will fall back to software") false]
       | None => [mkHealth "encoder" true ("vaapi " +:+ Encoder.Device (d_enc d)) false]
       end)
  end.

Definition checkKey (d : Daemon) (f : readFile) (t : ToolRun) : outcome goerr KeyStatus :=
  CheckKey (d_mk d) f (tr_lines t) (tr_end t) (tr_done t).
Definition bad_key (k : KeyStatus) : bool := MakeMkv.Expired k || negb (Present k) || MakeMkv.VersionTooOld k.
Definition key_entry (o : outcome goerr KeyStatus) : Health :=
  match o with
  | Err e => mkHealth "makemkv key" false (e_text e) false
  | Ok k =>
      if bad_key k then
        mkHealth "makemkv key" false
          ("no valid registration key. Nothing here needs one: " +:+
           "DVD scanning works without it, and Blu-ray uses libaacs rather than MakeMKV. " +:+ MakeMkv.Detail k) false
      else mkHealth "makemkv key" true "accepted" false
  end.
(** A refresh may help: the key is bad, and not because MakeMKV is too old. *)
Definition refreshable (cfg : Config) (o : outcome goerr KeyStatus) : bool :=
  match o with
  | Ok k => negb (MakeMkv.VersionTooOld k) && (MakeMkv.Expired k || negb (Present k)) && c_AutoRefreshKey cfg
  | Err _ => false
  end.

(** The checks of makemkvcon and its key. *)
Definition makemkvHealth (v : HealthEnv) (d : Daemon) : Daemon * list fstep * list Health :=
  match he_makemkv v with
  | Some e => (d, [], [mkHealth "makemkv" false (e +:+ " — install MakeMKV, or set makemkv_bin in the config") true])
  | None =>
      let t := he_version v in
      let version := match Version (d_mk d) (tr_lines t) (tr_end t) (tr_done t) with
                     | Err e => mkHealth "makemkv" false (e_text e) true
                     | Ok s => mkHealth "makemkv" true ("v" +:+ s) false
                     end in
      let key := checkKey d (he_settings v) (he_key v) in
      if refreshable (d_cfg d) key then
        match refreshKey (he_refresh v) d with
        | (d, steps, Some note) =>
            (d, steps, [version; note; key_entry (checkKey d (he_settings' v) (he_key' v))])
        | (d, steps, None) => (d, steps, [version; key_entry key])
        end
      else (d, [], [version; key_entry key])
  end.

Definition writableDir (v : HealthEnv) (path : string) : option string :=
  match he_stat v path with
  | Err e => Some e
  | Ok false => Some (path +:+ " is not a directory")
  | Ok true =>
      let probe := Join [path; ".hellbox-write-test"] in
      match he_create v probe with
      | Some e => Some (path +:+ " is not writable: " +:+ e)
      | None => he_remove v probe
      end
  end.
(** Unsigned 64-bit product. *)
Definition freeBytes (v : HealthEnv) (path : string) : outcome string Z :=
  match he_statfs v path with
  | Err e => Err e
  | Ok (bavail, bsize) => Ok ((bavail * (bsize mod 2 ^ 64)) mod 2 ^ 64)
  end.
Definition warnBelow : Z := Z.shiftl 20 30.

Definition dirHealth (v : HealthEnv) (d : Daemon) : list Health :=
  let dir := c_RipsDir (d_cfg d) in
  [match writableDir v dir with
   | Some e => mkHealth "rips directory" false e true
   | None => mkHealth "rips directory" true dir false
   end;
   match freeBytes v dir with
   | Err e => mkHealth "free space" false e false
   | Ok free => mkHealth "free space" (warnBelow <=? free) (humanBytes (int64 free) +:+ " free") false
   end].
Definition drivesHealth (d : Daemon) : Health :=
  let n := Z.of_nat (size (d_workers d)) in
  mkHealth "drives" (0 <? n) (itoa n +:+ " detected") false.

Definition runHealthChecks (v : HealthEnv) (d : Daemon) : Daemon * list fstep :=
  let enc := encoderHealth d (he_ffmpeg v) (he_device v) in
  let '(d, steps, mk) := makemkvHealth v d in
  (set_health (enc ++ mk ++ dirHealth v d ++ [drivesHealth d]) d, steps).

(** ** Starting, and the self-test *)

(** The directories prepareDirs makes. *)
Definition wanted_dirs (cfg : Config) : list string :=
  filter (λ s, s ≠ "")
    ([c_RipsDir cfg; Dir (c_StatePath cfg); Dir (c_SocketPath cfg)] ++
     (if c_Transcode cfg then [c_WorkDir cfg; c_TranscodedDir cfg] else []) ++
     (if c_FileToLibrary cfg then [c_LibraryDir cfg] else [])).
(** MkdirAll of each until one fails: those it was called on, and the error. *)
Fixpoint mkdirs (mkdir : string → option string) (l : list string) : list string * option string :=
  match l with
  | [] => ([], None)
  | dir :: l =>
      match mkdir dir with
      | Some e => ([dir], Some ("create " +:+ dir +:+ ": " +:+ e))
      | None => let '(made, e) := mkdirs mkdir l in (dir :: made, e)
      end
  end.
Definition prepareDirs (mkdir : string → option string) (d : Daemon) : list string * option string :=
  mkdirs mkdir (wanted_dirs (d_cfg d)).

(** Reclaiming the jobs of the process before; [fault] is the database's. *)
Definition reclaim (now : Z) (fault : option string) (d : Daemon) : Daemon :=
  match (match fault with
         | Some e => (Err e, d_st d)
         | None => match ReclaimUnfinishedJobs now (d_st d) with
                   | (Ok n, s) => (Ok n, s)
                   | (Err x, s) => (Err (storeErr_text x), s)
                   end
         end) with
  | (Err e, s) => logEvent "warn" ("could not reclaim interrupted jobs: " +:+ e) None (set_st s d)
  | (Ok n, s) =>
      let d := set_st s d in
      if 0 <? n then
        logEvent "info" (itoa n +:+ " job" +:+ Transcoder.plural n +:+ " interrupted by a restart marked cancelled") None d
      else d
  end.
Definition log_unhealthy (hs : list Health) (d : Daemon) : Daemon :=
  foldl (λ d h, if h_OK h then d
                else logEvent (if h_Fatal h then "error" else "warn") (h_Name h +:+ ": " +:+ h_Detail h) None d) d hs.

(** Run up to the goroutines. *)
Definition startup (mkdir : string → option string) (now : Z) (fault : option string) (sv : SyncEnv) (hv : HealthEnv)
    (d : Daemon) : Daemon * option string :=
  match (prepareDirs mkdir d).2 with
  | Some e => (d, Some e)
  | None =>
      let d := reclaim now fault d in
      match syncDrives sv d with
      | (d, Some e) => (d, Some e)
      | (d, None) =>
          let d := if bool_decide (d_workers d = ∅)
                   then logEvent "warn" "no optical drives were found; hellbox will keep looking" None d else d in
          let d := (runHealthChecks hv d).1 in
          (log_unhealthy (d_health d) d, None)
      end
  end.

(** Check: no worker is started; [status] is what each drive answers. *)
Definition check_drive (status : DriveInfo → outcome string string) (dr : DriveInfo) : string :=
  let state := match status dr with Ok s => s | Err e => "unreadable: " +:+ e end in
  "  drive  " +:+ drive_Describe dr +:+ String newline "" +:+
  "         stable id: " +:+ di_StableID dr +:+ String newline "" +:+
  "         state: " +:+ state +:+ String newline "".
Definition registered (d : Daemon) (found : list DriveInfo) : Daemon :=
  foldl (λ d dr, add_worker (di_StableID dr) (mkWatched dr (defaultLabel dr) 0) d) d found.
Definition check_mark (h : Health) : string := if h_OK h then "ok  " else if h_Fatal h then "FAIL" else "warn".
(** [%-16s] *)
Fixpoint spaces (n : nat) : string := match n with O => "" | S n => " " +:+ spaces n end.
Definition pad_right (n : nat) (s : string) : string := s +:+ spaces (n - String.length s).
Definition check_line (h : Health) : string :=
  "  " +:+ check_mark h +:+ "  " +:+ pad_right 16 (h_Name h) +:+ " " +:+ h_Detail h +:+ String newline "".
Definition Check (mkdir : string → option string) (status : DriveInfo → outcome string string) (m : Machine)
    (hv : HealthEnv) (d : Daemon) : Daemon * list string * option string :=
  match (prepareDirs mkdir d).2 with
  | Some e => (d, [], Some e)
  | None =>
      let '(out, found) := match Discover m with
                           | Err e => (["  FAIL  drives: " +:+ e +:+ String newline ""], [])
                           | Ok found => ([], found)
                           end in
      let d := (runHealthChecks hv (registered d found)).1 in
      let cfg := d_cfg d in
      let out := out ++ (check_drive status <$> found) ++
        (if bool_decide (found = []) then ["  drive  none detected" +:+ String newline ""] else []) ++ [String newline ""] ++
        (check_line <$> d_health d) ++ [String newline "";
        "  rips dir    " +:+ c_RipsDir cfg +:+ String newline ""; "  state db    " +:+ c_StatePath cfg +:+ String newline "";
        "  socket      " +:+ c_SocketPath cfg +:+ String newline ""] in
      let fatal := existsb (λ h, negb (h_OK h) && h_Fatal h) (d_health d) in
      (d, out, if fatal then Some "startup checks failed" else None)
  end.
End daemon.

(** ** Which drives are watched *)

Definition drive_is (id : string) (r : driveRow) : bool := bool_decide (dr_stable_id r = id).

(** The workers, the goroutines and the database agree. *)
Record watching (d : Daemon) : Prop := mkWatching {
  wt_nodup : NoDup (d_running d);
  wt_dom id : id ∈ d_running d ↔ is_Some (d_workers d !! id);
  wt_worker id w : d_workers d !! id = Some w →
    di_StableID (wk_drv w) = id ∧ disabled (d_cfg d) id = false ∧
    dr_id <$> select1 (drive_is id) (drives (d_st d)) = Some (wk_id w);
}.

Section daemon_facts.
Context {U : Unicode}.
Context (unescape quote_other : string → string).
Context (clock : nat → Z) (log_fault : nat → bool).
Notation logEvent := (logEvent clock log_fault).
Notation sync_drive := (sync_drive quote_other clock log_fault).
Notation sync_drives := (sync_drives quote_other clock log_fault).
Notation syncDrives := (syncDrives quote_other clock log_fault).

Lemma logEvent_drives level m id d : drives (d_st (logEvent level m id d)) = drives (d_st d).
Proof.
  unfold Daemon.logEvent. cbn [d_st]. destruct (log_fault _); [done|].
  unfold LogEvent, bind, references, exec. by destruct (_ && _).
Qed.

Lemma watching_logEvent level m id d : watching d → watching (logEvent level m id d).
Proof.
  intros [H1 H2 H3]. split; [done..|]. intros i w Hw. rewrite logEvent_drives. by apply H3.
Qed.

Lemma UpsertDrive_Ok now id path label vm s k s' :
  UpsertDrive now id path label vm s = (Ok k, s') →
  dr_id <$> select1 (drive_is id) (drives s') = Some k ∧
  ∀ id', id' ≠ id → select1 (drive_is id') (drives s') = select1 (drive_is id') (drives s).
Proof.
  unfold UpsertDrive, bind, exec, queryRow. cbn [drives set_drives].
  destruct (select1 _ (upsert _ _ _ _)) as [r|] eqn:E; cbn [fmap option_fmap option_map]; [|done].
  intros [= <- <-]. cbn [drives set_drives]. unfold drive_is at 1. rewrite E. split; [done|].
  intros id' Hne. apply select1_upsert_other.
  - intros r' _ Hr. apply bool_decide_eq_true in Hr. unfold drive_is. cbn [dr_stable_id].
    split; apply bool_decide_eq_false_2; congruence.
  - apply bool_decide_eq_false_2. cbn [dr_stable_id]. congruence.
Qed.

(** One drive: what changes. *)
Lemma sync_drive_cases v d dr d' e :
  sync_drive v d dr = (d', e) →
  let id := di_StableID dr in
  d_cfg d' = d_cfg d ∧
  ((d_workers d' = d_workers d ∧ d_running d' = d_running d ∧
    (∀ i, is_Some (d_workers d !! i) → select1 (drive_is i) (drives (d_st d')) = select1 (drive_is i) (drives (d_st d))) ∧
    (e = None → disabled (d_cfg d) id = true ∨ is_Some (d_workers d !! id))) ∨
   (∃ k l, d_workers d !! id = None ∧ disabled (d_cfg d) id = false ∧ e = None ∧
      d_workers d' = <[id := mkWatched dr l k]> (d_workers d) ∧ d_running d' = d_running d ++ [id] ∧
      dr_id <$> select1 (drive_is id) (drives (d_st d')) = Some k ∧
      ∀ i, i ≠ id → select1 (drive_is i) (drives (d_st d')) = select1 (drive_is i) (drives (d_st d)))).
Proof.
  cbv zeta. unfold Daemon.sync_drive. destruct (disabled (d_cfg d) (di_StableID dr)) eqn:Hdis.
  { intros [= <- <-]. split; [done|]. left. repeat split; try done. by left. }
  destruct (d_workers d !! di_StableID dr) as [w|] eqn:Hw.
  { case_bool_decide; intros [= <- <-]; (split; [done|left]); repeat split; try done; try (by right).
    intros i _. by rewrite logEvent_drives. }
  destruct (sy_fault v _) as [m|]; [intros [= <- <-]; split; [done|by left]|].
  destruct (UpsertDrive _ _ _ _ _ _) as [[k|x] s'] eqn:Hu; intros [= <- <-].
  - apply UpsertDrive_Ok in Hu as [Hk Ho]. split; [done|]. right. eexists k, _.
    split; [done|]. split; [done|]. split; [done|]. split; [reflexivity|]. split; [reflexivity|].
    cbn [d_st start_worker]. rewrite logEvent_drives. done.
  - split; [done|]. left. split; [done|]. split; [done|]. split; [|done].
    intros i [w Hi]. unfold UpsertDrive, bind, exec, queryRow in Hu. cbn [drives set_drives] in Hu.
    destruct (select1 _ (upsert _ _ _ _)); cbn [fmap option_fmap option_map] in Hu; [done|].
    injection Hu as <- <-. cbn [drives set_drives d_st set_st]. apply select1_upsert_other.
    + intros r' _ Hr. apply bool_decide_eq_true in Hr. unfold drive_is. cbn [dr_stable_id].
      split; apply bool_decide_eq_false_2; congruence.
    + apply bool_decide_eq_false_2. cbn [dr_stable_id]. congruence.
Qed.

Lemma watching_sync_drive v d dr : watching d → watching (sync_drive v d dr).1.
Proof.
  intros [Hnd Hdom Hw]. destruct (sync_drive v d dr) as [d' e] eqn:E. cbn [fst].
  apply sync_drive_cases in E as (Hc & [(Hws & Hr & Hs & _)|(k & l & Hn & Hd & _ & Hws & Hr & Hk & Ho)]).
  - constructor; [by rewrite Hr|intros id; by rewrite Hr, Hws|]. intros id w Hi. rewrite Hws in Hi.
    rewrite Hc, Hs by eauto. by apply Hw.
  - constructor.
    + rewrite Hr. apply NoDup_app. split; [done|]. split; [|apply NoDup_singleton].
      intros x Hx ->%list_elem_of_singleton. apply Hdom in Hx as [? Hx]. congruence.
    + intros id. rewrite Hr, Hws, elem_of_app, list_elem_of_singleton, Hdom, lookup_insert_is_Some'.
      split; (intros [?|?]; [by right|by left]) || intros [->|?]; auto.
    + intros id w. rewrite Hc, Hws, lookup_insert_Some. intros [[<- <-]|[Hne Hi]]; [done|].
      rewrite Ho by done. by apply Hw.
Qed.

Lemma sync_drives_cfg v found : ∀ d, d_cfg (sync_drives v d found).1 = d_cfg d.
Proof.
  induction found as [|dr found IH]; intros d; cbn [Daemon.sync_drives]; [done|].
  destruct (sync_drive v d dr) as [d' e] eqn:E. apply sync_drive_cases in E as [Hc _].
  destruct e; [done|]. by rewrite IH.
Qed.
Lemma syncDrives_cfg v d : d_cfg (syncDrives v d).1 = d_cfg d.
Proof. unfold Daemon.syncDrives. destruct (Discover _); [apply sync_drives_cfg|done]. Qed.

Lemma watching_sync_drives v found : ∀ d, watching d → watching (sync_drives v d found).1.
Proof.
  induction found as [|dr found IH]; intros d H; cbn [Daemon.sync_drives]; [done|].
  pose proof (watching_sync_drive v d dr H) as H'. destruct (sync_drive v d dr) as [d' [e|]]; [done|]. by apply IH.
Qed.

Lemma watching_syncDrives v d : watching d → watching (syncDrives v d).1.
Proof. intros H. unfold Daemon.syncDrives. destruct (Discover _); [by apply watching_sync_drives|done]. Qed.

(** The daemon after a number of syncs. *)
Definition syncs (vs : list SyncEnv) (d : Daemon) : Daemon := foldl (λ d v, (syncDrives v d).1) d vs.

Lemma watching_syncs vs : ∀ d, watching d → watching (syncs vs d).
Proof. unfold syncs. induction vs as [|v vs IH]; intros d H; cbn [foldl]; [done|]. by apply IH, watching_syncDrives. Qed.

Lemma watching_New home node cfg st : watching (daemon_New home node cfg st).
Proof.
  constructor; cbn [d_running d_workers daemon_New].
  - constructor.
  - intros id. rewrite lookup_empty. split; [by intros ?%elem_of_nil|by intros []].
  - intros id w. by rewrite lookup_empty.
Qed.

(** C13: one worker per drive.  After any number of discoveries, whatever the
    machine and the database answer, each stable id has at most one goroutine
    reading its drive, it has one exactly when it has a worker, the worker is
    of that drive and not of one the configuration disables, and its id is the
    drive's row in the database. *)
Theorem one_worker_per_drive home node cfg st vs :
  let d := syncs vs (daemon_New home node cfg st) in
  NoDup (d_running d) ∧ (∀ id, id ∈ d_running d ↔ is_Some (d_workers d !! id)) ∧
  ∀ id w, d_workers d !! id = Some w →
    di_StableID (wk_drv w) = id ∧ disabled cfg id = false ∧
    dr_id <$> select1 (drive_is id) (drives (d_st d)) = Some (wk_id w).
Proof.
  cbv zeta. assert (∀ ds, d_cfg (syncs ds (daemon_New home node cfg st)) = cfg) as Hcfg.
  { intros ds. unfold syncs. generalize (daemon_New home node cfg st), (eq_refl : d_cfg (daemon_New home node cfg st) = cfg).
    induction ds as [|v ds IH]; intros d Hd; cbn [foldl]; [done|]. apply IH. rewrite syncDrives_cfg. done. }
  destruct (watching_syncs vs _ (watching_New home node cfg st)) as [H1 H2 H3].
  split; [done|]. split; [done|]. intros id w Hw. specialize (H3 id w Hw). by rewrite Hcfg in H3.
Qed.

Lemma sync_drives_keeps v found : ∀ d, d_workers d ⊆ d_workers (sync_drives v d found).1.
Proof.
  induction found as [|dr found IH]; intros d; cbn [Daemon.sync_drives]; [done|].
  destruct (sync_drive v d dr) as [d' e] eqn:E.
  assert (d_workers d ⊆ d_workers d') as H.
  { apply sync_drive_cases in E as (_ & [(-> & _)|(k & l & Hn & _ & _ & -> & _)]); [done|by apply insert_subseteq]. }
  destruct e; [done|]. by etrans.
Qed.

Lemma sync_drives_done v found : ∀ d d', sync_drives v d found = (d', None) →
  ∀ dr, dr ∈ found → disabled (d_cfg d) (di_StableID dr) = false → is_Some (d_workers d' !! di_StableID dr).
Proof.
  induction found as [|x found IH]; intros d d'; cbn [Daemon.sync_drives].
  { intros _ dr ?%elem_of_nil. done. }
  destruct (sync_drive v d x) as [d1 e] eqn:E. destruct e as [e|]; [done|]. intros H dr [->|Hdr]%elem_of_cons Hd.
  - pose proof (sync_drives_keeps v found d1) as Hk. rewrite H in Hk. cbn [fst] in Hk.
    apply sync_drive_cases in E as (_ & [(Hw & _ & _ & He)|(k & l & _ & _ & _ & Hw & _)]).
    + destruct (He eq_refl) as [?|[w Hi]]; [congruence|]. rewrite <- Hw in Hi. exists w. by eapply lookup_weaken.
    + eexists. eapply lookup_weaken; [|done]. rewrite Hw. apply lookup_insert_eq.
  - apply (IH d1); [done..|]. apply sync_drive_cases in E as [-> _]. done.
Qed.

(** a discovery that succeeds leaves a worker on every drive found that is
    not disabled, and takes none away. *)
Theorem syncDrives_watches v d d' found :
  Discover (sy_machine v) = Ok found → syncDrives v d = (d', None) →
  (∀ dr, dr ∈ found → disabled (d_cfg d) (di_StableID dr) = false → is_Some (d_workers d' !! di_StableID dr)) ∧
  d_workers d ⊆ d_workers d'.
Proof.
  unfold Daemon.syncDrives. intros -> H. split; [by eapply sync_drives_done|].
  pose proof (sync_drives_keeps v found d) as Hk. by rewrite H in Hk.
Qed.

Lemma syncDrives_keeps v d : d_workers d ⊆ d_workers (syncDrives v d).1.
Proof. unfold Daemon.syncDrives. destruct (Discover _); [apply sync_drives_keeps|done]. Qed.

(** a drive is watched at the path it was first seen at.  A drive that comes
    back under another device path, or a second drive with the same stable id,
    is taken for the first one having moved: however often the drives are
    looked for, the worker keeps reading the old path. *)
Theorem watched_path_is_fixed vs d id w :
  d_workers d !! id = Some w → d_workers (syncs vs d) !! id = Some w.
Proof.
  intros Hw. assert (d_workers d ⊆ d_workers (syncs vs d)) as H; [|by eapply lookup_weaken].
  unfold syncs. clear Hw. revert d. induction vs as [|v vs IH]; intros d; cbn [foldl]; [done|].
  etrans; [apply syncDrives_keeps|apply IH].
Qed.


(** a name finds a drive.  A stable id finds its own worker, whatever the
    labels say; no name finds the only worker there is; any other name finds a
    worker whose label it folds to, and the error says that there is none.
    The order the map is walked in matters only between workers that share a
    label. *)
Theorem workerFor_spec fold_other d walk name :
  walk ≡ₚ map_to_list (d_workers d) →
  (∀ w, d_workers d !! name = Some w → name ≠ "" → workerFor quote_other fold_other d walk name = Ok w) ∧
  (∀ id w, d_workers d = {[id := w]} → workerFor quote_other fold_other d walk "" = Ok w) ∧
  (d_workers d !! name = None → name ≠ "" →
    match workerFor quote_other fold_other d walk name with
    | Ok w => ∃ id, d_workers d !! id = Some w ∧ EqualFold fold_other (wk_label w) name = true
    | Err _ => ∀ id w, d_workers d !! id = Some w → EqualFold fold_other (wk_label w) name = false
    end).
Proof.
  intros Hp. unfold workerFor. split; [|split].
  - intros w Hw Hne. by rewrite bool_decide_eq_false_2, Hw.
  - intros id w Hd. by rewrite bool_decide_eq_true_2, Hd, map_to_list_singleton.
  - intros Hn Hne. rewrite bool_decide_eq_false_2, Hn by done.
    destruct (filter (λ x, EqualFold fold_other (wk_label x.2) name = true) walk) as [|[id w] l] eqn:E.
    + intros id w Hw. apply elem_of_map_to_list in Hw. rewrite <- Hp in Hw.
      destruct (EqualFold _ _ _) eqn:F; [|done].
      assert ((id, w) ∈ filter (λ x, EqualFold fold_other (wk_label x.2) name = true) walk) as Hin
        by by apply list_elem_of_filter.
      rewrite E in Hin. by apply elem_of_nil in Hin.
    + assert ((id, w) ∈ filter (λ x, EqualFold fold_other (wk_label x.2) name = true) walk) as Hin by (rewrite E; by left).
      apply list_elem_of_filter in Hin as [Hf Hin]. rewrite Hp in Hin. apply elem_of_map_to_list in Hin. by exists id.
Qed.

(** ** Health *)

Notation refreshKey := (refreshKey unescape quote_other clock log_fault).
Notation makemkvHealth := (makemkvHealth unescape quote_other clock log_fault).
Notation runHealthChecks := (runHealthChecks unescape quote_other clock log_fault).

Lemma Healthy_app a b : Healthy (a ++ b) = Healthy a && Healthy b.
Proof. apply forallb_app. Qed.

Lemma refreshKey_cases v d d' steps o : refreshKey v d = (d', steps, o) →
  d_cfg d' = d_cfg d ∧ d_mk d' = d_mk d ∧ d_workers d' = d_workers d ∧
  match o with
  | None => d' = d ∧ steps = [] ∧ d_keyRefreshTried d = true ∧ re_since v - d_lastKeyRefresh d < c_KeyRefreshInterval (d_cfg d)
  | Some h => h_Name h = "key refresh" ∧ h_Fatal h = false ∧ d_keyRefreshTried d' = true ∧ d_lastKeyRefresh d' = re_now v ∧
      (d_keyRefreshTried d = true → c_KeyRefreshInterval (d_cfg d) ≤ re_since v - d_lastKeyRefresh d)
  end.
Proof.
  unfold Daemon.refreshKey. destruct (d_keyRefreshTried d && _) eqn:E.
  { intros [= <- <- <-]. apply andb_true_iff in E as [? ?%Z.ltb_lt]. done. }
  assert (d_keyRefreshTried d = true → c_KeyRefreshInterval (d_cfg d) ≤ re_since v - d_lastKeyRefresh d) as H.
  { intros Ht. rewrite Ht in E. by apply Z.ltb_ge in E. }
  case_bool_decide; [by intros [= <- <- <-]|].
  destruct (RefreshBetaKey _ _ _ _ _ _ _) as [s [res|m]]; [destruct (negb (Changed res))|]; by intros [= <- <- <-].
Qed.

Lemma makemkvHealth_cases v d d' steps mk : makemkvHealth v d = (d', steps, mk) →
  d_cfg d' = d_cfg d ∧ d_workers d' = d_workers d ∧
  (Healthy mk = true ↔ he_makemkv v = None ∧
     is_ok (Version (d_mk d) (tr_lines (he_version v)) (tr_end (he_version v)) (tr_done (he_version v))) = true).
Proof.
  unfold Daemon.makemkvHealth. destruct (he_makemkv v) as [e|].
  { intros [= <- <- <-]. split; [done|]. split; [done|]. split; [done|]. by intros [? _]. }
  assert (∀ o, h_OK (key_entry o) || negb (h_Fatal (key_entry o)) = true) as Hkey.
  { intros [k|m]; cbn [key_entry]; [destruct (bad_key k)|]; done. }
  assert (∀ o : outcome goerr string, let h := match o with
      | Err e => mkHealth "makemkv" false (e_text e) true | Ok s => mkHealth "makemkv" true ("v" +:+ s) false end in
      h_OK h || negb (h_Fatal h) = is_ok o) as Hver by by intros [].
  destruct (refreshable _ _).
  - destruct (refreshKey (he_refresh v) d) as [[d1 s] [h|]] eqn:E;
      apply refreshKey_cases in E as (Hc & Hm & Hw & H); intros [= <- <- <-]; (split; [done|]); (split; [done|]).
    + destruct H as (_ & Hf & _). unfold Healthy. cbn [forallb]. rewrite Hkey, Hver, Hf, orb_true_r.
      rewrite !andb_true_r. naive_solver.
    + unfold Healthy. cbn [forallb]. rewrite Hkey, Hver, !andb_true_r. naive_solver.
  - intros [= <- <- <-]. split; [done|]. split; [done|].
    unfold Healthy. cbn [forallb]. rewrite Hkey, Hver, !andb_true_r. naive_solver.
Qed.

Lemma runHealthChecks_verdict v d :
  Healthy (d_health (runHealthChecks v d).1) = true ↔
  (c_Transcode (d_cfg d) = true → he_ffmpeg v = None) ∧ he_makemkv v = None ∧
  is_ok (Version (d_mk d) (tr_lines (he_version v)) (tr_end (he_version v)) (tr_done (he_version v))) = true ∧
  writableDir v (c_RipsDir (d_cfg d)) = None.
Proof.
  unfold Daemon.runHealthChecks. destruct (makemkvHealth v d) as [[d' steps] mk] eqn:E.
  apply makemkvHealth_cases in E as (Hc & Hw & Hmk). cbn [fst d_health set_health].
  rewrite !Healthy_app, !andb_true_iff, Hmk.
  assert (Healthy (encoderHealth d (he_ffmpeg v) (he_device v)) = true ↔
    (c_Transcode (d_cfg d) = true → he_ffmpeg v = None)) as ->.
  { unfold encoderHealth. destruct (c_Transcode (d_cfg d)); cbn [negb]; [|naive_solver].
    destruct (he_ffmpeg v); [split; [done|naive_solver]|]. split; [done|]. intros _.
    destruct (negb (Hardware (d_enc d))); [done|]. by destruct (he_device v). }
  assert (Healthy (dirHealth v d') = true ↔ writableDir v (c_RipsDir (d_cfg d)) = None) as ->.
  { unfold dirHealth. rewrite Hc. destruct (writableDir _ _); [split; [done|naive_solver]|]. split; [done|]. intros _.
    unfold Healthy. destruct (freeBytes _ _); cbn [forallb h_OK h_Fatal]; by rewrite ?orb_true_r. }
  assert (Healthy [drivesHealth d'] = true) as Hd by (unfold Healthy, drivesHealth; cbn [forallb h_OK h_Fatal]; by rewrite orb_true_r).
  naive_solver.
Qed.

(** what makes the daemon unhealthy.  Nothing fatal is wrong exactly when
    ffmpeg is there or not wanted, makemkvcon is there and says its version,
    and the rips directory takes a file; the key, its refresh, the GPU, the
    free space and the number of drives never count. *)
Theorem health_verdict v d :
  Healthy (d_health (runHealthChecks v d).1) = true ↔
  (c_Transcode (d_cfg d) = true → he_ffmpeg v = None) ∧ he_makemkv v = None ∧
  is_ok (Version (d_mk d) (tr_lines (he_version v)) (tr_end (he_version v)) (tr_done (he_version v))) = true ∧
  writableDir v (c_RipsDir (d_cfg d)) = None.
Proof. apply runHealthChecks_verdict. Qed.

(** ** Refreshing the key *)

(** A round of checks tried a refresh: it has an entry to report. *)
Definition attempted (v : HealthEnv) (d : Daemon) : bool :=
  existsb (λ h, bool_decide (h_Name h = "key refresh")) (d_health (runHealthChecks v d).1).

Lemma runHealthChecks_refresh v d :
  let d' := (runHealthChecks v d).1 in
  d_cfg d' = d_cfg d ∧
  (attempted v d = true ↔
    he_makemkv v = None ∧ refreshable (d_cfg d) (checkKey d (he_settings v) (he_key v)) = true ∧
    (d_keyRefreshTried d = true → c_KeyRefreshInterval (d_cfg d) ≤ re_since (he_refresh v) - d_lastKeyRefresh d)) ∧
  (if attempted v d then d_keyRefreshTried d' = true ∧ d_lastKeyRefresh d' = re_now (he_refresh v)
   else d_keyRefreshTried d' = d_keyRefreshTried d ∧ d_lastKeyRefresh d' = d_lastKeyRefresh d ∧ (runHealthChecks v d).2 = []).
Proof.
  cbv zeta. unfold attempted, Daemon.runHealthChecks.
  assert (∀ d' mk, existsb (λ h, bool_decide (h_Name h = "key refresh"))
    (encoderHealth d (he_ffmpeg v) (he_device v) ++ mk ++ dirHealth v d' ++ [drivesHealth d']) =
    existsb (λ h, bool_decide (h_Name h = "key refresh")) mk) as Hsplit.
  { intros d' mk. rewrite !existsb_app. unfold encoderHealth, dirHealth, drivesHealth. 
    destruct (negb (c_Transcode (d_cfg d))), (he_ffmpeg v), (negb (Hardware (d_enc d))), (he_device v),
      (writableDir v (c_RipsDir (d_cfg d'))), (freeBytes v (c_RipsDir (d_cfg d'))); cbn [app];
      cbn [existsb h_Name]; rewrite ?bool_decide_eq_false_2 by done; cbn [orb]; by rewrite ?orb_false_r. }
  assert (∀ o, bool_decide (h_Name (key_entry o) = "key refresh") = false) as Hkey.
  { intros [k|m]; cbn [key_entry]; [destruct (bad_key k)|]; done. }
  assert (∀ o : outcome goerr string, bool_decide (h_Name (match o with
      | Err e => mkHealth "makemkv" false (e_text e) true | Ok s => mkHealth "makemkv" true ("v" +:+ s) false end) = "key refresh")
      = false) as Hver by by intros [].
  unfold Daemon.makemkvHealth. destruct (he_makemkv v) as [e|].
  { cbn [fst snd d_health set_health d_cfg d_keyRefreshTried d_lastKeyRefresh]. rewrite Hsplit. cbn [existsb h_Name].
    rewrite bool_decide_eq_false_2 by done. cbn [orb]. split; [done|]. split; [|done]. split; [done|by intros [? _]]. }
  destruct (refreshable (d_cfg d) _) eqn:Hr.
  - destruct (refreshKey (he_refresh v) d) as [[d1 s] [h|]] eqn:E; apply refreshKey_cases in E as (Hc & Hm & Hw & H);
      cbn [fst snd d_health set_health d_cfg d_keyRefreshTried d_lastKeyRefresh]; rewrite Hsplit; cbn [existsb].
    + destruct H as (Hn & _ & Ht & Hl & Hi). rewrite Hver, Hkey, Hn. rewrite bool_decide_eq_true_2 by done. cbn [orb].
      done.
    + destruct H as (-> & -> & Ht & Hlt). rewrite Hver, Hkey. cbn [orb]. split; [done|]. split; [|done].
      split; [done|]. intros (_ & _ & Hle). specialize (Hle Ht). lia.
  - cbn [fst snd d_health set_health d_cfg d_keyRefreshTried d_lastKeyRefresh]. rewrite Hsplit. cbn [existsb].
    rewrite Hver, Hkey. cbn [orb]. split; [done|]. split; [|done]. split; [done|]. by intros (_ & ? & _).
Qed.

(** a refresh is tried only for a bad key: makemkvcon is there, the check
    found no usable key for another reason than MakeMKV being too old, the
    configuration allows it, and the interval since the last try is over.
    Without a try the settings file is not touched. *)
Theorem refresh_only_for_a_bad_key v d :
  (attempted v d = true ↔
    he_makemkv v = None ∧
    (∃ k, checkKey d (he_settings v) (he_key v) = Ok k ∧ MakeMkv.VersionTooOld k = false ∧
       (MakeMkv.Expired k = true ∨ Present k = false)) ∧
    c_AutoRefreshKey (d_cfg d) = true ∧
    (d_keyRefreshTried d = true → c_KeyRefreshInterval (d_cfg d) ≤ re_since (he_refresh v) - d_lastKeyRefresh d)) ∧
  (attempted v d = false → (runHealthChecks v d).2 = []).
Proof.
  pose proof (runHealthChecks_refresh v d) as H. cbv zeta in H. destruct H as (_ & Ha & Hs). split.
  - rewrite Ha. unfold refreshable. destruct (checkKey d _ _) as [k|]; [|naive_solver].
    rewrite !andb_true_iff, negb_true_iff, orb_true_iff, negb_true_iff. naive_solver.
  - intros Hf. rewrite Hf in Hs. apply Hs.
Qed.

(** The times of the refreshes over rounds of checks. *)
Fixpoint attempts (vs : list HealthEnv) (d : Daemon) : list Z :=
  match vs with
  | [] => []
  | v :: vs => (if attempted v d then [re_now (he_refresh v)] else []) ++ attempts vs (runHealthChecks v d).1
  end.
Fixpoint spaced (gap : Z) (last : option Z) (ts : list Z) : Prop :=
  match ts with
  | [] => True
  | t :: ts => (match last with Some l => l + gap ≤ t | None => True end) ∧ spaced gap (Some t) ts
  end.

Lemma attempts_spaced vs : ∀ d,
  Forall (λ v, re_since (he_refresh v) ≤ re_now (he_refresh v)) vs →
  spaced (c_KeyRefreshInterval (d_cfg d)) (if d_keyRefreshTried d then Some (d_lastKeyRefresh d) else None) (attempts vs d).
Proof.
  induction vs as [|v vs IH]; intros d; cbn [attempts]; [done|]. rewrite Forall_cons. intros [Hv Hvs].
  pose proof (runHealthChecks_refresh v d) as H. cbv zeta in H. destruct H as (Hc & Ha & Hs).
  specialize (IH (runHealthChecks v d).1 Hvs). rewrite Hc in IH. destruct (attempted v d) eqn:E.
  - destruct Hs as [Ht Hl]. rewrite Ht, Hl in IH. cbn [app spaced]. split; [|done].
    destruct Ha as [Ha _]. destruct (Ha eq_refl) as (_ & _ & Hi).
    destruct (d_keyRefreshTried d); [|done]. specialize (Hi eq_refl). lia.
  - destruct Hs as (Ht & Hl & _). rewrite Ht, Hl in IH. done.
Qed.

(** C34: the forum is not hammered.  Over any number of rounds of checks, from
    the tick or from a client, two refreshes are at least the configured
    interval apart. *)
Theorem refreshes_are_spaced home node cfg st vs :
  Forall (λ v, re_since (he_refresh v) ≤ re_now (he_refresh v)) vs →
  spaced (c_KeyRefreshInterval cfg) None (attempts vs (daemon_New home node cfg st)).
Proof. intros H. by apply (attempts_spaced vs (daemon_New home node cfg st)). Qed.

(** ** The self-test *)

Lemma mkdirs_None mkdir l : (mkdirs mkdir l).2 = None ↔ Forall (λ dir, mkdir dir = None) l.
Proof.
  induction l as [|dir l IH]; cbn [mkdirs]; [split; [constructor|done]|]. rewrite Forall_cons.
  destruct (mkdir dir) as [e|]; [naive_solver|]. destruct (mkdirs mkdir l) as [made e]. cbn [snd] in *. naive_solver.
Qed.

Lemma registered_keeps found : ∀ d, d_cfg (registered d found) = d_cfg d ∧ d_mk (registered d found) = d_mk d.
Proof. unfold registered. induction found as [|dr found IH]; intros d; cbn [foldl]; [done|]. by rewrite !(proj1 (IH _)), (proj2 (IH _)). Qed.

Lemma Healthy_existsb hs : existsb (λ h, negb (h_OK h) && h_Fatal h) hs = negb (Healthy hs).
Proof.
  induction hs as [|h hs IH]; [done|]. unfold Healthy in *. cbn [existsb forallb]. rewrite IH, negb_andb.
  by destruct (h_OK h), (h_Fatal h).
Qed.

(** hellboxd -check passes exactly when every directory it writes into
    could be made and nothing fatal is wrong; no worker is started, and the
    drives it counts are the drives found. *)
Theorem Check_verdict mkdir status m v d d' out e :
  Check unescape quote_other clock log_fault mkdir status m v d = (d', out, e) →
  (e = None ↔ Forall (λ dir, mkdir dir = None) (wanted_dirs (d_cfg d)) ∧ 
    (c_Transcode (d_cfg d) = true → he_ffmpeg v = None) ∧ he_makemkv v = None ∧
    is_ok (Version (d_mk d) (tr_lines (he_version v)) (tr_end (he_version v)) (tr_done (he_version v))) = true ∧
    writableDir v (c_RipsDir (d_cfg d)) = None) ∧
  d_running d' = d_running d.
Proof.
  unfold Check, prepareDirs. pose proof (mkdirs_None mkdir (wanted_dirs (d_cfg d))) as Hm.
  destruct (mkdirs mkdir (wanted_dirs (d_cfg d))) as [made [e0|]]; cbn [snd] in *.
  { intros [= <- <- <-]. split; [|done]. split; [done|]. intros [H%Hm _]. done. }
  destruct (match Discover m with Err e => _ | Ok found => _ end) as [out0 found]. intros [= <- _ <-].
  rewrite Healthy_existsb. pose proof (registered_keeps found d) as [Hc Hk].
  pose proof (runHealthChecks_verdict v (registered d found)) as Hv. rewrite Hc, Hk in Hv. split.
  - rewrite <- Hv, <- Hm. destruct (Healthy _); cbn [negb]; naive_solver.
  - assert (∀ d, d_running (runHealthChecks v d).1 = d_running d) as ->.
    { intros d0. unfold Daemon.runHealthChecks, Daemon.makemkvHealth, Daemon.refreshKey.
      repeat (case_match; try done; simplify_eq); done. }
    unfold registered. clear. revert d. induction found as [|dr found IH]; intros d; cbn [foldl]; [done|]. by rewrite IH.
Qed.
End daemon_facts.

(** ** At concrete inputs *)

Definition no_response (url : string) : outcome string response := Err "no route to host".
Definition quiet_key : ToolRun := mkToolRun [] (mkEnd None None "") false.
Definition version_run : ToolRun :=
  mkToolRun ["MSG:1005,0,1," +:+ quoted "MakeMKV v1.17.6 linux(x64-release) started"] (mkEnd None None "") false.
Definition refresh_at (t : Z) : RefreshEnv := mkRefreshEnv t t (no_faults "/tmp/x") no_response ∅.
(** A machine without a key in the settings file, asked at a time. *)
Definition keyless_at (t : Z) : HealthEnv :=
  mkHealthEnv None None None version_run RNotExist quiet_key (refresh_at t) RNotExist quiet_key
    (λ _, Ok true) (λ _, None) (λ _, None) (λ _, Ok (2 ^ 30, 4096)).
Definition one_drive (dev : string) : Machine :=
  mkMachine (Ok [dev]) (Ok [("usb-ASUS_1", Some dev)]) (Err "none") (λ n a, Some "ASUS").
Definition log_of (l : string * string * option Z) : string := l.1.2.
Definition sync_at (t : Z) (m : Machine) : SyncEnv := mkSyncEnv m t (λ _, None).
Definition fresh_daemon : Daemon := daemon_New (Ok "/root") false Default empty_store.
Notation no_text := (λ s : string, s).
Notation no_clock := (λ _ : nat, 0).
Notation no_fault := (λ _ : nat, false).

(** Three rounds in a day without a key: the second is too early to try again. *)
Lemma refreshes_are_spaced_witness :
  @attempts caseless no_text no_text no_clock no_fault (keyless_at <$> [0; 2 * Hour; 7 * Hour]) fresh_daemon = [0; 7 * Hour] ∧
  spaced (6 * Hour) None (@attempts caseless no_text no_text no_clock no_fault (keyless_at <$> [0; 2 * Hour; 7 * Hour]) fresh_daemon).
Proof.
  split; [vm_compute; reflexivity|].
  apply (@refreshes_are_spaced caseless no_text no_text no_clock no_fault (Ok "/root") false Default empty_store).
  repeat (apply Forall_cons; split; [apply Z.le_refl|]). apply Forall_nil. exact I.
Defined.

Definition sync_first : Daemon := (@syncDrives caseless no_text no_clock no_fault (sync_at 5 (one_drive "sr0")) fresh_daemon).1.
Lemma syncDrives_watches_witness :
  ∃ found, @Discover caseless (one_drive "sr0") = Ok found ∧ (di_DevicePath <$> found) = ["/dev/sr0"] ∧
    ∀ dr, dr ∈ found → disabled Default (di_StableID dr) = false → is_Some (d_workers sync_first !! di_StableID dr).
Proof.
  eexists. split; [vm_compute; reflexivity|]. split; [reflexivity|].
  eapply (@syncDrives_watches caseless no_text no_clock no_fault (sync_at 5 (one_drive "sr0")) fresh_daemon);
    vm_compute; reflexivity.
Defined.

(** The drive comes back as sr1 and is still read at /dev/sr0. *)
Lemma watched_path_is_fixed_witness :
  ∃ w, di_DevicePath (wk_drv w) = "/dev/sr0" ∧
    d_workers (@syncs caseless no_text no_clock no_fault [sync_at 9 (one_drive "sr1"); sync_at 12 (one_drive "sr1")] sync_first)
      !! "usb-ASUS_1" = Some w ∧
    (log_of <$> d_log (@syncs caseless no_text no_clock no_fault [sync_at 9 (one_drive "sr1"); sync_at 12 (one_drive "sr1")] sync_first)) =
      ["watching ASUS ASUS (/dev/sr0) as " +:+ quoted "ASUS"; "ASUS moved from /dev/sr0 to /dev/sr1"; "ASUS moved from /dev/sr0 to /dev/sr1"].
Proof.
  eexists. split; [|split; [apply (@watched_path_is_fixed caseless no_text no_clock no_fault); vm_compute; reflexivity|]].
  - reflexivity.
  - vm_compute. reflexivity.
Defined.

Lemma Check_verdict_witness :
  ∃ d out, @Check caseless no_text no_text no_clock no_fault (λ _, None) (λ _, Ok "tray open") (one_drive "sr0") (keyless_at 0) fresh_daemon =
    (d, out, None) ∧ d_running d = [].
Proof.
  eexists _, _. split; [vm_compute; reflexivity|].
  eapply (@Check_verdict caseless no_text no_text no_clock no_fault (λ _, None) (λ _, Ok "tray open") (one_drive "sr0") (keyless_at 0) fresh_daemon).
  vm_compute; reflexivity.
Defined.

Lemma workerFor_spec_witness :
  ∃ w, @workerFor no_text (λ _ _, false) sync_first (map_to_list (d_workers sync_first)) "asus" = Ok w ∧ wk_id w = 1 ∧
  EqualFold (λ _ _, false) (wk_label w) "asus" = true.
Proof.
  destruct (@workerFor_spec no_text (λ _ _, false) sync_first (map_to_list (d_workers sync_first)) "asus" (Permutation_refl _))
    as (_ & _ & H).
  specialize (H ltac:(vm_compute; reflexivity) ltac:(discriminate)).
  eexists. split; [vm_compute; reflexivity|]. split; reflexivity.
Defined.
