(* ===== verification/DaemonRun.v ===== *)
(** * The goroutines of the daemon (Run in internal/daemon/daemon.go, Run in
    worker.go and monitor.go, runTranscodes in transcode.go, serve in server.go,
    serveHTTP in http.go)

    Run starts goroutines and waits for them.  Each is a loop, and its state is
    where in the loop it is: at its select, in the body of one of the cases, or
    past the end.  A goroutine ends only by a case of its own select, or by a
    call that fails when the context is done; what the body of a case does is a
    call that returns, and the components model it.  [step] is what can happen,
    one operation of one goroutine at a time, or something from outside: a timer,
    a client, a drive, a failing call.  [exec] is a sequence of them.

    [shutdown_terminates]: a daemon that is told to stop gets to its end as soon
    as its clients have gone.  [idle_client_blocks_shutdown] and
    [socket_error_is_not_returned] are two limits of the code: a client that
    stays connected, and a socket that fails, each keep Run from returning. *)

From S2P Require Import Prelude GoText.

(** ** The loops *)

(** A ticker's goroutine: at its select, in the body of a tick, ended. *)
Inductive loop := Waits | Works | Ended.
(** runTranscodes: reclaiming, at NextTranscode, encoding, filing, at its select. *)
Inductive queue_loop := QReclaims | QNext | QEncodes | QFiles | QWaits | QEnded.
(** The monitor of a drive: at its select, reading the drive, sending an event, its channel closed. *)
Inductive monitor_loop := MonWaits | MonPolls | MonEmits | MonClosed.
(** serve: before the socket is there, at Accept, waiting for the clients. *)
Inductive serve_loop := SListens | SAccepts | SDrains | SEnded.
#[global] Instance queue_loop_eq_dec : EqDecision queue_loop.
Proof. solve_decision. Defined.
#[global] Instance serve_loop_eq_dec : EqDecision serve_loop.
Proof. solve_decision. Defined.
Inductive http_loop := HListens | HServes | HEnded.
(** Where Run is. *)
Inductive main := Selecting | Waiting (err : option string) | Returned (err : option string).

(** A worker's Run, the monitor it started and how many events wait in the channel between them. *)
Record WorkerRun := mkWorkerRun { wr_id : string; wr_loop : loop; wr_monitor : monitor_loop; wr_events : nat }.
Definition eventsCap : nat := 8.

Inductive ticker := SyncTicker | HealthTicker | StatusTicker.

Record RunState := mkRun {
  rn_done : bool;
  rn_tickers : ticker → loop;
  rn_queue : queue_loop;
  rn_workers : list WorkerRun;
  rn_serve : serve_loop;
  (** The listener has been closed, by the goroutine that waits for the context. *)
  rn_closed : bool;
  (** The connections handleConn serves; whether the client has gone. *)
  rn_clients : list (nat * bool);
  (** srvErr, of capacity one. *)
  rn_srvErr : option string;
  rn_http : http_loop;
  rn_main : main;
}.

Definition set_ticker (t : ticker) (l : loop) (s : RunState) : RunState :=
  mkRun (rn_done s) (λ t', match t, t' with
      | SyncTicker, SyncTicker | HealthTicker, HealthTicker | StatusTicker, StatusTicker => l
      | _, _ => rn_tickers s t' end)
    (rn_queue s) (rn_workers s) (rn_serve s) (rn_closed s) (rn_clients s) (rn_srvErr s) (rn_http s) (rn_main s).
Definition set_done (s : RunState) : RunState :=
  mkRun true (rn_tickers s) (rn_queue s) (rn_workers s) (rn_serve s) (rn_closed s) (rn_clients s) (rn_srvErr s) (rn_http s) (rn_main s).
Definition set_queue (q : queue_loop) (s : RunState) : RunState :=
  mkRun (rn_done s) (rn_tickers s) q (rn_workers s) (rn_serve s) (rn_closed s) (rn_clients s) (rn_srvErr s) (rn_http s) (rn_main s).
Definition set_workers (ws : list WorkerRun) (s : RunState) : RunState :=
  mkRun (rn_done s) (rn_tickers s) (rn_queue s) ws (rn_serve s) (rn_closed s) (rn_clients s) (rn_srvErr s) (rn_http s) (rn_main s).
Definition set_serve (v : serve_loop) (s : RunState) : RunState :=
  mkRun (rn_done s) (rn_tickers s) (rn_queue s) (rn_workers s) v (rn_closed s) (rn_clients s) (rn_srvErr s) (rn_http s) (rn_main s).
Definition set_closed (s : RunState) : RunState :=
  mkRun (rn_done s) (rn_tickers s) (rn_queue s) (rn_workers s) (rn_serve s) true (rn_clients s) (rn_srvErr s) (rn_http s) (rn_main s).
Definition set_clients (cl : list (nat * bool)) (s : RunState) : RunState :=
  mkRun (rn_done s) (rn_tickers s) (rn_queue s) (rn_workers s) (rn_serve s) (rn_closed s) cl (rn_srvErr s) (rn_http s) (rn_main s).
Definition set_srvErr (e : option string) (s : RunState) : RunState :=
  mkRun (rn_done s) (rn_tickers s) (rn_queue s) (rn_workers s) (rn_serve s) (rn_closed s) (rn_clients s) e (rn_http s) (rn_main s).
Definition set_http (h : http_loop) (s : RunState) : RunState :=
  mkRun (rn_done s) (rn_tickers s) (rn_queue s) (rn_workers s) (rn_serve s) (rn_closed s) (rn_clients s) (rn_srvErr s) h (rn_main s).
Definition set_main (m : main) (s : RunState) : RunState :=
  mkRun (rn_done s) (rn_tickers s) (rn_queue s) (rn_workers s) (rn_serve s) (rn_closed s) (rn_clients s) (rn_srvErr s) (rn_http s) m.

Definition worker_start (id : string) : WorkerRun := mkWorkerRun id Waits MonWaits 0.
(** Run once its goroutines are started, with the workers that are watched, encoding on or off, and the
    API with an address or without. *)
Definition run_start (workers : list string) (transcode http : bool) : RunState :=
  mkRun false (λ _, Waits) (if transcode then QReclaims else QEnded) (worker_start <$> workers) SListens false [] None
    (if http then HListens else HEnded) Selecting.

(** ** What can happen *)

(** In a loop of the shape "for select ctx.Done, ticker". *)
Inductive loop_act := LTick | LBody | LDone.
Definition loop_step (dn : bool) (a : loop_act) (l : loop) : option loop :=
  match a, l with
  | LTick, Waits => Some Works
  | LBody, Works => Some Waits
  | LDone, Waits => if dn then Some Ended else None
  | _, _ => None
  end.

(** In runTranscodes: a tick or a wake-up, the reclaim, a job that is taken or none (or an error), the end of
    an encode, refreshTranscodeCounts and fileUnfiled, and the context. *)
Inductive queue_act := QTick | QReclaimed | QTakes | QEmpty | QEncoded | QFiled | QDone.
Definition queue_step (dn : bool) (a : queue_act) (q : queue_loop) : option queue_loop :=
  match a, q with
  | QTick, QWaits => Some QNext
  | QReclaimed, QReclaims => Some QNext
  | QTakes, QNext => Some QEncodes
  | QEmpty, QNext => Some QFiles
  | QEncoded, QEncodes => Some (if dn then QEnded else QNext)
  | QFiled, QFiles => Some QWaits
  | QDone, QWaits => if dn then Some QEnded else None
  | _, _ => None
  end.

(** In a worker's two goroutines. *)
Inductive worker_act := MTick | MPolled (emits : bool) | MSends | MGivesUp | MDone | WTakes | WHandled | WDone | WClosed.
Definition worker_step (dn : bool) (a : worker_act) (w : WorkerRun) : option WorkerRun :=
  let '(mkWorkerRun id l m n) := w in
  match a with
  | MTick => match m with MonWaits => Some (mkWorkerRun id l MonPolls n) | _ => None end
  | MPolled emits => match m with MonPolls => Some (mkWorkerRun id l (if emits then MonEmits else MonWaits) n) | _ => None end
  | MSends => match m with MonEmits => if (n <? eventsCap)%nat then Some (mkWorkerRun id l MonWaits (S n)) else None | _ => None end
  | MGivesUp => match m with MonEmits => if dn then Some (mkWorkerRun id l MonWaits n) else None | _ => None end
  | MDone => match m with MonWaits => if dn then Some (mkWorkerRun id l MonClosed n) else None | _ => None end
  | WTakes => match l, n with Waits, S n => Some (mkWorkerRun id Works m n) | _, _ => None end
  | WHandled => match l with Works => Some (mkWorkerRun id Waits m n) | _ => None end
  | WDone => match l with Waits => if dn then Some (mkWorkerRun id Ended m n) else None | _ => None end
  | WClosed => match l, m, n with Waits, MonClosed, O => Some (mkWorkerRun id Ended m n) | _, _, _ => None end
  end.

Inductive action :=
| Cancel
| Ticker (t : ticker) (a : loop_act)
| Queue (a : queue_act)
| OfWorker (i : nat) (a : worker_act)
(** syncDrives starts one, in its ticker's body or for a client that asks for a scan. *)
| StartWorker (id : string)
(** serve: the socket is there, or cannot be had; a client is accepted, leaves, and its handleConn returns;
    the listener is closed; Accept fails because of that, or otherwise; the clients have gone. *)
| Listens | ListenFails (err : string)
| Connect (c : nat) | Hangup (c : nat) | ConnReturns (c : nat)
| CloserRuns | AcceptClosed | AcceptFails (err : string) | ServeReturns
(** serveHTTP: listening, stopped by Shutdown, or failing. *)
| HTTPListens | HTTPShutdown | HTTPFails
| MainCtx | MainErr | MainReturns.

(** The wait group of Run is at zero. *)
Definition is_ended (l : loop) : bool := match l with Ended => true | _ => false end.
Definition wg_zero (s : RunState) : bool :=
  is_ended (rn_tickers s SyncTicker) && is_ended (rn_tickers s HealthTicker) && is_ended (rn_tickers s StatusTicker) &&
  match rn_queue s with QEnded => true | _ => false end && forallb (λ w, is_ended (wr_loop w)) (rn_workers s) &&
  match rn_serve s with SEnded => true | _ => false end && match rn_http s with HEnded => true | _ => false end.

Definition step (s : RunState) (a : action) : option RunState :=
  match a with
  | Cancel => Some (set_done s)
  | Ticker t a => l ← loop_step (rn_done s) a (rn_tickers s t); Some (set_ticker t l s)
  | Queue a => q ← queue_step (rn_done s) a (rn_queue s); Some (set_queue q s)
  | OfWorker i a => w ← rn_workers s !! i; w' ← worker_step (rn_done s) a w; Some (set_workers (<[i := w']> (rn_workers s)) s)
  | StartWorker id =>
      match rn_tickers s SyncTicker, rn_clients s, rn_http s with
      | Works, _, _ | _, _ :: _, _ | _, _, HServes => Some (set_workers (rn_workers s ++ [worker_start id]) s)
      | _, _, _ => None
      end
  | Listens => match rn_serve s with SListens => Some (set_serve SAccepts s) | _ => None end
  | ListenFails e => match rn_serve s with SListens => Some (set_srvErr (Some e) (set_serve SEnded s)) | _ => None end
  | Connect c =>
      match rn_serve s with
      | SAccepts => if rn_closed s || bool_decide (c ∈ (rn_clients s).*1) then None else Some (set_clients ((c, false) :: rn_clients s) s)
      | _ => None
      end
  | Hangup c => Some (set_clients ((λ x, if bool_decide (x.1 = c) then (c, true) else x) <$> rn_clients s) s)
  | ConnReturns c =>
      if bool_decide ((c, true) ∈ rn_clients s) then Some (set_clients (filter (λ x, x ≠ (c, true)) (rn_clients s)) s) else None
  | CloserRuns => match rn_serve s, rn_done s, rn_closed s with SListens, _, _ => None | _, true, false => Some (set_closed s) | _, _, _ => None end
  | AcceptClosed => match rn_serve s, rn_closed s with SAccepts, true => Some (set_serve SDrains s) | _, _ => None end
  | AcceptFails e =>
      match rn_serve s with
      | SAccepts => Some (if rn_done s then set_serve SDrains s else set_srvErr (Some e) (set_serve SEnded s))
      | _ => None
      end
  | ServeReturns => match rn_serve s, rn_clients s with SDrains, [] => Some (set_serve SEnded s) | _, _ => None end
  | HTTPListens => match rn_http s with HListens => Some (set_http HServes s) | _ => None end
  | HTTPShutdown => match rn_http s with HServes => if rn_done s then Some (set_http HEnded s) else None | _ => None end
  | HTTPFails => match rn_http s with HEnded => None | _ => Some (set_http HEnded s) end
  | MainCtx => match rn_main s with Selecting => if rn_done s then Some (set_main (Waiting None) s) else None | _ => None end
  | MainErr => match rn_main s, rn_srvErr s with Selecting, Some e => Some (set_srvErr None (set_main (Waiting (Some e)) s)) | _, _ => None end
  | MainReturns => match rn_main s with Waiting r => if wg_zero s then Some (set_main (Returned r) s) else None | _ => None end
  end.
Fixpoint exec (s : RunState) (acts : list action) : option RunState :=
  match acts with
  | [] => Some s
  | a :: acts => s' ← step s a; exec s' acts
  end.

(** What the daemon does by itself; the rest are the timers, the wake-ups, clients, drives and failing calls. *)
Definition own (a : action) : bool :=
  match a with
  | Cancel | Ticker _ LTick | Queue QTick | OfWorker _ MTick | StartWorker _ | ListenFails _ | Connect _ | Hangup _ | AcceptFails _ | HTTPFails => false
  | _ => true
  end.
Definition returned (s : RunState) : bool := match rn_main s with Returned _ => true | _ => false end.
(** Every client that is still served has gone. *)
Definition all_gone (s : RunState) : bool := forallb snd (rn_clients s).

(** ** Facts *)

(** How much is left to do once the context is done. *)
Definition loop_left (l : loop) : nat := match l with Waits => 1 | Works => 2 | Ended => 0 end.
Definition queue_left (q : queue_loop) : nat := match q with QReclaims => 4 | QNext => 3 | QEncodes => 1 | QFiles => 2 | QWaits => 1 | QEnded => 0 end.
Definition monitor_left (m : monitor_loop) : nat := match m with MonWaits => 1 | MonPolls => 5 | MonEmits => 4 | MonClosed => 0 end.
Definition worker_left (w : WorkerRun) : nat := loop_left (wr_loop w) + monitor_left (wr_monitor w) + 2 * wr_events w.
Definition serve_left (v : serve_loop) : nat := match v with SListens => 3 | SAccepts => 2 | SDrains => 1 | SEnded => 0 end.
Definition http_left (h : http_loop) : nat := match h with HListens => 2 | HServes => 1 | HEnded => 0 end.
Definition main_left (m : main) : nat := match m with Selecting => 2 | Waiting _ => 1 | Returned _ => 0 end.
Definition left_to_do (s : RunState) : nat :=
  loop_left (rn_tickers s SyncTicker) + loop_left (rn_tickers s HealthTicker) + loop_left (rn_tickers s StatusTicker) +
  queue_left (rn_queue s) + sum_list_with worker_left (rn_workers s) + serve_left (rn_serve s) + (if rn_closed s then 0 else 1) +
  length (rn_clients s) + http_left (rn_http s) + main_left (rn_main s).

Lemma sum_insert {B} (f : B → nat) (l : list B) i x y : l !! i = Some x →
  (sum_list_with f (<[i := y]> l) + f x = sum_list_with f l + f y)%nat.
Proof. revert i. induction l as [|z l IH]; intros [|i] E; simplify_eq/=; [lia|]. specialize (IH i E). lia. Qed.

(** A step of the daemon leaves less to do; one from outside, four more at most. *)
Definition lessened (b : bool) (n m : nat) : Prop := if b then (n < m)%nat else (n ≤ m + 4)%nat.
Lemma loop_lessened a l l' t : loop_step true a l = Some l' → lessened (own (Ticker t a)) (loop_left l') (loop_left l).
Proof. destruct a, l; intros [= <-]; cbn; lia. Qed.
Lemma queue_lessened a q q' : queue_step true a q = Some q' → lessened (own (Queue a)) (queue_left q') (queue_left q).
Proof. destruct a, q; intros [= <-]; cbn; lia. Qed.
Lemma worker_lessened a w w' i : worker_step true a w = Some w' → lessened (own (OfWorker i a)) (worker_left w') (worker_left w).
Proof.
  destruct w as [id l m n], a; cbn -[Nat.ltb]; intros H; repeat case_match; simplify_eq; unfold worker_left; cbn; lia.
Qed.

Lemma step_lessened s a s' : rn_done s = true → step s a = Some s' →
  lessened (own a) (left_to_do s') (left_to_do s) ∧ rn_done s' = true.
Proof.
  destruct s as [dn tk q ws sv cls cl er ht mn]. cbn [rn_done]. intros ->.
  destruct a; cbn [step]; try solve [cbn; intros H; repeat case_match; simplify_eq; unfold left_to_do; cbn; split; (lia || done)].
  - intros (l & Hl & [= <-])%bind_Some. pose proof (loop_lessened _ _ _ t Hl) as H. cbn in H. split; [|done].
    unfold lessened, left_to_do in *. destruct t; cbn in *; destruct a; lia.
  - intros (q' & Hq & [= <-])%bind_Some. pose proof (queue_lessened _ _ _ Hq) as H. cbn in H. split; [|done].
    unfold lessened, left_to_do in *. cbn in *. destruct a; lia.
  - intros (w & Hw & (w' & Hw' & [= <-])%bind_Some)%bind_Some. pose proof (worker_lessened _ _ _ i Hw') as H. split; [|done].
    cbn in Hw. pose proof (sum_insert worker_left ws i w w' Hw). unfold lessened, left_to_do in *. cbn -[sum_list_with] in *. destruct a; lia.
  - intros H. assert (s' = set_workers (ws ++ [worker_start id]) (mkRun true tk q ws sv cls cl er ht mn)) as -> by (cbn in H; repeat case_match; congruence).
    split; [|done]. unfold lessened, left_to_do. cbn [own rn_workers set_workers]. rewrite sum_list_with_app. cbn. lia.
  - cbn. intros [= <-]. unfold left_to_do; cbn. rewrite length_fmap. split; (lia || done).
  - case_bool_decide as Hc; [|done]. intros [= <-]. split; [|done]. unfold left_to_do; cbn in *.
    pose proof (length_filter_lt (λ x, x ≠ (c, true)) cl (c, true) Hc) as H. specialize (H (λ H, H eq_refl)). lia.
Qed.

Definition own_steps (acts : list action) : nat := length (filter (λ a, own a = true) acts).
Lemma exec_lessened acts s s' : rn_done s = true → exec s acts = Some s' →
  (own_steps acts + left_to_do s' ≤ left_to_do s + 4 * (length acts - own_steps acts))%nat ∧ rn_done s' = true.
Proof.
  unfold own_steps. revert s. induction acts as [|a acts IH]; intros s Hd; cbn [exec].
  { intros [= <-]. split; [cbn; lia|done]. }
  intros (s1 & E & He)%bind_Some. apply step_lessened in E as [Hl Hd1]; [|done]. destruct (IH s1 Hd1 He) as [H Hd']. split; [|done].
  pose proof (length_filter (λ a, own a = true) acts). rewrite filter_cons. unfold lessened in Hl. destruct (own a) eqn:Ho; cbn [length].
  - rewrite decide_True by done. cbn. lia.
  - rewrite decide_False by done. lia.
Qed.

(** A loop that has not ended has a step. *)
Lemma loop_enabled l : is_ended l = false → ∃ a l', a ≠ LTick ∧ loop_step true a l = Some l'.
Proof. destruct l; [intros _; exists LDone; by eexists|intros _; exists LBody; by eexists|done]. Qed.
Lemma ticker_enabled s t : rn_done s = true → is_ended (rn_tickers s t) = false → ∃ a s', own a = true ∧ step s a = Some s'.
Proof.
  intros Hd (a & l & Ha & E)%loop_enabled. exists (Ticker t a). eexists. split; [by destruct a|]. cbn. by rewrite Hd, E.
Qed.
Lemma queue_enabled q : q ≠ QEnded → ∃ a q', own (Queue a) = true ∧ queue_step true a q = Some q'.
Proof.
  destruct q; [exists QReclaimed|exists QTakes|exists QEncoded|exists QFiled|exists QDone|done]; by eexists.
Qed.
Lemma worker_enabled w : is_ended (wr_loop w) = false → ∃ a w', a ≠ MTick ∧ worker_step true a w = Some w'.
Proof. destruct w as [id [] m n]; [intros _; exists WDone; by eexists|intros _; exists WHandled; by eexists|done]. Qed.

Lemma serve_enabled s : rn_done s = true → rn_serve s ≠ SEnded → all_gone s = true → ∃ a s', own a = true ∧ step s a = Some s'.
Proof.
  intros Hd Hs Hg. destruct (rn_serve s) eqn:Es; [| | |done].
  - exists Listens. eexists. split; [done|]. cbn. by rewrite Es.
  - destruct (rn_closed s) eqn:Ec.
    + exists AcceptClosed. eexists. split; [done|]. cbn. by rewrite Es, Ec.
    + exists CloserRuns. eexists. split; [done|]. cbn. by rewrite Es, Hd, Ec.
  - destruct (rn_clients s) as [|[c g] cl] eqn:Ec.
    + exists ServeReturns. eexists. split; [done|]. cbn. by rewrite Es, Ec.
    + unfold all_gone in Hg. rewrite Ec in Hg. apply andb_true_iff in Hg as [Hc _]. cbn in Hc. subst g.
      exists (ConnReturns c). eexists. split; [done|]. cbn [step]. rewrite Ec, bool_decide_eq_true_2 by by left. reflexivity.
Qed.

(** A daemon told to stop is never stuck, unless a client stays. *)
Lemma own_enabled s : rn_done s = true → all_gone s = true → returned s = false → ∃ a s', own a = true ∧ step s a = Some s'.
Proof.
  intros Hd Hg Hr. destruct (rn_main s) as [|r|r] eqn:Em; [| |unfold returned in Hr; by rewrite Em in Hr].
  { exists MainCtx. eexists. split; [done|]. cbn. by rewrite Em, Hd. }
  destruct (is_ended (rn_tickers s SyncTicker)) eqn:E1; [|by eapply ticker_enabled].
  destruct (is_ended (rn_tickers s HealthTicker)) eqn:E2; [|by eapply ticker_enabled].
  destruct (is_ended (rn_tickers s StatusTicker)) eqn:E3; [|by eapply ticker_enabled].
  destruct (decide (rn_queue s = QEnded)) as [E4|E4]; [|destruct (queue_enabled _ E4) as (a & q & Ha & E)].
  2: { exists (Queue a). eexists. split; [done|]. cbn. by rewrite Hd, E. }
  destruct (forallb (λ w, is_ended (wr_loop w)) (rn_workers s)) eqn:E5.
  2: { apply not_true_iff_false in E5. rewrite forallb_forall in E5.
       destruct (list_find (λ w, is_ended (wr_loop w) = false) (rn_workers s)) as [[i w]|] eqn:Ef.
       - apply list_find_Some in Ef as (Hi & Hw & _). destruct (worker_enabled w Hw) as (a & w' & Ha & E).
         exists (OfWorker i a). eexists. split; [by destruct a|]. cbn [step]. rewrite Hi, Hd. cbn. by rewrite E.
       - apply list_find_None in Ef. rewrite Forall_forall in Ef. destruct E5. intros w Hw. apply not_false_iff_true, Ef. by apply list_elem_of_In. }
  destruct (decide (rn_serve s = SEnded)) as [E6|E6]; [|by apply serve_enabled].
  destruct (rn_http s) eqn:E7.
  - exists HTTPListens. eexists. split; [done|]. cbn. by rewrite E7.
  - exists HTTPShutdown. eexists. split; [done|]. cbn. by rewrite E7, Hd.
  - exists MainReturns. eexists. split; [done|]. cbn [step]. unfold wg_zero. by rewrite Em, E1, E2, E3, E4, E5, E6, E7.
Qed.

Lemma own_gone s a s' : own a = true → step s a = Some s' → all_gone s = true → all_gone s' = true.
Proof.
  unfold all_gone. intros Ho H Hg.
  destruct a; cbn [own] in Ho; try done; cbn in H; try solve [repeat case_match; simplify_eq; cbn; first [exact Hg | congruence]];
    try (apply bind_Some in H as (x & _ & H)).
  - by injection H as <-.
  - by injection H as <-.
  - apply bind_Some in H as (y & _ & H). by injection H as <-.
  - case_bool_decide; [|done]. injection H as <-. cbn. rewrite forallb_forall in *. intros x Hx.
    apply list_elem_of_In, list_elem_of_filter in Hx as [_ Hx]. by apply Hg, list_elem_of_In.
Qed.

(** C35: a daemon that is told to stop stops.  Once the context is done,
    wherever its goroutines are: whatever happens, Run's goroutines together take
    no more steps than are left in their loops and four for each thing that
    still comes from outside, a tick, a client or a drive; as long as Run has
    not returned and no client stays connected, one of them can take a step,
    so none waits for ever; and with all clients gone Run returns without anything
    more from outside.  What the body of a loop does is a call that returns. *)
Theorem shutdown_terminates s : rn_done s = true →
  (∀ acts s', exec s acts = Some s' →
     (own_steps acts ≤ left_to_do s + 4 * (length acts - own_steps acts))%nat ∧
     (returned s' = false → all_gone s' = true → ∃ a s'', own a = true ∧ step s' a = Some s'')) ∧
  (all_gone s = true → ∃ acts s', Forall (λ a, own a = true) acts ∧ exec s acts = Some s' ∧ returned s' = true).
Proof.
  intros Hd. split.
  - intros acts s' He. destruct (exec_lessened acts s s' Hd He) as [Hl Hd']. split; [lia|]. intros Hr Hg. by apply own_enabled.
  - remember (left_to_do s) as n eqn:Hn. revert s Hd Hn. induction (lt_wf n) as [n _ IH]. intros s Hd -> Hg.
    destruct (returned s) eqn:Hr; [by exists [], s|].
    destruct (own_enabled s Hd Hg Hr) as (a & s1 & Ha & E).
    destruct (step_lessened s a s1 Hd E) as [Hlt Hd1]. rewrite Ha in Hlt.
    destruct (IH _ Hlt s1 Hd1 eq_refl (own_gone _ _ _ Ha E Hg)) as (acts & s' & Hacts & He & Hr').
    exists (a :: acts), s'. split; [by constructor|]. split; [|done]. cbn [exec]. by rewrite E.
Qed.

(** The socket serves [c], and the context is done. *)
Record serving (c : nat) (s : RunState) : Prop := {
  sg_serve : rn_serve s = SAccepts ∨ rn_serve s = SDrains;
  sg_client : (c, false) ∈ rn_clients s;
  sg_main : returned s = false;
  sg_done : rn_done s = true;
}.

Lemma serving_step c s a s' : serving c s → a ≠ Hangup c → step s a = Some s' → serving c s'.
Proof.
  intros [Hs Hc Hm Hd] Hne H. destruct s as [dn tk q ws sv cls cl er ht mn]. unfold returned in *. cbn in Hs, Hc, Hm, Hd. subst dn.
  destruct a; cbn [step rn_serve rn_done rn_closed rn_clients rn_main rn_srvErr rn_http] in H;
    try (apply bind_Some in H as (x & Hx & H)); try (apply bind_Some in H as (y & _ & H));
    try solve [repeat case_match; simplify_eq; try (destruct Hs; discriminate); split; cbn; auto; by right].
  - injection H as <-. split; cbn; [done| |done|done]. apply list_elem_of_fmap. exists (c, false). split; [|done].
    cbn. rewrite bool_decide_eq_false_2; [done|]. by intros ->.
  - case_bool_decide; [|done]. injection H as <-. split; cbn; [done| |done|done]. by apply list_elem_of_filter.
  - destruct sv; try done. destruct cl; [by apply elem_of_nil in Hc|done].
  - destruct mn; try done. unfold wg_zero in H. cbn in H. destruct Hs as [-> | ->]; rewrite andb_false_r in H; done.
Qed.

(** a client that stays connected keeps the daemon from stopping.  After
    the context is done, whatever happens short of the client going away, Run
    does not return: nothing interrupts the read of its connection. *)
Theorem idle_client_blocks_shutdown c s acts s' :
  serving c s → Hangup c ∉ acts → exec s acts = Some s' → returned s' = false.
Proof.
  revert s. induction acts as [|a acts IH]; intros s Hs Hn; cbn [exec].
  - intros [= <-]. apply Hs.
  - apply not_elem_of_cons in Hn as [Hne Hn]. intros (s1 & E & He)%bind_Some.
    eapply (IH s1); [|done..]. by eapply serving_step; [|apply not_eq_sym|].
Qed.

(** Something else than the socket runs. *)
Definition ticking (s : RunState) : Prop := is_ended (rn_tickers s StatusTicker) = false ∧ rn_done s = false ∧ returned s = false.

Lemma ticking_step s a s' : ticking s → a ≠ Cancel → step s a = Some s' → ticking s'.
Proof.
  destruct s as [dn tk q ws sv cls cl er ht mn]. unfold ticking, returned. cbn [rn_done rn_tickers rn_main].
  intros (Hl & -> & Hm) Hne H.
  destruct a; cbn [step rn_serve rn_done rn_closed rn_clients rn_main rn_srvErr rn_http rn_tickers] in H;
    try (apply bind_Some in H as (x & Hx & H)); try (apply bind_Some in H as (y & _ & H));
    try solve [repeat case_match; simplify_eq; done].
  - injection H as <-. cbn. split; [|done]. destruct t; [done..|]. destruct a, (tk StatusTicker); cbn in Hx; by simplify_eq.
  - destruct mn; try done. unfold wg_zero in H. cbn in H. rewrite Hl, andb_false_r in H. done.
Qed.

(** the error of the socket is not returned.  When the socket cannot be
    served, Run has the error and waits for goroutines that only end when the
    context is done: until somebody stops the daemon it neither serves a
    client nor returns. *)
Theorem socket_error_is_not_returned workers transcode http acts s :
  Cancel ∉ acts → exec (run_start workers transcode http) acts = Some s → returned s = false.
Proof.
  assert (ticking (run_start workers transcode http)) as Ht by done.
  revert Ht. generalize (run_start workers transcode http). induction acts as [|a acts IH]; intros s0 Ht Hn; cbn [exec].
  - intros [= <-]. apply Ht.
  - apply not_elem_of_cons in Hn as [Hne Hn]. intros (s1 & E & He)%bind_Some.
    eapply (IH s1); [|done..]. by eapply ticking_step; [|apply not_eq_sym|].
Qed.

(** ** At concrete runs *)

(** A rip goes on and a client connects after the daemon was told to stop, but before the listener is closed. *)
Definition stopping : list action :=
  [Listens; HTTPListens; Queue QReclaimed; Queue QTakes; OfWorker 0 MTick; OfWorker 0 (MPolled true); OfWorker 0 MSends; OfWorker 0 WTakes;
   Cancel; Connect 1; Hangup 1].
Definition stopped : RunState := Eval vm_compute in default (run_start [] false false) (exec (run_start ["sr0"] true true) stopping).
Lemma shutdown_terminates_witness :
  exec (run_start ["sr0"] true true) stopping = Some stopped ∧ left_to_do stopped = 14%nat ∧
  ∃ acts s', Forall (λ a, own a = true) acts ∧ exec stopped acts = Some s' ∧ returned s' = true.
Proof.
  split; [vm_compute; reflexivity|]. split; [vm_compute; reflexivity|]. apply (shutdown_terminates stopped); reflexivity.
Defined.

(** A client connects, the daemon is told to stop, and everything else ends. *)
Definition watched_from_slay : list action :=
  [Listens; Connect 1; Cancel; MainCtx; Ticker SyncTicker LDone; Ticker HealthTicker LDone; Ticker StatusTicker LDone; CloserRuns; AcceptClosed].
Definition held : RunState := Eval vm_compute in default (run_start [] false false) (exec (run_start [] false false) watched_from_slay).
Lemma idle_client_blocks_shutdown_witness :
  exec (run_start [] false false) watched_from_slay = Some held ∧
  (∀ acts s', Hangup 1 ∉ acts → exec held acts = Some s' → returned s' = false) ∧
  step held ServeReturns = None.
Proof.
  split; [vm_compute; reflexivity|]. split; [|reflexivity]. intros acts s' Hn.
  apply (idle_client_blocks_shutdown 1); [|done].
  split; [by right|by apply list_elem_of_singleton|reflexivity|reflexivity].
Defined.

Lemma socket_error_is_not_returned_witness :
  ∃ s, exec (run_start [] true true) [ListenFails "listen: address in use"; MainErr; HTTPFails] = Some s ∧
    rn_main s = Waiting (Some "listen: address in use") ∧ returned s = false.
Proof.
  eexists. split; [reflexivity|]. split; [reflexivity|].
  apply (socket_error_is_not_returned [] true true [ListenFails "listen: address in use"; MainErr; HTTPFails]); [|reflexivity].
  intros H. repeat (apply elem_of_cons in H as [H|H]; [discriminate H|]). by apply elem_of_nil in H.
Defined.
