(* ===== verification/Tools.v ===== *)
(** * Finding the external programs (the Available methods, and CheckDevice of
    internal/transcode/transcode.go)

    A program named by an absolute path is looked for there, any other on the
    PATH; both answer an error's text or nothing.

    [encoder_health_tells]: what the daemon's health report says of the
    encoder, in terms of where its program is and whether the device works. *)

From S2P Require Import Prelude GoText GoPath Config Encoder MakeMkv Decrypt Dvd Daemon.
#[local] Open Scope Z_scope.

Section tools.
Context {U : Unicode}.
(** exec.LookPath and os.Stat: the text of their errors. *)
Context (lookPath stat : string → option string).

Definition found_at (name bin : string) : option string :=
  if IsAbs bin then (λ e, name +:+ " not found at " +:+ bin +:+ ": " +:+ e) <$> stat bin
  else (λ e, name +:+ " not on PATH: " +:+ e) <$> lookPath bin.
Definition encoder_Available (e : Encoder) : option string := found_at "ffmpeg" (Encoder.Bin e).
Definition makemkv_Available (r : Runner) : option string := found_at "makemkvcon" (MakeMkv.Bin r).

Record Decrypter := mkDecrypter { dc_Bin : string }.
Definition NewDecrypter (bin : string) : Decrypter := mkDecrypter (if bool_decide (bin = "") then "dvdbackup" else bin).
Definition decrypt_Available (d : Decrypter) : option string := found_at "dvdbackup" (dc_Bin d).

Definition enumerator_Available (e : Enumerator) : option string := (λ err, "ffprobe not on PATH: " +:+ err) <$> lookPath (enum_bin e).

Record Reader := mkReader { InfoBin : string; TitlesBin : string }.
Definition NewReader : Reader := mkReader "bd_info" "bd_list_titles".
(** The first of the two that is missing. *)
Definition reader_Available (r : Reader) : option string :=
  foldr (λ bin rest, match lookPath bin with Some e => Some (bin +:+ " not on PATH (install libbluray-bin): " +:+ e) | None => rest end)
    None [InfoBin r; TitlesBin r].

Definition CheckDevice_args (e : Encoder) : list string :=
  ["-hide_banner"; "-loglevel"; "error"; "-init_hw_device"; "vaapi=hw:" +:+ Encoder.Device e;
   "-f"; "lavfi"; "-i"; "testsrc=size=64x64:rate=1"; "-frames:v"; "1"; "-f"; "null"; "-"].
(** What the run printed, and whether it failed. *)
Definition CheckDevice (e : Encoder) (out : string) (failed : bool) : option string :=
  if negb (Hardware e) then None
  else if failed then Some (Encoder.Device e +:+ " cannot be used for encoding: " +:+ lastLines (TrimSpace out) 2)
  else None.

(** The program is where its name says. *)
Definition findable (bin : string) : bool :=
  match (if IsAbs bin then stat bin else lookPath bin) with None => true | Some _ => false end.
Lemma found_at_iff name bin : found_at name bin = None ↔ findable bin = true.
Proof. unfold found_at, findable. destruct (IsAbs bin); [destruct (stat bin)|destruct (lookPath bin)]; done. Qed.

(** the health report of the encoder.  With transcoding on, the daemon is
    healthy as far as the encoder goes exactly when its program can be found,
    at its absolute path or on the PATH; every entry is in order exactly when,
    beyond that, the device was used successfully or none is configured. *)
Theorem encoder_health_tells d out failed : c_Transcode (d_cfg d) = true →
  let hs := encoderHealth d (encoder_Available (d_enc d)) (CheckDevice (d_enc d) out failed) in
  Healthy hs = findable (Encoder.Bin (d_enc d)) ∧
  forallb h_OK hs = findable (Encoder.Bin (d_enc d)) && (negb (Hardware (d_enc d)) || negb failed).
Proof.
  intros Ht hs. subst hs. unfold encoderHealth, encoder_Available. rewrite Ht. cbn [negb].
  destruct (findable (Encoder.Bin (d_enc d))) eqn:Hf.
  - apply (found_at_iff "ffmpeg") in Hf. rewrite Hf. unfold CheckDevice.
    destruct (Hardware (d_enc d)); cbn [negb orb andb]; [|done]. by destruct failed.
  - destruct (found_at "ffmpeg" (Encoder.Bin (d_enc d))) as [e|] eqn:E; [done|].
    apply found_at_iff in E. congruence.
Qed.
Lemma reader_Available_iff r : reader_Available r = None ↔ lookPath (InfoBin r) = None ∧ lookPath (TitlesBin r) = None.
Proof. unfold reader_Available. cbn. destruct (lookPath (InfoBin r)), (lookPath (TitlesBin r)); naive_solver. Qed.
End tools.
