(* ===== verification/Identify.v ===== *)
(** * Weighing what the nets say (internal/identify/identify.go)

    A net is a record of a name and a function; Run asks them in turn and
    Resolve groups their candidates by normalised title.  Confidences are
    float64 (GoFloat).

    [Resolve_spec]: one candidate per title, the most confident first (when the
    confidences are finite numbers), and the titles are those proposed.  [mergeGroup_spec]: agreement raises the
    confidence of the best candidate and fills in what it lacked.
    [normaliseTitle_idempotent]: agreement is an equivalence. *)

From S2P Require Import Prelude GoText GoFloat FloatFacts.
#[local] Open Scope Z_scope.

Inductive Kind := KindUnknown | KindMovie | KindSeries.
#[global] Instance kind_eq_dec : EqDecision Kind.
Proof. solve_decision. Defined.

Record Input := mkInput {
  in_VolumeLabel : string;
  in_DiscType : string;
  in_Titles : list Z;
  in_Fingerprint : string;
  in_ContentHash : string;
  in_DiscName : string;
  in_DiscNameSource : string;
}.

Record Candidate := mkCandidate {
  c_Title : string;
  c_Year : Z;
  c_Kind : Kind;
  c_Season : Z;
  c_Disc : Z;
  c_Net : string;
  c_Confidence : float64;
  c_Why : string;
}.
Definition no_candidate : Candidate := mkCandidate "" 0 KindUnknown 0 0 "" (f_of_Z 0) "".

(** What a net answers; a slice out of range stops the program. *)
Inductive answer := Candidates (l : list Candidate) | NetError (e : string) | Panic.
Record Net := mkNet { net_Name : string; net_Identify : Input → answer }.

Record Result := mkResult { r_Best : Candidate; r_All : list Candidate; r_Contested : bool }.

(** sort.SliceStable by descending confidence. *)
Definition at_least (a b : Candidate) : Prop := f_lt (c_Confidence a) (c_Confidence b) = false.
#[global] Instance at_least_dec : RelDecision at_least.
Proof. intros a b. unfold at_least. apply _. Defined.
#[global] Instance at_least_total : Total at_least.
Proof.
  intros a b. unfold at_least. destruct (f_lt (c_Confidence a) (c_Confidence b)) eqn:E; [|by left].
  right. by apply f_lt_asym.
Qed.
Definition by_confidence : list Candidate → list Candidate := merge_sort at_least.

Section identify.
Context {U : Unicode}.

(** The loop of normaliseTitle over the bytes: a rune outside ASCII is a run of
    bytes that each take the default branch. *)
Definition keeps (c : ascii) : bool := is_lower_byte c || is_digit_byte c.
Fixpoint normalise_loop (s : string) (lastSpace started : bool) : string :=
  match s with
  | "" => ""
  | String c s' =>
      if keeps c then String c (normalise_loop s' false true)
      else if negb lastSpace && started then " " +:+ normalise_loop s' true true
      else normalise_loop s' lastSpace started
  end.
Definition normaliseTitle (s : string) : string := TrimSpace (normalise_loop (ToLower (TrimSpace s)) false false).

(** mergeGroup, on a group with a first candidate. *)
Definition fill (best c : Candidate) : Candidate :=
  mkCandidate (c_Title best)
    (if c_Year best =? 0 then c_Year c else c_Year best)
    (if bool_decide (c_Kind best = KindUnknown) then c_Kind c else c_Kind best)
    (if c_Season best =? 0 then c_Season c else c_Season best)
    (if c_Disc best =? 0 then c_Disc c else c_Disc best)
    (c_Net best) (c_Confidence best) (c_Why best).
Definition raised (conf : float64) (nets : nat) : float64 :=
  let r := f_add conf (f_mul (f_lit 15 100) (f_of_Z (Z.of_nat nets - 1))) in
  if f_lt (f_lit 95 100) r then f_lit 95 100 else r.
Definition agreed (best : Candidate) (g : list Candidate) : Candidate :=
  let nets : gset string := list_to_set (c_Net <$> g) in
  if (1 <? size nets)%nat then
    mkCandidate (c_Title best) (c_Year best) (c_Kind best) (c_Season best) (c_Disc best) (c_Net best)
      (raised (c_Confidence best) (size nets))
      (c_Why best +:+ " (agreed by " +:+ join ", " (c_Net <$> g) +:+ ")")
  else best.
Definition mergeGroup (g : list Candidate) : Candidate :=
  match by_confidence g with
  | [] => no_candidate
  | [best] => best
  | best :: rest => foldl fill (agreed best (best :: rest)) rest
  end.

(** The titles in the order first seen, and the groups. *)
Definition group_step (st : gmap string (list Candidate) * list string) (c : Candidate) :
    gmap string (list Candidate) * list string :=
  let k := normaliseTitle (c_Title c) in
  match st.1 !! k with
  | None => (<[k := [c]]> st.1, st.2 ++ [k])
  | Some g => (<[k := g ++ [c]]> st.1, st.2)
  end.
Definition grouped (all : list Candidate) : gmap string (list Candidate) * list string :=
  foldl group_step (∅, []) all.
Definition Resolve (all : list Candidate) : Result :=
  match all with
  | [] => mkResult no_candidate [] false
  | _ =>
      let '(groups, order) := grouped all in
      let merged := by_confidence ((λ k, mergeGroup (default [] (groups !! k))) <$> order) in
      let contested := match merged with
                       | a :: b :: _ => f_lt (f_sub (c_Confidence a) (c_Confidence b)) (f_lit 2 10)
                       | _ => false
                       end in
      mkResult (hd no_candidate merged) merged contested
  end.

(** The candidates a net contributes: its name put in, titles of blanks left out. *)
Definition taken (n : Net) (cands : list Candidate) : list Candidate :=
  filter (λ c, TrimSpace (c_Title c) ≠ "")
    ((λ c, if bool_decide (c_Net c = "") then
       mkCandidate (c_Title c) (c_Year c) (c_Kind c) (c_Season c) (c_Disc c) (net_Name n) (c_Confidence c) (c_Why c)
     else c) <$> cands).
Fixpoint ask (nets : list Net) (i : Input) (all : list Candidate) : option (list Candidate) :=
  match nets with
  | [] => Some all
  | n :: nets =>
      match net_Identify n i with
      | Panic => None
      | NetError _ => ask nets i all
      | Candidates cands => ask nets i (all ++ taken n cands)
      end
  end.
(** Run; [None] when a net panics. *)
Definition Run (nets : list Net) (i : Input) : option Result := Resolve <$> ask nets i [].

(** ** Grouping *)

(** The candidates of a title, in the order proposed. *)
Definition of_title (k : string) (all : list Candidate) : list Candidate :=
  filter (λ c, normaliseTitle (c_Title c) = k) all.

Lemma grouped_spec all :
  let '(groups, order) := grouped all in
  NoDup order ∧ (∀ k, k ∈ order ↔ of_title k all ≠ []) ∧
  ∀ k, groups !! k = (match of_title k all with [] => None | g => Some g end).
Proof.
  unfold grouped. induction all as [|c all IH] using rev_ind.
  { cbn [foldl]. split; [constructor|]. split; [|done]. intros k. split; [by intros ?%elem_of_nil|done]. }
  rewrite foldl_app. cbn [foldl]. destruct (foldl group_step (∅, []) all) as [groups order] eqn:E.
  destruct IH as (Hnd & Hin & Hg). set (k := normaliseTitle (c_Title c)).
  assert (∀ k', of_title k' (all ++ [c]) = if decide (k = k') then of_title k' all ++ [c] else of_title k' all) as Hsnoc.
  { intros k'. unfold of_title. rewrite filter_app, filter_cons. fold k.
    destruct (decide (k = k')) as [->|]; [done|]. by rewrite filter_nil, app_nil_r. }
  unfold group_step. cbn [fst snd]. fold k. rewrite Hg. destruct (of_title k all) as [|x g] eqn:Ek.
  - split; [|split].
    + apply NoDup_app. split; [done|]. split; [|apply NoDup_singleton].
      intros y Hy ->%list_elem_of_singleton. by apply Hin in Hy.
    + intros k'. rewrite elem_of_app, list_elem_of_singleton, Hin, Hsnoc. destruct (decide (k = k')) as [<-|Hne].
      * rewrite Ek. split; [done|by right].
      * split; [intros [?|?]; [done|congruence]|by left].
    + intros k'. rewrite Hsnoc. destruct (decide (k = k')) as [<-|Hne].
      * by rewrite lookup_insert_eq, Ek.
      * by rewrite lookup_insert_ne, Hg by done.
  - split; [done|]. split.
    + intros k'. rewrite Hin, Hsnoc. destruct (decide (k = k')) as [<-|Hne]; [|done].
      rewrite Ek. split; done.
    + intros k'. rewrite Hsnoc. destruct (decide (k = k')) as [<-|Hne].
      * by rewrite lookup_insert_eq, Ek.
      * by rewrite lookup_insert_ne, Hg by done.
Qed.

Lemma by_confidence_perm l : by_confidence l ≡ₚ l.
Proof. apply merge_sort_Permutation. Qed.

Lemma foldl_fill_keeps l : ∀ b,
  let r := foldl fill b l in
  c_Title r = c_Title b ∧ c_Net r = c_Net b ∧ c_Confidence r = c_Confidence b ∧ c_Why r = c_Why b ∧
  (c_Year b ≠ 0 → c_Year r = c_Year b) ∧ (c_Season b ≠ 0 → c_Season r = c_Season b) ∧
  (c_Disc b ≠ 0 → c_Disc r = c_Disc b) ∧ (c_Kind b ≠ KindUnknown → c_Kind r = c_Kind b).
Proof.
  induction l as [|c l IH]; intros b; cbn [foldl]; [done|].
  specialize (IH (fill b c)). cbv zeta in *. destruct IH as (-> & -> & -> & -> & H1 & H2 & H3 & H4).
  unfold fill in *. cbn [c_Title c_Net c_Confidence c_Why c_Year c_Season c_Disc c_Kind] in *.
  split_and!; try done.
  - intros Hb. destruct (Z.eqb_spec (c_Year b) 0); [done|by apply H1].
  - intros Hb. destruct (Z.eqb_spec (c_Season b) 0); [done|by apply H2].
  - intros Hb. destruct (Z.eqb_spec (c_Disc b) 0); [done|by apply H3].
  - intros Hb. case_bool_decide; [done|by apply H4].
Qed.

Lemma agreed_keeps b g :
  c_Title (agreed b g) = c_Title b ∧ c_Year (agreed b g) = c_Year b ∧ c_Kind (agreed b g) = c_Kind b ∧
  c_Season (agreed b g) = c_Season b ∧ c_Disc (agreed b g) = c_Disc b ∧ c_Net (agreed b g) = c_Net b.
Proof. unfold agreed. by destruct (1 <? _)%nat. Qed.

Lemma mergeGroup_title g : g ≠ [] → ∃ b, b ∈ g ∧ c_Title (mergeGroup g) = c_Title b.
Proof.
  intros Hg. unfold mergeGroup. pose proof (by_confidence_perm g) as Hp.
  destruct (by_confidence g) as [|b [|x rest]] eqn:E.
  - by apply Permutation_nil in Hp.
  - exists b. split; [|done]. rewrite <- Hp. by left.
  - exists b. split; [rewrite <- Hp; by left|].
    rewrite (proj1 (foldl_fill_keeps (x :: rest) _)). apply agreed_keeps.
Qed.

(** ** Normalised titles *)

(** Runs of lower-case letters and digits with single spaces between them;
    [canon true] does not start with a space, and neither ends with one. *)
Fixpoint canon (after_space : bool) (s : string) : bool :=
  match s with
  | "" => negb after_space
  | String c s' => if keeps c then canon false s' else byte_eqb " "%char c && negb after_space && canon true s'
  end.
Definition canonical (s : string) : Prop := s = "" ∨ canon true s = true.

(** The same with a space allowed at the end. *)
Fixpoint semi (after_space : bool) (s : string) : bool :=
  match s with
  | "" => true
  | String c s' => if keeps c then semi false s' else byte_eqb " "%char c && negb after_space && semi true s'
  end.

Lemma keeps_byte c : keeps c = true →
  is_space_byte c = false ∧ is_ascii_byte c = true ∧ lower_byte c = c.
Proof. destruct c as [[] [] [] [] [] [] [] []]; vm_compute; intros; repeat split; congruence. Qed.

Lemma normalise_loop_semi s : ∀ ls st, (ls = true → st = true) →
  semi (if st then ls else true) (normalise_loop s ls st) = true.
Proof.
  induction s as [|c s IH]; intros ls st Hst; cbn [normalise_loop]; [by destruct st|].
  destruct (keeps c) eqn:Hc; cbn [semi]; [rewrite Hc; by apply (IH false true)|].
  destruct ls, st; cbn [negb andb]; try (by specialize (Hst eq_refl)).
  - by apply (IH true true).
  - cbn. by apply (IH true true).
  - by apply (IH false false).
Qed.

Lemma semi_trim s : ∀ b, semi b s = true →
  (trim_right is_space_byte s = "" ∧ (b = true → s = "")) ∨ canon b (trim_right is_space_byte s) = true.
Proof.
  induction s as [|c s IH]; intros b; cbn [semi trim_right]; [by left|]. destruct (keeps c) eqn:Hc.
  - intros H. right. destruct (keeps_byte c Hc) as (Hsp & _ & _).
    destruct (IH false H) as [[-> _]|Hcan]; [by rewrite Hsp; cbn [canon]; rewrite Hc|].
    destruct (trim_right is_space_byte s) eqn:E; [rewrite Hsp|]; cbn [canon]; by rewrite Hc.
  - intros [[Hb%bool_decide_eq_true Hn]%andb_true_iff H]%andb_true_iff. subst c.
    destruct b; [done|]. destruct (IH true H) as [[-> Hs]|Hcan]; [by left|right].
    destruct (trim_right is_space_byte s) eqn:E; [done|]. by cbn [canon].
Qed.

Lemma semi_ascii s : ∀ b, semi b s = true → is_ascii s = true.
Proof.
  induction s as [|c s IH]; intros b; cbn [semi]; [done|]. unfold is_ascii in *. cbn [str_forall].
  destruct (keeps c) eqn:Hc.
  - intros ->%IH. by destruct (keeps_byte c Hc) as (_ & -> & _).
  - intros [[<-%bool_decide_eq_true _]%andb_true_iff ->%IH]%andb_true_iff. done.
Qed.

Lemma semi_true_trim_left s : semi true s = true → trim_left is_space_byte s = s.
Proof.
  destruct s as [|c s]; [done|]. cbn [semi trim_left]. destruct (keeps c) eqn:Hc.
  - intros _. by destruct (keeps_byte c Hc) as (-> & _).
  - by rewrite andb_false_r.
Qed.

Lemma TrimSpace_all_ascii s : is_ascii s = true →
  TrimSpace s = trim_right is_space_byte (trim_left is_space_byte s).
Proof.
  intros Ha. unfold TrimSpace.
  pose proof (trim_left_forall is_space_byte is_ascii_byte s Ha) as Hl.
  destruct (trim_left is_space_byte s) as [|c s1] eqn:E; [done|]. cbn [str_head].
  pose proof (trim_right_forall is_space_byte is_ascii_byte _ Hl) as Hr.
  cbn [str_forall] in Hl. apply andb_true_iff in Hl as [-> _].
  destruct (str_last (trim_right is_space_byte (String c s1))) as [d|] eqn:Hd; [|done].
  assert (is_ascii_byte d = true) as ->; [|done].
  revert Hr Hd. generalize (trim_right is_space_byte (String c s1)). clear. intros s.
  induction s as [|x s IH]; [done|]. cbn [str_forall str_last]. intros [Hx Hs]%andb_true_iff.
  destruct s as [|y s]; [by intros [= <-]|by apply IH].
Qed.

Lemma canon_semi s : ∀ b, canon b s = true → semi b s = true.
Proof.
  induction s as [|c s IH]; intros b; cbn [canon semi]; [done|]. destruct (keeps c); [apply IH|].
  intros [-> ?]%andb_true_iff. by apply IH.
Qed.

Lemma normalise_canonical s : canonical (normaliseTitle s).
Proof.
  unfold normaliseTitle. pose proof (normalise_loop_semi (ToLower (TrimSpace s)) false false (λ H, H)) as H.
  cbn [semi] in H. rewrite TrimSpace_all_ascii by by eapply semi_ascii.
  rewrite semi_true_trim_left by done. destruct (semi_trim _ _ H) as [[-> _]|Hc]; [by left|by right].
Qed.

Lemma canon_loop s : ∀ b, canon b s = true → normalise_loop s b true = s.
Proof.
  induction s as [|c s IH]; intros b; cbn [canon normalise_loop]; [done|]. destruct (keeps c); [by intros ->%IH|].
  intros [[<-%bool_decide_eq_true Hb]%andb_true_iff H]%andb_true_iff. rewrite Hb. cbn [andb].
  by rewrite (IH true H).
Qed.

Lemma canon_trim_right s : ∀ b, canon b s = true → trim_right is_space_byte s = s.
Proof.
  induction s as [|c s IH]; intros b; cbn [canon trim_right]; [done|]. destruct (keeps c) eqn:Hc.
  - intros H. rewrite (IH false H). destruct s; [|done]. by destruct (keeps_byte c Hc) as (-> & _).
  - intros [[<-%bool_decide_eq_true _]%andb_true_iff H]%andb_true_iff. rewrite (IH true H). by destruct s.
Qed.

Lemma canon_lower s : ∀ b, canon b s = true → str_map lower_byte s = s.
Proof.
  induction s as [|c s IH]; intros b; cbn [canon str_map]; [done|]. destruct (keeps c) eqn:Hc.
  - intros H. rewrite (IH false H). f_equal. by apply keeps_byte.
  - intros [[<-%bool_decide_eq_true _]%andb_true_iff H]%andb_true_iff. by rewrite (IH true H).
Qed.

Lemma canon_TrimSpace s : canon true s = true → TrimSpace s = s.
Proof.
  intros H. pose proof (canon_semi s true H) as Hs. rewrite TrimSpace_all_ascii by by eapply semi_ascii.
  rewrite semi_true_trim_left by done. by eapply canon_trim_right.
Qed.

Lemma canonical_fixed s : canonical s → normaliseTitle s = s.
Proof.
  intros [->|H]; [done|]. unfold normaliseTitle. rewrite (canon_TrimSpace s H). unfold ToLower.
  rewrite (semi_ascii s true (canon_semi s true H)), (canon_lower s true H).
  assert (normalise_loop s false false = s) as ->; [|by apply canon_TrimSpace].
  destruct s as [|c s]; [done|]. cbn [canon normalise_loop] in *. destruct (keeps c); [by rewrite canon_loop|].
  by rewrite andb_false_r in H.
Qed.

(** what titles have to share to agree: whatever the title, its normal form
    is lower-case words and numbers with single spaces between them, and is
    its own normal form, so that agreeing is having the same class. *)
Theorem normaliseTitle_idempotent s :
  canonical (normaliseTitle s) ∧ normaliseTitle (normaliseTitle s) = normaliseTitle s.
Proof. split; [apply normalise_canonical|]. apply canonical_fixed, normalise_canonical. Qed.

(** ** The result *)

Lemma of_title_elem k all c : c ∈ of_title k all ↔ c ∈ all ∧ normaliseTitle (c_Title c) = k.
Proof. unfold of_title. rewrite list_elem_of_filter. tauto. Qed.

Lemma of_title_nonempty k all : of_title k all ≠ [] ↔ ∃ c, c ∈ all ∧ normaliseTitle (c_Title c) = k.
Proof.
  split.
  - intros H. destruct (of_title k all) as [|c l] eqn:E; [done|]. exists c. apply of_title_elem. rewrite E. by left.
  - intros (c & Hc & Hk) E. assert (c ∈ of_title k all) as H by by apply of_title_elem. rewrite E in H. by apply elem_of_nil in H.
Qed.

Lemma merged_title k all : of_title k all ≠ [] → normaliseTitle (c_Title (mergeGroup (of_title k all))) = k.
Proof. intros H. destruct (mergeGroup_title _ H) as (b & Hb & ->). by apply of_title_elem in Hb as [_ ?]. Qed.

Lemma Resolve_merged all : all ≠ [] →
  ∃ order, NoDup order ∧ (∀ k, k ∈ order ↔ ∃ c, c ∈ all ∧ normaliseTitle (c_Title c) = k) ∧
    r_All (Resolve all) = by_confidence ((λ k, mergeGroup (of_title k all)) <$> order) ∧
    r_Best (Resolve all) = hd no_candidate (r_All (Resolve all)) ∧
    r_Contested (Resolve all) = match r_All (Resolve all) with
      | a :: b :: _ => f_lt (f_sub (c_Confidence a) (c_Confidence b)) (f_lit 2 10) | _ => false end.
Proof.
  intros Hne. unfold Resolve. destruct all as [|x all']; [done|]. remember (x :: all') as all eqn:Hall.
  pose proof (grouped_spec all) as H. destruct (grouped all) as [groups order]. destruct H as (Hnd & Hin & Hg).
  exists order. split; [done|]. split; [intros k; by rewrite Hin, of_title_nonempty|]. cbn [r_All r_Best r_Contested].
  split; [|done]. f_equal. apply list_fmap_ext. intros i k Hk. apply list_elem_of_lookup_2 in Hk. apply Hin in Hk.
  rewrite Hg. by destruct (of_title k all).
Qed.

(** A confidence is a number; the package documents it to be between 0 and 1. *)
Definition sure (c : Candidate) : Prop := is_finite (c_Confidence c) = true.

Lemma sure_number c : sure c → is_nan (c_Confidence c) = false.
Proof. unfold sure. by destruct (c_Confidence c). Qed.
Lemma raised_number conf n : is_finite conf = true → is_nan (raised conf n) = false.
Proof.
  intros H. unfold raised. destruct (f_lt _ _); [done|]. apply f_add_not_nan; [done|].
  destruct (f_lit 15 100) as [| | |s m e] eqn:E; [vm_compute in E; discriminate E..|]. apply f_mul_not_nan.
Qed.
Lemma merged_number g : g ≠ [] → Forall sure g → is_nan (c_Confidence (mergeGroup g)) = false.
Proof.
  intros Hg Hs. unfold mergeGroup. pose proof (by_confidence_perm g) as Hp.
  destruct (by_confidence g) as [|b rest] eqn:E; [by apply Permutation_nil in Hp|].
  assert (sure b) as Hb by (rewrite Forall_forall in Hs; apply Hs; rewrite <- Hp; by left).
  destruct rest as [|x rest]; [by apply sure_number|].
  destruct (foldl_fill_keeps (x :: rest) (agreed b (b :: x :: rest))) as (_ & _ & -> & _).
  unfold agreed. destruct (1 <? _)%nat; [by apply raised_number|by apply sure_number].
Qed.

Lemma at_least_refl c : at_least c c.
Proof. unfold at_least. destruct (f_lt _ _) eqn:E; [by rewrite (f_lt_asym _ _ E) in E|done]. Qed.
(** Among numbers, what is in order between neighbours is in order throughout. *)
Lemma sorted_strongly l : Sorted at_least l → Forall (λ c, is_nan (c_Confidence c) = false) l → StronglySorted at_least l.
Proof.
  induction 1 as [|b l Hs IH Hd]; intros Hn; [constructor|]. apply Forall_cons in Hn as [Hb Hn]. specialize (IH Hn).
  constructor; [done|]. destruct Hd as [|c l Hbc]; [constructor|]. apply StronglySorted_inv in IH as [_ Hcl].
  apply Forall_cons in Hn as [Hc Hn]. constructor; [done|]. rewrite Forall_forall in *. intros x Hx. unfold at_least in *.
  eapply (f_nlt_trans _ (c_Confidence c)); [done|done|by apply Hn|done|by apply Hcl].
Qed.
Lemma sorted_head l : StronglySorted at_least l → match l with b :: _ => Forall (at_least b) l | [] => True end.
Proof. destruct 1 as [|b l _ H]; [done|]. constructor; [apply at_least_refl|done]. Qed.

(** C39: what the nets conclude.  There is one candidate for every title
    proposed, up to its normal form, and no other; it merges exactly the
    candidates of that title; they come most confident first, each with
    none above it behind it, and the best is the first of them.  Every confidence
    proposed is a finite number.  The result is contested exactly when the second is within a fifth
    of it. *)
Theorem Resolve_spec all : all ≠ [] → Forall sure all →
  let r := Resolve all in
  NoDup ((λ c, normaliseTitle (c_Title c)) <$> r_All r) ∧
  (∀ k, k ∈ ((λ c, normaliseTitle (c_Title c)) <$> r_All r) ↔ k ∈ ((λ c, normaliseTitle (c_Title c)) <$> all)) ∧
  (∀ c, c ∈ r_All r → c = mergeGroup (of_title (normaliseTitle (c_Title c)) all)) ∧
  StronglySorted at_least (r_All r) ∧ head (r_All r) = Some (r_Best r) ∧
  Forall (λ c, f_lt (c_Confidence (r_Best r)) (c_Confidence c) = false) (r_All r) ∧
  (r_Contested r = true ↔ ∃ a b l, r_All r = a :: b :: l ∧
     f_lt (f_sub (c_Confidence a) (c_Confidence b)) (f_lit 2 10) = true).
Proof.
  intros Hne Hsure. cbv zeta. destruct (Resolve_merged all Hne) as (order & Hnd & Hin & Hall & Hbest & Hcon).
  assert (r_All (Resolve all) ≡ₚ (λ k, mergeGroup (of_title k all)) <$> order) as Hp.
  { rewrite Hall. apply by_confidence_perm. }
  assert (∀ k, k ∈ order → normaliseTitle (c_Title (mergeGroup (of_title k all))) = k) as Hk.
  { intros k Hk. apply merged_title, of_title_nonempty. by apply Hin. }
  assert ((λ c, normaliseTitle (c_Title c)) <$> r_All (Resolve all) ≡ₚ order) as Hkeys.
  { rewrite Hp, <- list_fmap_compose. clear -Hk. induction order as [|k order IH]; [done|]. cbn. rewrite Hk by by left.
    rewrite IH; [done|]. intros k' ?. apply Hk. by right. }
  assert (StronglySorted at_least (r_All (Resolve all))) as Hs.
  { apply sorted_strongly; [rewrite Hall; apply (Sorted_merge_sort _)|]. rewrite Hp, Forall_fmap, Forall_forall. intros k Hk'.
    apply merged_number; [by apply of_title_nonempty, Hin|].
    rewrite Forall_forall in Hsure |- *. intros x [Hx _]%of_title_elem. by apply Hsure. }
  assert (head (r_All (Resolve all)) = Some (r_Best (Resolve all))) as Hhead.
  { rewrite Hbest. destruct (r_All (Resolve all)) as [|c l] eqn:E; [|done].
    apply Permutation_nil in Hp. destruct all as [|x all']; [done|].
    assert (normaliseTitle (c_Title x) ∈ order) as Hx by (apply Hin; exists x; split; [by left|done]).
    destruct order; [by apply elem_of_nil in Hx|done]. }
  split_and!; [|..|done|done| |].
  - by rewrite Hkeys.
  - intros k. rewrite Hkeys, Hin, list_elem_of_fmap. naive_solver.
  - intros c. rewrite Hp, list_elem_of_fmap. intros (k & -> & Hin'). by rewrite Hk.
  - pose proof (sorted_head _ Hs) as H. destruct (r_All (Resolve all)) as [|c l]; [done|]. by injection Hhead as <-.
  - clear Hs Hhead. rewrite Hcon. destruct (r_All (Resolve all)) as [|a [|b l]]; split; try done.
    + by intros (? & ? & ? & ? & _).
    + by intros (? & ? & ? & ? & _).
    + intros H. by exists a, b, l.
    + by intros (? & ? & ? & [= <- <- <-] & H).
Qed.

(** The first value of a field that is known. *)
Definition first_known (f : Candidate → Z) (l : list Candidate) : Z := default 0 (head (filter (λ z, z ≠ 0) (f <$> l))).

Lemma foldl_fill_first (f : Candidate → Z) l : ∀ b,
  (∀ b c, f (fill b c) = if f b =? 0 then f c else f b) →
  f (foldl fill b l) = first_known f (b :: l).
Proof.
  unfold first_known. induction l as [|c l IH]; intros b Hf; cbn [foldl].
  - cbn [fmap list_fmap]. rewrite filter_cons, filter_nil. destruct (decide (f b ≠ 0)) as [|Hz]; [done|]. cbn. lia.
  - rewrite IH by done. cbn [fmap list_fmap]. rewrite !filter_cons, Hf. destruct (Z.eqb_spec (f b) 0) as [Hb|Hb].
    + rewrite Hb. by destruct (decide (f c ≠ 0)).
    + by rewrite !decide_True by done.
Qed.

(** agreement.  The merged candidate has the title of the most confident of
    its group; when more than one net proposed it, the confidence is raised by
    0.15 for each further net and capped at 0.95, and otherwise it is as it
    was; each detail is the first one known, in the order of confidence. *)
Theorem mergeGroup_spec g : g ≠ [] → Forall (λ c, is_nan (c_Confidence c) = false) g →
  ∃ best rest, by_confidence g = best :: rest ∧ best :: rest ≡ₚ g ∧ Forall (at_least best) g ∧
    let n := size (list_to_set (C := gset string) (c_Net <$> g)) in
    c_Title (mergeGroup g) = c_Title best ∧ c_Net (mergeGroup g) = c_Net best ∧
    c_Confidence (mergeGroup g) = (if (1 <? n)%nat then raised (c_Confidence best) n else c_Confidence best) ∧
    c_Year (mergeGroup g) = first_known c_Year (best :: rest) ∧
    c_Season (mergeGroup g) = first_known c_Season (best :: rest) ∧
    c_Disc (mergeGroup g) = first_known c_Disc (best :: rest).
Proof.
  intros Hg Hn. pose proof (by_confidence_perm g) as Hp.
  pose proof (Sorted_merge_sort at_least g) as Hs. fold (by_confidence g) in Hs.
  unfold mergeGroup. destruct (by_confidence g) as [|best rest] eqn:E.
  { by apply Permutation_nil in Hp. }
  exists best, rest. split; [done|]. split; [done|].
  assert (Forall (λ c, is_nan (c_Confidence c) = false) (best :: rest)) as Hn' by by rewrite Hp.
  pose proof (sorted_head _ (sorted_strongly _ Hs Hn')) as Hh. split; [by rewrite <- Hp|]. cbv zeta.
  assert (list_to_set (C := gset string) (c_Net <$> g) = list_to_set (c_Net <$> best :: rest)) as -> by (by rewrite Hp).
  assert (size (list_to_set (C := gset string) (c_Net <$> [best])) = 1%nat) as H1.
  { cbn [fmap list_fmap list_to_set foldr]. rewrite union_empty_r_L. apply size_singleton. }
  assert (∀ f : Candidate → Z, first_known f [best] = f best) as Hf1.
  { intros f. unfold first_known. cbn [fmap list_fmap]. rewrite filter_cons, filter_nil. case_decide as Hd; [done|]. cbn. lia. }
  destruct rest as [|c rest]; [by rewrite H1, !Hf1|].
  destruct (foldl_fill_keeps (c :: rest) (agreed best (best :: c :: rest))) as (-> & -> & -> & _).
  destruct (agreed_keeps best (best :: c :: rest)) as (-> & Hy & _ & Hse & Hd & ->).
  split; [done|]. split; [done|]. split; [unfold agreed; by destruct (1 <? _)%nat|].
  rewrite !foldl_fill_first by done. unfold first_known. cbn [fmap list_fmap]. by rewrite Hy, Hse, Hd.
Qed.
End identify.

(** ** A label and a name that agree *)

Definition from_label : Candidate := mkCandidate "Roman Holiday" 0 KindUnknown 0 0 "label" (f_lit 5 10) "read from the volume label".
Definition from_name : Candidate := mkCandidate "ROMAN_HOLIDAY" 1953 KindMovie 0 0 "discname" (f_lit 8 10) "read from the disc".
Definition from_menu : Candidate := mkCandidate "Dvd Menu" 0 KindUnknown 0 0 "menu" (f_lit 3 10) "menu".
Lemma Resolve_spec_witness :
  (λ c, (c_Title c, c_Year c)) <$> r_All (@Resolve caseless [from_label; from_menu; from_name]) = [("ROMAN_HOLIDAY", 1953); ("Dvd Menu", 0)] ∧
  StronglySorted at_least (r_All (@Resolve caseless [from_label; from_menu; from_name])).
Proof.
  split; [vm_compute; reflexivity|].
  destruct (@Resolve_spec caseless [from_label; from_menu; from_name] ltac:(discriminate) ltac:(by repeat constructor)) as (_ & _ & _ & H & _). exact H.
Defined.
Lemma mergeGroup_spec_witness :
  ∃ best rest, by_confidence [from_label; from_name] = best :: rest ∧ c_Title best = "ROMAN_HOLIDAY" ∧
    c_Confidence (mergeGroup [from_label; from_name]) = f_lit 95 100.
Proof.
  assert (Forall (λ c, is_nan (c_Confidence c) = false) [from_label; from_name]) as Hn.
  { apply Forall_cons. split; [reflexivity|]. apply Forall_cons. split; [reflexivity|]. apply Forall_nil. exact I. }
  destruct (mergeGroup_spec [from_label; from_name] ltac:(discriminate) Hn) as (best & rest & H & _).
  exists best, rest. split; [exact H|]. vm_compute in H. injection H as <- <-. split; [reflexivity|vm_compute; reflexivity].
Defined.
