(* ===== verification/Nets.v ===== *)
(** * Reading a name out of a label, and out of the disc
    (internal/identify/label.go, discname.go)

    The two nets, with the source's regular expressions run on the text.  A
    slice beyond the end of a string stops the program and is the answer
    [Panic].

    In NetsFacts, [LabelNet_candidate] and [DiscNameNet_candidate] say what a
    candidate can be; [LabelNet_ascii] that a label in ASCII never stops the
    program, and [LabelNet_panics] that one outside ASCII can. *)

From S2P Require Import Prelude GoText GoFloat Regex Identify Key.
#[local] Open Scope Z_scope.

(** strings.ToUpper, and the tables of its runes outside ASCII. *)
Class UpperTables := { u_map_upper : string → string }.
Definition no_upper : UpperTables := {| u_map_upper := str_map upper_byte |}.

Definition junkLabels : list string :=
  ["dvd_video"; "dvdvideo"; "dvd"; "video_ts"; "bluray"; "blu_ray"; "bd_rom"; "bdrom"; "untitled"; "unnamed";
   "new_volume"; "disc"; "movie"; "video"; "cdrom"; "default"; "logical_volume_id"; "volume"; "my_disc"; "dvd_rom"].
Definition formatMarkers : list string :=
  ["lb"; "ws"; "fs"; "sf"; "se"; "ce"; "de"; "ee"; "uncut"; "unrated"; "remastered"; "restored"; "ntsc"; "pal";
   "r1"; "r2"; "dvd"; "bd"; "disc"; "side"; "16x9"; "4x3"].

(** [ _-]* and the groups of the patterns. *)
Definition sep_rune (r : Z) : bool := r_one_of " _-" r.
Definition seps : regex := Star true (Cls sep_rune).
Definition any_lazy (n : nat) : regex := Cap n (Star false (Cls r_dot)).
Definition one_or_two (n : nat) : regex := Cap n (Rep 1 2 (Cls r_digit)).
Fixpoint seq (l : list regex) : regex :=
  match l with [] => Eps | [r] => r | r :: l' => Seq r (seq l') end.
(** (?i)d(?:isc|isk)? *)
Definition disc_word : regex := Seq (lit_i "d") (Opt (Alt (lit_i "isc") (lit_i "isk"))).

Definition discSuffix : regex := seq [BeginText; any_lazy 1; seps; disc_word; seps; one_or_two 2; EndText].
Definition seasonSuffix : regex :=
  seq [BeginText; any_lazy 1; seps; lit_i "s"; Opt (Alt (lit_i "eason") (lit_i "sn")); seps; one_or_two 2; EndText].
Definition seasonDisc : regex :=
  seq [BeginText; any_lazy 1; seps; lit_i "s"; Opt (lit_i "eason"); seps; one_or_two 2; seps; disc_word; seps; one_or_two 3; EndText].
Definition year4 : regex :=
  Alt (Seq (lit "19") (Times 2 (Cls r_digit))) (Seq (lit "20") (Times 2 (Cls r_digit))).
Definition yearSuffix : regex := seq [BeginText; any_lazy 1; seps; Cap 2 year4; EndText].
Definition trailingDigits : regex :=
  seq [BeginText; Cap 1 (Seq (Star false (Cls r_dot)) (Cls r_lower)); seps; one_or_two 2; EndText].

(** strconv.Atoi with the error ignored, of the digits a group matched. *)
Definition number (s : string) : Z := default 0 (Atoi s).

Section nets.
Context {U : Unicode} {UT : UpperTables}.
(** fmt's [%q] outside ASCII *)
Context (quote_other : string → string).

Definition ToUpper (s : string) : string := if is_ascii s then str_map upper_byte s else u_map_upper s.
(** strings.ToUpper of one byte: a byte that is no rune becomes U+FFFD. *)
Definition upper_one (c : ascii) : string :=
  if is_ascii_byte c then String (upper_byte c) "" else String (byte_of 239) (String (byte_of 191) (String (byte_of 189) "")).

Definition is_sep (c : ascii) : bool := existsb (λ d, byte_eqb d c) ["_"; "-"; "."; " "; "+"]%char.
Definition splitWords (s : string) : list string := filter (λ w, w ≠ "") (split_at is_sep s).
Definition is_marker (w : string) : bool := bool_decide (ToLower w ∈ formatMarkers).
Definition stripMarkers (s : string) : string * list string :=
  let parts := splitWords s in
  let kept := filter (λ p, is_marker p = false) parts in
  if bool_decide (kept = []) then (s, []) else (join " " kept, filter (λ p, is_marker p = true) parts).

Definition title_word (mixed : bool) (w : string) : string :=
  if mixed then w
  else match ToLower w with String c r => upper_one c +:+ r | "" => "" end.
Definition titleCase (s : string) : string :=
  let mixed := negb (bool_decide (s = ToUpper s)) in
  join " " (title_word mixed <$> splitWords s).
Definition looksAbbreviated (title : string) (wasUpper : bool) : bool :=
  wasUpper && negb (contains title " ") && (len title <=? 8).

Definition is_junk (raw : string) : bool :=
  bool_decide (ToLower (str_map (λ c, if byte_eqb " "%char c then "_"%char else c) raw) ∈ junkLabels).

(** What is read so far: the rest of the label, and the candidate's fields. *)
Record reading := mkReading {
  rd_work : string;
  rd_season : Z;
  rd_disc : Z;
  rd_year : Z;
  rd_kind : Kind;
  rd_conf : float64;
  rd_why : string;
}.

Definition read_numbers (raw : string) : reading :=
  match FindStringSubmatch seasonDisc raw with
  | Some m => mkReading (cap 1 m) (number (cap 2 m)) (number (cap 3 m)) 0 KindSeries (f_lit 65 100) "label gives an explicit season and disc"
  | None =>
      match FindStringSubmatch seasonSuffix raw with
      | Some m => mkReading (cap 1 m) (number (cap 2 m)) 0 0 KindSeries (f_lit 6 10) "label gives an explicit season"
      | None =>
          match FindStringSubmatch discSuffix raw with
          | Some m => mkReading (cap 1 m) 0 (number (cap 2 m)) 0 KindUnknown (f_lit 55 100) "label gives an explicit disc number"
          | None => mkReading raw 0 0 0 KindUnknown (f_lit 5 10) "read from the volume label"
          end
      end
  end.
Definition read_year (r : reading) : reading :=
  if (rd_season r =? 0) && (rd_disc r =? 0) then
    match FindStringSubmatch yearSuffix (rd_work r) with
    | Some m => mkReading (cap 1 m) (rd_season r) (rd_disc r) (number (cap 2 m)) (rd_kind r) (f_lit 6 10) "label carries a year"
    | None => r
    end
  else r.
(** work[:len(m[1])]: a group of the lower-cased text measured on the text. *)
Definition cut_to (work group : string) : option string :=
  if (String.length group <=? String.length work)%nat then Some (String.substring 0 (String.length group) work) else None.
Definition read_bare (r : reading) : option reading :=
  if (rd_season r =? 0) && (rd_disc r =? 0) && (rd_year r =? 0) then
    match FindStringSubmatch trailingDigits (ToLower (rd_work r)) with
    | Some m =>
        let n := number (cap 2 m) in
        if (0 <? n) && (n <=? 20) then
          match cut_to (rd_work r) (cap 1 m) with
          | Some work => Some (mkReading work (rd_season r) n (rd_year r) (rd_kind r) (f_lit 35 100)
                           "label ends in a bare number, which may be a disc or a season")
          | None => None
          end
        else Some r
    | None => Some r
    end
  else Some r.

(** LabelNet.Identify *)
Definition label_identify (i : Input) : answer :=
  let raw := TrimSpace (in_VolumeLabel i) in
  if bool_decide (raw = "") then Candidates []
  else if is_junk raw then Candidates []
  else
    let r := read_year (read_numbers raw) in
    let '(work, dropped) := stripMarkers (rd_work r) in
    match read_bare (mkReading work (rd_season r) (rd_disc r) (rd_year r) (rd_kind r) (rd_conf r) (rd_why r)) with
    | None => Panic
    | Some r =>
        let title := titleCase (rd_work r) in
        if bool_decide (title = "") then Candidates []
        else
          let '(conf, why) :=
            if looksAbbreviated title (bool_decide (raw = ToUpper raw))
            then (f_lit 15 100, "label looks like an abbreviation rather than a title") else (rd_conf r, rd_why r) in
          let why := if bool_decide (dropped = []) then why else why +:+ " (ignored " +:+ join ", " dropped +:+ ")" in
          Candidates [mkCandidate title (rd_year r) (rd_kind r) (rd_season r) (rd_disc r) "label" conf why]
    end.
Definition LabelNet : Net := mkNet "label" label_identify.

(** ** The name the disc gives itself *)

Definition editionWords : list string :=
  ["special edition"; "collector's edition"; "collectors edition"; "deluxe edition"; "extended edition";
   "director's cut"; "directors cut"; "unrated"; "uncut"; "remastered"; "restored"; "anniversary edition";
   "limited edition"; "ultimate edition"; "widescreen"; "fullscreen"; "full screen"; "wide screen";
   "theatrical cut"; "theatrical version"; "2-disc set"; "two-disc set"; "disc 1"; "disc 2"; "bonus disc"].

Definition spaces : regex := Star true (Cls r_space).
Definition name_sep (r : Z) : bool := r_space r || r_one_of ":,-" r.
Definition trailingParen : regex :=
  seq [BeginText; any_lazy 1; spaces; lit "("; Cap 2 (Rep 1 40 (Cls (λ r, negb (r_one_of "()" r)))); lit ")"; spaces; EndText].
Definition yearParen : regex := seq [BeginText; Cap 1 year4; EndText].
Definition discInName : regex :=
  seq [BeginText; any_lazy 1; Plus (Cls name_sep); lit_i "dis"; Alt (lit_i "c") (lit_i "k"); spaces; one_or_two 2; spaces; EndText].
Definition seasonInName : regex :=
  seq [BeginText; any_lazy 1; Plus (Cls name_sep); Alt (lit_i "season") (lit_i "series"); spaces; one_or_two 2; spaces; EndText].

Definition isEdition (s : string) : bool :=
  let l := ToLower (TrimSpace s) in existsb (λ w, bool_decide (l = w) || contains l w) editionWords.

(** strings.Trim with the cutset ":,-–—" *)
Definition cutset : list string :=
  [":"; ","; "-"; String (byte_of 226) (String (byte_of 128) (String (byte_of 147) ""));
   String (byte_of 226) (String (byte_of 128) (String (byte_of 148) ""))].
Fixpoint str_skip (n : nat) (s : string) : string :=
  match n, s with S n, String _ s' => str_skip n s' | _, _ => s end.
Fixpoint cut_left (fuel : nat) (s : string) : string :=
  match fuel with
  | O => s
  | S n => match filter (λ w, has_prefix s w = true) cutset with
           | w :: _ => cut_left n (str_skip (String.length w) s)
           | [] => s
           end
  end.
Fixpoint cut_right (fuel : nat) (s : string) : string :=
  match fuel with
  | O => s
  | S n => match filter (λ w, has_suffix s w = true) cutset with
           | w :: _ => cut_right n (TrimSuffix s w)
           | [] => s
           end
  end.
Definition trim_cutset (s : string) : string :=
  let s := cut_left (String.length s) s in cut_right (String.length s) s.

Definition upper_first (w : string) : string :=
  match w with
  | "" => ""
  | String c r => if is_ascii w then String (upper_byte c) r else u_upper_first w
  end.
Definition tidyDiscName (s : string) : string :=
  let s := TrimSpace (trim_cutset (TrimSpace s)) in
  let s := join " " (Fields s) in
  if bool_decide (s = "") then ""
  else if bool_decide (s = ToUpper s) && negb (bool_decide (ToUpper s = ToLower s)) then
    join " " (upper_first <$> Fields (ToLower s))
  else s.

(** What is peeled off so far. *)
Record peeling := mkPeeling { pe_work : string; pe_disc : Z; pe_season : Z; pe_kind : Kind; pe_notes : list string }.
(** One round of the loop; [None] when nothing is left to peel. *)
Definition peel_once (p : peeling) : option peeling :=
  match (if pe_disc p =? 0 then FindStringSubmatch discInName (pe_work p) else None) with
  | Some m => Some (mkPeeling (cap 1 m) (number (cap 2 m)) (pe_season p)
                (if bool_decide (pe_kind p = KindUnknown) then KindSeries else pe_kind p) (pe_notes p ++ ["disc " +:+ cap 2 m]))
  | None =>
      match (if pe_season p =? 0 then FindStringSubmatch seasonInName (pe_work p) else None) with
      | Some m => Some (mkPeeling (cap 1 m) (pe_disc p) (number (cap 2 m)) KindSeries (pe_notes p ++ ["season " +:+ cap 2 m]))
      | None => None
      end
  end.
Fixpoint peel (fuel : nat) (p : peeling) : peeling :=
  match fuel with
  | O => p
  | S n => match peel_once p with Some p' => peel n p' | None => p end
  end.

(** The trailing parenthetical: the name without it, the year, a note. *)
Definition read_paren (work : string) : string * Z * list string :=
  match FindStringSubmatch trailingParen work with
  | None => (work, 0, [])
  | Some m =>
      let inner := TrimSpace (cap 2 m) in
      if MatchString yearParen inner then (cap 1 m, number inner, ["year " +:+ inner])
      else if isEdition inner then (cap 1 m, 0, ["edition " +:+ Key.quote quote_other inner])
      else (work, 0, [])
  end.

(** DiscNameNet.Identify *)
Definition discname_identify (i : Input) : answer :=
  let raw := TrimSpace (in_DiscName i) in
  if bool_decide (raw = "") then Candidates []
  else if is_junk raw then Candidates []
  else
    let source := TrimSpace (in_DiscNameSource i) in
    let source := if bool_decide (source = "") then "the disc" else source in
    let p := peel (S (String.length raw)) (mkPeeling raw 0 0 KindUnknown []) in
    let '(work, year, note) := read_paren (pe_work p) in
    let title := tidyDiscName work in
    if bool_decide (title = "") then Candidates []
    else
      let notes := pe_notes p ++ note in
      let why := "read from " +:+ source in
      let why := if bool_decide (notes = []) then why else why +:+ " (" +:+ join ", " notes +:+ ")" in
      Candidates [mkCandidate title year (pe_kind p) (pe_season p) (pe_disc p) "discname" (f_lit 8 10) why].
Definition DiscNameNet : Net := mkNet "discname" discname_identify.
End nets.

(** ** Labels of the collection *)

Definition in_label (l : string) : Input := mkInput l "dvd" [] "" "" "" "".
Definition in_name (n : string) : Input := mkInput "" "dvd" [] "" "" n "bdmt_eng.xml".
Definition summary (a : answer) : option (list (string * Z * Z * Z)) :=
  match a with Candidates l => Some ((λ c, (c_Title c, c_Year c, c_Season c, c_Disc c)) <$> l) | _ => None end.
Notation label_reads := (λ l, summary (@label_identify caseless no_upper (in_label l))).
Notation name_of := (λ n, summary (@discname_identify caseless no_upper (λ s, s) (in_name n))).
Example label_1 : label_reads "STILL_GAME_S3D2" = Some [("Still Game", 0, 3, 2)]. Proof. vm_compute. reflexivity. Qed.
Example label_2 : label_reads "STNGD3" = Some [("Stng", 0, 0, 3)]. Proof. vm_compute. reflexivity. Qed.
Example label_3 : label_reads "NEXTGEN2" = Some [("Nextgen", 0, 0, 2)]. Proof. vm_compute. reflexivity. Qed.
Example label_4 : label_reads "SPACEBALLS_LB" = Some [("Spaceballs", 0, 0, 0)]. Proof. vm_compute. reflexivity. Qed.
Example label_5 : label_reads "DVD_VIDEO" = Some []. Proof. vm_compute. reflexivity. Qed.
Example name_1 : name_of "FIREFLY: DISC 1" = Some [("Firefly", 0, 0, 1)]. Proof. vm_compute. reflexivity. Qed.
Example name_2 : name_of "The Karate Kid (Special Edition)" = Some [("The Karate Kid", 0, 0, 0)].
Proof. vm_compute. reflexivity. Qed.
Example name_3 : name_of "Still Game Season 3 Disc 2" = Some [("Still Game", 0, 3, 2)]. Proof. vm_compute. reflexivity. Qed.
