(* ===== verification/NetsFacts.v ===== *)
(** * What the two nets can say

    The ranges of a candidate's fields, the end of the peeling, and where a
    label stops the program. *)

From S2P Require Import Prelude GoText GoFloat Regex Identify Key Nets.
#[local] Open Scope Z_scope.

(** ** Numbers out of digits *)

Lemma digit_val_bounds c : is_digit_byte c = true → 0 ≤ digit_val c ≤ 9.
Proof. destruct c as [[] [] [] [] [] [] [] []]; vm_compute; intros; split; congruence. Qed.

Lemma digits_value_bounds s : ∀ acc, str_forall is_digit_byte s = true →
  acc * 10 ^ len s ≤ digits_value acc s < (acc + 1) * 10 ^ len s.
Proof.
  induction s as [|c s IH]; intros acc; cbn [str_forall digits_value].
  { intros _. change (len "") with 0. rewrite Z.pow_0_r. lia. }
  intros [Hc Hs]%andb_true_iff. specialize (IH (10 * acc + digit_val c) Hs). apply digit_val_bounds in Hc.
  assert (len (String c s) = 1 + len s) as -> by (unfold len; cbn [String.length]; lia).
  pose proof (len_nonneg s). rewrite Z.pow_add_r by lia.
  assert (0 < 10 ^ len s) by (apply Z.pow_pos_nonneg; lia). nia.
Qed.

Lemma number_digits s : s ≠ "" → str_forall is_digit_byte s = true → digits_value 0 s < 2 ^ 63 →
  number s = digits_value 0 s.
Proof.
  intros Hne Hs Hv. unfold number. rewrite Atoi_digits; [done| |done|].
  - unfold is_digits. by rewrite bool_decide_eq_false_2, Hs.
  - pose proof (digits_value_bounds s 0 Hs). lia.
Qed.

Lemma two_digit_number t : within r_digit t = true → (1 ≤ String.length t ≤ 2)%nat → 0 ≤ number t ≤ 99.
Proof.
  intros Hw%within_digit_byte Hl. pose proof (digits_value_bounds t 0 Hw) as H.
  assert (10 ^ len t ≤ 10 ^ 2) by (apply Z.pow_le_mono_r; unfold len; lia).
  rewrite number_digits; [lia|by intros ->; cbn in Hl; lia|done|lia].
Qed.

Lemma r_digit_class : ascii_class r_digit.
Proof. intros r. unfold r_digit, rune_in. intros. breflect. lia. Qed.

(** A year is one of two centuries. *)
Definition year_text (t : string) : Prop :=
  ∃ u, within r_digit u = true ∧ String.length u = 2%nat ∧ (t = "19" +:+ u ∨ t = "20" +:+ u).

Lemma year4_text p q : matches year4 p q → ∃ t, covers p q t ∧ year_text t.
Proof.
  intros Hm. assert (∀ c, is_ascii c = true → matches (Seq (lit c) (Times 2 (Cls r_digit))) p q →
    ∃ u, covers p q (c +:+ u) ∧ within r_digit u = true ∧ String.length u = 2%nat) as H.
  { intros c Hc H. inversion H as [| |a b p' q1 q' Ha Hb| | | | |]; simplify_eq.
    apply matches_lit in Ha; [|done]. change (matches (Times 2 (Cls r_digit)) q1 q) in Hb.
    apply matches_times in Hb as (u & Hu & Hw & Hl); [|apply r_digit_class].
    exists u. split; [by eapply covers_trans|done]. }
  inversion Hm as [| | |a b p' q' Ha|a b p' q' Ha| | |]; simplify_eq.
  - destruct (H "19" eq_refl Ha) as (u & Hc & Hw & Hl). exists ("19" +:+ u). split; [done|]. exists u. auto.
  - destruct (H "20" eq_refl Ha) as (u & Hc & Hw & Hl). exists ("20" +:+ u). split; [done|]. exists u. auto.
Qed.

Lemma year_bounds t : year_text t → 1900 ≤ number t ≤ 2099.
Proof.
  intros (u & Hw%within_digit_byte & Hl & Ht).
  assert (∀ a b c, is_digit_byte a = true → is_digit_byte b = true → digits_value 0 (String a (String b "")) = c →
    1 ≤ c < 99 → c * 100 ≤ number (String a (String b "") +:+ u) < (c + 1) * 100) as H.
  { intros a b c Ha Hb Hc Hr. assert (str_forall is_digit_byte (String a (String b "") +:+ u) = true) as Hd.
    { rewrite str_forall_app. cbn [str_forall]. by rewrite Ha, Hb. }
    assert (digits_value 0 (String a (String b "") +:+ u) = digits_value c u) as Hv by (by subst c).
    pose proof (digits_value_bounds u c Hw) as Hu. assert (len u = 2) as Hlu by (unfold len; lia). rewrite Hlu in Hu.
    rewrite number_digits; [lia|done|done|lia]. }
  destruct Ht as [->| ->]; [specialize (H "1"%char "9"%char 19 eq_refl eq_refl eq_refl ltac:(lia))
                          |specialize (H "2"%char "0"%char 20 eq_refl eq_refl eq_refl ltac:(lia))]; cbn [String.append] in *; lia.
Qed.

(** ** Groups *)

(** Group [n] of a pattern is one or two digits wherever it is. *)
Definition digits_at (ns : list nat) (n : nat) (t : string) : Prop :=
  n ∈ ns → within r_digit t = true ∧ (1 ≤ String.length t ≤ 2)%nat.
Definition year_at (k n : nat) (t : string) : Prop := n = k → year_text t.

Lemma rep_digits p q : matches (Rep 1 2 (Cls r_digit)) p q →
  within r_digit (text_between p q) = true ∧ (1 ≤ String.length (text_between p q) ≤ 2)%nat.
Proof.
  intros (u & Hc & Hw & Hl)%matches_rep; [|apply r_digit_class|lia]. by rewrite (covers_text _ _ _ Hc).
Qed.

(** Every group of the pattern [r] listed in [ns] is written as [one_or_two]. *)
Ltac solve_groups :=
  cbn [caps_in seq seps any_lazy one_or_two Opt Plus Rep Times UpTo disc_word lit lit_i Nat.sub
    seasonDisc seasonSuffix discSuffix trailingDigits discInName seasonInName Nets.spaces];
  repeat match goal with |- _ ∧ _ => split end; try exact I;
  intros ? ? ? ?; first [by apply rep_digits | exfalso; set_solver].

Lemma group_number ns r s m n :
  FindStringSubmatch r s = Some m → caps_in (digits_at ns) r → n ∈ ns → n ≠ O → 0 ≤ number (cap n m) ≤ 99.
Proof.
  intros Hm Hr Hn H0. destruct (FindStringSubmatch_caps _ _ _ _ n Hm Hr H0) as [->|[Hw Hl]]; [done|done|].
  by apply two_digit_number.
Qed.

Lemma group_year r s m n :
  FindStringSubmatch r s = Some m → caps_in (year_at n) r → n ≠ O → number (cap n m) = 0 ∨ 1900 ≤ number (cap n m) ≤ 2099.
Proof.
  intros Hm Hr H0. destruct (FindStringSubmatch_caps _ _ _ _ n Hm Hr H0) as [->|Hy]; [by left|right].
  by apply year_bounds, Hy.
Qed.

Lemma seasonDisc_groups : caps_in (digits_at [2; 3]%nat) seasonDisc. Proof. solve_groups. Qed.
Lemma seasonSuffix_groups : caps_in (digits_at [2]%nat) seasonSuffix. Proof. solve_groups. Qed.
Lemma discSuffix_groups : caps_in (digits_at [2]%nat) discSuffix. Proof. solve_groups. Qed.
Lemma trailingDigits_groups : caps_in (digits_at [2]%nat) trailingDigits. Proof. solve_groups. Qed.
Lemma discInName_groups : caps_in (digits_at [2]%nat) discInName. Proof. solve_groups. Qed.
Lemma seasonInName_groups : caps_in (digits_at [2]%nat) seasonInName. Proof. solve_groups. Qed.
Lemma yearSuffix_groups : caps_in (year_at 2) yearSuffix.
Proof.
  cbn [caps_in yearSuffix seq seps any_lazy year4 Times lit].
  repeat match goal with |- _ ∧ _ => split end; try exact I.
  - intros p q Hm Hn. discriminate Hn.
  - intros p q (t & Hc & Ht)%year4_text _. by rewrite (covers_text _ _ _ Hc).
Qed.

(** The first group of a pattern anchored at the beginning is a prefix, with
    the rest of the match after it. *)
Definition only_group_1 (T : string) (n : nat) (t : string) : Prop := n = 1%nat → t = T.

Lemma search_begin r fuel : ∀ p, prev p ≠ None → search fuel (Seq BeginText r) p = None.
Proof.
  induction fuel as [|fuel IH]; intros p Hp; cbn [search]; unfold match_here; cbn [run holds_here];
    rewrite bool_decide_eq_false_2 by done; [done|].
  destruct (next p) as [[x p']|] eqn:E; [|done]. apply IH. apply next_prev in E as [c ->]. done.
Qed.

Lemma lead_cap a r s m :
  FindStringSubmatch (Seq BeginText (Seq (Cap 1 a) r)) s = Some m →
  caps_in (λ _ _, False) a → (∀ T, caps_in (only_group_1 T) r) →
  ∃ q q', matches a (start s) q ∧ matches r q q' ∧ (cap 1 m = text_between (start s) q ∨ cap 1 m = "").
Proof.
  unfold FindStringSubmatch. destruct (find_from _ _) as [[[p q'] c]|] eqn:E; [|done].
  intros [= <-] Ha Hr. assert (match_here (Seq BeginText (Seq (Cap 1 a) r)) (start s) = Some (q', c)) as Hm.
  { unfold find_from in E. destruct (String.length (rest (start s))) as [|n]; cbn [search] in E;
      destruct (match_here _ _) as [[q1 c1]|]; try congruence.
    destruct (next (start s)) as [[x p']|] eqn:En; [|done].
    rewrite search_begin in E; [done|]. apply next_prev in En as [d ->]. done. }
  unfold match_here in Hm. cbn [run holds_here] in Hm.
  destruct (bool_decide (prev (start s) = None)); [|done].
  apply (run_caps (λ _ _, False)) in Hm as (q & c0 & Hma & Hk & Hc0); [|done|by intros ? ? ?%elem_of_nil].
  destruct c0 as [|[n t] c0]; [|by destruct (Hc0 n t); left].
  apply (run_caps (only_group_1 (text_between (start s) q))) in Hk as (q1 & c1 & Hmr & [= <- <-] & Hc1).
  - exists q, q1. split; [done|]. split; [done|]. rewrite cap_there by done. unfold cap.
    destruct (filter (λ x, x.1 = 1%nat) c1) as [|[n t] l] eqn:Ef; [by right|left].
    assert ((n, t) ∈ filter (λ x, x.1 = 1%nat) c1) as Hin by (rewrite Ef; by left).
    apply list_elem_of_filter in Hin as [Hn Hin]. cbn in Hn. subst. by apply (Hc1 1%nat).
  - apply Hr.
  - intros n t [[= -> ->]|H]%elem_of_cons; [done|by apply elem_of_nil in H].
Qed.

Ltac solve_rest :=
  intros T; cbn [caps_in seq seps any_lazy one_or_two Opt Plus Rep Times UpTo disc_word lit lit_i Nat.sub Nets.spaces year4];
  repeat match goal with |- _ ∧ _ => split end; try exact I; intros ? ? ? ?; discriminate.

(** ** Lengths *)

Lemma substring_length n s : String.length (String.substring 0 n s) = Nat.min n (String.length s).
Proof. revert s. induction n as [|n IH]; intros [|c s]; cbn; [done..|by rewrite IH]. Qed.

Lemma text_length p q : (String.length (rest q) ≤ String.length (rest p))%nat →
  String.length (text_between p q) = (String.length (rest p) - String.length (rest q))%nat.
Proof. intros H. unfold text_between. rewrite substring_length. lia. Qed.

Lemma matches_length r p q : matches r p q → (String.length (rest q) ≤ String.length (rest p))%nat.
Proof. intros [->|H]%matches_moves; [done|]. unfold shorter in H. apply Nat.ltb_lt in H. lia. Qed.

Lemma matches_plus_shorter f r p q : matches (Seq (Plus (Cls f)) r) p q →
  (String.length (rest q) < String.length (rest p))%nat.
Proof.
  intros H. inversion H as [| |? ? ? q1 ? Ha Hb| | | | |]; simplify_eq.
  unfold Plus in Ha. inversion Ha as [| |? ? ? q2 ? Hc Hd| | | | |]; simplify_eq.
  inversion Hc as [? ? x ? Hn Hf| | | | | | |]; simplify_eq.
  apply next_shorter in Hn. unfold shorter in Hn. apply Nat.ltb_lt in Hn.
  apply matches_length in Hb, Hd. lia.
Qed.

Lemma lead_shorter f r s m :
  FindStringSubmatch (Seq BeginText (Seq (any_lazy 1) (Seq (Plus (Cls f)) r))) s = Some m →
  (∀ T, caps_in (only_group_1 T) (Seq (Plus (Cls f)) r)) →
  (String.length (cap 1 m) < String.length s)%nat.
Proof.
  intros Hm Hr. apply lead_cap in Hm as (q & q' & Ha & Hb & Hc); [|done|done].
  pose proof (matches_plus_shorter f r q q' Hb) as H1. apply matches_length in Ha as H2.
  change (String.length s) with (String.length (rest (start s))).
  destruct Hc as [->| ->]; [rewrite text_length by done|change (String.length "") with O]; lia.
Qed.

Section facts.
Context {U : Unicode} {UT : UpperTables}.

(** ** Peeling *)

Lemma peel_once_shorter p p' : peel_once p = Some p' → (String.length (pe_work p') < String.length (pe_work p))%nat.
Proof.
  unfold peel_once. destruct (pe_disc p =? 0).
  - destruct (FindStringSubmatch discInName (pe_work p)) as [m|] eqn:E.
    + intros [= <-]. cbn [pe_work]. eapply (lead_shorter name_sep); [exact E|solve_rest].
    + destruct (pe_season p =? 0); [|done].
      destruct (FindStringSubmatch seasonInName (pe_work p)) as [m|] eqn:E2; [|done].
      intros [= <-]. cbn [pe_work]. eapply (lead_shorter name_sep); [exact E2|solve_rest].
  - destruct (pe_season p =? 0); [|done].
    destruct (FindStringSubmatch seasonInName (pe_work p)) as [m|] eqn:E2; [|done].
    intros [= <-]. cbn [pe_work]. eapply (lead_shorter name_sep); [exact E2|solve_rest].
Qed.

(** peeling the disc and season markers off a name ends.  Every round makes
    the name shorter, so with more rounds than it has bytes nothing is left to
    peel, and more rounds change nothing. *)
Theorem peel_total p n : (String.length (pe_work p) < n)%nat →
  peel_once (peel n p) = None ∧ peel n p = peel (S (String.length (pe_work p))) p ∧
  (String.length (pe_work (peel n p)) ≤ String.length (pe_work p))%nat.
Proof.
  assert (∀ k p, (String.length (pe_work p) < k)%nat → peel_once (peel k p) = None ∧
    (String.length (pe_work (peel k p)) ≤ String.length (pe_work p))%nat ∧ ∀ j, (k ≤ j)%nat → peel j p = peel k p) as H.
  { clear p n. induction k as [|k IH]; intros p Hl; [lia|]. cbn [peel].
    destruct (peel_once p) as [p'|] eqn:E.
    - apply peel_once_shorter in E as Hs. destruct (IH p' ltac:(lia)) as (? & ? & Hj). split; [done|]. split; [lia|].
      intros [|j] Hle; [lia|]. cbn [peel]. rewrite E. apply Hj. lia.
    - split; [done|]. split; [lia|]. intros [|j] Hle; [lia|]. cbn [peel]. by rewrite E. }
  intros Hn. destruct (H n p Hn) as (H1 & H2 & _).
  split; [done|]. split; [|done]. destruct (H (S (String.length (pe_work p))) p ltac:(lia)) as (_ & _ & Hj). apply Hj. lia.
Qed.

(** ** The fields of a candidate *)

Definition fields_ok (season disc year : Z) : Prop :=
  0 ≤ season ≤ 99 ∧ 0 ≤ disc ≤ 99 ∧ (year = 0 ∨ 1900 ≤ year ≤ 2099).
(** Not more than [top] confident. *)
Definition at_most (top : float64) (conf : float64) : Prop := f_lt top conf = false.

Definition reading_ok (r : reading) : Prop :=
  fields_ok (rd_season r) (rd_disc r) (rd_year r) ∧ at_most (f_lit 65 100) (rd_conf r) ∧ rd_kind r ≠ KindMovie ∧
  (0 < rd_season r → rd_kind r = KindSeries).

Lemma in_23 : 2%nat ∈ [2; 3]%nat ∧ 3%nat ∈ [2; 3]%nat ∧ 2%nat ∈ [2]%nat.
Proof. split; [by left|]. split; [by right; left|by left]. Qed.

Lemma read_numbers_ok raw : reading_ok (read_numbers raw).
Proof.
  pose proof in_23 as (H2 & H3 & H2'). unfold read_numbers, reading_ok, fields_ok, at_most.
  destruct (FindStringSubmatch seasonDisc raw) as [m|] eqn:E1.
  { pose proof (group_number _ _ _ _ 2 E1 seasonDisc_groups H2 ltac:(done)).
    pose proof (group_number _ _ _ _ 3 E1 seasonDisc_groups H3 ltac:(done)). cbn. repeat split; try lia; done. }
  destruct (FindStringSubmatch seasonSuffix raw) as [m|] eqn:E2.
  { pose proof (group_number _ _ _ _ 2 E2 seasonSuffix_groups H2' ltac:(done)). cbn. repeat split; try lia; done. }
  destruct (FindStringSubmatch discSuffix raw) as [m|] eqn:E3.
  { pose proof (group_number _ _ _ _ 2 E3 discSuffix_groups H2' ltac:(done)). cbn. repeat split; try lia; done. }
  cbn. repeat split; try lia; done.
Qed.

Lemma read_year_ok r : reading_ok r → reading_ok (read_year r).
Proof.
  intros Hok. pose proof Hok as ((Hs & Hd & Hy) & Hc & Hk & Hs'). unfold read_year. destruct (_ && _) eqn:E; [|exact Hok].
  destruct (FindStringSubmatch yearSuffix (rd_work r)) as [m|] eqn:Em; [|exact Hok].
  apply andb_true_iff in E as [E1%Z.eqb_eq E2%Z.eqb_eq].
  pose proof (group_year _ _ _ 2 Em yearSuffix_groups ltac:(done)) as Hn.
  unfold reading_ok, fields_ok. cbn [rd_season rd_disc rd_year rd_conf rd_kind].
  split; [repeat split; lia|]. split; [reflexivity|]. split; [done|]. lia.
Qed.

Lemma read_bare_ok r r' : reading_ok r → read_bare r = Some r' → reading_ok r'.
Proof.
  intros Hok. pose proof Hok as ((Hs & Hd & Hy) & Hc & Hk & Hs'). unfold read_bare.
  destruct (_ && _) eqn:E; [|intros [= <-]; exact Hok].
  destruct (FindStringSubmatch trailingDigits _) as [m|]; [|intros [= <-]; exact Hok].
  destruct ((0 <? number (cap 2 m)) && (number (cap 2 m) <=? 20)) eqn:En; [|intros [= <-]; exact Hok].
  destruct (cut_to _ _); [|done]. intros [= <-]. apply andb_true_iff in En as [E1%Z.ltb_lt E2%Z.leb_le].
  unfold reading_ok, fields_ok. cbn [rd_season rd_disc rd_year rd_conf rd_kind].
  split; [repeat split; try lia; done|]. split; [reflexivity|]. by split.
Qed.

(** what the label net can say.  At most one candidate, of this net, with a
    title; season and disc of two digits, the year of two centuries or none; a
    season makes it a series, and it is never taken for a film; and never a
    confidence above 0.65, so that a name from the disc overrules it. *)
Theorem LabelNet_candidate i l : label_identify i = Candidates l →
  (length l ≤ 1)%nat ∧ ∀ c, c ∈ l →
    c_Title c ≠ "" ∧ c_Net c = "label" ∧ fields_ok (c_Season c) (c_Disc c) (c_Year c) ∧
    c_Kind c ≠ KindMovie ∧ (0 < c_Season c → c_Kind c = KindSeries) ∧ at_most (f_lit 65 100) (c_Confidence c).
Proof.
  unfold label_identify. set (raw := TrimSpace (in_VolumeLabel i)).
  case_bool_decide; [intros [= <-]; split; [cbn; lia|by intros c ?%elem_of_nil]|].
  destruct (is_junk raw); [intros [= <-]; split; [cbn; lia|by intros c ?%elem_of_nil]|].
  pose proof (read_year_ok _ (read_numbers_ok raw)) as Hr. set (r := read_year (read_numbers raw)) in *.
  destruct (stripMarkers (rd_work r)) as [work dropped].
  destruct (read_bare _) as [r'|] eqn:Eb; [|done]. apply read_bare_ok in Eb as (Hf & Hc & Hk & Hs); [|done].
  case_bool_decide as Ht; [intros [= <-]; split; [cbn; lia|by intros c ?%elem_of_nil]|].
  destruct (if looksAbbreviated _ _ then _ else _) as [conf why] eqn:Ec. intros [= <-].
  split; [cbn; lia|]. intros c ->%list_elem_of_singleton. cbn [c_Title c_Net c_Season c_Disc c_Year c_Kind c_Confidence].
  split; [done|]. split; [done|]. split; [done|]. split; [done|]. split; [done|].
  destruct (looksAbbreviated _ _); injection Ec as <- _; [reflexivity|exact Hc].
Qed.

Lemma peel_ok fuel : ∀ p, 0 ≤ pe_season p ≤ 99 → 0 ≤ pe_disc p ≤ 99 →
  0 ≤ pe_season (peel fuel p) ≤ 99 ∧ 0 ≤ pe_disc (peel fuel p) ≤ 99.
Proof.
  induction fuel as [|n IH]; intros p Hs Hd; cbn [peel]; [done|]. destruct (peel_once p) as [p'|] eqn:E; [|done].
  pose proof in_23 as (_ & _ & H2). apply IH; unfold peel_once in E.
  - destruct (if pe_disc p =? 0 then _ else _) as [m|]; [by injection E as <-|].
    destruct (pe_season p =? 0); [|done]. destruct (FindStringSubmatch seasonInName _) as [m|] eqn:Em; [|done].
    injection E as <-. by apply (group_number _ _ _ _ 2 Em seasonInName_groups).
  - destruct (pe_disc p =? 0).
    + destruct (FindStringSubmatch discInName _) as [m|] eqn:Em.
      * injection E as <-. by apply (group_number _ _ _ _ 2 Em discInName_groups).
      * destruct (if pe_season p =? 0 then _ else _) as [m|]; [by injection E as <-|done].
    + destruct (if pe_season p =? 0 then _ else _) as [m|]; [by injection E as <-|done].
Qed.

Lemma yearParen_text s : MatchString yearParen s = true → year_text s.
Proof.
  intros (p & q & Ha & Hm)%MatchString_iff. unfold yearParen in Hm. cbn [Nets.seq] in Hm.
  inversion Hm as [| |? ? ? q1 ? Hb Hm1| | | | |]; simplify_eq.
  inversion Hb as [|? ? _ Hh| | | | | | ]; simplify_eq. cbn [holds_here] in Hh. apply bool_decide_eq_true in Hh.
  assert (q1 = start s) as ->.
  { clear -Ha Hh. inversion Ha as [|? ? ? ? Hn Ha']; subst; [done|]. exfalso. apply next_prev in Hn as [c Hc].
    assert (∀ p q, ahead p q → prev p ≠ None → prev q ≠ None) as H.
    { induction 1 as [|? ? ? ? Hn' _ IH]; [done|]. intros _. apply IH. by apply next_prev in Hn' as [d ->]. }
    apply H in Ha'; [done|]. by rewrite Hc. }
  inversion Hm1 as [| |? ? ? q2 ? Hc He| | | | |]; simplify_eq.
  inversion Hc as [| | | | | | |? ? ? ? Hy]; simplify_eq. apply year4_text in Hy as (t & [Hr _] & Ht).
  inversion He as [|? ? _ Hh2| | | | | | ]; simplify_eq. cbn [holds_here] in Hh2. apply bool_decide_eq_true in Hh2.
  cbn [rest start] in Hr. rewrite Hh2, str_app_empty_r in Hr. by subst t.
Qed.

(** what the disc's own name can say.  At most one candidate, of this net,
    with a title; season and disc of two digits, the year of two centuries or
    none; always at confidence 0.8; and no name stops the program. *)
Theorem DiscNameNet_candidate quote_other i :
  ∃ l, discname_identify quote_other i = Candidates l ∧ (length l ≤ 1)%nat ∧ ∀ c, c ∈ l →
    c_Title c ≠ "" ∧ c_Net c = "discname" ∧ fields_ok (c_Season c) (c_Disc c) (c_Year c) ∧ c_Confidence c = f_lit 8 10.
Proof.
  unfold discname_identify. set (raw := TrimSpace (in_DiscName i)).
  case_bool_decide; [exists []; split; [done|split; [cbn; lia|by intros c ?%elem_of_nil]]|].
  destruct (is_junk raw); [exists []; split; [done|split; [cbn; lia|by intros c ?%elem_of_nil]]|].
  pose proof (peel_ok (S (String.length raw)) (mkPeeling raw 0 0 KindUnknown []) ltac:(cbn; lia) ltac:(cbn; lia)) as [Hs Hd].
  set (p := peel _ _) in *. destruct (read_paren quote_other (pe_work p)) as [[work year] note] eqn:Ep.
  case_bool_decide as Ht; [exists []; split; [done|split; [cbn; lia|by intros c ?%elem_of_nil]]|].
  eexists. split; [reflexivity|]. split; [cbn; lia|]. intros c ->%list_elem_of_singleton.
  cbn [c_Title c_Net c_Season c_Disc c_Year c_Confidence]. split; [done|]. split; [done|]. split; [|done].
  split; [done|]. split; [done|]. unfold read_paren in Ep.
  destruct (FindStringSubmatch trailingParen _) as [m|]; [|injection Ep as _ <- _; by left].
  destruct (MatchString yearParen _) eqn:Ey.
  - injection Ep as _ <- _. right. by apply year_bounds, yearParen_text.
  - destruct (isEdition _); injection Ep as _ <- _; by left.
Qed.

(** ** Where a label stops the program *)

Lemma ascii_lower_length s : is_ascii s = true → String.length (ToLower s) = String.length s.
Proof.
  intros Ha. unfold ToLower. rewrite Ha. clear Ha. induction s as [|c s IH]; [done|]. cbn [str_map String.length]. by rewrite IH.
Qed.

Lemma substring_ascii n s : is_ascii s = true → is_ascii (String.substring 0 n s) = true.
Proof.
  unfold is_ascii. revert s. induction n as [|n IH]; intros [|c s]; cbn [String.substring str_forall]; try done.
  intros [-> Hs]%andb_true_iff. by apply IH.
Qed.

Lemma group_1_ascii a r s m :
  FindStringSubmatch (Seq BeginText (Seq (Cap 1 a) r)) s = Some m →
  caps_in (λ _ _, False) a → (∀ T, caps_in (only_group_1 T) r) → is_ascii s = true → is_ascii (cap 1 m) = true.
Proof.
  intros Hm Ha Hr Hs. apply lead_cap in Hm as (q & q' & _ & _ & [->| ->]); [|reflexivity|done..].
  unfold text_between. by apply substring_ascii.
Qed.

Lemma group_1_length a r s m :
  FindStringSubmatch (Seq BeginText (Seq (Cap 1 a) r)) s = Some m →
  caps_in (λ _ _, False) a → (∀ T, caps_in (only_group_1 T) r) → (String.length (cap 1 m) ≤ String.length s)%nat.
Proof.
  intros Hm Ha Hr. apply lead_cap in Hm as (q & q' & _ & _ & [->| ->]); [| |done..].
  - unfold text_between. rewrite substring_length. cbn [rest start]. lia.
  - cbn. lia.
Qed.

Lemma read_numbers_ascii raw : is_ascii raw = true → is_ascii (rd_work (read_numbers raw)) = true.
Proof.
  intros Ha. unfold read_numbers.
  destruct (FindStringSubmatch seasonDisc raw) as [m|] eqn:E1; [eapply group_1_ascii; [exact E1|done|solve_rest|done]|].
  destruct (FindStringSubmatch seasonSuffix raw) as [m|] eqn:E2; [eapply group_1_ascii; [exact E2|done|solve_rest|done]|].
  destruct (FindStringSubmatch discSuffix raw) as [m|] eqn:E3; [eapply group_1_ascii; [exact E3|done|solve_rest|done]|done].
Qed.

Lemma read_year_ascii r : is_ascii (rd_work r) = true → is_ascii (rd_work (read_year r)) = true.
Proof.
  intros Ha. unfold read_year. destruct (_ && _); [|done].
  destruct (FindStringSubmatch yearSuffix _) as [m|] eqn:E; [eapply group_1_ascii; [exact E|done|solve_rest|done]|done].
Qed.

Lemma split_at_ascii p s : is_ascii s = true → Forall (λ w, is_ascii w = true) (split_at p s).
Proof. apply split_at_forall. Qed.

Lemma join_ascii sep l : is_ascii sep = true → Forall (λ w, is_ascii w = true) l → is_ascii (join sep l) = true.
Proof.
  intros Hsep. induction 1 as [|w l Hw Hl IH]; [done|]. unfold join in *. cbn [String.concat]. destruct l as [|x l]; [done|].
  unfold is_ascii in *. by rewrite !str_forall_app, Hw, Hsep, IH.
Qed.

Lemma stripMarkers_ascii s : is_ascii s = true → is_ascii (stripMarkers s).1 = true.
Proof.
  intros Ha. unfold stripMarkers. case_bool_decide; [done|]. cbn [fst]. apply join_ascii; [done|].
  apply Forall_forall. intros w [_ [_ Hw]%list_elem_of_filter]%list_elem_of_filter.
  pose proof (split_at_ascii is_sep s Ha) as H'. rewrite Forall_forall in H'. by apply H'.
Qed.

(** a label in ASCII, as ISO 9660 has them, never stops the program. *)
Theorem LabelNet_ascii i : is_ascii (in_VolumeLabel i) = true → label_identify i ≠ Panic.
Proof.
  intros Ha. unfold label_identify. set (raw := TrimSpace (in_VolumeLabel i)).
  assert (is_ascii raw = true) as Hraw.
  { unfold raw. rewrite TrimSpace_all_ascii by done. by apply trim_right_forall, trim_left_forall. }
  case_bool_decide; [done|]. destruct (is_junk raw); [done|].
  pose proof (stripMarkers_ascii _ (read_year_ascii _ (read_numbers_ascii raw Hraw))) as Hw.
  destruct (stripMarkers _) as [work dropped]. cbn [fst] in Hw.
  assert (∀ r, is_ascii (rd_work r) = true → read_bare r ≠ None) as Hb.
  { intros r Hr. unfold read_bare. destruct (_ && _); [|done].
    destruct (FindStringSubmatch trailingDigits _) as [m|] eqn:E; [|done]. destruct (_ && _); [|done].
    unfold cut_to. assert (String.length (cap 1 m) <=? String.length (rd_work r) = true)%nat as ->; [|done].
    apply Nat.leb_le. rewrite <- (ascii_lower_length (rd_work r)) by done. eapply group_1_length; [exact E|cbn; tauto|solve_rest]. }
  specialize (Hb (mkReading work (rd_season (read_year (read_numbers raw))) (rd_disc (read_year (read_numbers raw)))
    (rd_year (read_year (read_numbers raw))) (rd_kind (read_year (read_numbers raw))) (rd_conf (read_year (read_numbers raw)))
    (rd_why (read_year (read_numbers raw)))) Hw).
  destruct (read_bare _) as [r|]; [|done]. case_bool_decide; [done|]. by destruct (if looksAbbreviated _ _ then _ else _).
Qed.
End facts.

(** The letter U+023A, and its lower case U+2C65, which is a byte longer. *)
Definition A_stroke : string := String (byte_of 200) (String (byte_of 186) "").
Definition a_stroke : string := String (byte_of 226) (String (byte_of 177) (String (byte_of 165) "")).
Definition stroke_label : string := A_stroke +:+ A_stroke +:+ "A2".

(** a label outside ASCII can stop the program.  The bare number is looked
    for in the lower-cased label and the label is then cut at the length found
    there, which is past its end when lower-casing made it longer. *)
Theorem LabelNet_panics (U : Unicode) (UT : UpperTables) :
  u_trim_func stroke_label = stroke_label → u_map_lower stroke_label = a_stroke +:+ a_stroke +:+ "a2" →
  label_identify (in_label stroke_label) = Panic.
Proof.
  intros Ht Hl. unfold label_identify. cbn [in_VolumeLabel in_label].
  assert (TrimSpace stroke_label = stroke_label) as -> by exact Ht.
  rewrite bool_decide_eq_false_2 by done.
  assert (is_junk stroke_label = false) as ->.
  { unfold is_junk. change (str_map _ stroke_label) with stroke_label. unfold ToLower.
    change (is_ascii stroke_label) with false. cbv iota. rewrite Hl. by apply bool_decide_eq_false_2; vm_compute; set_solver. }
  assert (read_year (read_numbers stroke_label) = mkReading stroke_label 0 0 0 KindUnknown (f_lit 5 10) "read from the volume label")
    as -> by (vm_compute; reflexivity).
  assert (stripMarkers stroke_label = (stroke_label, [])) as H.
  { unfold stripMarkers. change (splitWords stroke_label) with [stroke_label].
    assert (is_marker stroke_label = false) as Hm.
    { unfold is_marker, ToLower. change (is_ascii stroke_label) with false. cbv iota. rewrite Hl.
      apply bool_decide_eq_false_2. vm_compute. set_solver. }
    rewrite !filter_cons, !filter_nil, Hm, decide_True by done. reflexivity. }
  cbn [rd_work]. rewrite H. unfold read_bare. cbn [rd_season rd_disc rd_year rd_work Z.eqb andb].
  unfold ToLower. change (is_ascii stroke_label) with false. cbv iota. rewrite Hl. vm_compute. reflexivity.
Qed.

(** ** At concrete inputs *)

Definition stroke_tables : Unicode := {|
  u_map_lower := λ s, if bool_decide (s = stroke_label) then a_stroke +:+ a_stroke +:+ "a2" else str_map lower_byte s;
  u_trim_func := λ s, s; u_trim_right_func := λ s, s; u_fields_func := λ s, [s]; u_all_digits := λ _, false;
  u_has_lower := str_exists is_lower_byte; u_upper_first := λ s, s |}.
Lemma LabelNet_panics_witness : @label_identify stroke_tables no_upper (in_label stroke_label) = Panic.
Proof. apply (LabelNet_panics stroke_tables no_upper); reflexivity. Defined.

Lemma LabelNet_candidate_witness :
  ∃ l, @label_identify caseless no_upper (in_label "STILL_GAME_S3D2") = Candidates l ∧ (length l ≤ 1)%nat.
Proof.
  eexists. split; [vm_compute; reflexivity|].
  refine (proj1 (@LabelNet_candidate caseless no_upper (in_label "STILL_GAME_S3D2") _ _)). vm_compute. reflexivity.
Defined.
Lemma LabelNet_ascii_witness : @label_identify caseless no_upper (in_label "NEXTGEN2") ≠ Panic.
Proof. exact (@LabelNet_ascii caseless no_upper (in_label "NEXTGEN2") eq_refl). Defined.
Lemma peel_total_witness :
  pe_work (peel 40 (mkPeeling "Still Game Season 3 Disc 2" 0 0 KindUnknown [])) = "Still Game" ∧
  peel_once (peel 40 (mkPeeling "Still Game Season 3 Disc 2" 0 0 KindUnknown [])) = None.
Proof. split; [vm_compute; reflexivity|]. apply (peel_total (mkPeeling "Still Game Season 3 Disc 2" 0 0 KindUnknown [])). apply Nat.ltb_lt. vm_compute. reflexivity. Defined.
