(* ===== verification/Menu.v ===== *)
(** * Names read off a disc's menus (internal/identify/menutext.go)

    The text is what OCR gave.  [ParseMenuLines_entries] says what an entry can
    be; [pick_spec] when a running time singles out a title, and
    [AssignByDuration_spec] what the assignment holds.
    [same_time_is_guessed] is a limit: of two names printed with the same
    time the first gets the title, although nothing tells them apart. *)

From S2P Require Import Prelude GoText Regex Ifo Nets NetsFacts.
#[local] Open Scope Z_scope.

Record MenuEntry := mkMenuEntry { me_Name : string; me_Seconds : Z; me_Raw : string }.

Definition colon : regex := Cls (r_one_of ":;.").
Definition two (n : nat) : regex := Cap n (Times 2 (Cls r_digit)).
(** [\(\[\{]?\s*(\d{1,2})\s*[:;.]\s*(\d{2})(?:\s*[:;.]\s*(\d{2}))?\s*[\)\]\}]? *)
Definition timePattern : regex :=
  seq [Opt (Cls (r_one_of "([{")); spaces; Cap 1 (Rep 1 2 (Cls r_digit)); spaces; colon; spaces; two 2;
       Opt (seq [spaces; colon; spaces; two 3]); spaces; Opt (Cls (r_one_of ")]}"))].

Definition parseClock (a b c : string) : Z :=
  let x := number a in
  let y := number b in
  if negb (bool_decide (c = "")) then
    let z := number c in
    if (59 <? y) || (59 <? z) then 0 else x * 3600 + y * 60 + z
  else if 59 <? y then 0 else x * 60 + y.

Definition menu_rune (r : Z) : bool := r_upper r || r_lower r || r_digit r || r_one_of "'&:,!?/. -" r.
Definition menuNoise : regex := Plus (Cls (λ r, negb (menu_rune r))).
Definition runsOfSpace : regex := Seq (Times 2 (Cls r_space)) (Star true (Cls r_space)).

Section menu.
Context {U : Unicode}.

Definition wordish : list string :=
  ["a"; "i"; "an"; "of"; "in"; "on"; "to"; "it"; "is"; "at"; "up"; "my"; "no"; "we"; "dr"; "mr"; "ms"; "st"].
Definition isWordish (s : string) : bool := bool_decide (ToLower s ∈ wordish).
Fixpoint drop_fragments (fields : list string) : list string :=
  match fields with
  | f :: ((_ :: _) as rest) => if (len f <=? 2) && negb (isWordish f) then drop_fragments rest else fields
  | _ => fields
  end.
Definition ascii_letters (s : string) : Z :=
  len (str_filter (λ c, is_lower_byte c || is_upper_byte c) s).
Definition cleanMenuName (s : string) : string :=
  let s := ReplaceAllLiteralString menuNoise s " " in
  let s := ReplaceAllLiteralString runsOfSpace s " " in
  let s := trim (λ c, existsb (byte_eqb c) [" "; "."; ","; ":"; "-"; "'"; "/"]%char) s in
  let s := join " " (drop_fragments (Fields s)) in
  if rune_count s <? 3 then ""
  else if ascii_letters s * 2 <? rune_count s then ""
  else s.

(** A line of the OCR's output. *)
Definition parse_line (line : string) : option MenuEntry :=
  match find_from timePattern (start line) with
  | None => None
  | Some (p, q, c) =>
      let secs := parseClock (cap 1 c) (cap 2 c) (cap 3 c) in
      if secs <=? 0 then None
      else Some (mkMenuEntry (cleanMenuName (text_between (start line) p)) secs (TrimSpace line))
  end.
Definition ParseMenuLines (text : string) : list MenuEntry := omap parse_line (split_on newline text).

(** ** Names to titles *)

(** The inner loop: the closest title so far, its distance, and how many share it. *)
Record choice := mkChoice { ch_best : option nat; ch_delta : Z; ch_ties : nat }.
Definition pick_step (used : gset nat) (secs tolerance : Z) (c : choice) (x : nat * Z) : choice :=
  let '(i, d) := x in
  if bool_decide (i ∈ used) then c
  else
    let delta := Z.abs (d - secs) in
    if tolerance <? delta then c
    else if delta <? ch_delta c then mkChoice (Some i) delta 1
    else if delta =? ch_delta c then mkChoice (ch_best c) (ch_delta c) (S (ch_ties c))
    else c.
Definition numbered (l : list Z) : list (nat * Z) := imap pair l.
Definition pick (used : gset nat) (titleSecs : list Z) (secs tolerance : Z) : option nat :=
  let c := foldl (pick_step used secs tolerance) (mkChoice None (tolerance + 1) 0) (numbered titleSecs) in
  if bool_decide (ch_ties c = 1%nat) then ch_best c else None.
Definition assign_step (titleSecs : list Z) (tolerance : Z) (out : gmap nat MenuEntry) (e : MenuEntry) : gmap nat MenuEntry :=
  if bool_decide (me_Name e = "") then out
  else match pick (dom out) titleSecs (me_Seconds e) tolerance with
       | Some i => <[i := e]> out
       | None => out
       end.
(** [used] is the titles that have a name: the domain of the result. *)
Definition AssignByDuration (entries : list MenuEntry) (titleSecs : list Z) (tolerance : Z) : gmap nat MenuEntry :=
  foldl (assign_step titleSecs tolerance) ∅ entries.

(** ** What is assigned *)

(** Title [i] runs as long as the entry says, within the tolerance, and is free. *)
Definition fits (used : gset nat) (l : list Z) (secs tolerance : Z) (i : nat) (delta : Z) : Prop :=
  i ∉ used ∧ ∃ d, l !! i = Some d ∧ delta = Z.abs (d - secs) ∧ delta ≤ tolerance.

Lemma indexed_snoc l d : numbered (l ++ [d]) = numbered l ++ [(length l, d)].
Proof. unfold numbered. rewrite imap_app. cbn. by rewrite Nat.add_0_r. Qed.

Lemma fits_snoc used l x secs tolerance i delta :
  fits used (l ++ [x]) secs tolerance i delta ↔
  fits used l secs tolerance i delta ∨ (i = length l ∧ i ∉ used ∧ delta = Z.abs (x - secs) ∧ delta ≤ tolerance).
Proof.
  unfold fits. split.
  - intros (Hu & d & Hd & He & Hl). apply lookup_snoc_Some in Hd as [[_ Hd]|[-> ->]]; [left; eauto|right; auto].
  - intros [(Hu & d & Hd & He & Hl)|(-> & Hu & He & Hl)]; (split; [done|]).
    + exists d. split; [|done]. by apply lookup_app_l_Some.
    + exists x. split; [|done]. by apply lookup_snoc_Some; right.
Qed.

(** The loop has the least distance that fits, and how many titles have it. *)
Definition loop_ok (used : gset nat) (l : list Z) (secs tolerance : Z) (c : choice) : Prop :=
  (∀ i delta, fits used l secs tolerance i delta → ch_delta c ≤ delta) ∧
  match ch_ties c with
  | O => ch_best c = None ∧ ch_delta c = tolerance + 1 ∧ ∀ i delta, ¬ fits used l secs tolerance i delta
  | S O => ∃ i, ch_best c = Some i ∧ fits used l secs tolerance i (ch_delta c) ∧
             ∀ j, fits used l secs tolerance j (ch_delta c) → j = i
  | _ => ∃ i j, i ≠ j ∧ fits used l secs tolerance i (ch_delta c) ∧ fits used l secs tolerance j (ch_delta c)
  end.

Lemma fits_lt used l secs tolerance i delta : fits used l secs tolerance i delta → (i < length l)%nat.
Proof. intros (_ & d & Hd & _). by eapply lookup_lt_Some. Qed.

Lemma pick_loop used secs tolerance l :
  loop_ok used l secs tolerance (foldl (pick_step used secs tolerance) (mkChoice None (tolerance + 1) 0) (numbered l)).
Proof.
  induction l as [|x l IH] using rev_ind.
  { split; [intros i delta (_ & d & Hd & _); done|]. split; [done|]. split; [done|]. intros i delta (_ & d & Hd & _). done. }
  rewrite indexed_snoc, foldl_app. cbn [foldl]. set (c := foldl _ _ (numbered l)) in *. clearbody c.
  destruct IH as [Hmin Hc]. unfold pick_step, loop_ok.
  case_bool_decide as Hu.
  { split; [intros i delta [H|(-> & ? & _)]%fits_snoc; [by eapply Hmin|done]|].
    destruct (ch_ties c) as [|[|n]].
    - destruct Hc as (? & ? & H). repeat split; try done. intros i delta [?|(-> & ? & _)]%fits_snoc; [by eapply H|done].
    - destruct Hc as (i & ? & ? & H). exists i. split; [done|]. split; [apply fits_snoc; by left|].
      intros j [?|(-> & ? & _)]%fits_snoc; [by apply H|done].
    - destruct Hc as (i & j & ? & ? & ?). exists i, j. split; [done|]. split; apply fits_snoc; by left. }
  destruct (Z.ltb_spec tolerance (Z.abs (x - secs))) as [Ht|Ht].
  { split; [intros i delta [H|(-> & ? & ? & ?)]%fits_snoc; [by eapply Hmin|lia]|].
    destruct (ch_ties c) as [|[|n]].
    - destruct Hc as (? & ? & H). repeat split; try done. intros i delta [?|(-> & ? & ? & ?)]%fits_snoc; [by eapply H|lia].
    - destruct Hc as (i & ? & ? & H). exists i. split; [done|]. split; [apply fits_snoc; by left|].
      intros j [?|(-> & ? & ? & ?)]%fits_snoc; [by apply H|lia].
    - destruct Hc as (i & j & ? & ? & ?). exists i, j. split; [done|]. split; apply fits_snoc; by left. }
  assert (fits used (l ++ [x]) secs tolerance (length l) (Z.abs (x - secs))) as Hnew by (apply fits_snoc; by right).
  destruct (Z.ltb_spec (Z.abs (x - secs)) (ch_delta c)) as [Hlt|Hge].
  { cbn [ch_delta ch_ties ch_best]. split.
    - intros i delta [H|(-> & ? & ? & ?)]%fits_snoc; [apply Hmin in H; lia|lia].
    - exists (length l). split; [done|]. split; [done|]. intros j [H|(-> & _)]%fits_snoc; [apply Hmin in H; lia|done]. }
  destruct (Z.eqb_spec (Z.abs (x - secs)) (ch_delta c)) as [He|He].
  { cbn [ch_delta ch_ties ch_best]. split.
    - intros i delta [H|(-> & ? & ? & ?)]%fits_snoc; [by eapply Hmin|lia].
    - rewrite He in Hnew. destruct (ch_ties c) as [|[|n]].
      + destruct Hc as (_ & ? & _). lia.
      + destruct Hc as (i & _ & Hi & _). exists i, (length l). split; [apply fits_lt in Hi; lia|]. split; [apply fits_snoc; by left|done].
      + destruct Hc as (i & j & ? & ? & ?). exists i, j. split; [done|]. split; apply fits_snoc; by left. }
  split; [intros i delta [H|(-> & ? & ? & ?)]%fits_snoc; [by eapply Hmin|lia]|].
  destruct (ch_ties c) as [|[|n]].
  - destruct Hc as (_ & ? & _). lia.
  - destruct Hc as (i & ? & ? & H). exists i. split; [done|]. split; [apply fits_snoc; by left|].
    intros j [?|(-> & ? & ? & ?)]%fits_snoc; [by apply H|lia].
  - destruct Hc as (i & j & ? & ? & ?). exists i, j. split; [done|]. split; apply fits_snoc; by left.
Qed.

(** A title is picked exactly when it is the only free one that is closest. *)
Lemma pick_spec used l secs tolerance i :
  pick used l secs tolerance = Some i ↔
  ∃ delta, fits used l secs tolerance i delta ∧
    ∀ j delta', fits used l secs tolerance j delta' → delta' ≤ delta → j = i.
Proof.
  pose proof (pick_loop used secs tolerance l) as [Hmin Hc]. unfold pick.
  set (c := foldl _ _ _) in *. clearbody c. split.
  - case_bool_decide as Ht; [|done]. intros Hb. rewrite Ht in Hc. destruct Hc as (i' & Hi & Hf & Huniq).
    rewrite Hb in Hi. injection Hi as <-. exists (ch_delta c). split; [done|]. intros j delta' Hj Hle.
    apply Hmin in Hj as Hge. replace delta' with (ch_delta c) in Hj by lia. by apply Huniq.
  - intros (delta & Hf & Huniq). destruct (ch_ties c) as [|[|n]].
    + destruct Hc as (_ & _ & Hno). by destruct (Hno i delta).
    + rewrite bool_decide_eq_true_2 by done. destruct Hc as (i' & -> & Hf' & _). f_equal.
      apply (Huniq i' (ch_delta c)); [done|by eapply Hmin].
    + destruct Hc as (a & b & Hne & Ha & Hb). apply Hmin in Hf.
      apply (Huniq a) in Ha; [|done]. apply (Huniq b) in Hb; [|done]. congruence.
Qed.

(** [e] names title [i]: it has a name, and the title is the only one without
    a name from the entries before that is closest to its time. *)
Definition names (before : list MenuEntry) (l : list Z) (tolerance : Z) (e : MenuEntry) (i : nat) : Prop :=
  me_Name e ≠ "" ∧ ∃ delta, fits (dom (AssignByDuration before l tolerance)) l (me_Seconds e) tolerance i delta ∧
    ∀ j delta', fits (dom (AssignByDuration before l tolerance)) l (me_Seconds e) tolerance j delta' → delta' ≤ delta → j = i.

(** what the assignment holds.  Title i has the name of entry e exactly when,
    at e's turn, e had a name and i was the only title still free that was
    closest to its running time and within the tolerance; names given are
    never taken back. *)
Theorem AssignByDuration_spec es l tolerance i e :
  AssignByDuration es l tolerance !! i = Some e ↔
  ∃ before after, es = before ++ e :: after ∧ names before l tolerance e i.
Proof.
  induction es as [|x es IH] using rev_ind.
  { split; [done|]. intros ([] & ? & ? & _); done. }
  assert (AssignByDuration (es ++ [x]) l tolerance = assign_step l tolerance (AssignByDuration es l tolerance) x) as ->.
  { unfold AssignByDuration. by rewrite foldl_app. }
  assert (assign_step l tolerance (AssignByDuration es l tolerance) x !! i = Some e ↔
    AssignByDuration es l tolerance !! i = Some e ∨ (x = e ∧ names es l tolerance e i)) as ->.
  { unfold assign_step, names. case_bool_decide as Hn.
    { split; [by left|]. intros [?|[<- [? _]]]; done. }
    destruct (pick _ _ _ _) as [k|] eqn:Ep.
    - apply pick_spec in Ep as Hp. rewrite lookup_insert_Some. split.
      + intros [[-> ->]|[_ ?]]; [right; by split|by left].
      + intros [He|[<- [_ Hi]]].
        * right. split; [|done]. intros ->. destruct Hp as (delta & [Hu _] & _). apply Hu. by apply elem_of_dom_2 in He.
        * left. split; [|done]. apply pick_spec in Hi. congruence.
    - split; [by left|]. intros [?|[<- [_ Hi]]]; [done|]. apply pick_spec in Hi. congruence. }
  rewrite IH. split.
  - intros [(before & after & -> & Hn)|[-> Hn]].
    + exists before, (after ++ [x]). by rewrite <- app_assoc.
    + by exists es, [].
  - intros (before & after & He & Hn). destruct after as [|y after _] using rev_ind.
    + apply app_inj_tail in He as [-> ->]. by right.
    + rewrite app_comm_cons, app_assoc in He. apply app_inj_tail in He as [-> _]. left. by exists before, after.
Qed.

(** two names with the same time.  When a menu prints one running time
    beside two names and one title runs that long, the first name is filed
    for it, although nothing on the menu says which of the two it is. *)
Theorem same_time_is_guessed a b secs tolerance :
  0 ≤ tolerance → me_Name a ≠ "" → me_Name b ≠ "" → me_Seconds a = secs → me_Seconds b = secs →
  AssignByDuration [a; b] [secs] tolerance = {[0%nat := a]}.
Proof.
  intros Ht Ha Hb Hsa Hsb. unfold AssignByDuration. cbn [foldl]. unfold assign_step at 2.
  rewrite bool_decide_eq_false_2 by done.
  assert (pick (dom (∅ : gmap nat MenuEntry)) [secs] (me_Seconds a) tolerance = Some 0%nat) as ->.
  { apply pick_spec. exists 0. split; [split; [set_solver|]|].
    - exists secs. split; [done|]. rewrite Hsa. lia.
    - intros j delta' (_ & d & Hd & _) _. apply lookup_lt_Some in Hd. cbn in Hd. lia. }
  unfold assign_step. rewrite bool_decide_eq_false_2 by done.
  destruct (pick _ _ _ _) as [k|] eqn:Ep; [|done]. exfalso.
  apply pick_spec in Ep as (delta & (Hu & d & Hd & _) & _). apply lookup_lt_Some in Hd. cbn in Hd.
  assert (k = 0%nat) as -> by lia. apply Hu. rewrite dom_insert_L. set_solver.
Qed.

Lemma timePattern_groups : caps_in (λ n t, (n = 1%nat ∨ n = 2%nat ∨ n = 3%nat) → within r_digit t = true ∧ (1 ≤ String.length t ≤ 2)%nat) timePattern.
Proof.
  assert (∀ p q, matches (Times 2 (Cls r_digit)) p q → within r_digit (text_between p q) = true ∧ (1 ≤ String.length (text_between p q) ≤ 2)%nat) as Htwo.
  { intros p q (u & Hc & Hw & Hl)%matches_times; [|apply r_digit_class]. rewrite (covers_text _ _ _ Hc). rewrite Hl. split; [done|lia]. }
  cbn [caps_in timePattern seq Nets.spaces colon two Opt Rep Times UpTo Nat.sub].
  repeat match goal with |- _ ∧ _ => split end; try exact I; intros p q Hm _; first [by apply rep_digits|by apply Htwo].
Qed.

(** what is read off a menu.  Every entry is a line with a running time of
    one second at least and under a hundred hours, in the order of the lines,
    and a name that is empty or has three runes, half of them letters. *)
Theorem ParseMenuLines_entries text e : e ∈ ParseMenuLines text →
  0 < me_Seconds e < 360000 ∧ (∃ line, line ∈ split_on newline text ∧ me_Raw e = TrimSpace line ∧ MatchString timePattern line = true) ∧
  (me_Name e = "" ∨ (3 ≤ rune_count (me_Name e) ∧ rune_count (me_Name e) ≤ 2 * ascii_letters (me_Name e))).
Proof.
  unfold ParseMenuLines. rewrite list_elem_of_omap. intros (line & Hl & He). unfold parse_line in He.
  destruct (find_from timePattern (start line)) as [[[p q] c]|] eqn:Ef; [|done].
  destruct (Z.leb_spec (parseClock (cap 1 c) (cap 2 c) (cap 3 c)) 0) as [|Hpos]; [done|]. injection He as <-.
  cbn [me_Seconds me_Raw me_Name]. split; [split; [done|]|split].
  - assert (∀ n, n = 1%nat ∨ n = 2%nat ∨ n = 3%nat → 0 ≤ number (cap n c) ≤ 99) as Hn.
    { intros n Hn. assert (FindStringSubmatch timePattern line = Some ((O, text_between p q) :: c)) as Hm.
      { unfold FindStringSubmatch. by rewrite Ef. }
      destruct (FindStringSubmatch_caps _ _ _ _ n Hm timePattern_groups ltac:(lia)) as [H|H]; rewrite cap_there in H by lia.
      - by rewrite H.
      - destruct (H Hn) as [Hw Hlen]. by apply two_digit_number. }
    pose proof (Hn 1%nat ltac:(lia)). pose proof (Hn 2%nat ltac:(lia)). pose proof (Hn 3%nat ltac:(lia)).
    unfold parseClock in *. repeat case_match; breflect; lia.
  - exists line. split; [done|]. split; [done|]. unfold MatchString. rewrite Ef. by apply bool_decide_eq_true.
  - unfold cleanMenuName. set (s := join _ _). destruct (Z.ltb_spec (rune_count s) 3); [by left|].
    destruct (Z.ltb_spec (ascii_letters s * 2) (rune_count s)); [by left|right]. lia.
Qed.
End menu.

(** ** Lines of a real menu *)

Definition menu_text : string :=
  "On Location (x1:17)" +:+ String newline "" +:+ "Alternate Ending (1:01)" +:+ String newline "" +:+ "Play" +:+
  String newline "" +:+ ":: The Trial - 45:30".
Example menu_read : (λ e, (me_Name e, me_Seconds e)) <$> @ParseMenuLines caseless menu_text =
  [("On Location x", 77); ("Alternate Ending", 61); ("The Trial", 2730)].
Proof. vm_compute. reflexivity. Qed.

Definition trial : MenuEntry := mkMenuEntry "The Trial" 2730 ":: The Trial - 45:30".
Definition ending : MenuEntry := mkMenuEntry "Alternate Ending" 61 "Alternate Ending (1:01)".
Lemma ParseMenuLines_entries_witness : trial ∈ @ParseMenuLines caseless menu_text ∧ 0 < me_Seconds trial < 360000.
Proof.
  assert (trial ∈ @ParseMenuLines caseless menu_text) as H by (apply list_elem_of_In; vm_compute; tauto).
  split; [exact H|]. exact (proj1 (@ParseMenuLines_entries caseless menu_text trial H)).
Defined.
Lemma same_time_is_guessed_witness :
  AssignByDuration [trial; mkMenuEntry "Pilot" 2730 "Pilot 45:30"] [2730] 3 = {[0%nat := trial]}.
Proof. apply same_time_is_guessed; [lia|discriminate|discriminate|reflexivity|reflexivity]. Defined.
Example assigned : AssignByDuration [ending; trial] [2731; 62; 2600] 3 = {[0%nat := trial; 1%nat := ending]}.
Proof. reflexivity. Qed.
