(* ===== verification/Sse.v ===== *)
(** * One client's event stream (events, writeEvent and writeFrame in internal/api/server.go)

    The handler between the hub and its client: [serve_live] is what it takes out of
    its channel while events are published, which drop when the channel is
    full, and [watch_run] what that comes to.  Then what it writes, byte by
    byte, and the reading of such a stream as the EventSource standard describes
    it.  ServerFacts puts the first together with the reads of the API.

    [stream_roundtrip]: a client reads back exactly the frames that were
    written, each with its id, its kind and its whole payload, whatever lines
    the payload has, and keep-alives add nothing.  [dropped_event_is_lost]: an event
    that was dropped is not sent after a reconnection either, once a later one was
    received. *)

From S2P Require Import Prelude GoText RegexLines Hub.
#[local] Open Scope Z_scope.

(** ** One client's stream *)

(** What happens while a handler of events serves its channel: an event is published, the handler
    takes one out, another client comes, or another goes. *)
Inductive stream_act {A} := SPublish (kind : string) (data : A) (now : Z) | SReceive | SJoin | SLeave (d : nat).
Arguments stream_act : clear implicits.

Section stream.
Context {A : Type}.
Implicit Types (h : Hub A) (log : list (Event A)) (acts : list (stream_act A)).

(** Another client of the hub comes or goes. *)
Definition leave (c d : nat) h : Hub A := if decide (d = c) then h else release_close d (release_delete d h).
(** The events the handler takes out of its channel; [None] is a panic of the publisher. *)
Fixpoint serve_live (c : nat) acts h : option (list (Event A) * Hub A) :=
  match acts with
  | [] => Some ([], h)
  | SPublish kind data now :: acts => '(h', _) ← Publish kind data now h; serve_live c acts h'
  | SReceive :: acts =>
      match chans h !! c with
      | Some (mkChan (ev :: b) cl) =>
          '(got, h') ← serve_live c acts (mkHub (nextID h) (ring h) (start h) (full h) (subs h) (<[c := mkChan b cl]> (chans h)));
          Some (ev :: got, h')
      | _ => serve_live c acts h
      end
  | SJoin :: acts => serve_live c acts (Subscribe h).1
  | SLeave d :: acts => serve_live c acts (leave c d h)
  end.
(** The channel has room whenever an event is published. *)
Fixpoint keeps_up (c : nat) acts h : bool :=
  match acts with
  | [] => true
  | SPublish kind data now :: acts =>
      (match chans h !! c with Some ch => (length (buf ch) <? chanCap)%nat | None => false end) &&
      match Publish kind data now h with Some (h', _) => keeps_up c acts h' | None => false end
  | SReceive :: acts =>
      match chans h !! c with
      | Some (mkChan (ev :: b) cl) =>
          keeps_up c acts (mkHub (nextID h) (ring h) (start h) (full h) (subs h) (<[c := mkChan b cl]> (chans h)))
      | _ => keeps_up c acts h
      end
  | SJoin :: acts => keeps_up c acts (Subscribe h).1
  | SLeave d :: acts => keeps_up c acts (leave c d h)
  end.
Definition waiting_in (c : nat) h : list (Event A) := match chans h !! c with Some ch => buf ch | None => [] end.

(** *** Publishing to one channel *)

Lemma fanout_each (ev : Event A) ss : ∀ m m', NoDup ss → fanout ev ss m = Some m' →
  (∀ c, c ∉ ss → m' !! c = m !! c) ∧
  ∀ c, c ∈ ss → ∃ ch ch', m !! c = Some ch ∧ try_send ev ch = Some ch' ∧ m' !! c = Some ch'.
Proof.
  unfold fanout. induction ss as [|c ss IH]; cbn [foldr]; intros m m' Hnd.
  { intros [= <-]. split; [done|]. by intros c ?%elem_of_nil. }
  apply NoDup_cons in Hnd as [Hc Hnd]. unfold fanout_one at 1. intros (m1 & H1 & H2)%bind_Some.
  apply bind_Some in H2 as (ch & Hch & (ch' & Hch' & [= <-])%bind_Some). destruct (IH _ _ Hnd H1) as [Hout Hin]. split.
  - intros d [Hne Hd]%not_elem_of_cons. by rewrite lookup_insert_ne, Hout.
  - intros d [->|Hd]%elem_of_cons.
    + exists ch, ch'. rewrite Hout in Hch by done. by rewrite lookup_insert_eq.
    + destruct (Hin d Hd) as (x & x' & ? & ? & ?). exists x, x'. by rewrite lookup_insert_ne by (by intros ->).
Qed.

Lemma Publish_chan h kind (data : A) now h' ev c ch :
  Publish kind data now h = Some (h', ev) → c ∈ subs h → chans h !! c = Some ch →
  subs h' = subs h ∧ ∃ ch', try_send ev ch = Some ch' ∧ chans h' !! c = Some ch'.
Proof.
  intros Hp Hc Hch. unfold Publish in Hp. set (e := mkEv _ _ _ _) in *. set (h1 := append _ _) in *.
  destruct (append_subs e (mkHub (u64 (nextID h + 1)) (ring h) (start h) (full h) (subs h) (chans h))) as (E1 & E2 & _). fold h1 in E1, E2.
  apply bind_Some in Hp as (m & Hm & [= <- <-]). cbn [subs chans] in *. split; [done|].
  destruct (fanout_each e (elements (subs h1)) (chans h1) m (NoDup_elements _) Hm) as [_ Hin].
  destruct (Hin c) as (x & x' & Hx & Hs & Hx'); [by rewrite elem_of_elements, E1|]. rewrite E2, Hch in Hx. injection Hx as <-. by exists x'.
Qed.

(** The hub of a client: it represents a log, nobody's channel is closed, and the client's is there. *)
Record attached (c : nat) h log : Prop := {
  at_repr : ring_repr h log;
  at_open : subs_open h;
  at_sub : c ∈ subs h;
}.
Lemma attached_chan c h log : attached c h log → chans h !! c = Some (mkChan (waiting_in c h) false).
Proof. intros [_ Ho Hc]. destruct (Ho c Hc) as ([b []] & Hch & Hcl); [done|]. unfold waiting_in. by rewrite Hch. Qed.

Lemma Subscribe_attached h log : ring_repr h log → subs_open h →
  let '(h', c) := Subscribe h in attached c h' log ∧ waiting_in c h' = [].
Proof.
  intros Hr Ho. pose proof (is_fresh (dom (chans h))) as Hf. unfold Subscribe. set (c := fresh _) in *. split.
  - split; [by eapply ring_repr_ext, Hr| |cbn; set_solver]. intros d. cbn [subs chans]. intros [->%elem_of_singleton|Hd]%elem_of_union.
    + exists (mkChan [] false). by rewrite lookup_insert_eq.
    + destruct (Ho d Hd) as (ch & Hch & ?). exists ch. rewrite lookup_insert_ne; [done|]. intros <-. apply Hf, elem_of_dom. by exists ch.
  - unfold waiting_in. cbn [chans]. by rewrite lookup_insert_eq.
Qed.

Lemma receive_attached c h log ev b : attached c h log → waiting_in c h = ev :: b →
  let h' := mkHub (nextID h) (ring h) (start h) (full h) (subs h) (<[c := mkChan b false]> (chans h)) in
  attached c h' log ∧ waiting_in c h' = b.
Proof.
  intros [Hr Ho Hc] Hw. cbv zeta. split; [|unfold waiting_in; cbn [chans]; by rewrite lookup_insert_eq].
  split; [by eapply ring_repr_ext, Hr| |done]. intros d Hd. cbn [subs chans] in *. destruct (decide (c = d)) as [<-|Hne].
  - exists (mkChan b false). by rewrite lookup_insert_eq.
  - rewrite lookup_insert_ne by done. by apply Ho.
Qed.

Lemma publish_attached c h log kind (data : A) now :
  attached c h log → Z.of_nat (length log) + 1 < 2 ^ 64 →
  ∃ h' ev, Publish kind data now h = Some (h', ev) ∧ attached c h' (log ++ [ev]) ∧
    waiting_in c h' = waiting_in c h ++ (if (length (waiting_in c h) <? chanCap)%nat then [ev] else []).
Proof.
  intros Ha Hlt. pose proof (attached_chan _ _ _ Ha) as Hch. destruct Ha as [Hr Ho Hc].
  destruct (Publish_logs h log kind data now Hr Ho Hlt) as (h' & ev & Hp & _ & Hr' & Ho').
  destruct (Publish_chan _ _ _ _ _ _ c _ Hp Hc Hch) as (Es & ch' & Hs & Hch'). exists h', ev. split; [done|].
  split; [split; [done|done|by rewrite Es]|]. unfold waiting_in at 1. rewrite Hch'. unfold try_send in Hs. cbn [closed buf] in Hs.
  injection Hs as <-. case_match; cbn; [done|by rewrite app_nil_r].
Qed.

Lemma join_attached c h log : attached c h log → attached c (Subscribe h).1 log ∧ waiting_in c (Subscribe h).1 = waiting_in c h.
Proof.
  intros Ha. pose proof (attached_chan _ _ _ Ha) as Hch. destruct Ha as [Hr Ho Hc].
  destruct (Subscribe_attached h log Hr Ho) as [[Hr' Ho' _] _]. pose proof (is_fresh (dom (chans h))) as Hf.
  assert (fresh (dom (chans h)) ≠ c) as Hne by (intros E; apply Hf; rewrite E; by eapply elem_of_dom_2).
  split; [split; [done|done|cbn; set_solver]|]. unfold waiting_in, Subscribe. cbn [fst chans]. by rewrite lookup_insert_ne.
Qed.
Lemma leave_attached c d h log : attached c h log → attached c (leave c d h) log ∧ waiting_in c (leave c d h) = waiting_in c h.
Proof.
  intros [Hr Ho Hc]. unfold leave. case_decide as Hd; [done|]. unfold release_close, release_delete. split.
  - split; [by eapply ring_repr_ext, Hr| |cbn; set_solver]. intros x. cbn [subs chans]. intros [Hx Hne]%elem_of_difference.
    rewrite lookup_alter_ne by set_solver. by apply Ho.
  - unfold waiting_in. cbn [chans]. by rewrite lookup_alter_ne.
Qed.

(** *** A run of one handler *)

Definition untaken (a : stream_act A) : bool := match a with SReceive => false | _ => true end.

(** What the handler has taken and what waits are, in order, a part of what was published; and all of it
    as long as the channel had room. *)
Record watched (c : nat) acts h log got h' (new : list (Event A)) : Prop := {
  wt_run : serve_live c acts h = Some (got, h');
  wt_log : attached c h' (log ++ new);
  wt_kept : ∃ kept, kept `sublist_of` new ∧ waiting_in c h ++ kept = got ++ waiting_in c h' ∧
    (keeps_up c acts h = true → kept = new);
  wt_none : Forall (λ a, untaken a = true) acts → got = [];
}.

Lemma watch_run c acts : ∀ h log, attached c h log → Z.of_nat (length log) + Z.of_nat (length acts) < 2 ^ 64 →
  ∃ got h' new, watched c acts h log got h' new ∧ (length new ≤ length acts)%nat.
Proof.
  induction acts as [|a acts IH]; intros h log Ha Hlt.
  { exists [], h, []. split; [|done]. split; [done|by rewrite app_nil_r| |done]. exists []. by rewrite app_nil_r. }
  cbn [length] in Hlt. destruct a as [kind data now| | |d].
  - destruct (publish_attached c h log kind data now Ha ltac:(lia)) as (h1 & ev & Hp & Ha1 & Hw1).
    destruct (IH h1 (log ++ [ev]) Ha1) as (got & h' & new & [Hrun Hlog (kept & Hk & He & Hall) Hno] & Hl); [rewrite length_app; cbn; lia|].
    exists got, h', (ev :: new). split; [|cbn; lia]. split; [cbn; by rewrite Hp|by rewrite <- app_assoc in Hlog| |].
    + exists ((if (length (waiting_in c h) <? chanCap)%nat then [ev] else []) ++ kept). split; [case_match; cbn; by constructor|].
      split; [by rewrite app_assoc, <- Hw1|]. cbn [keeps_up]. rewrite (attached_chan _ _ _ Ha), Hp. cbn [buf].
      intros [-> Hu]%andb_true_iff. by rewrite (Hall Hu).
    + intros [_ H]%Forall_cons. by apply Hno.
  - pose proof (attached_chan _ _ _ Ha) as Hch. cbn [serve_live keeps_up]. destruct (waiting_in c h) as [|ev b] eqn:Hw.
    + destruct (IH h log Ha ltac:(lia)) as (got & h' & new & [Hrun Hlog (kept & Hk & He & Hall) Hno] & Hl).
      exists got, h', new. split; [|cbn; lia]. split; cbn [serve_live keeps_up]; rewrite ?Hch; [done|done| |].
      * rewrite Hw in He |- *. by exists kept.
      * by intros [? _]%Forall_cons.
    + destruct (receive_attached c h log ev b Ha Hw) as [Ha1 Hw1].
      destruct (IH _ log Ha1 ltac:(lia)) as (got & h' & new & [Hrun Hlog (kept & Hk & He & Hall) Hno] & Hl).
      exists (ev :: got), h', new. split; [|cbn; lia]. split; cbn [serve_live keeps_up]; rewrite ?Hch; [by rewrite Hrun|done| |].
      * exists kept. split; [done|]. split; [|done]. rewrite Hw. cbn. rewrite Hw1 in He. by rewrite He.
      * by intros [? _]%Forall_cons.
  - destruct (join_attached c h log Ha) as [Ha1 Hw1]. destruct (IH _ log Ha1 ltac:(lia)) as (got & h' & new & [Hrun Hlog Hk Hno] & Hl).
    exists got, h', new. split; [|cbn; lia]. rewrite Hw1 in Hk. split; [done|done|done|]. intros [_ ?]%Forall_cons. by apply Hno.
  - destruct (leave_attached c d h log Ha) as [Ha1 Hw1]. destruct (IH _ log Ha1 ltac:(lia)) as (got & h' & new & [Hrun Hlog Hk Hno] & Hl).
    exists got, h', new. split; [|cbn; lia]. rewrite Hw1 in Hk. split; [done|done|done|]. intros [_ ?]%Forall_cons. by apply Hno.
Qed.

(** *** What is sent *)

Definition ascending : list (Event A) → Prop := StronglySorted (λ a b, ev_ID a < ev_ID b).

Lemma numbered_ascending log n : (∀ i e, log !! i = Some e → ev_ID e = Z.of_nat (n + i) + 1) → ascending log.
Proof.
  revert n. induction log as [|e log IH]; intros n Hn; [constructor|]. constructor.
  - apply (IH (S n)). intros i x Hx. rewrite (Hn (S i) x Hx). lia.
  - apply Forall_forall. intros x [i Hi]%list_elem_of_lookup. rewrite (Hn 0%nat e eq_refl), (Hn (S i) x Hi). lia.
Qed.
Lemma ascending_sublist l k : l `sublist_of` k → ascending k → ascending l.
Proof.
  unfold ascending. induction 1 as [|x l k Hl IH|x l k Hl IH]; [done| |]; intros Hs; apply StronglySorted_inv in Hs as [Hs Hx].
  - constructor; [by apply IH|]. rewrite Forall_forall in *. intros y Hy. by eapply Hx, elem_of_sublist.
  - by apply IH.
Qed.
Lemma filter_sublist (P : Event A → Prop) `{!∀ x, Decision (P x)} l k : l `sublist_of` k → filter P l `sublist_of` filter P k.
Proof.
  induction 1 as [|x l k Hl IH|x l k Hl IH]; [done| |].
  - rewrite !filter_cons. case_decide; [by constructor|done].
  - rewrite (filter_cons _ x k). case_decide; [by constructor|done].
Qed.

Lemma live_loop_ascending l : ascending l → ∀ sent, live_loop sent l = map Ev (filter (λ e, sent < ev_ID e) l).
Proof.
  unfold ascending. induction 1 as [|e l Hs IH Hf]; intros sent; [done|]. cbn [live_loop]. rewrite filter_cons.
  destruct (Z.leb_spec (ev_ID e) sent).
  - rewrite IH. by rewrite decide_False by lia.
  - rewrite decide_True, IH by lia. cbn. do 2 f_equal. rewrite Forall_forall in Hf.
    rewrite !filter_all; [done|apply Forall_forall; intros x Hx; specialize (Hf x Hx); lia|by apply Forall_forall].
Qed.

(** The frames of a handler that replays from [from] events and then serves what it takes. *)
Lemma events_frames h log from live rest :
  ring_repr h log → numbered (log ++ rest) → live `sublist_of` log ++ rest → (from ≤ length log)%nat →
  Z.of_nat (length log) < 2 ^ 64 - 1 →
  let fresh := filter (λ e, Z.of_nat (length log) < ev_ID e) live in
  ((length log ≤ from + ringSize)%nat →
    events (Z.of_nat from) h live = Hello (Z.of_nat (length log)) :: map Ev (drop from log ++ fresh)) ∧
  ((from + ringSize < length log)%nat →
    ∃ more, events (Z.of_nat from) h live = Reconcile (Z.of_nat (length log)) :: Hello (Z.of_nat (length log)) :: more).
Proof.
  intros Hr Hnum Hlive Hf Hlt. cbv zeta. pose proof Hr as [Hnext _ Hids _ _ _]. unfold events, LastID.
  rewrite (Since_log _ _ _ Hr) by lia. rewrite Hnext, Nat2Z.id. split; intros Hw.
  - assert ((match log with [] => Z.of_nat from =? 0 | _ => Z.of_nat (length log) - Z.of_nat ringSize <=? Z.of_nat from end) = true) as ->.
    { destruct log; [cbn in Hf; by replace from with 0%nat by lia|]. apply Z.leb_le. lia. }
    replace (from `max` (length log - ringSize))%nat with from by lia. cbn [app]. f_equal. rewrite map_app. f_equal.
    pose proof (last_sent_drop log (Z.of_nat from) Hids ltac:(lia)) as ->%(eq_trans (f_equal (λ n, last_sent _ (drop n log)) (eq_sym (Nat2Z.id from)))).
    apply live_loop_ascending. eapply ascending_sublist, (numbered_ascending _ 0); [done|]. exact Hnum.
  - destruct log as [|e0 l0]; [cbn in Hw; lia|].
    assert (Z.of_nat (length (e0 :: l0)) - Z.of_nat ringSize <=? Z.of_nat from = false) as -> by (apply Z.leb_gt; lia).
    cbn. eauto.
Qed.

(** Of the end of a log, what is newer than some event. *)
Lemma fresh_suffix (a b c : list (Event A)) : numbered (a ++ b ++ c) → filter (λ e, Z.of_nat (length (a ++ b)) < ev_ID e) (b ++ c) = c.
Proof.
  intros Hn. assert (∀ i e, (b ++ c) !! i = Some e → ev_ID e = Z.of_nat (length a + i) + 1) as Hb.
  { intros i e Hi. apply (Hn (length a + i)%nat). rewrite lookup_app_r by lia. by replace (length a + i - length a)%nat with i by lia. }
  rewrite filter_app, filter_none, filter_all; [done| |]; apply Forall_forall; intros e [i Hi]%list_elem_of_lookup.
  - rewrite (Hb (length b + i)%nat e); [rewrite length_app; lia|]. rewrite lookup_app_r by lia. by replace (length b + i - length b)%nat with i by lia.
  - pose proof (lookup_lt_Some _ _ _ Hi). rewrite (Hb i e); [rewrite length_app; lia|]. by rewrite lookup_app_l.
Qed.

(** A client that comes back under the id of an event it got is sent nothing older, and not told that
    anything is missing. *)
Lemma resumed_frames h log from live rest :
  ring_repr h log → numbered (log ++ rest) → live `sublist_of` log ++ rest → (from ≤ length log)%nat →
  Z.of_nat (length log) < 2 ^ 64 - 1 → (length log ≤ from + ringSize)%nat →
  ∃ got, events (Z.of_nat from) h live = Hello (Z.of_nat (length log)) :: map Ev got ∧
    Forall (λ e, Z.of_nat from < ev_ID e) got.
Proof.
  intros Hr Hn Hl Hf Hlt Hw. eexists. split; [by apply (events_frames h log from live rest)|]. apply Forall_app. split.
  - apply Forall_forall. intros e [i Hi]%list_elem_of_lookup. rewrite lookup_drop in Hi. apply (rr_ids _ _ Hr) in Hi. lia.
  - apply Forall_forall. intros e [He _]%list_elem_of_filter. lia.
Qed.
End stream.

(** A channel that is full, an event that finds it so, and one after the handler has taken one: the second
    is never sent, the third is, and its id is the one the client comes back with. *)
Example dropped_event_is_lost :
  let '(h0, c) := Subscribe (@NewHub unit) in
  let acts := repeat (SPublish "log" () 0) 257 ++ [SReceive; SPublish "log" () 0] ++ repeat SReceive 256 in
  ∃ got h, serve_live c acts h0 = Some (got, h) ∧ keeps_up c acts h0 = false ∧
    ev_ID <$> drop 254 got = [255; 256; 258] ∧ events 258 h [] = [Hello 258].
Proof. vm_compute. eexists _, _. repeat split. Qed.

(** ** Writing *)

(** What goes on the wire: a frame of an id, a kind and an encoded payload, or a comment. *)
Inductive wire := Frame (id kind body : string) | KeepAlive.

Definition text_line (s : string) : string := s +:+ nl.
Definition frame_lines (id kind body : string) : list string :=
  (if bool_decide (id = "") then [] else ["id: " +:+ id]) ++ ["event: " +:+ kind] ++
  ((λ l, "data: " +:+ l) <$> split_on newline body) ++ [""].
Definition writeFrame (id kind body : string) : string := join "" (text_line <$> frame_lines id kind body).
Definition keepalive : string := ": keepalive" +:+ nl +:+ nl.
Definition wire_text (w : wire) : string :=
  match w with Frame id kind body => writeFrame id kind body | KeepAlive => keepalive end.

Section frames.
Context {A : Type}.
(** json.Marshal of an event and of the two announcements. *)
Context (event_json : Event A → string) (hello_json reconcile_json : Z → string).
(** writeEvent, and the frames the handler opens with. *)
Definition writeEvent (ev : Event A) : wire := Frame (itoa (ev_ID ev)) (ev_Kind ev) (event_json ev).
Definition frame_wire (f : frame A) : wire :=
  match f with
  | Reconcile last => Frame "" "reconcile" (reconcile_json last)
  | Hello last => Frame "" "hello" (hello_json last)
  | Ev ev => writeEvent ev
  end.
End frames.

(** ** Reading (the EventSource standard) *)

Definition carriage : ascii := ascii_of_nat 13.
Definition zero : ascii := "000"%char.

Record sse_event := mkSse { se_lastId : string; se_type : string; se_data : string }.
(** The last id seen, the type and the data lines of the event being read. *)
Record sse_state := mkSseState { ss_lastId : string; ss_type : string; ss_data : list string }.

Definition unspaced (s : string) : string := match s with String " " r => r | _ => s end.
(** A line's field and value: split at the first colon, one space after it dropped. *)
Fixpoint sse_field (s : string) : string * string :=
  match s with
  | "" => ("", "")
  | String c r => if byte_eqb ":"%char c then ("", unspaced r) else let '(f, v) := sse_field r in (String c f, v)
  end.
Definition sse_line (st : sse_state) (l : string) : sse_state * list sse_event :=
  if bool_decide (l = "") then
    (mkSseState (ss_lastId st) "" [],
     if bool_decide (ss_data st = []) then [] else [mkSse (ss_lastId st) (ss_type st) (join nl (ss_data st))])
  else
    let '(f, v) := sse_field l in
    (if bool_decide (f = "event") then mkSseState (ss_lastId st) v (ss_data st)
     else if bool_decide (f = "data") then mkSseState (ss_lastId st) (ss_type st) (ss_data st ++ [v])
     else if bool_decide (f = "id") && str_forall (λ c, negb (byte_eqb zero c)) v then mkSseState v (ss_type st) (ss_data st)
     else st, []).
Fixpoint sse_lines (st : sse_state) (ls : list string) : list sse_event :=
  match ls with
  | [] => []
  | l :: ls => let '(st, out) := sse_line st l in out ++ sse_lines st ls
  end.
(** A line ends at a newline, at a carriage return, or at both together; [after_cr]: the newline of such
    a pair is to come. *)
Fixpoint sse_pieces (after_cr : bool) (s : string) : list string :=
  match s with
  | "" => [""]
  | String c r =>
      if byte_eqb newline c then if after_cr then sse_pieces false r else "" :: sse_pieces false r
      else if byte_eqb carriage c then "" :: sse_pieces true r
      else match sse_pieces false r with l :: ls => String c l :: ls | [] => [] end
  end.
(** The events of a text; what follows its last line end is no line yet. *)
Definition sse_read (lastId text : string) : list sse_event :=
  sse_lines (mkSseState lastId "" []) (removelast (sse_pieces false text)).
Example sse_read_a : sse_read "3" ("data: a" +:+ String carriage (String newline ("data:b" +:+ String carriage (String carriage ("data: c" +:+ nl)))))
  = [mkSse "3" "" ("a" +:+ nl +:+ "b")].
Proof. reflexivity. Qed.

(** ** The round trip *)

(** The last id after a frame, and what a list of frames is to the client. *)
Fixpoint delivered (lastId : string) (ws : list wire) : list sse_event :=
  match ws with
  | [] => []
  | KeepAlive :: ws => delivered lastId ws
  | Frame id kind body :: ws =>
      let lastId := if bool_decide (id = "") then lastId else id in
      mkSse lastId kind body :: delivered lastId ws
  end.
Definition no_eol (s : string) : bool := str_forall (λ c, not_newline c && negb (byte_eqb carriage c)) s.
(** The ids are numbers and the kinds are the hub's; a body is the output of json.Marshal, which writes
    a carriage return inside a string as an escape. *)
Definition wire_ok (w : wire) : Prop :=
  match w with
  | Frame id kind body => no_eol id = true ∧ str_forall (λ c, negb (byte_eqb zero c)) id = true ∧ no_eol kind = true ∧
      str_forall (λ c, negb (byte_eqb carriage c)) body = true
  | KeepAlive => True
  end.

Lemma join_nil_cons x l : join "" (x :: l) = x +:+ join "" l.
Proof. unfold join. destruct l; [by rewrite str_app_empty_r|done]. Qed.
Lemma sse_pieces_line l rest : no_eol l = true → sse_pieces false (text_line l +:+ rest) = l :: sse_pieces false rest.
Proof.
  unfold no_eol, text_line, nl, not_newline. induction l as [|c l IH]; cbn [str_forall]; intros H.
  - cbn. unfold byte_eqb. by rewrite bool_decide_eq_true_2.
  - apply andb_true_iff in H as [[Hn Hc]%andb_true_iff Hl]. cbn [String.append sse_pieces].
    apply negb_true_iff in Hn, Hc. rewrite Hn, Hc. by rewrite (IH Hl).
Qed.
Lemma sse_pieces_lines ls : Forall (λ l, no_eol l = true) ls → removelast (sse_pieces false (join "" (text_line <$> ls))) = ls.
Proof.
  enough (Forall (λ l, no_eol l = true) ls → sse_pieces false (join "" (text_line <$> ls)) = ls ++ [""]) as H.
  { intros Hls. rewrite H by done. apply removelast_last. }
  induction 1 as [|l ls Hl _ IH]; [done|]. cbn [fmap list_fmap app].
  rewrite join_nil_cons, sse_pieces_line by done. fold (fmap text_line ls). by rewrite IH.
Qed.

Lemma no_eol_app u v : no_eol (u +:+ v) = no_eol u && no_eol v.
Proof. apply str_forall_app. Qed.
Lemma frame_lines_ok id kind body : wire_ok (Frame id kind body) → Forall (λ l, no_eol l = true) (frame_lines id kind body).
Proof.
  intros (Hi & _ & Hk & Hb). unfold frame_lines. repeat apply Forall_app_2.
  - case_bool_decide; constructor; [|constructor]. by rewrite no_eol_app, Hi.
  - constructor; [|constructor]. by rewrite no_eol_app, Hk.
  - rewrite Forall_fmap. pose proof (split_at_pieces (byte_eqb newline) body) as H1. apply (split_at_forall (byte_eqb newline)) in Hb.
    unfold split_on. rewrite Forall_forall in H1, Hb |- *. intros l Hl. specialize (H1 l Hl). specialize (Hb l Hl).
    change (no_eol ("data: " +:+ l) = true). rewrite no_eol_app. apply andb_true_iff. split; [done|].
    clear -H1 Hb. unfold no_eol, not_newline. induction l as [|c l IH]; [done|]. cbn [str_forall] in *.
    apply andb_true_iff in H1 as [-> H1], Hb as [-> Hb]. by apply IH.
  - by constructor.
Qed.

(** A field the handler writes. *)
Lemma sse_line_id st v : str_forall (λ c, negb (byte_eqb zero c)) v = true →
  sse_line st ("id: " +:+ v) = (mkSseState v (ss_type st) (ss_data st), []).
Proof.
  intros H. unfold sse_line. rewrite (bool_decide_eq_false_2 ("id: " +:+ v = "")) by done.
  change (sse_field ("id: " +:+ v)) with ("id", v). cbv iota. by rewrite H.
Qed.
Lemma sse_line_event st v : sse_line st ("event: " +:+ v) = (mkSseState (ss_lastId st) v (ss_data st), []).
Proof. reflexivity. Qed.
Lemma sse_line_data st v : sse_line st ("data: " +:+ v) = (mkSseState (ss_lastId st) (ss_type st) (ss_data st ++ [v]), []).
Proof. reflexivity. Qed.
Lemma sse_data_lines ds st rest :
  sse_lines st (((λ l, "data: " +:+ l) <$> ds) ++ rest) =
  sse_lines (mkSseState (ss_lastId st) (ss_type st) (ss_data st ++ ds)) rest.
Proof.
  revert st. induction ds as [|d ds IH]; intros [i t d0]; cbn [fmap list_fmap app sse_lines]; [by rewrite app_nil_r|].
  rewrite sse_line_data. cbn [app]. rewrite IH. cbn. by rewrite <- app_assoc.
Qed.

Lemma sse_frame lastId id kind body rest : str_forall (λ c, negb (byte_eqb zero c)) id = true →
  sse_lines (mkSseState lastId "" []) (frame_lines id kind body ++ rest) =
  let lastId := if bool_decide (id = "") then lastId else id in
  mkSse lastId kind body :: sse_lines (mkSseState lastId "" []) rest.
Proof.
  intros Hz. assert (∀ last, sse_lines (mkSseState last "" []) (["event: " +:+ kind] ++ ((λ l, "data: " +:+ l) <$> split_on newline body) ++ [""] ++ rest) =
    mkSse last kind body :: sse_lines (mkSseState last "" []) rest) as H.
  { intros last. change (["event: " +:+ kind] ++ ?x) with (("event: " +:+ kind) :: x). cbn [sse_lines]. rewrite sse_line_event. cbn [app].
    rewrite sse_data_lines. cbn [ss_lastId ss_type ss_data app]. cbn [sse_lines]. unfold sse_line.
    rewrite bool_decide_eq_true_2 by done. cbn [ss_data ss_lastId ss_type].
    destruct (split_at_cons (byte_eqb newline) body) as (w & ws & E). rewrite bool_decide_eq_false_2 by (unfold split_on; by rewrite E).
    cbn. f_equal. f_equal. apply join_split. }
  unfold frame_lines. rewrite <- !app_assoc. case_bool_decide as Hid; cbn [app].
  - apply H.
  - cbn [sse_lines]. rewrite sse_line_id by done. cbn [app ss_type ss_data]. apply H.
Qed.

(** The lines of what is sent. *)
Definition wire_lines (w : wire) : list string :=
  match w with Frame id kind body => frame_lines id kind body | KeepAlive => [": keepalive"; ""] end.
Lemma wire_text_lines w : wire_text w = join "" (text_line <$> wire_lines w).
Proof. by destruct w. Qed.
Lemma join_nil_app l k : join "" (l ++ k) = join "" l +:+ join "" k.
Proof. induction l as [|x l IH]; [done|]. cbn [app]. rewrite !join_nil_cons, IH. apply str_app_assoc. Qed.
Lemma wires_text ws : join "" (wire_text <$> ws) = join "" (text_line <$> (ws ≫= wire_lines)).
Proof.
  induction ws as [|w ws IH]; [done|]. cbn [fmap list_fmap mbind list_bind]. rewrite fmap_app, join_nil_app, join_nil_cons.
  fold (fmap wire_text ws). rewrite IH, wire_text_lines. done.
Qed.

(** C38: the stream reads back as it was written.  Whatever was sent before,
    a client that reads the text of any frames by the EventSource standard,
    which ends a line at a newline, a carriage return or both, gets exactly those
    frames in order, each under the last id written and with its whole payload,
    even one of several lines; keep-alives are not seen.  The ids and kinds are
    of one line, and the payloads have no carriage return, as JSON has none. *)
Theorem stream_roundtrip lastId ws :
  Forall wire_ok ws → sse_read lastId (join "" (wire_text <$> ws)) = delivered lastId ws.
Proof.
  intros Hws. unfold sse_read. rewrite wires_text, sse_pieces_lines.
  2: { induction Hws as [|w ws Hw _ IH]; [constructor|]. cbn. apply Forall_app. split; [|done].
       destruct w; [by apply frame_lines_ok|by repeat constructor]. }
  revert lastId. induction Hws as [|[id kind body|] ws Hw _ IH]; intros lastId; [done| |].
  - cbn [mbind list_bind wire_lines]. destruct Hw as (_ & Hz & _). rewrite (sse_frame _ _ _ _ _ Hz). cbv zeta. cbn [delivered]. f_equal. apply IH.
  - cbn [mbind list_bind wire_lines app sse_lines delivered]. apply IH.
Qed.

Lemma stream_roundtrip_witness :
  wire_text (Frame "7" "log" "{" ) = text_line "id: 7" +:+ text_line "event: log" +:+ text_line "data: {" +:+ nl ∧
  sse_read "3" (join "" (wire_text <$> [Frame "" "hello" "{}"; KeepAlive; Frame "7" "log" ("a" +:+ nl +:+ "b")])) =
    [mkSse "3" "hello" "{}"; mkSse "7" "log" ("a" +:+ nl +:+ "b")].
Proof.
  split; [vm_compute; reflexivity|]. apply (stream_roundtrip "3" [Frame "" "hello" "{}"; KeepAlive; Frame "7" "log" ("a" +:+ nl +:+ "b")]).
  repeat constructor; reflexivity.
Defined.
