(* ===== verification/Pushes.v ===== *)
(** * The subscribers of the socket (subscribe, unsubscribe and publishRaw in
    internal/daemon/server.go)

    A set of channels under one mutex, so that each operation is a step.  A
    message is offered to every subscriber and dropped for one whose channel
    is full.  A channel's state keeps, besides what waits in it, what its
    connection has received, what was published since it was made and how much
    of that met a full channel; only the theorems look at these.

    [pushes_never_panic]: no send meets a closed channel and none is closed
    twice.  [pushes_in_order]: what a client is sent are messages published
    since it subscribed, in order and each once, and all of them but those that
    met a full channel. *)

From S2P Require Import Prelude GoText.
#[local] Open Scope nat_scope.

Lemma sublist_whole {A} (l k : list A) : l `sublist_of` k → length l = length k → l = k.
Proof.
  induction 1 as [|x l k _ IH|x l k H IH]; cbn; intros Hl; [done|by rewrite IH by lia|].
  apply sublist_length in H. lia.
Qed.

Section pushes.
Context {A : Type}.

Definition pushCap : nat := 64.

Record PushChan := mkPushChan {
  pc_buf : list A;
  pc_closed : bool;
  pc_got : list A;
  pc_since : list A;
  pc_missed : nat;
}.
Record Subs := mkSubs { su_subs : gset nat; su_chans : gmap nat PushChan }.
Definition no_subs : Subs := mkSubs ∅ ∅.

Definition subscribe (s : Subs) : Subs * nat :=
  let c := fresh (dom (su_chans s)) in
  (mkSubs ({[c]} ∪ su_subs s) (<[c := mkPushChan [] false [] [] 0]> (su_chans s)), c).

(** close panics on a channel that is closed. *)
Definition close (ch : PushChan) : option PushChan :=
  if pc_closed ch then None else Some (mkPushChan (pc_buf ch) true (pc_got ch) (pc_since ch) (pc_missed ch)).
Definition unsubscribe (c : nat) (s : Subs) : option Subs :=
  if decide (c ∈ su_subs s) then
    ch ← su_chans s !! c; ch' ← close ch;
    Some (mkSubs (su_subs s ∖ {[c]}) (<[c := ch']> (su_chans s)))
  else Some s.

(** A send with a default case; on a closed channel it panics. *)
Definition offer (p : A) (ch : PushChan) : option PushChan :=
  if pc_closed ch then None
  else Some (if length (pc_buf ch) <? pushCap then mkPushChan (pc_buf ch ++ [p]) false (pc_got ch) (pc_since ch ++ [p]) (pc_missed ch)
             else mkPushChan (pc_buf ch) false (pc_got ch) (pc_since ch ++ [p]) (S (pc_missed ch))).
Definition offer_to (p : A) (c : nat) (m : gmap nat PushChan) : option (gmap nat PushChan) :=
  ch ← m !! c; ch' ← offer p ch; Some (<[c := ch']> m).
Fixpoint offer_all (p : A) (cs : list nat) (m : gmap nat PushChan) : option (gmap nat PushChan) :=
  match cs with
  | [] => Some m
  | c :: cs => m' ← offer_to p c m; offer_all p cs m'
  end.
(** publishRaw; [walk] is the order the set is walked in. *)
Definition publishRaw (walk : list nat) (p : A) (s : Subs) : option Subs :=
  m ← offer_all p walk (su_chans s); Some (mkSubs (su_subs s) m).

(** The connection's pump takes the next message. *)
Definition receive (c : nat) (s : Subs) : option Subs :=
  ch ← su_chans s !! c;
  match pc_buf ch with
  | [] => None
  | p :: b => Some (mkSubs (su_subs s) (<[c := mkPushChan b (pc_closed ch) (pc_got ch ++ [p]) (pc_since ch) (pc_missed ch)]> (su_chans s)))
  end.

Inductive push_step : Subs → Subs → Prop :=
| push_subscribe s : push_step s (subscribe s).1
| push_unsubscribe c s s' : unsubscribe c s = Some s' → push_step s s'
| push_publish walk p s s' : walk ≡ₚ elements (su_subs s) → publishRaw walk p s = Some s' → push_step s s'
| push_receive c s s' : receive c s = Some s' → push_step s s'.

(** ** What holds of a channel *)

Record chan_ok (ch : PushChan) : Prop := mkChanOk {
  co_order : pc_got ch ++ pc_buf ch `sublist_of` pc_since ch;
  co_cap : length (pc_buf ch) ≤ pushCap;
  co_all : length (pc_got ch) + length (pc_buf ch) + pc_missed ch = length (pc_since ch);
}.
Definition is_open (m : gmap nat PushChan) (c : nat) : Prop := ∃ ch, m !! c = Some ch ∧ pc_closed ch = false.
Record subs_ok (s : Subs) : Prop := mkSubsOk {
  so_chans : map_Forall (λ _, chan_ok) (su_chans s);
  so_open c : c ∈ su_subs s → is_open (su_chans s) c;
}.

Lemma offer_ok p ch : pc_closed ch = false → chan_ok ch → ∃ ch', offer p ch = Some ch' ∧ pc_closed ch' = false ∧ chan_ok ch'.
Proof.
  intros Hc [Ho Hcap Hall]. unfold offer. rewrite Hc. destruct (Nat.ltb_spec (length (pc_buf ch)) pushCap) as [Hl|Hl]; eexists; (split; [done|]);
    (split; [done|]); split; cbn; rewrite ?length_app; cbn; try lia.
  - rewrite app_assoc. by apply sublist_app.
  - by apply sublist_inserts_r.
Qed.

(** Offering to subscribers works, and leaves the channels sound and as open as they were. *)
Lemma offer_all_ok p cs m : map_Forall (λ _, chan_ok) m → (∀ c, c ∈ cs → is_open m c) →
  ∃ m', offer_all p cs m = Some m' ∧ map_Forall (λ _, chan_ok) m' ∧ ∀ c, is_open m c → is_open m' c.
Proof.
  revert m. induction cs as [|c cs IH]; intros m Hm Ho; cbn [offer_all]; [by exists m|].
  destruct (Ho c) as (ch & Hch & Hcl); [by left|].
  destruct (offer_ok p ch Hcl (Hm _ _ Hch)) as (ch' & He & Hcl' & Hok').
  assert (offer_to p c m = Some (<[c := ch']> m)) as E by (unfold offer_to; rewrite Hch; cbn; by rewrite He).
  rewrite E. cbn.
  assert (∀ d, is_open m d → is_open (<[c := ch']> m) d) as Hmono.
  { intros d (chd & Hd & Hcd). destruct (decide (c = d)) as [->|Hne].
    - exists ch'. by rewrite lookup_insert_eq.
    - exists chd. by rewrite lookup_insert_ne. }
  destruct (IH (<[c := ch']> m)) as (m' & Hm' & Hok & Hop).
  - by apply map_Forall_insert_2.
  - intros d Hd. apply Hmono, Ho. by right.
  - exists m'. split; [done|]. split; [done|]. intros d Hd. by apply Hop, Hmono.
Qed.

Lemma publishRaw_ok walk p s : subs_ok s → walk ≡ₚ elements (su_subs s) → ∃ s', publishRaw walk p s = Some s' ∧ subs_ok s'.
Proof.
  intros [Hm Ho] Hw. destruct (offer_all_ok p walk (su_chans s) Hm) as (m & Hm' & Hok & Hop).
  { intros c. rewrite Hw, elem_of_elements. apply Ho. }
  unfold publishRaw. rewrite Hm'. cbn. eexists. split; [done|]. split; [done|]. cbn. intros c Hc. by apply Hop, Ho.
Qed.

Lemma unsubscribe_ok c s : subs_ok s → ∃ s', unsubscribe c s = Some s' ∧ subs_ok s'.
Proof.
  intros [Hm Ho]. unfold unsubscribe. destruct (decide (c ∈ su_subs s)) as [Hc|]; [|by eexists].
  destruct (Ho c Hc) as (ch & Hch & Hcl). rewrite Hch. cbn. unfold close. rewrite Hcl. cbn.
  eexists. split; [done|]. split; cbn.
  - apply map_Forall_insert_2; [|done]. destruct (Hm _ _ Hch). by split.
  - intros d [Hd Hne]%elem_of_difference. destruct (Ho d Hd) as (chd & Hd' & Hcd). exists chd.
    rewrite lookup_insert_ne; [done|]. set_solver.
Qed.

Lemma push_step_ok s s' : push_step s s' → subs_ok s → subs_ok s'.
Proof.
  intros [s0|c s0 s1 E|walk p s0 s1 Hw E|c s0 s1 E] Hs.
  - destruct Hs as [Hm Ho]. pose proof (is_fresh (dom (su_chans s0))) as Hf. unfold subscribe. set (c := fresh _) in *. split; cbn.
    + apply map_Forall_insert_2; [|done]. split; cbn; [done|unfold pushCap; lia|lia].
    + intros d [->%elem_of_singleton|Hd]%elem_of_union.
      * eexists. by rewrite lookup_insert_eq.
      * destruct (Ho d Hd) as (ch & Hch & Hcl). exists ch. rewrite lookup_insert_ne; [done|]. intros <-. by apply Hf, elem_of_dom.
  - destruct (unsubscribe_ok c s0 Hs) as (s2 & E2 & Hs2). by simplify_eq.
  - destruct (publishRaw_ok walk p s0 Hs Hw) as (s2 & E2 & Hs2). by simplify_eq.
  - destruct Hs as [Hm Ho]. unfold receive in E. destruct (su_chans s0 !! c) as [ch|] eqn:Hch; cbn in E; [|done].
    destruct (pc_buf ch) as [|p b] eqn:Hb; [done|]. injection E as <-. destruct (Hm _ _ Hch) as [Hord Hcap Hall]. rewrite Hb in Hord, Hcap, Hall.
    split; cbn.
    + apply map_Forall_insert_2; [|done]. split; cbn in *; [by rewrite <- app_assoc|lia|rewrite length_app; cbn; lia].
    + intros d Hd. destruct (Ho d Hd) as (chd & Hd' & Hcd). destruct (decide (c = d)) as [->|Hne].
      * eexists. rewrite lookup_insert_eq. split; [done|]. cbn. congruence.
      * exists chd. by rewrite lookup_insert_ne.
Qed.

Lemma reachable_ok s : rtc push_step no_subs s → subs_ok s.
Proof.
  intros H. assert (subs_ok no_subs) as Hi by (split; cbn; [apply map_Forall_empty|set_solver]).
  induction H as [|x y z Hxy _ IH]; [done|]. by eapply IH, push_step_ok.
Qed.

(** however connections come, go and fall behind, publishing never sends
    on a closed channel and a connection that ends never closes one twice,
    so the daemon's logging cannot be stopped by a client. *)
Theorem pushes_never_panic s : rtc push_step no_subs s →
  (∀ walk p, walk ≡ₚ elements (su_subs s) → is_Some (publishRaw walk p s)) ∧ ∀ c, is_Some (unsubscribe c s).
Proof.
  intros H%reachable_ok. split.
  - intros walk p Hw. destruct (publishRaw_ok walk p s H Hw) as (s' & -> & _). by eexists.
  - intros c. destruct (unsubscribe_ok c s H) as (s' & -> & _). by eexists.
Qed.

(** what a client gets and has waiting are messages published since it
    subscribed, in their order and each once; no more than a channel's worth
    waits; and only messages that met a full channel are missing. *)
Theorem pushes_in_order s c ch : rtc push_step no_subs s → su_chans s !! c = Some ch →
  pc_got ch ++ pc_buf ch `sublist_of` pc_since ch ∧ length (pc_buf ch) ≤ pushCap ∧
  (pc_missed ch = 0 → pc_got ch ++ pc_buf ch = pc_since ch).
Proof.
  intros [Hm _]%reachable_ok Hch. destruct (Hm _ _ Hch) as [Hord Hcap Hall]. split; [done|]. split; [done|].
  intros Hz. apply sublist_whole; [done|]. rewrite length_app. lia.
Qed.
End pushes.

(** ** One client, two messages *)

Definition one_client : @Subs string := (subscribe no_subs).1.
Definition two_sent : @Subs string := default no_subs (s ← publishRaw [0] "a" one_client; s ← receive 0 s; publishRaw [0] "b" s).
Lemma two_sent_reachable : rtc push_step no_subs two_sent.
Proof.
  eapply rtc_l; [apply push_subscribe|].
  eapply rtc_l; [apply (push_publish [0] "a"); [vm_compute; reflexivity|vm_compute; reflexivity]|].
  eapply rtc_l; [apply (push_receive 0); vm_compute; reflexivity|].
  eapply rtc_l; [apply (push_publish [0] "b"); [vm_compute; reflexivity|vm_compute; reflexivity]|].
  match goal with |- rtc _ ?x _ => replace x with two_sent by (vm_compute; reflexivity) end. apply rtc_refl.
Qed.
Lemma pushes_never_panic_witness : is_Some (publishRaw [0] "c" two_sent) ∧ is_Some (unsubscribe 0 two_sent).
Proof.
  destruct (pushes_never_panic two_sent two_sent_reachable) as [Hp Hu]. split; [|apply Hu].
  apply Hp. vm_compute. reflexivity.
Defined.
Lemma pushes_in_order_witness :
  ∃ ch, su_chans two_sent !! 0 = Some ch ∧ pc_got ch ++ pc_buf ch = ["a"; "b"] ∧ length (pc_buf ch) ≤ pushCap.
Proof.
  eexists. split; [vm_compute; reflexivity|]. split; [reflexivity|].
  apply (pushes_in_order two_sent 0 _ two_sent_reachable). vm_compute. reflexivity.
Defined.
