(* ===== verification/Server.v ===== *)
(** * The requests (internal/daemon/server.go, http.go, internal/proto/proto.go)

    What the socket answers, [handle], and what the API answers, [serve_route],
    over one state: the daemon, the queue runner's world and the workers'
    worlds, which share the daemon's database.  A request's parameters are the
    JSON value as the decoder reads it; an answer is a value of [Reply], whose
    encoding is left out.

    ServerFacts has what they promise. *)

From S2P Require Import Prelude GoText GoBase GoPath Disc Table Store Queue Status Hub Config Discover Drive MakeMkv Key Transcoder Daemon Worker.
#[local] Open Scope Z_scope.

(** ** JSON parameters *)

(** A value; a number that is an integer literal, or another. *)
Inductive json :=
| JNull | JBool (b : bool) | JInt (n : Z) | JFraction | JString (s : string) | JArray (l : list json) | JObject (l : list (string * json)).

Section decode.
(** strings.EqualFold outside ASCII *)
Context (fold_other : string → string → bool).

(** json.Unmarshal into a struct of one field: the field, and whether there was no error.  [set] is what the
    field takes of a value; a null leaves it, and a value of another type is an error that does not stop. *)
Definition field_step {A} (name : string) (set : json → option A) (acc : A * bool) (kv : string * json) : A * bool :=
  if EqualFold fold_other kv.1 name then
    match kv.2 with
    | JNull => acc
    | v => match set v with Some a => (a, acc.2) | None => (acc.1, false) end
    end
  else acc.
Definition unmarshal {A} (zero : A) (name : string) (set : json → option A) (params : option json) : A * bool :=
  match params with
  | None => (zero, false)
  | Some JNull => (zero, true)
  | Some (JObject l) => foldl (field_step name set) (zero, true) l
  | Some _ => (zero, false)
  end.
Definition set_string (v : json) : option string := match v with JString s => Some s | _ => None end.
Definition set_int (v : json) : option Z :=
  match v with JInt n => if (- 2 ^ 63 <=? n) && (n <? 2 ^ 63) then Some n else None | _ => None end.

Definition DriveParams : option json → string * bool := unmarshal "" "drive" set_string.
Definition JobParams : option json → Z * bool := unmarshal 0 "id" set_int.
Definition FingerprintParams : option json → string * bool := unmarshal "" "fingerprint" set_string.
Definition LimitParams : option json → Z * bool := unmarshal 0 "limit" set_int.
End decode.

(** ** The state and what a request meets *)

Record Srv := mkSrv {
  sv_d : Daemon;
  sv_q : QWorld;
  (** The worker of each drive id. *)
  sv_w : string → Env * World;
}.

(** The database's answer when it fails, the order d.workers is walked in, whether Run has set d.wg. *)
Record ReqEnv := mkReqEnv {
  rq_fault : option string;
  rq_walk : list (string * Watched);
  rq_wg : bool;
  rq_sync : SyncEnv;
  rq_health : HealthEnv;
  rq_queue : QEnv;
}.

Definition set_d (d : Daemon) (s : Srv) : Srv := mkSrv d (sv_q s) (sv_w s).
Definition run_queue {A} (m : Q_ A) (e : QEnv) (s : Srv) : A * Srv :=
  let '(a, q) := m e (qset_store (d_st (sv_d s)) (sv_q s)) in
  (a, mkSrv (set_st (q_store q) (sv_d s)) q (sv_w s)).
Definition run_worker {A} (m : M A) (id : string) (s : Srv) : A * Srv :=
  let '(e, w) := sv_w s id in
  let '(a, w') := m e (set_store (d_st (sv_d s)) w) in
  (a, mkSrv (set_st (w_store w') (sv_d s)) (sv_q s) (λ i, if bool_decide (i = id) then (e, w') else sv_w s i)).
Definition query_db {A} (v : ReqEnv) (op : DB A) (s : Srv) : outcome string A * Srv :=
  match rq_fault v with
  | Some e => (Err e, s)
  | None =>
      match op (d_st (sv_d s)) with
      | (Ok a, st) => (Ok a, set_d (set_st st (sv_d s)) s)
      | (Err x, st) => (Err (storeErr_text x), set_d (set_st st (sv_d s)) s)
      end
  end.

(** ** Answers *)

Record StatusReply := mkStatusReply {
  sr_Version : Z;
  sr_ProtocolVersion : Z;
  sr_Drives : list DriveSnapshot;
  sr_Health : list Health;
  sr_Transcode : TranscodeSnapshot;
  sr_DiscsRipped : Z;
  sr_RipsDir : string;
  sr_FreeBytes : Z;
}.

Inductive Reply :=
| ReplyStatus (st : StatusReply)
| ReplyHistory (l : list JobSummary)
| ReplyEvents (l : list eventRow)
| ReplyDisc (r : DiscRecord)
| ReplyFailures (l : list FailureReport)
| ReplyQueue (l : list TranscodeJobSummary)
| ReplyDrives (l : list DriveSnapshot)
| ReplyHealth (l : list Health)
| ReplyMap (key value : string).

Section server.
Context {U : Unicode}.
Context (unescape quote_other : string → string) (fold_other : string → string → bool).
Context (clock : nat → Z) (log_fault : nat → bool).

Definition status (v : ReqEnv) (s : Srv) : StatusReply :=
  let d := sv_d s in
  let dir := c_RipsDir (d_cfg d) in
  mkStatusReply 1 1
    ((λ w, snap (w_status (sv_w s (di_StableID (wk_drv w))).2)) <$> snapshotWorkers (rq_walk v))
    (d_health d) (q_snap (sv_q s))
    (match (query_db v CompletedCount s).1 with Ok n => n | Err _ => 0 end)
    dir
    (match freeBytes (rq_health v) dir with Ok n => n | Err _ => 0 end).

Definition log_line (level message : string) (s : Srv) : Srv :=
  set_d (Daemon.logEvent clock log_fault level message None (sv_d s)) s.

(** rescan, and the detail it answers. *)
Definition rescan (v : ReqEnv) (s : Srv) : outcome string string * Srv :=
  let before := Z.of_nat (size (d_workers (sv_d s))) in
  let checked (d : Daemon) :=
    let d := (runHealthChecks unescape quote_other clock log_fault (rq_health v) d).1 in
    let after := Z.of_nat (size (d_workers d)) in
    let detail := itoa after +:+ " drive" +:+ Transcoder.plural after in
    (Ok (if 0 <? after - before then detail +:+ ", " +:+ itoa (after - before) +:+ " newly found" else detail), set_d d s) in
  if rq_wg v then
    match syncDrives quote_other clock log_fault (rq_sync v) (sv_d s) with
    | (d, Some e) => (Err ("drive discovery failed: " +:+ e), set_d d s)
    | (d, None) => checked d
    end
  else checked (sv_d s).

Definition forgotten_line (fingerprint : string) : string :=
  "disc " +:+ String.substring 0 12 fingerprint +:+ " forgotten; it will be ripped again".

(** [store reply]: a list of the database as an answer. *)
Definition listing {A} (v : ReqEnv) (op : DB A) (k : A → Reply) (s : Srv) : outcome string Reply * Srv :=
  match query_db v op s with
  | (Ok a, s) => (Ok (k a), s)
  | (Err e, s) => (Err e, s)
  end.
(** An operation of the worker a name resolves to. *)
Definition on_worker (v : ReqEnv) (name : string) (op : M (outcome string unit)) (key : string) (s : Srv) : outcome string Reply * Srv :=
  match workerFor quote_other fold_other (sv_d s) (rq_walk v) name with
  | Err e => (Err e, s)
  | Ok w =>
      match run_worker op (di_StableID (wk_drv w)) s with
      | (Err e, s) => (Err e, s)
      | (Ok _, s) => (Ok (ReplyMap key (wk_label w)), s)
      end
  end.

(** handle, by the name of the method. *)
Definition handle (v : ReqEnv) (method : string) (params : option json) (s : Srv) : outcome string Reply * Srv :=
  let named m := bool_decide (method = m) in
  let limit := (LimitParams fold_other params).1 in
  if named "status" then (Ok (ReplyStatus (status v s)), s)
  else if named "history" then listing v (RecentJobs limit) ReplyHistory s
  else if named "events" then listing v (RecentEvents limit) ReplyEvents s
  else if named "eject" then on_worker v (DriveParams fold_other params).1 Eject "ejected" s
  else if named "cancel" then on_worker v (DriveParams fold_other params).1 Cancel "cancelled" s
  else if named "forget" then
    let '(fp, ok) := FingerprintParams fold_other params in
    if negb ok || bool_decide (fp = "") then (Err "forget needs a fingerprint", s)
    else match query_db v (ForgetDisc fp) s with
         | (Err e, s) => (Err e, s)
         | (Ok _, s) => (Ok (ReplyMap "forgot" fp), log_line "info" (forgotten_line fp) s)
         end
  else if named "disc.get" then
    let '(fp, ok) := FingerprintParams fold_other params in
    if negb ok || bool_decide (fp = "") then (Err "disc.get needs a fingerprint", s)
    else match query_db v (FindDisc fp) s with
         | (Err e, s) => (Err e, s)
         | (Ok None, s) => (Err ("no disc with fingerprint " +:+ fp), s)
         | (Ok (Some rec), s) => (Ok (ReplyDisc rec), s)
         end
  else if named "rescan" then
    match rescan v s with
    | (Ok detail, s) => (Ok (ReplyMap "rescanned" detail), s)
    | (Err e, s) => (Err e, s)
    end
  else if named "failures" then listing v (Failures limit) ReplyFailures s
  else if named "queue" then listing v (TranscodeJobs limit) ReplyQueue s
  else if named "queue.cancel" then
    match run_queue CancelTranscode (rq_queue v) s with
    | (Ok _, s) => (Ok (ReplyMap "cancelled" "the transcode in progress"), s)
    | (Err e, s) => (Err e, s)
    end
  else if named "queue.retry" then
    let '(id, ok) := JobParams fold_other params in
    if negb ok then (Err "retry needs a job id", s)
    else match run_queue (queueRetry id) (rq_queue v) s with
         | (Ok title, s) => (Ok (ReplyMap "requeued" title), s)
         | (Err e, s) => (Err e, s)
         end
  else if named "transcode" then
    let '(fp, ok) := FingerprintParams fold_other params in
    if negb ok || bool_decide (fp = "") then (Err "transcode needs a fingerprint", s)
    else match run_queue (requeueDisc fp) (rq_queue v) s with
         | (Ok (n, name), s) => (Ok (ReplyMap "queued" (itoa n +:+ " title" +:+ Transcoder.plural n +:+ " of " +:+ name)), s)
         | (Err e, s) => (Err e, s)
         end
  else if named "retry" then (Err "retry is not implemented yet; eject and reinsert the disc", s)
  else (Err ("unknown method " +:+ Key.quote quote_other method), s).

(** ** One connection (handleConn) *)

(** A line a client sent, as the decoder reads it. *)
Inductive line := Blank | Malformed (err : string) | Request (id : Z) (method : string) (params : option json).
Inductive message :=
| Response (id : Z) (result : outcome string Reply)
| Accepted (id : Z)
| Push (st : StatusReply).

(** The reading loop over its lines: what it sends, and whether it has subscribed. *)
Definition conn_step (v : ReqEnv) (l : line) (subscribed : bool) (s : Srv) : list message * bool * Srv :=
  match l with
  | Blank => ([], subscribed, s)
  | Malformed e => ([Response 0 (Err ("malformed request: " +:+ e))], subscribed, s)
  | Request id method params =>
      if bool_decide (method = "subscribe") then ([Accepted id; Push (status v s)], true, s)
      else let '(r, s) := handle v method params s in ([Response id r], subscribed, s)
  end.
Fixpoint handleConn (lines : list (ReqEnv * line)) (subscribed : bool) (s : Srv) : list message * bool * Srv :=
  match lines with
  | [] => ([], subscribed, s)
  | (v, l) :: lines =>
      let '(out, sub, s) := conn_step v l subscribed s in
      let '(out', sub, s) := handleConn lines sub s in (out ++ out', sub, s)
  end.

(** ** The API (http.go, internal/api/server.go) *)

(** An error, and whether it wraps ErrNotFound. *)
Record apiErr := mkApiErr { ae_text : string; ae_NotFound : bool }.
Definition plain (e : string) : apiErr := mkApiErr e false.
(** fmt.Errorf("...: %w", ErrNotFound) *)
Definition not_found (e : string) : apiErr := mkApiErr (e +:+ ": not found") true.

Inductive route :=
| GetDrives | GetHealth | GetDisc (fingerprint : string)
| PostEject (id : string) | PostCancel (id : string) | PostRescan | PostForget (fingerprint : string).

Definition api_worker (v : ReqEnv) (name : string) (op : M (outcome string unit)) (s : Srv) : outcome apiErr (option Reply) * Srv :=
  match workerFor quote_other fold_other (sv_d s) (rq_walk v) name with
  | Err e => (Err (not_found e), s)
  | Ok w =>
      match run_worker op (di_StableID (wk_drv w)) s with
      | (Err e, s) => (Err (plain e), s)
      | (Ok _, s) => (Ok None, s)
      end
  end.

(** apiBackend's methods: the data of a read, nothing for an action. *)
Definition backend (v : ReqEnv) (r : route) (s : Srv) : outcome apiErr (option Reply) * Srv :=
  match r with
  | GetDrives => (Ok (Some (ReplyDrives (sr_Drives (status v s)))), s)
  | GetHealth => (Ok (Some (ReplyHealth (sr_Health (status v s)))), s)
  | GetDisc fp =>
      if bool_decide (fp = "") then (Err (plain "a fingerprint is required"), s)
      else match query_db v (FindDisc fp) s with
           | (Err e, s) => (Err (plain e), s)
           | (Ok None, s) => (Err (not_found ("no disc with fingerprint " +:+ fp)), s)
           | (Ok (Some rec), s) => (Ok (Some (ReplyDisc rec)), s)
           end
  | PostEject id => api_worker v id Eject s
  | PostCancel id => api_worker v id Cancel s
  | PostRescan =>
      match rescan v s with
      | (Ok _, s) => (Ok None, s)
      | (Err e, s) => (Err (plain e), s)
      end
  | PostForget fp =>
      if bool_decide (fp = "") then (Err (plain "a fingerprint is required"), s)
      else match query_db v (ForgetDisc fp) s with
           | (Err e, s) => (Err (plain e), s)
           | (Ok _, s) => (Ok None, log_line "info" (forgotten_line fp) s)
           end
  end.

Record envelope := mkEnvelope {
  en_Version : Z;
  en_OK : bool;
  en_Data : option Reply;
  en_Error : string;
  en_LastEventID : Z;
}.

Definition is_read (r : route) : bool := match r with GetDrives | GetHealth | GetDisc _ => true | _ => false end.

Definition fail_code (e : apiErr) : Z := if ae_NotFound e then 404 else 500.
(** read, act and fail: the status code and the envelope.  [before] and [after] are the hub's LastID when the
    request arrives and when the backend has answered. *)
Definition respond (r : route) (before after : Z) (res : outcome apiErr (option Reply)) : Z * envelope :=
  match res with
  | Err e => (fail_code e, mkEnvelope 2 false None (ae_text e) after)
  | Ok data => (200, mkEnvelope 2 true data "" (if is_read r then before else after))
  end.
Definition serve_route (v : ReqEnv) (r : route) (before after : Z) (s : Srv) : (Z * envelope) * Srv :=
  let '(res, s) := backend v r s in (respond r before after res, s).
End server.
