(* ===== verification/Native.v ===== *)
(** * Reading a DVD without MakeMKV (internal/daemon/native.go)

    The scan and the extraction the worker uses when native_dvd is set, put
    together from the readers of Dvd, Ifo and Discover.  Their results have the
    types of the worker's oracles mk_Scan and mk_RipTitle; NativeRip runs the
    worker with them.

    [nativeScan_spec] says what a scan is; [native_rip_reads_its_title] that
    the title a worker is told to rip is the one that was probed;
    [zero_minimum_still_drops] is a limit of the threshold. *)

From Stdlib Require Import SpecFloat QArith_base.
From S2P Require Import Prelude GoText GoFloat GoPath GoBase Disc Verify MakeMkv Config Discover Dvd Ifo Key Worker.
#[local] Open Scope Z_scope.

(** strings.Replace(s, old, new, 1) *)
Fixpoint replace_first (s old new : string) : string :=
  if has_prefix s old then new +:+ String.substring (String.length old) (String.length s - String.length old) s
  else match s with "" => "" | String c s' => String c (replace_first s' old new) end.
(** filepath.Split *)
Definition Split (path : string) : string * string :=
  let dir := default "" (upto_slash path) in
  (dir, String.substring (String.length dir) (String.length path - String.length dir) path).
Definition ffprobeBeside (ffmpegBin : string) : string :=
  if bool_decide (ffmpegBin = "") || bool_decide (ffmpegBin = "ffmpeg") then "ffprobe"
  else let '(dir, base) := Split ffmpegBin in Join [dir; replace_first base "ffmpeg" "ffprobe"].
Example beside : ffprobeBeside <$> ["ffmpeg"; "/opt/jf/ffmpeg"; "ffmpeg7"; "/opt/ffmpeg/bin/ffmpeg-5"]
  = ["ffprobe"; "/opt/jf/ffprobe"; "ffprobe7"; "/opt/ffmpeg/bin/ffprobe-5"].
Proof. vm_compute. reflexivity. Qed.

(** Title.Duration (internal/disc/disc.go), of a runtime that is not negative. *)
Definition title_Duration (secs : Z) : string :=
  itoa (secs / 3600) +:+ ":" +:+ itoa02 (secs / 60 mod 60) +:+ ":" +:+ itoa02 (secs mod 60).

(** [%2d] and [%-9s] *)
Fixpoint blanks (n : nat) : string := match n with O => "" | S n => " " +:+ blanks n end.
Definition pad_left (n : nat) (s : string) : string := blanks (n - String.length s) +:+ s.
Definition pad_to (n : nat) (s : string) : string := s +:+ blanks (n - String.length s).

(** What blkid, the context, ffprobe, the disc's bytes and the clock answer. *)
Record NativeEnv := mkNativeEnv {
  nv_blkid : outcome string string;
  nv_ctx : nat → option goerr;
  nv_probe : nat → outcome goerr probeResult;
  nv_disc : option node;
  nv_now : string;
}.

Section native.
Context {U : Unicode} {T : RuneTables}.
Context (quote_other : string → string).

Definition enumerator (cfg : Config.Config) : Enumerator :=
  mkEnumerator (if bool_decide (c_FFmpegBin cfg = "") then "" else ffprobeBeside (c_FFmpegBin cfg)) (c_MinTitleSeconds cfg).

Definition line (s : string) : string := s +:+ String newline "".
(** A title's line in the record of the scan. *)
Definition raw_title (minSeconds : Z) (t : Title) : string :=
  line ((if t_DurationSecs t <? minSeconds then "skipped" else "  kept") +:+ " title " +:+ pad_left 2 (itoa (t_Index t)) +:+
    "  " +:+ pad_to 9 (title_Duration (t_DurationSecs t)) +:+ " " +:+ pad_left 2 (itoa (t_Chapters t)) +:+ " chapters  " +:+
    itoa (Z.of_nat (length (t_Streams t))) +:+ " streams").
Definition raw_scan (cfg : Config.Config) (device label name : string) (all kept : list Title) : string :=
  line "native dvd enumeration (ffmpeg dvdvideo demuxer)" +:+
  line ("device: " +:+ device) +:+ line ("volume label: " +:+ label) +:+ line ("disc name: " +:+ name) +:+
  line ("pal: " +:+ (if PAL all then "true" else "false")) +:+
  line ("titles found: " +:+ itoa (Z.of_nat (length all)) +:+ ", above " +:+ itoa (c_MinTitleSeconds cfg) +:+ "s: " +:+
    itoa (Z.of_nat (length kept))) +:+ line "" +:+
  join "" (raw_title (c_MinTitleSeconds cfg) <$> all).

(** nativeScan: the lines it logs, and the scan. *)
Definition nativeScan (cfg : Config.Config) (label : string) (drv : DriveInfo) (v : NativeEnv)
    : list (string * string) * outcome goerr ScanResult :=
  let dev := di_DevicePath drv in
  let '(volume, log) :=
    match VolumeLabel dev (nv_blkid v) with
    | Ok l => (l, [])
    | Err e => ("", [("warn", label +:+ ": could not read the volume label: " +:+ e)])
    end in
  match Dvd.Enumerate (nv_ctx v) (nv_probe v) dev with
  | Err e => (log, Err e)
  | Ok all =>
      let kept := Filtered (enumerator cfg) all in
      let name := match DiscTitle (nv_disc v) with Ok n => n | Err _ => "" end in
      let log := if bool_decide (name = "") then log
                 else log ++ [("info", label +:+ ": the disc calls itself " +:+ Key.quote quote_other name)] in
      let d := mkDisc (ComputeFingerprint volume kept) volume name TypeDVD 0 (Some (nv_now v))
                 (di_StableID drv) (drive_Describe drv) "" kept in
      (log, Ok (mkScan d (raw_scan cfg dev volume name all kept)))
  end.

Definition rip_extractor (cfg : Config.Config) : Extractor :=
  mkExtractor (c_FFmpegBin cfg) (c_DVDPreindex cfg) (c_RipStallTimeout cfg).
Definition rip_report (index : Z) (p : Dvd.Progress) : RipProgress :=
  MakeMkv.mkProgress index (Dvd.Fraction p) (fmt_1f (f_lit (Dvd.Speed p).1 (Dvd.Speed p).2) +:+ "x").
(** Duration.Round to a second: the nearest, half away from zero. *)
Definition round_second (d : Z) : Z := Z.sgn d * ((Z.abs d + Second / 2) / Second) * Second.

Definition nativeRipTitle (cfg : Config.Config) (device : string) (v : ExtractEnv) (t : Title) (ripDir : string)
    : list extractOp * list RipProgress * outcome goerr RipResult :=
  let out := Join [ripDir; TitleFileName (t_Index t)] in
  let '(ops, reports, r) := Extract (rip_extractor cfg) v device t out in
  (ops, rip_report (t_Index t) <$> reports,
   match r with
   | Err e => Err e
   | Ok res =>
       Ok (mkRipResult (t_Index t) (Dvd.Path res) (Dvd.SizeBytes res)
             (line ("native extraction: " +:+ Dvd.Path res) +:+
              line (itoa (Dvd.SizeBytes res) +:+ " bytes in " +:+ Duration_String (round_second (Dvd.Elapsed res))))
             [] (Dvd.Elapsed res))
   end).

(** verifyNativeTitle: nothing, or what is wrong. *)
Definition verifyNativeTitle (cfg : Config.Config) (path : string) (file : option OutFile) (ffprobe : outcome string probeOut)
    (t : Title) : option string :=
  let res := verify_Title path file ffprobe (mkExpectation (t_DurationSecs t) 0 0 0 (c_MinOutputBytes cfg)) in
  if r_OK res then None else Some (Verify.Error res).

(** publishDisc: the title's part of the description. *)
Record PublishedTitle := mkPublishedTitle {
  pt_index : Z;
  pt_duration_seconds : Z;
  pt_chapters : Z;
  pt_source_file : string;
  pt_audio_count : Z;
  pt_subtitle_count : Z;
}.
Definition published (t : Title) : PublishedTitle :=
  let count k := Z.of_nat (length (filter (λ s, s_Kind s = k) (t_Streams t))) in
  mkPublishedTitle (t_Index t) (t_DurationSecs t) (t_Chapters t) (t_SourceFile t) (count "audio") (count "subtitle").
End native.

(** ** What the scan and the rip are *)

Section facts.
Context {U : Unicode} {T : RuneTables}.
Context (quote_other : string → string).
Notation nativeScan := (nativeScan quote_other).

Lemma nativeScan_inv cfg label drv v log r : nativeScan cfg label drv v = (log, Ok r) →
  ∃ all, Dvd.Enumerate (nv_ctx v) (nv_probe v) (di_DevicePath drv) = Ok all ∧
    d_Titles (sc_Disc r) = Filtered (enumerator cfg) all ∧
    d_Fingerprint (sc_Disc r) = ComputeFingerprint (d_VolumeLabel (sc_Disc r)) (d_Titles (sc_Disc r)) ∧
    sc_Raw r = raw_scan cfg (di_DevicePath drv) (d_VolumeLabel (sc_Disc r)) (d_DiscName (sc_Disc r)) all (d_Titles (sc_Disc r)).
Proof.
  unfold Native.nativeScan. destruct (match VolumeLabel _ _ with Ok l => _ | Err e => _ end) as [volume lg].
  destruct (Dvd.Enumerate _ _ _) as [all|e]; [|done]. intros [= _ <-]. by exists all.
Qed.

(** The least runtime a title is kept at. *)
Definition threshold (cfg : Config.Config) : Z := if c_MinTitleSeconds cfg <=? 0 then 60 else c_MinTitleSeconds cfg.

Lemma elem_of_Filtered cfg t all : t ∈ Filtered (enumerator cfg) all ↔ t ∈ all ∧ threshold cfg ≤ t_DurationSecs t.
Proof. unfold Filtered. rewrite list_elem_of_filter. unfold threshold, enumerator. cbn [MinSeconds]. tauto. Qed.

(** a native scan lists the disc as the demuxer numbers it.  It succeeds
    exactly when the sweep of the titles does, whether or not the label or the
    disc's own name can be read; its titles are those found that are long
    enough, in the disc's order, each still under the number it was probed by,
    and the fingerprint is that of these titles and the label. *)
Theorem nativeScan_spec cfg label drv v :
  let swept := Dvd.Enumerate (nv_ctx v) (nv_probe v) (di_DevicePath drv) in
  let '(_, res) := nativeScan cfg label drv v in
  match swept, res with
  | Err e, Err e' => e = e'
  | Ok all, Ok r =>
      let d := sc_Disc r in
      d_Titles d `sublist_of` all ∧
      (∀ t, t ∈ d_Titles d ↔ t ∈ all ∧ threshold cfg ≤ t_DurationSecs t) ∧
      (∀ t, t ∈ d_Titles d → ∃ n p, nv_probe v (S n) = Ok p ∧ t = probe_title p (Z.of_nat n)) ∧
      d_Fingerprint d = ComputeFingerprint (d_VolumeLabel d) (d_Titles d)
  | _, _ => False
  end.
Proof.
  cbv zeta. destruct (nativeScan cfg label drv v) as [log res] eqn:E. destruct res as [r|e].
  - apply nativeScan_inv in E as (all & Hall & Ht & Hfp & _). rewrite Hall, Ht. split; [apply sublist_filter|].
    split; [intros t; apply elem_of_Filtered|]. split; [|by rewrite <- Ht].
    intros t [Hin _]%elem_of_Filtered. apply list_elem_of_lookup in Hin as [i Hi].
    destruct (Enumerate_titles _ _ _ _ Hall i t Hi) as (p & Hp & ->). eauto.
  - unfold Native.nativeScan in E. destruct (match VolumeLabel _ _ with Ok l => _ | Err e0 => _ end) as [volume lg].
    destruct (Dvd.Enumerate _ _ _) as [all|e']; congruence.
Qed.

Lemma Extract_runs e v source t dest args :
  XRun args ∈ (Extract e v source t dest).1.1 → args = extract_args e source t dest.
Proof.
  unfold Extract. repeat case_match; cbn; rewrite ?elem_of_cons, ?elem_of_nil; naive_solver.
Qed.
Lemma Extract_path e v source t dest res : (Extract e v source t dest).2 = Ok res → Dvd.Path res = dest.
Proof. unfold Extract. repeat case_match; cbn; try done. by intros [= <-]. Qed.

(** the title that is ripped is the one that was scanned.  For every title
    of a native scan, whatever was left out before it, ffmpeg is asked for the
    number ffprobe described it under, and a rip that succeeds is in the rip
    directory under the title's own name. *)
Theorem native_rip_reads_its_title cfg label drv v log r x t ripDir :
  nativeScan cfg label drv v = (log, Ok r) → t ∈ d_Titles (sc_Disc r) →
  let '(ops, _, o) := nativeRipTitle cfg (di_DevicePath drv) x t ripDir in
  (∀ args, XRun args ∈ ops → ∃ n p a b, nv_probe v (S n) = Ok p ∧ t = probe_title p (Z.of_nat n) ∧
     args = a ++ ["-title"; itoa (Z.of_nat (S n))] ++ b) ∧
  (∀ res, o = Ok res → rr_TitleIndex res = t_Index t ∧ rr_Path res = Join [ripDir; TitleFileName (t_Index t)]).
Proof.
  intros (all & Hall & Ht & _)%nativeScan_inv Hin. rewrite Ht in Hin. apply elem_of_Filtered in Hin as [Hin _].
  apply list_elem_of_lookup in Hin as [i Hi]. destruct (Enumerate_titles _ _ _ _ Hall i t Hi) as (p & Hp & Etp).
  unfold nativeRipTitle.
  pose proof (Extract_runs (rip_extractor cfg) x (di_DevicePath drv) t (Join [ripDir; TitleFileName (t_Index t)])) as Hrun.
  pose proof (Extract_path (rip_extractor cfg) x (di_DevicePath drv) t (Join [ripDir; TitleFileName (t_Index t)])) as Hpath.
  destruct (Extract _ _ _ _ _) as [[ops reports] o]. cbn [fst snd] in *. split.
  - intros args Ha. rewrite (Hrun args Ha).
    destruct (extract_args_title (rip_extractor cfg) (di_DevicePath drv) t (Join [ripDir; TitleFileName (t_Index t)]) (Z.of_nat (S i)))
      as (a & b & ->); [rewrite Etp; cbn; lia|]. exists i, p, a, b. split; [exact Hp|]. split; [exact Etp|reflexivity].
  - intros res. destruct o as [r0|e]; [|done]. intros [= <-]. split; [done|]. cbn. by apply Hpath.
Qed.

(** a threshold of zero is a threshold of a minute.  With
    min_title_seconds = 0, which the configuration accepts, a title under
    sixty seconds is found and left out, and the record of the scan says that
    it was kept. *)
Theorem zero_minimum_still_drops cfg label drv v log r all t :
  c_MinTitleSeconds cfg = 0 → nativeScan cfg label drv v = (log, Ok r) →
  Dvd.Enumerate (nv_ctx v) (nv_probe v) (di_DevicePath drv) = Ok all → t ∈ all → 0 ≤ t_DurationSecs t < 60 →
  t ∉ d_Titles (sc_Disc r) ∧ has_prefix (raw_title (c_MinTitleSeconds cfg) t) "  kept" = true.
Proof.
  intros Hc (all' & Hall & Ht & _)%nativeScan_inv Hall2 Hin Hd. split.
  - rewrite Ht, elem_of_Filtered. unfold threshold. rewrite Hc. cbn. lia.
  - unfold raw_title. rewrite Hc. replace (t_DurationSecs t <? 0) with false by (symmetry; apply Z.ltb_ge; lia). reflexivity.
Qed.
End facts.

(** ** At a small disc *)

Definition demo_native : NativeEnv := mkNativeEnv (Ok "DVD_VIDEO") demo_ctx demo_probe None "2026-08-01".
Definition demo_drive : DriveInfo := mkDriveInfo "usb-1" "/dev/sr0" "ASUS" "BW-16".
Definition demo_scan : list (string * string) * outcome goerr ScanResult :=
  @nativeScan caseless no_tables (λ s, s) Default "left" demo_drive demo_native.

Lemma native_rip_reads_its_title_witness :
  ∃ log r t, demo_scan = (log, Ok r) ∧ t_Index t = 1 ∧ t ∈ d_Titles (sc_Disc r) ∧
    ∀ res, (@nativeRipTitle caseless Default "/dev/sr0" (demo_extract [] None) t "/rips/a").2 = Ok res →
      rr_Path res = "/rips/a/title_01.mkv".
Proof.
  destruct demo_scan as [log [r|e]] eqn:E; [|vm_compute in E; discriminate E].
  assert (d_Titles (sc_Disc r) = demo_found) as Ht by (vm_compute in E; injection E as _ <-; vm_compute; reflexivity).
  exists log, r, (@probe_title caseless (mkProbeResult "180.1" ["0"] []) 1). split; [reflexivity|]. split; [reflexivity|].
  assert (@probe_title caseless (mkProbeResult "180.1" ["0"] []) 1 ∈ d_Titles (sc_Disc r)) as Hin by (rewrite Ht; right; left).
  split; [exact Hin|]. intros res.
  pose proof (@native_rip_reads_its_title caseless no_tables (λ s, s) Default "left" demo_drive demo_native log r
    (demo_extract [] None) _ "/rips/a" E Hin) as H.
  change (di_DevicePath demo_drive) with "/dev/sr0" in H.
  destruct (nativeRipTitle Default "/dev/sr0" _ _ "/rips/a") as [[ops reports] o]. cbn [snd]. intros Ho.
  exact (proj2 (proj2 H res Ho)).
Defined.

(** The defaults with the threshold at zero. *)
Definition zero_cfg : Config.Config :=
  Config.mkConfig (c_RipsDir Default) (c_WorkDir Default) (c_LibraryDir Default) (c_TranscodedDir Default)
    (c_StatePath Default) (c_SocketPath Default) (c_HTTPAddr Default) (c_NativeDVD Default)
    (c_DVDPreindex Default) 0 (c_MinOutputBytes Default) (c_MaxRipAttempts Default)
    (c_ScanAttempts Default) (c_ScanRetryDelay Default) (c_ScanTimeout Default) (c_DecryptFallback Default)
    (c_DVDBackupBin Default) (c_RipStallTimeout Default) (c_Transcode Default) (c_TranscodeQuality Default)
    (c_TranscodeMaxKbps Default) (c_TranscodeMaxHeight Default) (c_PreferredLanguage Default) (c_AudioKbps Default)
    (c_SoftwarePreset Default) (c_FFmpegBin Default) (c_VAAPIDevice Default) (c_FileToLibrary Default)
    (c_EjectOnSuccess Default) (c_EjectOnFailure Default) (c_PollInterval Default) (c_MakeMKVBin Default)
    (c_MakeMKVSettingsPath Default) (c_AutoRefreshKey Default) (c_BetaKeyURL Default) (c_KeyRefreshInterval Default)
    (c_Drives Default).
Definition clip_probe (n : nat) : outcome goerr probeResult :=
  match n with
  | 1%nat => Ok (mkProbeResult "5400.52" [] [])
  | 2%nat => Ok (mkProbeResult "30.0" [] [])
  | _ => Err ctxCanceled
  end.
Definition clip : Title := @probe_title caseless (mkProbeResult "30.0" [] []) 1.
Lemma zero_minimum_still_drops_witness :
  ∃ log r, @nativeScan caseless no_tables (λ s, s) zero_cfg "left" demo_drive
      (mkNativeEnv (Ok "CLIPS") demo_ctx clip_probe None "2026-08-01") = (log, Ok r) ∧
    clip ∉ d_Titles (sc_Disc r) ∧ has_prefix (raw_title 0 clip) "  kept" = true.
Proof.
  destruct (@nativeScan caseless no_tables (λ s, s) zero_cfg "left" demo_drive
      (mkNativeEnv (Ok "CLIPS") demo_ctx clip_probe None "2026-08-01")) as [log [r|e]] eqn:E; [|vm_compute in E; discriminate E].
  exists log, r. split; [reflexivity|].
  refine (@zero_minimum_still_drops caseless no_tables (λ s, s) zero_cfg "left" demo_drive _ log r
    [@probe_title caseless (mkProbeResult "5400.52" [] []) 0; clip] clip _ E _ _ _).
  - reflexivity.
  - vm_compute. reflexivity.
  - right. left.
  - vm_compute. split; [discriminate|reflexivity].
Defined.
