(* ===== verification/NativeRip.v ===== *)
(** * The worker of a drive that reads DVDs itself (NewWorker in
    internal/daemon/worker.go, publishDisc in native.go)

    What a worker starts with, what it publishes of a disc, and the worker of
    Worker run with the scan and the extraction of Native in place of its
    oracles.

    [native_rip_holds_the_disc]: after a successful native rip every title of
    the scan is in the rip directory, read under the number it was probed by,
    and runs as long as the disc said. *)

From Stdlib Require Import QArith_base.
From S2P Require Import Prelude GoText GoPath GoBase Disc Store StoreDiscs Verify Status MakeMkv Config Discover Dvd Ifo Worker WorkerSafety WorkerRip WorkerScan Native.
#[local] Open Scope Z_scope.

Section nativerip.
Context {U : Unicode} {T : RuneTables}.
Context (quote_other : string → string).

(** ** A new worker *)

(** NewWorker: the label it goes by and the state it shows. *)
Definition NewWorker (now : Z) (d : DriveInfo) (label : string) : string * driveStatus :=
  let label := if bool_decide (label = "") then di_StableID d else label in
  let model := TrimSpace (di_Vendor d +:+ " " +:+ di_Model d) in
  (label, newDriveStatus now (di_StableID d) label (di_DevicePath d) model).

(** The configuration, as far as the worker reads it; it prints a scan
    timeout in whole seconds. *)
Definition worker_cfg (c : Config.Config) : Worker.Config :=
  Worker.mkConfig (c_RipsDir c) (c_WorkDir c) (c_TranscodedDir c) (c_MinOutputBytes c) (c_MaxRipAttempts c)
    (c_ScanAttempts c) (c_ScanTimeout c / Second) (c_NativeDVD c) (c_DecryptFallback c) (c_EjectOnSuccess c)
    (c_EjectOnFailure c).

(** ** What is published of a disc *)

Record PublishedDisc := mkPublishedDisc {
  pd_stage : string;
  pd_fingerprint : string;
  pd_volume_label : string;
  pd_disc_name : string;
  pd_disc_type : DiscType;
  pd_read_path : string;
  pd_rip_dir : string;
  pd_blocked : bool;
  pd_blocked_reason : string;
  pd_drive : string;
  pd_titles : list PublishedTitle;
}.
(** publishDisc, of a worker that has somewhere to publish to. *)
Definition publishDisc (c : Config.Config) (label stage : string) (d : Disc) (ripDir : string) (blocked : bool)
    (reason : string) : PublishedDisc :=
  mkPublishedDisc stage (d_Fingerprint d) (d_VolumeLabel d) (d_DiscName d) (d_Type d) (if c_NativeDVD c then "native-dvd" else "makemkv") ripDir blocked
    reason label (published <$> d_Titles d).

(** ** A worker with the native reader *)

(** The drive, and what the machine answers the scan and the extraction made at a call. *)
Record NativeMachine := mkNativeMachine {
  nm_cfg : Config.Config;
  nm_label : string;
  nm_drive : DriveInfo;
  nm_scan : nat → NativeEnv;
  nm_extract : nat → ExtractEnv;
}.
Definition native_scan_of (m : NativeMachine) (n : nat) : outcome goerr ScanResult :=
  (nativeScan quote_other (nm_cfg m) (NewWorker 0 (nm_drive m) (nm_label m)).1 (nm_drive m) (nm_scan m n)).2.
(** The title of the disc in hand that goes by a number. *)
Definition title_at (d : Disc) (index : Z) : option Title :=
  snd <$> list_find (λ t, t_Index t = index) (d_Titles d).
Definition native_rip_of (m : NativeMachine) (d : Disc) (n : nat) (index : Z) (dir : string)
    : list RipProgress * outcome goerr RipResult :=
  match title_at d index with
  | Some t => let '(_, reports, r) := nativeRipTitle (nm_cfg m) (di_DevicePath (nm_drive m)) (nm_extract m n) t dir in (reports, r)
  | None => ([], Err (errorf "no such title"))
  end.

(** The rest of the machine as [e] has it. *)
Definition native_env (m : NativeMachine) (d : Disc) (e : Env) : Env := {|
  cfg := worker_cfg (nm_cfg m);
  label := (NewWorker 0 (nm_drive m) (nm_label m)).1;
  driveID := driveID e;
  devicePath := di_DevicePath (nm_drive m);
  driveModel := sn_Model (snap (NewWorker 0 (nm_drive m) (nm_label m)).2);
  today := today e; clock := clock e; cancel_at := cancel_at e; timer_wins := timer_wins e; db_fault := db_fault e; meanwhile := meanwhile e; while_waiting := while_waiting e;
  slot_free := slot_free e; drv_Status := drv_Status e; drv_Eject := drv_Eject e; drv_DiscKind := drv_DiscKind e;
  drv_VolumeLabel := drv_VolumeLabel e; drv_ReadRegion := drv_ReadRegion e; drv_ReadProtection := drv_ReadProtection e;
  mk_Scan := λ n src, if IsFolder src then mk_Scan e n src else native_scan_of m n;
  scan_deadline := scan_deadline e;
  mk_RipTitle := λ n _ index dir, native_rip_of m d n index dir;
  dec_Available := dec_Available e; dec_Existing := dec_Existing e; dec_Mirror := dec_Mirror e;
  enc_Probe := enc_Probe e; enc_Transcode := enc_Transcode e; mkdir_fault := mkdir_fault e;
  write_fault := write_fault e; stat_file := stat_file e; ffprobe := ffprobe e;
|}.

(** ** Facts *)

(** A native rip rips what was scanned: there is no copy to rescan. *)
Lemma ripSource_native e d w s : NativeDVD (Worker.cfg e) = true → (ripSource d e w).1 = Ok s → IsFolder s.1 = false.
Proof.
  intros Hn. unfold ripSource, mbind, ask. rewrite Hn. cbv beta iota.
  destruct (decryptNeeded e w) as [[reason|] w2]; by intros [= <-].
Qed.
Lemma rip_into_native e jobID discID d raw dir : NativeDVD (Worker.cfg e) = true →
  post e (λ _, True) (rip_into jobID discID d raw dir) (λ r _, ∀ d', r = Ok d' → d' = d).
Proof.
  intros Hn. unfold rip_into. eapply (post_bind _ _ _ _ (λ r _, ∀ s, r = Ok s → IsFolder s.1 = false)).
  { intros w _ s. by apply ripSource_native. }
  intros [[src copy]|]; [|by apply post_ret].
  eapply (post_bind _ _ _ _ (λ r _, ∀ p, r = Ok p → p.1 = d)).
  { intros w Hs p. specialize (Hs _ eq_refl). cbn in Hs. unfold rescan_titles. rewrite Hs. by intros [= <-]. }
  intros [[d1 raw1]|]; [|by apply post_ret].
  apply (post_pre _ _ (λ _, d1 = d ∧ True)); [apply post_pull; intros ->|intros w H; split; [apply (H _ eq_refl)|done]].
  eapply (post_bind _ _ _ _ (λ _ _, True)); [done|]. intros []; [|by apply post_ret].
  eapply (post_bind _ _ _ _ (λ _ _, True)); [done|]. intros []; [|by apply post_ret]. cbv zeta.
  do 5 (eapply (post_bind _ _ _ _ (λ _ _, True)); [done|intros]).
  eapply (post_bind _ _ _ _ (λ _ _, True)); [done|]. intros []; [|by apply post_ret].
  eapply (post_bind _ _ _ _ (λ _ _, True)); [done|]. intros []; [|by apply post_ret].
  destruct copy; intros w _ d' [= <-]; reflexivity.
Qed.
Lemma rip_native e jobID discID d raw d' w : NativeDVD (Worker.cfg e) = true →
  (rip jobID discID d raw e w).1 = Ok d' → d' = d ∧ ∃ dir, Forall (passed e dir) (d_Titles d').
Proof.
  intros Hn. unfold rip, mbind. destruct (makeRipDir d e w) as [[dir|] w1]; [|done]. cbn.
  destruct (write_fault e (w_tick w1)); [done|]. intros Hr. split.
  - by eapply (rip_into_native e jobID discID d raw dir Hn); [exact I|exact Hr].
  - apply rip_into_done in Hr as [? _]. by exists dir.
Qed.

(** The titles of a native scan go by numbers of their own. *)
Lemma native_titles cfg label drv v log r t : nativeScan quote_other cfg label drv v = (log, Ok r) →
  t ∈ d_Titles (sc_Disc r) → 0 < t_DurationSecs t ∧ 0 ≤ t_Index t ∧
    ∃ p, nv_probe v (S (Z.to_nat (t_Index t))) = Ok p ∧ t = probe_title p (t_Index t).
Proof.
  intros (all & Hall & Ht & _)%nativeScan_inv Hin. rewrite Ht in Hin. apply elem_of_Filtered in Hin as [Hin Hmin].
  apply list_elem_of_lookup in Hin as [i Hi]. destruct (Enumerate_titles _ _ _ _ Hall i t Hi) as (p & Hp & ->).
  unfold threshold in Hmin. cbn [t_Index probe_title]. split; [revert Hmin; case_match; breflect; lia|].
  split; [lia|]. exists p. by rewrite Nat2Z.id.
Qed.
Lemma title_at_scanned cfg label drv v log r t : nativeScan quote_other cfg label drv v = (log, Ok r) →
  t ∈ d_Titles (sc_Disc r) → title_at (sc_Disc r) (t_Index t) = Some t.
Proof.
  intros Hs Hin. unfold title_at. destruct (list_find_elem_of (λ t', t_Index t' = t_Index t) _ t Hin eq_refl) as [[i t'] E].
  rewrite E. cbn. apply list_find_Some in E as (Hl & Hi & _). apply list_elem_of_lookup_2 in Hl.
  destruct (native_titles _ _ _ _ _ _ _ Hs Hin) as (_ & _ & p & Hp & Et).
  destruct (native_titles _ _ _ _ _ _ _ Hs Hl) as (_ & _ & p' & Hp' & Et').
  rewrite Hi in Hp', Et'. rewrite Hp in Hp'. injection Hp' as <-. congruence.
Qed.

(** An extraction that succeeds ran ffmpeg on the title. *)
Lemma Extract_ran e v source t dest res : (Extract e v source t dest).2 = Ok res →
  XRun (extract_args e source t dest) ∈ (Extract e v source t dest).1.1.
Proof. unfold Extract. repeat case_match; cbn; try done. intros _. rewrite !elem_of_cons. auto. Qed.
Lemma nativeRipTitle_ran cfg device x t dir res : (nativeRipTitle cfg device x t dir).2 = Ok res →
  rr_Path res = Join [dir; TitleFileName (t_Index t)] ∧
  ∃ a b, XRun (a ++ ["-title"; itoa (t_Index t + 1)] ++ b) ∈ (nativeRipTitle cfg device x t dir).1.1 ∧
    last b = Some (rr_Path res).
Proof.
  unfold nativeRipTitle. pose proof (Extract_path (rip_extractor cfg) x device t (Join [dir; TitleFileName (t_Index t)])) as Hp.
  pose proof (Extract_ran (rip_extractor cfg) x device t (Join [dir; TitleFileName (t_Index t)])) as Hr.
  destruct (Extract _ _ _ _ _) as [[ops reports] [r|]]; [|done]. cbn [fst snd] in *. intros [= <-]. cbn [rr_Path].
  rewrite (Hp _ eq_refl). split; [done|].
  eexists ["-hide_banner"; "-nostdin"; "-y"; "-f"; "dvdvideo"; "-preindex"; _; "-region"; "0"], _.
  split; [exact (Hr _ eq_refl)|reflexivity].
Qed.

(** What a title of the disc is once its file is in the directory: it was
    described by a probe, ffmpeg read it under the same number into the file
    of its name, and what ffprobe measured there is what the disc said. *)
Definition title_held (m : NativeMachine) (v : NativeEnv) (e : Env) (dir : string) (t : Title) : Prop :=
  let path := Join [dir; TitleFileName (t_Index t)] in
  ∃ p f out, nv_probe v (S (Z.to_nat (t_Index t))) = Ok p ∧ t = probe_title p (t_Index t) ∧
    (∃ k a b, XRun (a ++ ["-title"; itoa (t_Index t + 1)] ++ b) ∈
       (nativeRipTitle (nm_cfg m) (di_DevicePath (nm_drive m)) (nm_extract m k) t dir).1.1 ∧ last b = Some path) ∧
    (∃ n, stat_file e n path = Some f) ∧ (∃ n, ffprobe e n path = Ok out) ∧
    (c_MinOutputBytes (nm_cfg m) ≤ 0 ∨ c_MinOutputBytes (nm_cfg m) ≤ f_size f) ∧ read_header (f_head f) = ebmlMagic ∧
    (50 * Z.abs (durationSecs out - probe_durationSecs p) ≤ probe_durationSecs p ∨
     Z.abs (durationSecs out - probe_durationSecs p) ≤ 5).

(** C4: a disc that was ripped natively is the disc that was scanned.  When the
    rip of a disc that a native scan described reports success, it returns
    that very disc, and every title of it is in one directory under its own
    name: ffmpeg was asked for the number ffprobe had described the title
    under, and the file is a Matroska file no smaller than the configuration
    asks for, whose measured runtime is within two per cent or five seconds of
    what the probe of the disc said. *)
Theorem native_rip_holds_the_disc m n r e jobID discID d' w :
  native_scan_of m n = Ok r →
  c_NativeDVD (nm_cfg m) = true →
  (rip jobID discID (sc_Disc r) (sc_Raw r) (native_env m (sc_Disc r) e) w).1 = Ok d' →
  d' = sc_Disc r ∧ ∃ dir, Forall (title_held m (nm_scan m n) e dir) (d_Titles d').
Proof.
  unfold native_scan_of. destruct (nativeScan _ _ _ _ _) as [log o] eqn:Hs. cbn. intros -> Hn [-> [dir Hp]]%rip_native; [|exact Hn]. split; [done|]. exists dir.
  apply Forall_forall. intros t Hin. rewrite Forall_forall in Hp. specialize (Hp t Hin).
  destruct Hp as (k & src & res & n0 & Hk & _ & Hv). cbn [mk_RipTitle native_env] in Hk. unfold native_rip_of in Hk.
  rewrite (title_at_scanned _ _ _ _ _ _ _ Hs Hin) in Hk.
  pose proof (nativeRipTitle_ran (nm_cfg m) (di_DevicePath (nm_drive m)) (nm_extract m k) t dir res) as Hran.
  destruct (nativeRipTitle _ _ _ t dir) as [[ops reports] o] eqn:Eo. cbn [fst snd] in Hk, Hran.
  destruct (Hran Hk) as (Hpath & a & b & Hrun & Hlast). destruct (Hv Hn) as (n1 & n2 & Hok). cbn in Hok. rewrite Hpath in Hok, Hlast.
  apply verify_Title_iff in Hok as (f & out & Hf & Hout & Hsize & (_ & _ & Hmagic) & Hdur & _). cbn in Hsize, Hdur.
  destruct (native_titles _ _ _ _ _ _ _ Hs Hin) as (Hpos & _ & p & Hprobe & Et).
  assert (t_DurationSecs t = probe_durationSecs p) as Hd by (rewrite Et; reflexivity).
  exists p, f, out. split; [exact Hprobe|]. split; [exact Et|].
  split; [exists k, a, b; rewrite Eo; cbn [fst]; by split|]. split; [by exists n1|]. split; [by exists n2|].
  split; [exact Hsize|]. split; [exact Hmagic|]. rewrite Hd in Hdur, Hpos. lia.
Qed.
End nativerip.

(** ** A small disc, ripped *)

Definition native_default : Config.Config :=
  Config.mkConfig (c_RipsDir Default) (c_WorkDir Default) (c_LibraryDir Default) (c_TranscodedDir Default)
    (c_StatePath Default) (c_SocketPath Default) (c_HTTPAddr Default) true (c_DVDPreindex Default) 60 1000
    (c_MaxRipAttempts Default) (c_ScanAttempts Default) (c_ScanRetryDelay Default) (c_ScanTimeout Default)
    (c_DecryptFallback Default) (c_DVDBackupBin Default) (c_RipStallTimeout Default) (c_Transcode Default)
    (c_TranscodeQuality Default) (c_TranscodeMaxKbps Default) (c_TranscodeMaxHeight Default)
    (c_PreferredLanguage Default) (c_AudioKbps Default) (c_SoftwarePreset Default) (c_FFmpegBin Default)
    (c_VAAPIDevice Default) (c_FileToLibrary Default) (c_EjectOnSuccess Default) (c_EjectOnFailure Default)
    (c_PollInterval Default) (c_MakeMKVBin Default) (c_MakeMKVSettingsPath Default) (c_AutoRefreshKey Default)
    (c_BetaKeyURL Default) (c_KeyRefreshInterval Default) (c_Drives Default).
Definition demo_machine : NativeMachine :=
  mkNativeMachine native_default "" demo_drive (λ _, demo_native) (λ _, demo_extract [] None).
Definition measured (path : string) : outcome string probeOut :=
  Ok (mkProbe (if has_suffix path "title_00.mkv" then "5399.8" else "180.0") ["video"]).
Definition demo_native_env : Env := {|
  cfg := demo_cfg; label := "left"; driveID := 1; devicePath := "/dev/sr0"; driveModel := "BW-16";
  today := "2026-08-01"; clock := λ n, Z.of_nat n * 1000000000; cancel_at := None; timer_wins := λ _, false;
  db_fault := λ _, false; meanwhile := λ _, []; while_waiting := []; slot_free := λ _, true; drv_Status := drv_Status demo_good; drv_Eject := λ _, Ok tt;
  drv_DiscKind := drv_DiscKind demo_good; drv_VolumeLabel := drv_VolumeLabel demo_good;
  drv_ReadRegion := drv_ReadRegion demo_good; drv_ReadProtection := drv_ReadProtection demo_good;
  mk_Scan := λ _ _, Err (errorf "no makemkvcon"); scan_deadline := λ _, false;
  mk_RipTitle := λ _ _ _ _, ([], Err (errorf "no makemkvcon")); dec_Available := None;
  dec_Existing := λ _ _ _, None; dec_Mirror := λ _ _, ([], Err (errorf "no copy"));
  enc_Probe := λ _ _, Err (errorf "no Blu-ray"); enc_Transcode := λ _ _ _, ([], Err (errorf "no encoder"));
  mkdir_fault := λ _, None; write_fault := λ _, None;
  stat_file := λ _ _, Some (mkFile 4000000000 true ebmlMagic); ffprobe := λ _, measured |}.

Lemma native_rip_holds_the_disc_witness :
  ∃ r, @native_scan_of caseless no_tables (λ s, s) demo_machine 0 = Ok r ∧ length (d_Titles (sc_Disc r)) = 2%nat ∧
    ∃ dir, Forall (@title_held caseless demo_machine demo_native demo_native_env dir) (d_Titles (sc_Disc r)).
Proof.
  destruct (@native_scan_of caseless no_tables (λ s, s) demo_machine 0) as [r|err] eqn:E; [|vm_compute in E; discriminate E].
  exists r. split; [reflexivity|]. split; [vm_compute in E; injection E as <-; reflexivity|].
  destruct (@native_rip_holds_the_disc caseless no_tables (λ s, s) demo_machine 0 r demo_native_env 1 1 (sc_Disc r) demo_world E eq_refl)
    as [_ H]; [|exact H].
  vm_compute in E. injection E as <-. vm_compute. reflexivity.
Defined.

Example worker_label : (@NewWorker caseless 0 demo_drive "").1 = "usb-1" ∧
  sn_Model (snap (@NewWorker caseless 0 demo_drive "left").2) = "ASUS BW-16".
Proof. vm_compute. split; reflexivity. Qed.
