(* ===== verification/ServerFacts.v ===== *)
(** * What the requests promise

    [api_agrees_with_socket]: the two front ends do the same.
    [asking_changes_nothing]: a listing leaves the daemon as it is.
    [eject_request_spares_busy]: whose tray a request opens.
    [retry_is_run]: a title asked for again is really next to be encoded.
    [connection_answers_in_order]: one answer per request.
    [fetch_then_stream]: nothing is missed between reading the state and
    following the events, but what a full channel drops. *)

From S2P Require Import Prelude GoText GoBase GoPath Disc Table Store Queue StoreWf StoreQueue StoreDiscs Status Hub Config Discover Drive MakeMkv Key Transcoder TranscoderFrame Daemon Worker Server WorkerScan TranscoderFacts Sse.
#[local] Open Scope Z_scope.

Lemma set_st_same d : set_st (d_st d) d = d.
Proof. by destruct d. Qed.
Lemma set_d_same s : set_d (sv_d s) s = s.
Proof. by destruct s. Qed.

(** An operation that only looks leaves the state. *)
Lemma query_db_query {A} v (f : Store → A) s : (query_db v (query f) s).2 = s.
Proof. unfold query_db. destruct (rq_fault v); cbn; [done|]. by rewrite set_st_same, set_d_same. Qed.
Lemma listing_query {A} v (f : Store → A) k s : (listing v (query f) k s).2 = s.
Proof.
  unfold listing. pose proof (query_db_query v f s) as H. destruct (query_db v (query f) s) as [[a|e] s']; exact H.
Qed.

(** What is done with a disc that was looked up. *)
Lemma found_or_not {B} v fp s (f : DiscRecord → B) (none : B) (err : string → B) :
  (match query_db v (FindDisc fp) s with
   | (Err e, s) => (err e, s)
   | (Ok None, s) => (none, s)
   | (Ok (Some rec), s) => (f rec, s)
   end).2 = s.
Proof.
  pose proof (query_db_query v _ s : (query_db v (FindDisc fp) s).2 = s) as H.
  destruct (query_db v (FindDisc fp) s) as [[[rec|]|e] s']; exact H.
Qed.

(** A request's parameters as the client writes them. *)
Definition param (name value : string) : option json := Some (JObject [(name, JString value)]).
Lemma DriveParams_param fold_other value : DriveParams fold_other (param "drive" value) = (value, true).
Proof. reflexivity. Qed.
Lemma FingerprintParams_param fold_other value : FingerprintParams fold_other (param "fingerprint" value) = (value, true).
Proof. reflexivity. Qed.

Section facts.
Context {U : Unicode}.
Context (unescape quote_other : string → string) (fold_other : string → string → bool).
Context (clock : nat → Z) (log_fault : nat → bool).
Notation handle := (handle unescape quote_other fold_other clock log_fault).
Notation backend := (backend unescape quote_other fold_other clock log_fault).
Notation serve_route := (serve_route unescape quote_other fold_other clock log_fault).
Notation handleConn := (handleConn unescape quote_other fold_other clock log_fault).

(** ** The two front ends *)

(** The request of the socket an action or a read of the API stands for. *)
Definition socket_twin (r : route) : option (string * option json) :=
  match r with
  | PostEject id => Some ("eject", param "drive" id)
  | PostCancel id => Some ("cancel", param "drive" id)
  | PostRescan => Some ("rescan", None)
  | PostForget fp => if bool_decide (fp = "") then None else Some ("forget", param "fingerprint" fp)
  | GetDisc fp => if bool_decide (fp = "") then None else Some ("disc.get", param "fingerprint" fp)
  | GetDrives | GetHealth => None
  end.

(** The same success or the same error, the API's saying "not found" of a drive or a disc that is not there. *)
Definition same_answer (a : outcome string Reply) (b : outcome apiErr (option Reply)) : Prop :=
  match a, b with
  | Ok x, Ok (Some y) => x = y
  | Ok _, Ok None => True
  | Err e, Err x => x = plain e ∨ x = not_found e
  | _, _ => False
  end.

(** C15: the socket and the API are two ways to the same operations.  Whatever
    the state and whatever fails, a call of the API and its counterpart on the
    socket leave the daemon, the queue, the workers and the database in the
    same state, and one succeeds exactly when the other does, with the same
    error. *)
Theorem api_agrees_with_socket v r method params s :
  socket_twin r = Some (method, params) →
  (handle v method params s).2 = (backend v r s).2 ∧
  same_answer (handle v method params s).1 (backend v r s).1.
Proof.
  destruct r as [| |fp|id|id| |fp]; cbn [socket_twin]; try discriminate.
  - destruct (bool_decide (fp = "")) eqn:Hfp; [discriminate|]. intros [= <- <-].
    unfold Server.handle, Server.backend. simpl (bool_decide (_ = _)). cbn -[FingerprintParams query_db bool_decide].
    rewrite FingerprintParams_param, Hfp. cbn -[query_db].
    destruct (query_db v (FindDisc fp) s) as [[[rec|]|e] s']; cbn; eauto.
  - intros [= <- <-]. unfold Server.handle, Server.backend. simpl (bool_decide (_ = _)). cbn -[DriveParams on_worker api_worker].
    rewrite DriveParams_param. unfold on_worker, api_worker. cbn [fst].
    destruct (workerFor _ _ _ _ _) as [w|e]; [|cbn; eauto].
    destruct (run_worker _ _ _) as [[[]|e] s']; cbn; eauto.
  - intros [= <- <-]. unfold Server.handle, Server.backend. simpl (bool_decide (_ = _)). cbn -[DriveParams on_worker api_worker].
    rewrite DriveParams_param. unfold on_worker, api_worker. cbn [fst].
    destruct (workerFor _ _ _ _ _) as [w|e]; [|cbn; eauto].
    destruct (run_worker _ _ _) as [[[]|e] s']; cbn; eauto.
  - intros [= <- <-]. unfold Server.handle, Server.backend. simpl (bool_decide (_ = _)). cbn -[rescan].
    destruct (rescan _ _ _ _ v s) as [[d|e] s']; cbn; eauto.
  - destruct (bool_decide (fp = "")) eqn:Hfp; [discriminate|]. intros [= <- <-].
    unfold Server.handle, Server.backend. simpl (bool_decide (_ = _)). cbn -[FingerprintParams query_db bool_decide log_line].
    rewrite FingerprintParams_param, Hfp. cbn -[query_db log_line].
    destruct (query_db v (ForgetDisc fp) s) as [[[]|e] s']; cbn -[log_line]; eauto.
Qed.

(** The methods that act. *)
Definition acting : list string := ["eject"; "cancel"; "forget"; "rescan"; "queue.cancel"; "queue.retry"; "transcode"].

(** asking changes nothing.  Every request but those that act, whatever
    its name and its parameters, leaves the whole state as it was, and so does
    every read of the API. *)
Theorem asking_changes_nothing v method params r s :
  method ∉ acting → is_read r = true →
  (handle v method params s).2 = s ∧ (backend v r s).2 = s.
Proof.
  intros Hm Hr. split.
  - unfold acting in Hm. rewrite !not_elem_of_cons in Hm. destruct Hm as (H1 & H2 & H3 & H4 & H5 & H6 & H7 & _).
    unfold Server.handle.
    destruct (bool_decide (method = "status")); [reflexivity|].
    destruct (bool_decide (method = "history")); [apply listing_query|].
    destruct (bool_decide (method = "events")); [apply listing_query|].
    rewrite (bool_decide_eq_false_2 _ H1), (bool_decide_eq_false_2 _ H2), (bool_decide_eq_false_2 _ H3).
    destruct (bool_decide (method = "disc.get")).
    { destruct (FingerprintParams fold_other params) as [fp ok]. destruct (negb ok || _); [reflexivity|].
      apply found_or_not. }
    rewrite (bool_decide_eq_false_2 _ H4).
    destruct (bool_decide (method = "failures")); [apply listing_query|].
    destruct (bool_decide (method = "queue")); [apply listing_query|].
    rewrite (bool_decide_eq_false_2 _ H5), (bool_decide_eq_false_2 _ H6), (bool_decide_eq_false_2 _ H7).
    by destruct (bool_decide (method = "retry")).
  - destruct r as [| |fp|id|id| |fp]; try discriminate Hr; try done. unfold Server.backend.
    destruct (bool_decide (fp = "")); [reflexivity|]. apply found_or_not.
Qed.

(** ** Ejecting *)

Definition is_eject (x : effect) : bool := match x with EjectCall _ => true | _ => false end.
(** How often a worker's tray was asked to open. *)
Definition ejects (id : string) (s : Srv) : nat := length (filter (λ x, is_eject x = true) (w_trace (sv_w s id).2)).
Definition busy (id : string) (s : Srv) : bool := Busy (sn_State (snap (w_status (sv_w s id).2))).

Lemma run_Eject id s :
  let '(r, s') := run_worker Eject id s in
  (∀ i, i ≠ id → sv_w s' i = sv_w s i) ∧
  ejects id s' = (ejects id s + if busy id s then 0 else 1)%nat ∧ (busy id s = true → is_ok r = false).
Proof.
  unfold run_worker, ejects, busy. destruct (sv_w s id) as [e w] eqn:Ew. unfold Eject, mbind, gets, mret, ask, call, emit, with_world. cbn.
  destruct (Busy (sn_State (snap (w_status w)))) eqn:Hb; cbn.
  - rewrite bool_decide_eq_true_2 by done. cbn. split; [|split; [lia|done]].
    intros i Hi. by rewrite bool_decide_eq_false_2.
  - rewrite bool_decide_eq_true_2 by done. cbn. rewrite filter_app, filter_cons_True, filter_nil, length_app by done. cbn. split; [|split; [lia|done]].
    intros i Hi. by rewrite bool_decide_eq_false_2.
Qed.

(** a request to eject opens the tray of the drive it names and of no
    other, once, and never while that drive is busy, when it is refused.  A
    name that is no drive's touches nothing. *)
Theorem eject_request_spares_busy v name s :
  let '(r, s') := handle v "eject" (param "drive" name) s in
  match workerFor quote_other fold_other (sv_d s) (rq_walk v) name with
  | Err e => r = Err e ∧ s' = s
  | Ok w =>
      let id := di_StableID (wk_drv w) in
      (∀ i, i ≠ id → ejects i s' = ejects i s) ∧
      (busy id s = true → ejects id s' = ejects id s ∧ is_ok r = false) ∧
      (busy id s = false → ejects id s' = S (ejects id s))
  end.
Proof.
  unfold Server.handle. simpl (bool_decide (_ = _)). cbn -[DriveParams on_worker workerFor]. rewrite DriveParams_param. cbn [fst].
  unfold on_worker. destruct (workerFor _ _ _ _ _) as [w|e]; [|done].
  pose proof (run_Eject (di_StableID (wk_drv w)) s) as H. destruct (run_worker _ _ _) as [r s'].
  assert (∀ x, match r with Err e => (Err e, s') | Ok _ => (Ok x, s') end = (match r with Err e => Err e | Ok _ => Ok x end, s')) as ->
    by (intros x; by destruct r).
  destruct H as (Ho & He & Hb). split; [intros i Hi; unfold ejects; by rewrite Ho|].
  destruct (busy (di_StableID (wk_drv w)) s); cbn.
  - split; [intros _|done]. split; [lia|]. specialize (Hb eq_refl). by destruct r.
  - split; [done|]. intros _. lia.
Qed.

(** ** Retrying *)

Lemma queueRetry_ok id e w t w' : apart any_discs e → store_wf (q_store w) → queueRetry id e w = (Ok t, w') →
  transcodes (q_store w') = transcodes (ResetTranscodeAttempts id (q_store w)).2 ∧ store_wf (q_store w') ∧ q_wake w' = true ∧
  ∃ r, select1 (λ x, tc_id x =? id) (transcodes (q_store w)) = Some r ∧ tc_state r ≠ TranscodeRunning.
Proof.
  intros Ha Hwf. unfold queueRetry. destruct (id =? 0); [done|]. unfold qbind at 1.
  destruct (qdb_cases (λ _, TranscodeJobByID id) e w) as [(m & ->)|[(j & s' & E & ->)|(x & s' & E & ->)]]; [done| |done].
  unfold TranscodeJobByID, query in E. injection E as Ej <-.
  destruct (select1 _ (transcodes (q_store w))) as [r|]; cbn in Ej; subst j; [|done]. cbn [tj_State].
  case_bool_decide as Hr; [done|].
  destruct (filing_bump any_discs e (qset_store (q_store w) w)) as [T1 _ W1 _ _]. unfold qbind at 1.
  destruct (qdb_cases (λ _, ResetTranscodeAttempts id) e (qbump e (qset_store (q_store w) w))) as [(m & ->)|[(u & s' & E & ->)|(x & s' & E & ->)]]; [done| |done].
  pose proof (ResetTranscodeAttempts_keeps id _ (W1 Hwf)) as W2. rewrite E in W2.
  assert (transcodes s' = transcodes (ResetTranscodeAttempts id (q_store w)).2) as T2.
  { unfold ResetTranscodeAttempts, update_transcode, exec in *. injection E as _ <-. cbn [snd transcodes set_transcodes]. cbn [q_store qset_store] in T1. by rewrite <- T1. }
  clear E. destruct (filing_bump any_discs e (qset_store s' (qbump e (qset_store (q_store w) w)))) as [T3 _ W3 _ _].
  unfold qbind, nudgeTranscoder, qmod, qret.
  match goal with |- context [refreshTranscodeCounts e ?q] =>
    destruct (refresh_frame any_discs e q) as [T4 _ W4 _ _];
    destruct (refreshTranscodeCounts e q) as [[] w1] end.
  intros [= _ <-]. cbn [snd q_store q_wake qset_store qset_wake] in *. rewrite T4, T3, T2. eauto 8.
Qed.


(** ** One connection *)

(** The id a message answers, and the id a line asks under. *)
Definition answered (m : message) : option Z := match m with Response id _ | Accepted id => Some id | Push _ => None end.
Definition asked (l : line) : option Z := match l with Blank => None | Malformed _ => Some 0 | Request id _ _ => Some id end.

Lemma handleConn_app l1 l2 sub s :
  handleConn (l1 ++ l2) sub s =
  let '(out1, sub, s) := handleConn l1 sub s in let '(out2, sub, s) := handleConn l2 sub s in (out1 ++ out2, sub, s).
Proof.
  revert sub s. induction l1 as [|[v l] l1 IH]; intros sub s; cbn.
  - by destruct (handleConn l2 sub s) as [[out2 sub2] s2].
  - destruct (conn_step _ _ _ _ _ v l sub s) as [[out sub1] s1]. rewrite IH.
    destruct (handleConn l1 sub1 s1) as [[out1 sub2] s2]. destruct (handleConn l2 sub2 s2) as [[out2 sub3] s3].
    by rewrite app_assoc.
Qed.

Lemma answers_ids lines sub s : omap answered (handleConn lines sub s).1.1 = omap (λ x, asked x.2) lines.
Proof.
  revert sub s. induction lines as [|[v l] lines IH]; intros sub s; [done|]. cbn [handleConn].
  destruct (conn_step unescape quote_other fold_other clock log_fault v l sub s) as [[out sub1] s1] eqn:E.
  specialize (IH sub1 s1). destruct (handleConn lines sub1 s1) as [[out' sub2] s2]. cbn [fst] in *. rewrite omap_app, IH.
  destruct l as [|e|id m p]; cbn in E; [injection E as <- <- <-; done..|].
  destruct (bool_decide (m = "subscribe")); [injection E as <- <- <-; done|].
  destruct (handle v m p s) as [r s3]. by injection E as <- <- <-.
Qed.

(** a connection answers every request, once, in order.  The answers carry
    the ids of the requests in the order they came, malformed lines answered
    under no id; and the answer to each is what [handle] gives in the state
    the requests before it have left. *)
Theorem connection_answers_in_order lines sub s :
  omap answered (handleConn lines sub s).1.1 = omap (λ x, asked x.2) lines ∧
  ∀ before v id method params later, lines = before ++ (v, Request id method params) :: later → method ≠ "subscribe" →
    ∃ out, (handleConn lines sub s).1.1 =
      (handleConn before sub s).1.1 ++ Response id (handle v method params (handleConn before sub s).2).1 :: out.
Proof.
  split; [apply answers_ids|]. intros before v id method params later -> Hm. rewrite handleConn_app.
  destruct (handleConn before sub s) as [[out1 sub1] s1]. cbn. rewrite (bool_decide_eq_false_2 _ Hm).
  destruct (handle v method params s1) as [r s2]. destruct (handleConn later sub1 s2) as [[out2 sub2] s3]. cbn. eauto.
Qed.

(** ** Codes *)

(** a disc that is not there.  Reading it is answered "not found"; to
    forget it is answered as a failure of the daemon. *)
Theorem missing_disc_codes v fp before after s :
  rq_fault v = None → fp ≠ "" → select1 (fp_is fp) (discs (d_st (sv_d s))) = None →
  (serve_route v (GetDisc fp) before after s).1.1 = 404 ∧
  (serve_route v (PostForget fp) before after s).1.1 = 500 ∧ (serve_route v (PostForget fp) before after s).2 = s.
Proof.
  intros Hv Hfp Hno. unfold Server.serve_route, Server.backend, query_db, FindDisc, ForgetDisc, query, tx. fold (fp_is fp).
  rewrite (bool_decide_eq_false_2 _ Hfp), Hv, Hno. cbn. by rewrite set_st_same, set_d_same.
Qed.

(** ** The state and the stream *)

(** C14: following the state after fetching it.  The id an answer carries was
    taken before the state was read.  A client that opens the stream from that
    id is sent, each once and in order, everything published between the
    fetch and the stream's replay, and then what its channel had room for;
    while the channel has room at every publication (256 events), nothing
    published since the fetch is missing but what still waits, whoever else
    comes and goes.  When more was
    published before the replay than the hub keeps (4096), it is told to fetch
    again. *)
Theorem fetch_then_stream {A} v r s after env s' (h h1 h2 h3 h4 : Hub A) log more c acts1 acts2 live :
  is_read r = true → ring_repr h log → ring_repr h1 (log ++ more) → subs_open h1 →
  serve_route v r (LastID h) after s = ((200, env), s') →
  Subscribe h1 = (h2, c) →
  Forall (λ a, untaken a = true) acts1 → serve_live c acts1 h2 = Some ([], h3) →
  serve_live c acts2 h3 = Some (live, h4) →
  Z.of_nat (length (log ++ more) + length acts1 + length acts2) < 2 ^ 64 - 1 →
  ∃ during later,
    ring_repr h3 (log ++ more ++ during) ∧ ring_repr h4 (log ++ more ++ during ++ later) ∧
    let frames := events (en_LastEventID env) h3 live in
    let last := Z.of_nat (length (log ++ more ++ during)) in
    ((length (more ++ during) ≤ ringSize)%nat → ∃ got,
      frames = Hello last :: map Ev (more ++ during ++ got) ∧ got `sublist_of` later ∧
      (keeps_up c acts1 h2 = true → keeps_up c acts2 h3 = true →
        later = got ++ filter (λ e, last < ev_ID e) (waiting_in c h4))) ∧
    ((ringSize < length (more ++ during))%nat → ∃ rest, frames = Reconcile last :: Hello last :: rest).
Proof.
  intros Hr Hh Hh1 Ho Hs Hsub Hpub W1 W2 Hlt.
  assert (en_LastEventID env = Z.of_nat (length log)) as ->.
  { unfold Server.serve_route in Hs. destruct (backend v r s) as [res s2]. unfold respond in Hs. rewrite Hr in Hs.
    destruct res as [data|e]; [|unfold fail_code in Hs; destruct (ae_NotFound e); discriminate].
    injection Hs as <- _. cbn. unfold LastID. apply Hh. }
  pose proof (Subscribe_attached h1 _ Hh1 Ho) as H. rewrite Hsub in H. destruct H as [Ha Hw].
  destruct (watch_run c acts1 h2 _ Ha ltac:(lia)) as (g1 & h3' & during & [R1 Ha3 (k1 & Hk1 & E1 & F1) _] & Hl1).
  rewrite W1 in R1. injection R1 as <- <-. rewrite Hw in E1. cbn in E1. rewrite <- app_assoc in Ha3.
  destruct (watch_run c acts2 h3 _ Ha3) as (g2 & h4' & later & [R2 Ha4 (k2 & Hk2 & E2 & F2) _] & Hl2).
  { rewrite !length_app in *. lia. }
  rewrite W2 in R2. injection R2 as <- <-. rewrite <- !app_assoc in Ha4. exists during, later.
  split; [apply Ha3|]. split; [apply Ha4|]. cbv zeta. pose proof (rr_ids _ _ (at_repr _ _ _ Ha4)) as Hnum.
  pose proof (rr_ids _ _ (at_repr _ _ _ Ha4)) as Hnum4. set (last := Z.of_nat (length (log ++ more ++ during))).
  assert (filter (λ e, last < ev_ID e) (during ++ later) = later) as Hfresh.
  { unfold last. rewrite (app_assoc log more during). apply fresh_suffix. by rewrite <- app_assoc. }
  rewrite <- E1 in E2. assert (live ++ waiting_in c h4 `sublist_of` during ++ later) as Hall by (rewrite <- E2; by apply sublist_app).
  assert (live `sublist_of` during ++ later) as Hlive by (etrans; [|exact Hall]; by apply sublist_inserts_r).
  destruct (events_frames h3 (log ++ more ++ during) (length log) live later) as [G1 G2].
  - apply Ha3.
  - by rewrite <- !app_assoc.
  - rewrite <- !app_assoc. by do 2 apply sublist_inserts_l.
  - rewrite !length_app. lia.
  - rewrite !length_app in *. lia.
  - split; intros Hm.
    + exists (filter (λ e, last < ev_ID e) live). split; [|split].
      * rewrite G1 by (rewrite !length_app in *; lia). by rewrite drop_app_length, <- app_assoc.
      * rewrite <- Hfresh. by apply filter_sublist.
      * intros K1 K2. rewrite (F1 K1), (F2 K2) in E2. by rewrite <- filter_app, <- E2.
    + apply G2. rewrite !length_app in *. lia.
Qed.
End facts.

(** ** At a small daemon *)

Definition demo_srv (st : Store) : Srv := mkSrv (set_st st sync_first) film_world (λ _, (demo_good, demo_world)).
Definition demo_req (fault : option string) : ReqEnv :=
  mkReqEnv fault (map_to_list (d_workers sync_first)) true (sync_at 9 (one_drive "sr0")) (keyless_at 0) (film_env false).
Notation demo_handle := (@Server.handle caseless no_text no_text (λ _ _, false) no_clock no_fault).
Notation demo_backend := (@Server.backend caseless no_text no_text (λ _ _, false) no_clock no_fault).
Notation demo_route := (@Server.serve_route caseless no_text no_text (λ _ _, false) no_clock no_fault).

Lemma api_agrees_with_socket_witness :
  (demo_handle (demo_req None) "eject" (param "drive" "asus") (demo_srv demo_store)).1 = Ok (ReplyMap "ejected" "ASUS") ∧
  (demo_handle (demo_req None) "eject" (param "drive" "asus") (demo_srv demo_store)).2 =
  (demo_backend (demo_req None) (PostEject "asus") (demo_srv demo_store)).2.
Proof.
  split; [vm_compute; reflexivity|].
  refine (proj1 (@api_agrees_with_socket caseless no_text no_text (λ _ _, false) no_clock no_fault (demo_req None) (PostEject "asus")
    "eject" (param "drive" "asus") (demo_srv demo_store) _)). reflexivity.
Defined.

Lemma asking_changes_nothing_witness :
  (demo_handle (demo_req None) "history" None (demo_srv queued)).2 = demo_srv queued.
Proof.
  refine (proj1 (@asking_changes_nothing caseless no_text no_text (λ _ _, false) no_clock no_fault (demo_req None)
    "history" None GetDrives (demo_srv queued) _ _)).
  - apply (bool_decide_unpack _). vm_compute. exact I.
  - reflexivity.
Defined.


Lemma missing_disc_codes_witness :
  (demo_route (demo_req None) (GetDisc "beef") 3 4 (demo_srv queued)).1.1 = 404 ∧
  (demo_route (demo_req None) (PostForget "beef") 3 4 (demo_srv queued)).1.1 = 500 ∧
  (demo_route (demo_req None) (PostForget "beef") 3 4 (demo_srv queued)).2 = demo_srv queued.
Proof.
  apply (@missing_disc_codes caseless no_text no_text (λ _ _, false) no_clock no_fault (demo_req None) "beef" 3 4 (demo_srv queued)).
  - reflexivity.
  - discriminate.
  - vm_compute. reflexivity.
Defined.

(** The daemon's drives were read when the hub had one event; one more comes after the stream is opened. *)
Lemma fetch_then_stream_witness :
  ∃ env h3 h4 during later,
    (demo_route (demo_req None) GetDrives (LastID hub1) 7 (demo_srv queued)).1 = (200, env) ∧
    serve_live 0 [] (Subscribe hub1).1 = Some ([], h3) ∧ serve_live 0 [SPublish "log" () 0; SReceive] h3 = Some ([ev2], h4) ∧
    events (en_LastEventID env) h3 [ev2] = [Hello 1; Ev ev2] ∧
    ring_repr h4 ([ev1] ++ [] ++ during ++ later).
Proof.
  destruct (demo_route (demo_req None) GetDrives (LastID hub1) 7 (demo_srv queued)) as [[code env] s'] eqn:E.
  assert (code = 200) as -> by (injection E as <- _ _; reflexivity).
  assert (en_LastEventID env = 1) as Henv by (injection E as <- _; reflexivity).
  destruct (serve_live 0 [SPublish "log" () 0; SReceive] (Subscribe hub1).1) as [[live h4]|] eqn:W; [|vm_compute in W; discriminate W].
  assert (live = [ev2]) as -> by (vm_compute in W; injection W as <- _; reflexivity).
  destruct (@fetch_then_stream caseless no_text no_text (λ _ _, false) no_clock no_fault unit (demo_req None) GetDrives
    (demo_srv queued) 7 env s' hub1 hub1 (Subscribe hub1).1 (Subscribe hub1).1 h4 [ev1] [] 0 [] [SPublish "log" () 0; SReceive] [ev2])
    as (during & later & _ & H4 & _).
  - reflexivity.
  - exact hub1_repr.
  - exact hub1_repr.
  - intros c Hc. vm_compute in Hc. exfalso. set_solver.
  - exact E.
  - vm_compute. reflexivity.
  - constructor.
  - reflexivity.
  - exact W.
  - cbn. lia.
  - exists env, (Subscribe hub1).1, h4, during, later. rewrite Henv. repeat split; try reflexivity; [exact W|apply H4..].
Defined.
