(* ===== verification/Feeds.v ===== *)
(** * What the daemon tells its clients (publishEvent, publish, logEvent and
    broadcastStatus in internal/daemon)

    Two feeds with different contracts: the hub, whose numbered events an HTTP
    client can have replayed, and the channels of the socket's subscribers.
    Whether a message can be written as JSON is a parameter.

    [a_log_line_reaches_everyone] and [status_feeds_hub_first] say who gets
    what, also when a client has fallen behind or there is none. *)

From Stdlib Require Import QArith_base.
From S2P Require Import Prelude GoText Hub Status Daemon Pushes Transcoder Worker Server.
#[local] Open Scope Z_scope.

(** The payloads of the hub's events, and the messages pushed over the socket. *)
Inductive feed := FeedDrives (l : list DriveSnapshot) | FeedLog (level message : string).
Inductive push := PushStatus (st : StatusReply) | PushLog (at_ : Z) (level message : string).

(** Daemon.hub is nil when the HTTP API is off. *)
Record Feeds := mkFeeds { fe_hub : option (Hub feed); fe_subs : @Subs push }.

Section feeds.
(** json.Marshal of a message succeeds. *)
Context (can_marshal : push → bool).

Definition publishEvent (kind : string) (data : feed) (now : Z) (f : Feeds) : option Feeds :=
  match fe_hub f with
  | None => Some f
  | Some h => '(h', _) ← Publish kind data now h; Some (mkFeeds (Some h') (fe_subs f))
  end.
(** publish; [walk] is the order the set of subscribers is walked in. *)
Definition publish (walk : list nat) (p : push) (f : Feeds) : option Feeds :=
  if can_marshal p then s ← publishRaw walk p (fe_subs f); Some (mkFeeds (fe_hub f) s) else Some f.

(** logEvent, but for the database and the daemon's own output, which are in Daemon. *)
Definition logEvent_feeds (walk : list nat) (now : Z) (level message : string) (f : Feeds) : option Feeds :=
  f ← publishEvent "log" (FeedLog level message) now f;
  publish walk (PushLog now level message) f.

(** broadcastStatus of a status. *)
Definition broadcastStatus (walk : list nat) (now : Z) (st : StatusReply) (f : Feeds) : option Feeds :=
  f ← publishEvent "drives" (FeedDrives (sr_Drives st)) now f;
  if decide (size (su_subs (fe_subs f)) = 0%nat) then Some f else publish walk (PushStatus st) f.

(** ** Who hears it *)

Definition hub_logs (h : option (Hub feed)) (log : list (Event feed)) : Prop :=
  match h with None => True | Some h => ring_repr h log ∧ subs_open h ∧ Z.of_nat (length log) + 1 < 2 ^ 64 end.
(** The hub has the event as the next of its log. *)
Definition hub_has (h : option (Hub feed)) (log : list (Event feed)) (kind : string) (data : feed) (now : Z) : Prop :=
  match h with
  | None => True
  | Some h => ring_repr h (log ++ [mkEv (Z.of_nat (length log) + 1) kind now data]) ∧ subs_open h
  end.
(** Every subscriber was offered the message and has it waiting if there was room. *)
Definition subscribers_offered (p : push) (s s' : @Subs push) : Prop :=
  su_subs s' = su_subs s ∧
  ∀ c, c ∈ su_subs s → ∃ ch ch', su_chans s !! c = Some ch ∧ su_chans s' !! c = Some ch' ∧
    pc_since ch' = pc_since ch ++ [p] ∧
    (if decide (length (pc_buf ch) < pushCap)%nat then pc_buf ch' = pc_buf ch ++ [p] else pc_buf ch' = pc_buf ch).

Lemma publishEvent_hub kind data now f log : hub_logs (fe_hub f) log →
  ∃ f', publishEvent kind data now f = Some f' ∧ fe_subs f' = fe_subs f ∧ hub_has (fe_hub f') log kind data now ∧
    (fe_hub f' = None ↔ fe_hub f = None).
Proof.
  unfold publishEvent. destruct f as [[h|] s]; cbn; [|intros _; by eexists].
  intros (Hr & Ho & Hl). destruct (Publish_logs h log kind data now Hr Ho Hl) as (h' & ev & -> & -> & Hr' & Ho').
  eexists. split; [done|]. cbn. by split_and!.
Qed.

Lemma offer_all_each (p : push) cs : ∀ m m', NoDup cs → offer_all p cs m = Some m' →
  (∀ c, c ∉ cs → m' !! c = m !! c) ∧ ∀ c, c ∈ cs → ∃ ch ch', m !! c = Some ch ∧ offer p ch = Some ch' ∧ m' !! c = Some ch'.
Proof.
  induction cs as [|c cs IH]; intros m m' Hnd; cbn [offer_all].
  { intros [= <-]. split; [done|]. intros c H. by apply elem_of_nil in H. }
  apply NoDup_cons in Hnd as [Hc Hnd]. intros (m1 & H1 & H2)%bind_Some. unfold offer_to in H1.
  apply bind_Some in H1 as (ch & Hch & H1). apply bind_Some in H1 as (ch' & Hch' & [= <-]).
  destruct (IH _ _ Hnd H2) as [Hout Hin]. split.
  - intros d [Hne Hd]%not_elem_of_cons. rewrite Hout by done. by rewrite lookup_insert_ne.
  - intros d [->|Hd]%elem_of_cons.
    + exists ch, ch'. rewrite Hout by done. by rewrite lookup_insert_eq.
    + destruct (Hin d Hd) as (x & x' & Hx & ? & ?). exists x, x'. rewrite lookup_insert_ne in Hx by (by intros ->). done.
Qed.
Lemma publish_offers walk p f : subs_ok (fe_subs f) → walk ≡ₚ elements (su_subs (fe_subs f)) → can_marshal p = true →
  ∃ f', publish walk p f = Some f' ∧ fe_hub f' = fe_hub f ∧ subscribers_offered p (fe_subs f) (fe_subs f') ∧ subs_ok (fe_subs f').
Proof.
  intros Hs Hw Hm. unfold publish. rewrite Hm. destruct (publishRaw_ok walk p (fe_subs f) Hs Hw) as (s' & E & Hs'). rewrite E. cbn.
  eexists. split; [done|]. split; [done|]. split; [|done]. unfold publishRaw in E. apply bind_Some in E as (m & E & [= <-]). split; [done|].
  intros c Hc. destruct (offer_all_each p walk (su_chans (fe_subs f)) m) as [_ Hin]; [rewrite Hw; apply NoDup_elements|done|].
  destruct (Hin c) as (ch & ch' & H1 & H2 & H3); [by rewrite Hw, elem_of_elements|]. exists ch, ch'. split; [done|]. split; [done|].
  unfold offer in H2. destruct (pc_closed ch); [done|]. injection H2 as <-.
  case_decide as Hd; [rewrite (proj2 (Nat.ltb_lt _ _) Hd)|rewrite (proj2 (Nat.ltb_ge _ _)) by lia]; done.
Qed.

(** a line of the log reaches everyone.  The hub has it as its next
    event, so that an HTTP client gets it or learns of the gap; every client
    of the socket has it waiting unless its channel is full, and no client,
    however slow, stops the daemon from logging or keeps the line from the
    others. *)
Theorem a_log_line_reaches_everyone walk now level message f log :
  hub_logs (fe_hub f) log → subs_ok (fe_subs f) → walk ≡ₚ elements (su_subs (fe_subs f)) → can_marshal (PushLog now level message) = true →
  ∃ f', logEvent_feeds walk now level message f = Some f' ∧
    hub_has (fe_hub f') log "log" (FeedLog level message) now ∧
    subscribers_offered (PushLog now level message) (fe_subs f) (fe_subs f') ∧ subs_ok (fe_subs f').
Proof.
  intros Hh Hs Hw Hm. unfold logEvent_feeds.
  destruct (publishEvent_hub "log" (FeedLog level message) now f log Hh) as (f1 & -> & Es & Hh1 & _). cbn.
  rewrite <- Es in Hs, Hw. destruct (publish_offers walk _ f1 Hs Hw Hm) as (f2 & -> & Eh & Ho & Hs2).
  exists f2. rewrite Eh, <- Es. by split_and!.
Qed.

(** the web client is told even when no terminal runs.  A status is the
    hub's next event whether or not the socket has a subscriber, and whether
    or not it can be written; with subscribers each is offered it. *)
Theorem status_feeds_hub_first walk now st f log :
  hub_logs (fe_hub f) log → subs_ok (fe_subs f) → walk ≡ₚ elements (su_subs (fe_subs f)) →
  ∃ f', broadcastStatus walk now st f = Some f' ∧
    hub_has (fe_hub f') log "drives" (FeedDrives (sr_Drives st)) now ∧
    (if can_marshal (PushStatus st) then subscribers_offered (PushStatus st) (fe_subs f) (fe_subs f') else fe_subs f' = fe_subs f).
Proof.
  intros Hh Hs Hw. unfold broadcastStatus.
  destruct (publishEvent_hub "drives" (FeedDrives (sr_Drives st)) now f log Hh) as (f1 & -> & Es & Hh1 & _). cbn.
  rewrite <- Es in Hs, Hw. case_decide as Hz.
  - exists f1. split; [done|]. split; [done|]. destruct (can_marshal _); [|done]. split; [by rewrite Es|].
    intros c Hc. rewrite <- Es in Hc. apply size_empty_inv in Hz. set_solver.
  - destruct (can_marshal (PushStatus st)) eqn:Hm.
    + destruct (publish_offers walk _ f1 Hs Hw Hm) as (f2 & -> & Eh & Ho & Hs2). exists f2. rewrite Eh, <- Es. by split_and!.
    + unfold publish. rewrite Hm. by exists f1.
Qed.
End feeds.

(** ** A terminal that has fallen behind, and a web client *)

Definition one_terminal : Feeds := mkFeeds (Some NewHub) (subscribe no_subs).1.
Lemma NewHub_logs : hub_logs (Some NewHub) [].
Proof.
  split; [|split; [intros c Hc; set_solver|cbn; lia]]. split; cbn; try done; try lia.
Qed.
Lemma one_terminal_ok : subs_ok (fe_subs one_terminal).
Proof. apply reachable_ok. eapply rtc_l; [apply push_subscribe|apply rtc_refl]. Qed.

Lemma a_log_line_reaches_everyone_witness :
  ∃ f', logEvent_feeds (λ _, true) [0%nat] 5 "info" "disc in" one_terminal = Some f' ∧
    hub_has (fe_hub f') [] "log" (FeedLog "info" "disc in") 5 ∧
    ∃ ch, su_chans (fe_subs f') !! 0%nat = Some ch ∧ pc_buf ch = [PushLog 5 "info" "disc in"].
Proof.
  destruct (a_log_line_reaches_everyone (λ _, true) [0%nat] 5 "info" "disc in" one_terminal []) as (f' & E & Hh & [_ Hs] & _).
  - exact NewHub_logs.
  - exact one_terminal_ok.
  - vm_compute. reflexivity.
  - reflexivity.
  - exists f'. split; [exact E|]. split; [exact Hh|].
    destruct (Hs 0%nat) as (ch & ch' & H1 & H2 & _ & H4); [vm_compute; reflexivity|].
    exists ch'. split; [exact H2|]. cbn in H1. injection H1 as <-. exact H4.
Defined.
Lemma status_feeds_hub_first_witness :
  ∃ f', broadcastStatus (λ _, true) [0%nat] 5 (mkStatusReply 1 1 [] [] (mkTranscodeSnapshot false "" 0 0 0 false 0 0) 0 "" 0) one_terminal = Some f' ∧
    hub_has (fe_hub f') [] "drives" (FeedDrives []) 5.
Proof.
  destruct (status_feeds_hub_first (λ _, true) [0%nat] 5 (mkStatusReply 1 1 [] [] (mkTranscodeSnapshot false "" 0 0 0 false 0 0) 0 "" 0) one_terminal []) as (f' & E & Hh & _).
  - exact NewHub_logs.
  - exact one_terminal_ok.
  - vm_compute. reflexivity.
  - exists f'. split; [exact E|exact Hh].
Defined.
