(* ===== verification/ConnRun.v ===== *)
(** * The goroutines of one connection (handleConn in internal/daemon/server.go)

    Three goroutines and two channels: the reader handles the client's lines
    and, when they end, tears the rest down; the pump, started by the first
    subscription, passes on what is published; the writer alone writes.  A
    step is one operation of one goroutine, and any order of steps is
    possible.

    [connection_never_panics]: nothing is sent on the closed channel, and it is
    closed once.  [replies_arrive_in_order]: what a client is sent of its own
    is a part of what its lines are answered, in order, and all of it unless
    the context ends or the client goes away.  [teardown_ends]: once the lines
    are at an end and nothing more is published, every run is finite and stops
    only when handleConn has returned.  [stalled_client_blocks_teardown] is a
    limit: while a write does not return, handleConn does not either, whether
    or not its context has ended. *)

From S2P Require Import Prelude GoText Status Store StoreWf Daemon Worker WorkerScan Transcoder TranscoderFacts Server ServerFacts.
#[local] Open Scope nat_scope.

Section conn.
(** What the reader sends, and what is published. *)
Context {A P : Type}.

Definition outCap : nat := 64.
Definition pushesCap : nat := 64.

Inductive item := Own (a : A) | Published (p : P).

(** The reader: waiting for a line, sending what a line is answered, and the
    stages of its deferred calls. *)
Inductive reader := Reading | Sending (l : list A) | Unsubscribing | WaitingPump | Closing | WaitingWriter | Cancelling | Returned.
Inductive pump := NoPump | Pumping | PumpSending (p : P) | PumpDone.
Inductive writer := Writing | Encoding (m : item) | WriterDone.

Record Conn := mkConn {
  cn_reader : reader;
  (** The lines still to come: what each is answered, and whether it subscribes. *)
  cn_lines : list (list A * bool);
  cn_out : list item;
  cn_closed : bool;
  cn_pump : pump;
  (** The subscription: what waits in its channel, and whether that is closed. *)
  cn_pushes : option (list P * bool);
  cn_writer : writer;
  (** connCtx has ended; the client has gone. *)
  cn_cancelled : bool;
  cn_gone : bool;
  cn_wire : list item;
}.
Definition conn_start (lines : list (list A * bool)) : Conn :=
  mkConn Reading lines [] false NoPump None Writing false false [].

Definition set_reader (r : reader) (s : Conn) : Conn :=
  mkConn r (cn_lines s) (cn_out s) (cn_closed s) (cn_pump s) (cn_pushes s) (cn_writer s) (cn_cancelled s) (cn_gone s) (cn_wire s).
Definition set_lines (l : list (list A * bool)) (s : Conn) : Conn :=
  mkConn (cn_reader s) l (cn_out s) (cn_closed s) (cn_pump s) (cn_pushes s) (cn_writer s) (cn_cancelled s) (cn_gone s) (cn_wire s).
Definition set_out (l : list item) (s : Conn) : Conn :=
  mkConn (cn_reader s) (cn_lines s) l (cn_closed s) (cn_pump s) (cn_pushes s) (cn_writer s) (cn_cancelled s) (cn_gone s) (cn_wire s).
Definition set_closed (s : Conn) : Conn :=
  mkConn (cn_reader s) (cn_lines s) (cn_out s) true (cn_pump s) (cn_pushes s) (cn_writer s) (cn_cancelled s) (cn_gone s) (cn_wire s).
Definition set_pump (p : pump) (s : Conn) : Conn :=
  mkConn (cn_reader s) (cn_lines s) (cn_out s) (cn_closed s) p (cn_pushes s) (cn_writer s) (cn_cancelled s) (cn_gone s) (cn_wire s).
Definition set_pushes (p : option (list P * bool)) (s : Conn) : Conn :=
  mkConn (cn_reader s) (cn_lines s) (cn_out s) (cn_closed s) (cn_pump s) p (cn_writer s) (cn_cancelled s) (cn_gone s) (cn_wire s).
Definition set_writer (w : writer) (s : Conn) : Conn :=
  mkConn (cn_reader s) (cn_lines s) (cn_out s) (cn_closed s) (cn_pump s) (cn_pushes s) w (cn_cancelled s) (cn_gone s) (cn_wire s).
Definition set_cancelled (s : Conn) : Conn :=
  mkConn (cn_reader s) (cn_lines s) (cn_out s) (cn_closed s) (cn_pump s) (cn_pushes s) (cn_writer s) true (cn_gone s) (cn_wire s).
Definition set_gone (s : Conn) : Conn :=
  mkConn (cn_reader s) (cn_lines s) (cn_out s) (cn_closed s) (cn_pump s) (cn_pushes s) (cn_writer s) (cn_cancelled s) true (cn_wire s).
Definition set_wire (l : list item) (s : Conn) : Conn :=
  mkConn (cn_reader s) (cn_lines s) (cn_out s) (cn_closed s) (cn_pump s) (cn_pushes s) (cn_writer s) (cn_cancelled s) (cn_gone s) l.

Inductive event :=
| ReadLine | ReadEnd
| ReaderSend | ReaderGiveUp
| Defer
| PumpTake | PumpSend | PumpGiveUp | PumpStop
| WriterTake | WriterWrite | WriterFail | WriterStop
| Publish (p : P)
| ContextDone | ClientGone.

(** What a step comes to: not possible, a stopped program, or the next state. *)
Inductive result := Blocked | Panic | Next (s : Conn).

(** [case out <- msg] of send. *)
Definition send_out (m : item) (s : Conn) (k : Conn → Conn) : result :=
  if cn_closed s then Panic
  else if length (cn_out s) <? outCap then Next (k (set_out (cn_out s ++ [m]) s)) else Blocked.

(** Back to the client's lines once a line is answered. *)
Definition answering (l : list A) : reader := match l with [] => Reading | _ => Sending l end.

(** The next of the deferred calls; the last closes the connection and returns. *)
Definition defer (s : Conn) : result :=
  match cn_reader s with
  | Unsubscribing =>
      Next (set_reader WaitingPump (match cn_pushes s with Some (l, _) => set_pushes (Some (l, true)) s | None => s end))
  | WaitingPump => match cn_pump s with NoPump | PumpDone => Next (set_reader Closing s) | _ => Blocked end
  | Closing => if cn_closed s then Panic else Next (set_reader WaitingWriter (set_closed s))
  | WaitingWriter => match cn_writer s with WriterDone => Next (set_reader Cancelling s) | _ => Blocked end
  | Cancelling => Next (set_reader Returned (set_cancelled s))
  | _ => Blocked
  end.

Definition conn_event (s : Conn) (e : event) : result :=
  match e with
  | ReadLine =>
      match cn_reader s, cn_lines s with
      | Reading, (msgs, sub) :: lines =>
          let s := set_lines lines (set_reader (answering msgs) s) in
          match sub, cn_pushes s with
          | true, None => Next (set_pump Pumping (set_pushes (Some ([], false)) s))
          | _, _ => Next s
          end
      | _, _ => Blocked
      end
  | ReadEnd =>
      match cn_reader s with
      | Reading => if (length (cn_lines s) =? 0) || cn_gone s then Next (set_reader Unsubscribing s) else Blocked
      | _ => Blocked
      end
  | ReaderSend => match cn_reader s with Sending (a :: l) => send_out (Own a) s (set_reader (answering l)) | _ => Blocked end
  | ReaderGiveUp =>
      match cn_reader s with Sending (a :: l) => if cn_cancelled s then Next (set_reader (answering l) s) else Blocked | _ => Blocked end
  | Defer => defer s
  | PumpTake =>
      match cn_pump s, cn_pushes s with
      | Pumping, Some (p :: l, c) => Next (set_pump (PumpSending p) (set_pushes (Some (l, c)) s))
      | _, _ => Blocked
      end
  | PumpSend => match cn_pump s with PumpSending p => send_out (Published p) s (set_pump Pumping) | _ => Blocked end
  | PumpGiveUp => match cn_pump s with PumpSending p => if cn_cancelled s then Next (set_pump Pumping s) else Blocked | _ => Blocked end
  | PumpStop =>
      match cn_pump s with
      | Pumping =>
          if cn_cancelled s || match cn_pushes s with Some ([], true) => true | _ => false end then Next (set_pump PumpDone s) else Blocked
      | _ => Blocked
      end
  | WriterTake => match cn_writer s, cn_out s with Writing, m :: l => Next (set_writer (Encoding m) (set_out l s)) | _, _ => Blocked end
  | WriterWrite =>
      match cn_writer s with
      | Encoding m => Next (set_writer Writing (set_wire (cn_wire s ++ [m]) s))
      | _ => Blocked
      end
  | WriterFail => match cn_writer s with Encoding m => if cn_gone s then Next (set_writer WriterDone (set_cancelled s)) else Blocked | _ => Blocked end
  | WriterStop =>
      match cn_writer s with
      | Writing => if cn_cancelled s || ((length (cn_out s) =? 0) && cn_closed s) then Next (set_writer WriterDone s) else Blocked
      | _ => Blocked
      end
  | Publish p =>
      match cn_pushes s with
      | Some (l, false) => Next (if length l <? pushesCap then set_pushes (Some (l ++ [p], false)) s else s)
      | _ => Blocked
      end
  | ContextDone => Next (set_cancelled s)
  | ClientGone => Next (set_gone s)
  end.

Fixpoint conn_exec (s : Conn) (es : list event) : result :=
  match es with
  | [] => Next s
  | e :: es => match conn_event s e with Next s => conn_exec s es | r => r end
  end.

(** ** What holds of every state *)

Definition past_pump (r : reader) : bool := match r with Closing | WaitingWriter | Cancelling | Returned => true | _ => false end.
Definition past_close (r : reader) : bool := match r with WaitingWriter | Cancelling | Returned => true | _ => false end.
Definition past_writer (r : reader) : bool := match r with Cancelling | Returned => true | _ => false end.
Definition past_unsubscribe (r : reader) : bool :=
  match r with WaitingPump | Closing | WaitingWriter | Cancelling | Returned => true | _ => false end.
Definition pump_ended (p : pump) : bool := match p with NoPump | PumpDone => true | _ => false end.

Record conn_ok (s : Conn) : Prop := mkConnOk {
  ck_pump : past_pump (cn_reader s) = true → pump_ended (cn_pump s) = true;
  ck_closed : cn_closed s = past_close (cn_reader s);
  ck_writer : past_writer (cn_reader s) = true → cn_writer s = WriterDone;
  ck_none : cn_pushes s = None → cn_pump s = NoPump;
  ck_sub : past_unsubscribe (cn_reader s) = true → match cn_pushes s with Some (_, c) => c = true | None => True end;
  ck_done : cn_writer s = WriterDone → cn_cancelled s = true ∨ cn_closed s = true;
  ck_busy : ∀ l, cn_reader s = Sending l → l ≠ [];
}.

Ltac conn_cases H :=
  repeat match type of H with
  | context [match ?x with _ => _ end] => destruct x eqn:?
  end; try discriminate H.

Lemma conn_event_ok s e : conn_ok s → conn_event s e ≠ Panic ∧ ∀ s', conn_event s e = Next s' → conn_ok s'.
Proof.
  intros Hok. pose proof Hok as [Hp Hc Hw Hn Hs Hd Hb].
  destruct s as [r ls o c pm ps w ca g wi]. cbn in *.
  split.
  - intros H. destruct e; cbn in H; unfold defer, send_out in H; cbn in H; conn_cases H; subst; cbn in *; try discriminate; try congruence;
      destruct r; cbn in *; try discriminate; discriminate (Hp eq_refl).
  - intros s' H. destruct e; cbn in H; unfold defer, send_out in H; cbn in H; conn_cases H; injection H as <-; subst; split; cbn in *; try done; try congruence; auto.
    all: try match goal with |- context [answering ?l] => destruct l end; cbn; try done; try (by intros ? [= <-]).
    all: try (intros E; first [specialize (Hn E) | specialize (Hw E)]; discriminate).
    all: intros _; match goal with H : _ || _ = true |- _ => apply orb_true_iff in H as [->|[_ H]%andb_true_iff]; auto end.
Qed.

Lemma conn_start_ok lines : conn_ok (conn_start lines).
Proof. by split. Qed.

Lemma conn_exec_app s es es' : conn_exec s (es ++ es') = match conn_exec s es with Next s' => conn_exec s' es' | r => r end.
Proof. revert s; induction es as [|e es IH]; intros s; [done|]. cbn. destruct (conn_event s e); [done..|]. apply IH. Qed.
(** A property that every step keeps holds after any run. *)
Lemma conn_exec_inv (I : Conn → Prop) (ok : event → Prop) s es s' :
  (∀ s e s', I s → ok e → conn_event s e = Next s' → I s') → I s → Forall ok es → conn_exec s es = Next s' → I s'.
Proof.
  intros Hstep. revert s. induction es as [|e es IH]; intros s Hs Hok; cbn; [by intros [= <-]|].
  apply Forall_cons in Hok as [He Hes]. destruct (conn_event s e) as [| |s1] eqn:E; [done..|]. eauto.
Qed.
Lemma conn_exec_ok s es s' : conn_ok s → conn_exec s es = Next s' → conn_ok s'.
Proof.
  intros Hs. apply (conn_exec_inv conn_ok (λ _, True)); [|done|by apply Forall_forall].
  intros s1 e s2 H1 _ E. by apply (conn_event_ok s1 e).
Qed.

(** C17: a connection never stops the program.  Whatever the order in which
    its goroutines take their steps, nothing is sent on the channel of the
    writer once it is closed, and it is not closed twice. *)
Theorem connection_never_panics lines es : conn_exec (conn_start lines) es ≠ Panic.
Proof.
  intros H. assert (∀ s, conn_ok s → conn_exec s es ≠ Panic) as Hn.
  { clear. induction es as [|e es IH]; intros s Hs; cbn; [done|].
    destruct (conn_event_ok s e Hs) as [Hp Hok]. destruct (conn_event s e) as [| |s1] eqn:E; [done|done|]. by apply IH, Hok. }
  exact (Hn _ (conn_start_ok lines) H).
Qed.

(** ** Order *)

Definition owns (l : list item) : list A := omap (λ m, match m with Own a => Some a | Published _ => None end) l.
Definition pending (r : reader) : list A := match r with Sending l => l | _ => [] end.
Definition encoding (w : writer) : list item := match w with Encoding m => [m] | _ => [] end.
(** What is on its way, from the wire back to the lines still to come. *)
Definition in_order (s : Conn) : list A :=
  owns (cn_wire s ++ encoding (cn_writer s) ++ cn_out s) ++ pending (cn_reader s) ++ concat (cn_lines s).*1.

Lemma owns_app l k : owns (l ++ k) = owns l ++ owns k.
Proof. apply omap_app. Qed.
Lemma pending_answering l : pending (answering l) = l.
Proof. by destruct l. Qed.

Lemma conn_event_order s e s' : conn_event s e = Next s' →
  in_order s' `sublist_of` in_order s ∧ (cn_cancelled s = false → e ≠ WriterFail → in_order s' = in_order s).
Proof.
  intros H. destruct s as [r ls o c pm ps w ca g wi].
  assert (∀ l k : list A, l = k → l `sublist_of` k ∧ (ca = false → e ≠ WriterFail → l = k)) as Heq by (by intros l k ->).
  destruct e; cbn in H; unfold defer, send_out in H; cbn in H; conn_cases H; injection H as <-; subst; cbn in *;
    unfold in_order; cbn; rewrite ?pending_answering, ?app_nil_r, ?owns_app, <- ?app_assoc; cbn; try (by apply Heq).
  - split; [|done]. do 3 (apply sublist_app; [done|]). by apply sublist_cons.
  - apply Heq. by destruct m.
  - split; [|done]. apply sublist_app; [done|]. by destruct m; [apply sublist_cons|].
Qed.

(** The context has not ended and the client is there. *)
Definition undisturbed (e : event) : Prop := match e with ContextDone | ClientGone | WriterFail => False | _ => True end.
Definition leaving (r : reader) : bool := match r with Reading | Sending _ => false | _ => true end.
Record calm_conn (all : list A) (s : Conn) : Prop := mkCalmConn {
  ca_ok : conn_ok s;
  ca_order : in_order s = all;
  ca_gone : cn_gone s = false;
  ca_cancelled : cn_cancelled s = true → cn_reader s = Returned;
  ca_lines : leaving (cn_reader s) = true → cn_lines s = [];
  ca_out : cn_writer s = WriterDone → cn_out s = [];
}.

Lemma calm_event all s e s' : calm_conn all s → undisturbed e → conn_event s e = Next s' → calm_conn all s'.
Proof.
  intros [Hok Ho Hg Hc Hl Hw] He H. pose proof (proj2 (conn_event_ok s e Hok) s' H) as Hok'.
  assert (in_order s' = all) as Ho'.
  { destruct (cn_cancelled s) eqn:E; [|destruct (conn_event_order s e s' H) as [_ Hx]; rewrite Hx; [done..|by intros ->]].
    specialize (Hc eq_refl). destruct Hok as [Hp Hcl Hwd _ _ _ _]. rewrite Hc in *. specialize (Hp eq_refl). specialize (Hwd eq_refl).
    destruct s as [r ls o c pm ps w ca g wi]. cbn in *. subst.
    destruct e; cbn in H; unfold defer, send_out in H; cbn in H; conn_cases H; injection H as <-; subst; done. }
  split; [done|done|..]; destruct Hok as [Hp Hcl Hwd Hn Hs Hd Hb]; clear Hok' Ho Ho'; destruct s as [r ls o c pm ps w ca g wi]; cbn in *; subst;
    destruct e; try done; cbn in H; unfold defer, send_out in H; cbn in H; conn_cases H; injection H as <-; cbn in *; subst; try done; auto;
    try (intros E; specialize (Hc E); discriminate Hc); try (by (match goal with |- context [answering ?l] => destruct l end)).
  - intros _. rewrite orb_false_r in *. destruct ls; [done|discriminate].
  - intros Ew. destruct (Hd Ew) as [E|E]; [specialize (Hc E); discriminate Hc|discriminate E].
  - intros Ew. destruct (Hd Ew) as [E|E]; [specialize (Hc E); subst r; discriminate|congruence].
  - intros _. destruct ca; [specialize (Hc eq_refl); subst r; by discriminate (Hwd eq_refl)|]. destruct o; [done|discriminate].
Qed.

Lemma calm_start lines : calm_conn (concat lines.*1) (conn_start lines).
Proof. by split. Qed.

Lemma wire_sublist lines es s : conn_exec (conn_start lines) es = Next s → owns (cn_wire s) `sublist_of` concat lines.*1.
Proof.
  intros H. assert (in_order s `sublist_of` concat lines.*1) as Hs.
  { apply (conn_exec_inv (λ s, in_order s `sublist_of` concat lines.*1) (λ _, True) (conn_start lines) es s); [|done|by apply Forall_forall|done].
    intros s1 e s2 H1 _ E. etrans; [|exact H1]. by apply (conn_event_order s1 e s2). }
  etrans; [|exact Hs]. unfold in_order. rewrite !owns_app, <- !app_assoc. by apply sublist_inserts_r.
Qed.
Lemma wire_complete lines es s : conn_exec (conn_start lines) es = Next s → Forall undisturbed es → cn_reader s = Returned →
  owns (cn_wire s) = concat lines.*1.
Proof.
  intros H Hes Hr. assert (calm_conn (concat lines.*1) s) as [Hok Ho _ _ Hl Hw].
  { apply (conn_exec_inv (calm_conn (concat lines.*1)) undisturbed (conn_start lines) es s); [apply calm_event|apply calm_start|done..]. }
  destruct Hok as [_ _ Hwd _ _ _ _]. rewrite Hr in *. specialize (Hwd eq_refl). specialize (Hl eq_refl). specialize (Hw Hwd).
  rewrite <- Ho. unfold in_order. rewrite Hwd, Hw, Hl, Hr. cbn. by rewrite !app_nil_r.
Qed.

(** ** The end *)

(** A step of the connection's own goroutines. *)
Definition internal (e : event) : bool := match e with Publish _ | ContextDone | ClientGone => false | _ => true end.
Definition reader_rank (r : reader) : nat :=
  match r with
  | Reading => 6 | Sending l => 6 + 3 * length l | Unsubscribing => 5 | WaitingPump => 4 | Closing => 3
  | WaitingWriter => 2 | Cancelling => 1 | Returned => 0
  end.
Definition lines_rank (l : list (list A * bool)) : nat := sum_list ((λ x, 2 + 3 * length x.1) <$> l).
Definition pump_rank (p : pump) : nat := match p with NoPump | PumpDone => 0 | Pumping => 1 | PumpSending _ => 4 end.
Definition writer_rank (w : writer) : nat := match w with WriterDone => 0 | Writing => 1 | Encoding _ => 2 end.
Definition conn_rank (s : Conn) : nat :=
  reader_rank (cn_reader s) + lines_rank (cn_lines s) + 2 * length (cn_out s) + pump_rank (cn_pump s) +
  match cn_pushes s with Some (l, _) => 4 * length l | None => 0 end + writer_rank (cn_writer s).

Lemma conn_event_rank s e s' : conn_ok s → internal e = true → conn_event s e = Next s' → conn_rank s' < conn_rank s.
Proof.
  intros Hok He H. destruct Hok as [_ _ _ Hn _ _ _]. destruct s as [r ls o c pm ps w ca g wi]. unfold conn_rank.
  assert (∀ l, reader_rank (answering l) = 6 + 3 * length l) as Ha by (by intros [|]).
  destruct e; try done; cbn in H; unfold defer, send_out in H; cbn in H; conn_cases H; injection H as <-; subst; cbn in *;
    rewrite ?Ha, ?length_app; cbn; try lia.
Qed.

Lemma out_moves s : conn_ok s → cn_closed s = false → cn_cancelled s = false → outCap ≤ length (cn_out s) →
  ∃ e s', internal e = true ∧ conn_event s e = Next s'.
Proof.
  intros [_ _ _ _ _ Hd _] Hc Hca Hl. destruct (cn_writer s) as [|m|] eqn:Ew.
  - destruct (cn_out s) as [|m l] eqn:Eo; [unfold outCap in Hl; cbn in Hl; lia|]. exists WriterTake. cbn. rewrite Ew, Eo. eauto.
  - exists WriterWrite. cbn. rewrite Ew. eauto.
  - destruct (Hd eq_refl); congruence.
Qed.
(** Until handleConn has returned some goroutine can take a step. *)
Lemma conn_progress s : conn_ok s → cn_reader s ≠ Returned → ∃ e s', internal e = true ∧ conn_event s e = Next s'.
Proof.
  intros Hok Hr. pose proof Hok as [Hp Hc Hw Hn Hs Hd Hb]. destruct (cn_reader s) as [|l| | | | | |] eqn:Er; try done.
  - destruct (cn_lines s) as [|[msgs sub] lines] eqn:El.
    + exists ReadEnd. cbn. rewrite Er, El. cbn. eauto.
    + exists ReadLine. cbn. rewrite Er, El. destruct sub; [|eauto]. cbn. destruct (cn_pushes s); eauto.
  - destruct l as [|a l]; [by specialize (Hb [] eq_refl)|]. destruct (cn_cancelled s) eqn:Eca.
    { exists ReaderGiveUp. cbn. rewrite Er, Eca. eauto. }
    destruct (Nat.ltb_spec (length (cn_out s)) outCap) as [Hlt|Hge]; [|by apply out_moves].
    exists ReaderSend. cbn. rewrite Er. unfold send_out. rewrite Hc, (proj2 (Nat.ltb_lt _ _) Hlt). cbn. eauto.
  - exists Defer. cbn. unfold defer. rewrite Er. eauto.
  - specialize (Hs eq_refl). destruct (cn_pump s) as [| |p|] eqn:Ep.
    + exists Defer. cbn. unfold defer. rewrite Er, Ep. eauto.
    + destruct (cn_pushes s) as [[[|p l] c]|] eqn:Epu; [|exists PumpTake; cbn; rewrite Ep, Epu; eauto|by specialize (Hn eq_refl)].
      exists PumpStop. cbn. rewrite Ep, Epu, Hs, orb_true_r. eauto.
    + destruct (cn_cancelled s) eqn:Eca. { exists PumpGiveUp. cbn. rewrite Ep, Eca. eauto. }
      destruct (Nat.ltb_spec (length (cn_out s)) outCap) as [Hlt|Hge]; [|by apply out_moves].
      exists PumpSend. cbn. rewrite Ep. unfold send_out. rewrite Hc, (proj2 (Nat.ltb_lt _ _) Hlt). cbn. eauto.
    + exists Defer. cbn. unfold defer. rewrite Er, Ep. eauto.
  - exists Defer. cbn. unfold defer. rewrite Er, Hc. cbn. eauto.
  - destruct (cn_writer s) as [|m|] eqn:Ew; [|exists WriterWrite; cbn; rewrite Ew; eauto|exists Defer; cbn; unfold defer; rewrite Er, Ew; eauto].
    destruct (cn_out s) as [|m l] eqn:Eo; [exists WriterStop|exists WriterTake; cbn; rewrite Ew, Eo; eauto].
    cbn. rewrite Ew, Eo, Hc, orb_true_r. eauto.
  - exists Defer. cbn. unfold defer. rewrite Er. eauto.
Qed.

(** C18: a connection's teardown ends.  From any state its goroutines can
    reach, the steps they can take by themselves are bounded in number, and
    when none is left handleConn has returned: there is no deadlock, with the
    channel of the writer full or not, the context ended or not, and the
    client gone or not. *)
Theorem teardown_ends lines es s : conn_exec (conn_start lines) es = Next s →
  (∀ es' s', Forall (λ e, internal e = true) es' → conn_exec s es' = Next s' → length es' ≤ conn_rank s) ∧
  ((∀ e s', internal e = true → conn_event s e ≠ Next s') → cn_reader s = Returned).
Proof.
  intros H. apply conn_exec_ok in H; [|apply conn_start_ok]. split.
  - intros es' s' Hi. revert s H. induction Hi as [|e es' He _ IH]; intros s Hs; cbn; [lia|].
    destruct (conn_event s e) as [| |s1] eqn:E; [done..|]. intros H1.
    pose proof (conn_event_rank s e s1 Hs He E). apply IH in H1; [lia|]. by apply (conn_event_ok s e).
  - intros Hstuck. assert (cn_reader s = Returned ∨ cn_reader s ≠ Returned) as [?|Hr]; [|done|].
    { destruct (cn_reader s); auto. }
    destruct (conn_progress s H Hr) as (e & s' & He & E). by apply (Hstuck e s') in He.
Qed.

(** C40: a client that stops reading keeps its connection open.  While a write
    to it does not return, handleConn does not return either: not when the
    client has ended its side, and not when the context has ended, since the
    writer looks at the context only between two writes and the connection is
    closed only after the writer has stopped. *)
Theorem stalled_client_blocks_teardown lines es s m es' s' :
  conn_exec (conn_start lines) es = Next s → cn_writer s = Encoding m →
  Forall (λ e, e ≠ WriterWrite ∧ e ≠ WriterFail) es' → conn_exec s es' = Next s' →
  cn_writer s' = Encoding m ∧ cn_reader s' ≠ Returned.
Proof.
  intros H Hw Hes H'. apply conn_exec_ok in H; [|apply conn_start_ok].
  assert (conn_ok s' ∧ cn_writer s' = Encoding m) as [Hok Hm].
  { apply (conn_exec_inv (λ s, conn_ok s ∧ cn_writer s = Encoding m) (λ e, e ≠ WriterWrite ∧ e ≠ WriterFail) s es'); [|done..].
    intros s1 e s2 [H1 Hm] [Hn1 Hn2] E. split; [by apply (conn_event_ok s1 e)|].
    destruct s1 as [r ls o c pm ps w ca g wi]. cbn in Hm. subst w.
    destruct e; try done; cbn in E; unfold defer, send_out in E; cbn in E; conn_cases E; injection E as <-; done. }
  split; [done|]. intros Hr. destruct Hok as [_ _ Hwd _ _ _ _]. rewrite Hr in Hwd. specialize (Hwd eq_refl). congruence.
Qed.
End conn.


Arguments event : clear implicits.
Arguments Conn : clear implicits.

(** ** The lines of a client *)

Section client_lines.
Context {U : Unicode}.
Context (unescape quote_other : string → string) (fold_other : string → string → bool).
Context (clock : nat → Z) (log_fault : nat → bool).
Notation line_step := (Server.conn_step unescape quote_other fold_other clock log_fault).
Notation answers := (Server.handleConn unescape quote_other fold_other clock log_fault).

(** What each line is answered, and whether it subscribes. *)
Fixpoint script (lines : list (ReqEnv * line)) (subscribed : bool) (s : Srv) : list (list message * bool) :=
  match lines with
  | [] => []
  | (v, l) :: lines => let '(out, sub, s) := line_step v l subscribed s in (out, sub) :: script lines sub s
  end.
Lemma script_answers lines sub s : concat (script lines sub s).*1 = (answers lines sub s).1.1.
Proof.
  revert sub s. induction lines as [|[v l] lines IH]; intros sub s; [done|]. cbn.
  destruct (line_step v l sub s) as [[out sub1] s1]. cbn. rewrite IH. by destruct (answers lines sub1 s1) as [[out' sub2] s2].
Qed.

(** C16: what a connection delivers.  Of its own, apart from what is
    published, a client receives a part of what its lines are answered, in
    order and each once, whatever its connection's goroutines and the rest of
    the daemon do; and all of it by the time handleConn returns, unless the
    context ends or the client goes away. *)
Theorem replies_arrive_in_order {P} lines srv es (s : Conn message P) :
  conn_exec (conn_start (script lines false srv)) es = Next s →
  owns (cn_wire s) `sublist_of` (answers lines false srv).1.1 ∧
  (Forall undisturbed es → cn_reader s = Returned → owns (cn_wire s) = (answers lines false srv).1.1).
Proof.
  intros H. rewrite <- script_answers. split; [by eapply wire_sublist|]. intros Hes Hr. by eapply wire_complete.
Qed.
End client_lines.

(** ** A run *)

(** A client subscribes and asks for something else; two messages are published. *)
Definition two_lines : list (list nat * bool) := [([1; 2], true); ([3], false)].
Definition whole_run : list (event nat) :=
  [ReadLine; Publish 7; ReaderSend; WriterTake; PumpTake; ReaderSend; PumpSend; WriterWrite; ReadLine; ReaderSend; Publish 8;
   WriterTake; WriterWrite; ReadEnd; Defer; WriterTake; PumpTake; PumpSend; PumpStop; Defer; WriterWrite; Defer;
   WriterTake; WriterWrite; WriterTake; WriterWrite; WriterStop; Defer; Defer].
Definition after (es : list (event nat)) : Conn nat nat :=
  match conn_exec (conn_start two_lines) es with Next s => s | _ => conn_start [] end.
Example whole_run_wire : cn_wire (after whole_run) = [Own 1; Own 2; Published 7; Own 3; Published 8] ∧ cn_reader (after whole_run) = Returned.
Proof. vm_compute. split; reflexivity. Qed.

Lemma teardown_ends_witness :
  (∀ es' s', Forall (λ e, internal e = true) es' → conn_exec (after (take 14 whole_run)) es' = Next s' → length es' ≤ 15) ∧
  cn_reader (after whole_run) = Returned.
Proof.
  split.
  - refine (proj1 (teardown_ends two_lines (take 14 whole_run) (after (take 14 whole_run)) _)). vm_compute. reflexivity.
  - refine (proj2 (teardown_ends two_lines whole_run (after whole_run) _) _); [vm_compute; reflexivity|].
    intros e s' He E. destruct e; vm_compute in He, E; discriminate.
Defined.

(** The client has ended its side and reads nothing; the context ends. *)
Lemma stalled_client_blocks_teardown_witness :
  cn_reader (after ([ReadLine; ReaderSend; WriterTake; ReaderSend; ReadLine; ReaderSend] ++ [ReadEnd; Defer; ContextDone; PumpStop; Defer; Defer])) ≠ Returned.
Proof.
  refine (proj2 (stalled_client_blocks_teardown two_lines [ReadLine; ReaderSend; WriterTake; ReaderSend; ReadLine; ReaderSend] _ (Own 1)
    [ReadEnd; Defer; ContextDone; PumpStop; Defer; Defer] _ _ _ _ _)).
  - vm_compute. reflexivity.
  - vm_compute. reflexivity.
  - repeat (constructor; [split; discriminate|]). constructor.
  - vm_compute. reflexivity.
Defined.

Definition one_request : list (ReqEnv * line) := [(demo_req None, Request 1 "retry" None)].
Definition one_run : list (event nat) :=
  [ReadLine; ReaderSend; ReadEnd; WriterTake; Defer; WriterWrite; Defer; Defer; WriterStop; Defer; Defer].
Lemma replies_arrive_in_order_witness :
  ∃ s : Conn message nat,
    conn_exec (conn_start (@script caseless no_text no_text (λ _ _, false) no_clock no_fault one_request false (demo_srv demo_store))) one_run = Next s ∧
    owns (cn_wire s) = [Response 1 (Err "retry is not implemented yet; eject and reinsert the disc")].
Proof.
  eexists. split; [vm_compute; reflexivity|].
  rewrite (proj2 (@replies_arrive_in_order caseless no_text no_text (λ _ _, false) no_clock no_fault nat one_request (demo_srv demo_store) one_run _ ltac:(vm_compute; reflexivity))).
  - vm_compute. reflexivity.
  - repeat (constructor; [exact I|]). constructor.
  - vm_compute. reflexivity.
Defined.
