(* ===== verification/Client.v ===== *)
(** * The client of the socket (internal/client/client.go, internal/proto/proto.go)

    How it connects and waits, the requests it numbers, and how it tells what
    it is sent; with the wire format of a request, a response and a push, as
    the JSON value their encoding is.

    [backoff_bounds] says how long it waits between attempts.
    [message_roundtrip] and [request_roundtrip]: each side reads what the
    other wrote; [answers_come_back]: a client's requests are answered under
    the ids it gave them, in order. *)

From S2P Require Import Prelude GoText GoBase Store Daemon Worker Server WorkerScan ServerFacts.
#[local] Open Scope Z_scope.

(** ** Connecting (Run) *)

Definition firstBackoff : Z := 250 * Millisecond.
Definition maxBackoff : Z := 5 * Second.

(** An attempt to dial: it fails, or the connection it makes ends. *)
Inductive dialled := DialFails | DialConnects.
(** The wait after an attempt, and the backoff that then holds. *)
Definition run_step (backoff : Z) (d : dialled) : Z * Z :=
  match d with
  | DialFails => (backoff, if backoff <? maxBackoff then backoff * 2 else backoff)
  | DialConnects => (firstBackoff, firstBackoff)
  end.
Fixpoint run_waits (backoff : Z) (ds : list dialled) : list Z :=
  match ds with
  | [] => []
  | d :: ds => let '(wait, backoff) := run_step backoff d in wait :: run_waits backoff ds
  end.

(** ** Requests (Send) *)

Record Client := mkClient { cl_conn : bool; cl_id : Z }.
Definition Send (c : Client) (method : string) (params : option json) : Client * outcome string (Z * json) :=
  if negb (cl_conn c) then (c, Err "not connected to hellboxd")
  else
    let id := cl_id c + 1 in
    (mkClient true id,
     Ok (id, JObject ([("id", JInt id); ("method", JString method)] ++ match params with Some p => [("params", p)] | None => [] end))).

Section wire.
(** json.Unmarshal's comparison of keys outside ASCII, and its errors. *)
Context (fold_other : string → string → bool) (type_error : string).

(** One field of a struct: the record and whether there was no error. *)
Definition set_field {R A} (get : json → option A) (put : A → R → R) (v : json) (acc : R * bool) : R * bool :=
  match v with
  | JNull => acc
  | _ => match get v with Some a => (put a acc.1, acc.2) | None => (acc.1, false) end
  end.
Definition set_bool (v : json) : option bool := match v with JBool b => Some b | _ => None end.
Definition key_is (name key : string) : bool := EqualFold fold_other key name.
(** json.Unmarshal into a struct, field by field. *)
Definition unmarshal_struct {R} (zero : R) (field : string → json → R * bool → R * bool) (v : json) : option R :=
  match v with
  | JNull => Some zero
  | JObject l => match foldl (λ acc kv, field kv.1 kv.2 acc) (zero, true) l with (r, true) => Some r | (_, false) => None end
  | _ => None
  end.

(** proto.Request, as the server reads it. *)
Record RequestMsg := mkRequestMsg { rm_ID : Z; rm_Method : string; rm_Params : option json }.
Definition request_field (key : string) (v : json) (acc : RequestMsg * bool) : RequestMsg * bool :=
  if key_is "id" key then set_field set_int (λ n r, mkRequestMsg n (rm_Method r) (rm_Params r)) v acc
  else if key_is "method" key then set_field set_string (λ s r, mkRequestMsg (rm_ID r) s (rm_Params r)) v acc
  else if key_is "params" key then (mkRequestMsg (rm_ID acc.1) (rm_Method acc.1) (Some v), acc.2)
  else acc.
Definition read_request (v : json) : line :=
  match unmarshal_struct (mkRequestMsg 0 "" None) request_field v with
  | Some r => Request (rm_ID r) (rm_Method r) (rm_Params r)
  | None => Malformed type_error
  end.

(** ** What the daemon sends *)

(** The encodings of the answers. *)
Context (reply_json : Reply → json) (status_json : StatusReply → json).
Definition encode_message (m : message) : json :=
  match m with
  | Response id (Ok r) => JObject [("id", JInt id); ("ok", JBool true); ("result", reply_json r)]
  | Response id (Err e) =>
      JObject ([("id", JInt id); ("ok", JBool false)] ++ if bool_decide (e = "") then [] else [("error", JString e)])
  | Accepted id => JObject [("id", JInt id); ("ok", JBool true)]
  | Push st => JObject [("event", JString "status"); ("data", status_json st)]
  end.

(** What the client makes of a line (read). *)
Record ResponseMsg := mkResponseMsg { rs_ID : Z; rs_OK : bool; rs_Error : string; rs_Result : option json }.
Record PushMsg := mkPushMsg { pm_Event : string; pm_Data : option json }.
Inductive received := GotPush (p : PushMsg) | GotResponse (r : ResponseMsg) | GotMalformed (what : string).

Definition probe_field (key : string) (v : json) (acc : (string * option Z) * bool) : (string * option Z) * bool :=
  if key_is "event" key then set_field set_string (λ s r, (s, r.2)) v acc
  else if key_is "id" key then
    match v with
    | JNull => ((acc.1.1, None), acc.2)
    | _ => set_field set_int (λ n r, (r.1, Some n)) v acc
    end
  else acc.
Definition push_field (key : string) (v : json) (acc : PushMsg * bool) : PushMsg * bool :=
  if key_is "event" key then set_field set_string (λ s r, mkPushMsg s (pm_Data r)) v acc
  else if key_is "data" key then (mkPushMsg (pm_Event acc.1) (Some v), acc.2)
  else acc.
Definition response_field (key : string) (v : json) (acc : ResponseMsg * bool) : ResponseMsg * bool :=
  if key_is "id" key then set_field set_int (λ n r, mkResponseMsg n (rs_OK r) (rs_Error r) (rs_Result r)) v acc
  else if key_is "ok" key then set_field set_bool (λ b r, mkResponseMsg (rs_ID r) b (rs_Error r) (rs_Result r)) v acc
  else if key_is "error" key then set_field set_string (λ s r, mkResponseMsg (rs_ID r) (rs_OK r) s (rs_Result r)) v acc
  else if key_is "result" key then (mkResponseMsg (rs_ID acc.1) (rs_OK acc.1) (rs_Error acc.1) (Some v), acc.2)
  else acc.
Definition read_message (v : json) : received :=
  match unmarshal_struct ("", None) probe_field v with
  | None => GotMalformed "malformed message from daemon"
  | Some (event, _) =>
      if bool_decide (event = "") then
        match unmarshal_struct (mkResponseMsg 0 false "" None) response_field v with
        | Some r => GotResponse r
        | None => GotMalformed "malformed response"
        end
      else
        match unmarshal_struct (mkPushMsg "" None) push_field v with
        | Some p => GotPush p
        | None => GotMalformed "malformed push"
        end
  end.

(** ** Facts *)

(** the waits between attempts to connect.  The first is a quarter of a
    second, and so is every wait after a connection; a wait never exceeds
    eight seconds, and it is at most twice the one before it. *)
Theorem backoff_bounds ds :
  Forall (λ w, firstBackoff ≤ w ≤ 8 * Second) (run_waits firstBackoff ds) ∧
  (∀ i w w', run_waits firstBackoff ds !! i = Some w → run_waits firstBackoff ds !! S i = Some w' → w' ≤ 2 * w) ∧
  ∀ i, ds !! i = Some DialConnects → run_waits firstBackoff ds !! i = Some firstBackoff.
Proof.
  assert (∀ b, b ∈ [250; 500; 1000; 2000; 4000; 8000] → 
    Forall (λ w, firstBackoff ≤ w ≤ 8 * Second) (run_waits (b * Millisecond) ds) ∧
    (∀ w, run_waits (b * Millisecond) ds !! O = Some w → w ≤ b * Millisecond) ∧
    (∀ i w w', run_waits (b * Millisecond) ds !! i = Some w → run_waits (b * Millisecond) ds !! S i = Some w' → w' ≤ 2 * w) ∧
    ∀ i, ds !! i = Some DialConnects → run_waits (b * Millisecond) ds !! i = Some firstBackoff) as H.
  { induction ds as [|d ds IH]; intros b Hb; [split; [constructor|]; split; [done|]; split; done|].
    assert (∃ b', b' ∈ [250; 500; 1000; 2000; 4000; 8000] ∧ (run_step (b * Millisecond) d).2 = b' * Millisecond ∧
      firstBackoff ≤ (run_step (b * Millisecond) d).1 ≤ b * Millisecond ∧ b * Millisecond ≤ 8 * Second ∧
      b' * Millisecond ≤ 2 * (run_step (b * Millisecond) d).1 ∧
      (d = DialConnects → (run_step (b * Millisecond) d).1 = firstBackoff)) as (b' & Hb' & E & Hw & H8 & H2 & Hc).
    { set_unfold in Hb. destruct d; repeat match type of Hb with _ ∨ _ => destruct Hb as [->|Hb] | _ = _ => subst b | False => done end;
        match goal with
        | |- context [run_step (?n * _) DialFails] => 
            (exists (if n * Millisecond <? maxBackoff then n * 2 else n))
        | |- _ => exists 250
        end; vm_compute; (split; [repeat constructor|]); repeat split; discriminate. }
    cbn [run_waits]. destruct (run_step (b * Millisecond) d) as [w b2]. cbn [fst snd] in *. subst b2.
    destruct (IH b' Hb') as (H1 & H0 & Hd & Hn). split; [constructor; [lia|done]|].
    split; [intros w0 [= <-]; lia|]. split.
    - intros [|i] x y; cbn [lookup list_lookup]; [intros [= <-] Hy; specialize (H0 y Hy); lia|apply Hd].
    - intros [|i]; cbn; [intros [= ->]; by rewrite Hc|apply Hn]. }
  change firstBackoff with (250 * Millisecond) at 1 2 3 4 5. destruct (H 250) as (H1 & _ & H2 & H3); [left|]. eauto.
Qed.

(** *** The wire *)

Definition is_int64 (n : Z) : Prop := - 2 ^ 63 ≤ n < 2 ^ 63.
Lemma set_int_int64 n : is_int64 n → set_int (JInt n) = Some n.
Proof.
  unfold is_int64, set_int. intros [H1 H2]. apply Z.leb_le in H1. apply Z.ltb_lt in H2. by rewrite H1, H2.
Qed.
Lemma set_field_int {R} (put : Z → R → R) n acc : is_int64 n → set_field set_int put (JInt n) acc = (put n acc.1, acc.2).
Proof. intros H. unfold set_field. by rewrite (set_int_int64 n H). Qed.
#[local] Opaque set_int.

(** What a message of the daemon is to the client. *)
Definition heard (m : message) : received :=
  match m with
  | Response id (Ok r) => GotResponse (mkResponseMsg id true "" (Some (reply_json r)))
  | Response id (Err e) => GotResponse (mkResponseMsg id false e None)
  | Accepted id => GotResponse (mkResponseMsg id true "" None)
  | Push st => GotPush (mkPushMsg "status" (Some (status_json st)))
  end.
Definition id_fits (m : message) : Prop := match m with Response id _ | Accepted id => is_int64 id | Push _ => True end.

Lemma message_roundtrip_lemma m : id_fits m → read_message (encode_message m) = heard m.
Proof.
  destruct m as [id [r|e]|id|st]; cbn [id_fits encode_message heard]; intros Hid.
  - unfold read_message. cbn -[set_field]. unfold probe_field, response_field. cbn -[set_field].
    rewrite !set_field_int by done. reflexivity.
  - case_bool_decide as He; [subst e|]; unfold read_message, unmarshal_struct, probe_field, response_field; cbn;
      rewrite !set_int_int64 by done; reflexivity.
  - unfold read_message, unmarshal_struct, probe_field, response_field. cbn. rewrite !set_int_int64 by done. reflexivity.
  - reflexivity.
Qed.
(** the client tells answers from pushes, and reads from each what the
    daemon put there, whatever the answer holds. *)
Theorem message_roundtrip m : id_fits m → read_message (encode_message m) = heard m.
Proof. apply message_roundtrip_lemma. Qed.

Lemma request_roundtrip_lemma c method params c' id v :
  0 ≤ cl_id c < 2 ^ 63 - 1 → Send c method params = (c', Ok (id, v)) →
  id = cl_id c + 1 ∧ cl_id c' = id ∧ read_request v = Request id method params.
Proof.
  intros Hc. unfold Send. destruct (negb (cl_conn c)); [done|]. intros [= <- <- <-]. split; [done|]. split; [done|].
  assert (is_int64 (cl_id c + 1)) as Hid by (unfold is_int64; lia).
  destruct params as [p|]; unfold read_request, unmarshal_struct, request_field; cbn; rewrite set_int_int64 by done; reflexivity.
Qed.
(** the daemon reads a request as the client meant it: under a fresh
    number, one more than the last, with its method and its parameters. *)
Theorem request_roundtrip c method params c' id v :
  0 ≤ cl_id c < 2 ^ 63 - 1 → Send c method params = (c', Ok (id, v)) →
  id = cl_id c + 1 ∧ cl_id c' = id ∧ read_request v = Request id method params.
Proof. apply request_roundtrip_lemma. Qed.

(** *** A conversation *)

(** The requests of a client, sent one after the other. *)
Fixpoint send_all (c : Client) (reqs : list (string * option json)) : list (Z * json) :=
  match reqs with
  | [] => []
  | (method, params) :: reqs =>
      match Send c method params with
      | (c, Ok x) => x :: send_all c reqs
      | (c, Err _) => send_all c reqs
      end
  end.
Definition answer_id (r : received) : option Z := match r with GotResponse r => Some (rs_ID r) | _ => None end.

Lemma send_all_ids c reqs : cl_conn c = true → 0 ≤ cl_id c → cl_id c + Z.of_nat (length reqs) < 2 ^ 63 →
  (send_all c reqs).*1 = (λ i, cl_id c + 1 + Z.of_nat i) <$> seq 0 (length reqs) ∧
  Forall (λ x, is_int64 x.1 ∧ asked (read_request x.2) = Some x.1) (send_all c reqs).
Proof.
  revert c. induction reqs as [|[method params] reqs IH]; intros c Hc H0 Hl; [done|]. cbn [length send_all] in *.
  destruct (Send c method params) as [c' [[id v]|e]] eqn:E; [|unfold Send in E; rewrite Hc in E; done].
  destruct (request_roundtrip_lemma c method params c' id v) as (Hid & Hc' & Hr); [lia|done|].
  assert (cl_conn c' = true) as Hc1 by (unfold Send in E; rewrite Hc in E; by injection E as <- _ _).
  destruct (IH c') as [IH1 IH2]; [done|lia..|]. split.
  - cbn. rewrite IH1. f_equal; [lia|]. rewrite <- (fmap_S_seq 0 (length reqs)), <- list_fmap_compose.
    apply list_fmap_ext. intros i x _. cbn. lia.
  - constructor; [|done]. cbn. rewrite Hr. split; [unfold is_int64; lia|done].
Qed.

Lemma heard_answers (out : list message) : (∀ id, id ∈ omap answered out → is_int64 id) →
  omap answer_id ((λ m, read_message (encode_message m)) <$> out) = omap answered out.
Proof.
  induction out as [|m out IH]; intros H; [done|]. cbn [fmap list_fmap]. 
  assert (id_fits m) as Hm.
  { destruct m as [id r|id|st]; [apply H; cbn; left|apply H; cbn; left|done]. }
  rewrite message_roundtrip_lemma by done.
  assert (answer_id (heard m) = answered m) as Ha by (destruct m as [id [r|e]|id|st]; reflexivity).
  cbn. rewrite Ha. destruct (answered m) as [id|] eqn:E; [f_equal|]; apply IH; intros j Hj; apply H; cbn; rewrite E; [by right|done].
Qed.

(** C28: a client's requests are answered under the numbers it gave them.  Over
    one connection, whatever is asked and whatever the daemon makes of it, the
    answers the client reads carry the numbers of its requests, all different,
    in the order it sent them, whatever is pushed in between. *)
Theorem answers_come_back {U : Unicode} unescape quote_other clock log_fault c reqs vs sub s :
  cl_conn c = true → 0 ≤ cl_id c → cl_id c + Z.of_nat (length reqs) < 2 ^ 63 → length vs = length reqs →
  let sent := send_all c reqs in
  let '(out, _, _) := handleConn unescape quote_other fold_other clock log_fault (zip vs (read_request <$> sent.*2)) sub s in
  omap answer_id ((λ m, read_message (encode_message m)) <$> out) = sent.*1 ∧ NoDup sent.*1 ∧ length sent = length reqs.
Proof.
  intros Hc H0 Hl Hv. cbv zeta. destruct (send_all_ids c reqs Hc H0 Hl) as [Hids Hall].
  assert (length (send_all c reqs) = length reqs) as Hlen.
  { rewrite <- (length_fmap fst), Hids, length_fmap. apply length_seq. }
  pose proof (answers_ids unescape quote_other fold_other clock log_fault (zip vs (read_request <$> (send_all c reqs).*2)) sub s) as Ha.
  destruct (handleConn _ _ _ _ _ _ sub s) as [[out sub'] s']. cbn [fst] in Ha.
  assert (omap answered out = (send_all c reqs).*1) as Hout.
  { rewrite Ha. clear Ha Hids out. rewrite <- Hlen in Hv. clear Hlen Hl. revert vs Hv. induction Hall as [|x l [_ Hx] _ IH]; intros [|v vs] Hv; try done.
    cbn. rewrite Hx. f_equal. apply IH. by injection Hv. }
  split; [|split; [|done]].
  - rewrite heard_answers; [done|]. rewrite Hout. intros id (x & -> & Hx)%list_elem_of_fmap.
    rewrite Forall_forall in Hall. by apply Hall.
  - rewrite Hids. apply NoDup_fmap_2; [|apply NoDup_seq]. intros i j. lia.
Qed.
End wire.

(** ** A client of the small daemon *)

Example six_failures : (λ w, w / Millisecond) <$> run_waits firstBackoff (replicate 6 DialFails) = [250; 500; 1000; 2000; 4000; 8000].
Proof. vm_compute. reflexivity. Qed.

Notation plain_reply := (λ _ : Reply, JString "...").
Notation plain_status := (λ _ : StatusReply, JNull).
Definition two_requests : list (string * option json) := [("eject", param "drive" "asus"); ("subscribe", None)].

Lemma message_roundtrip_witness :
  read_message (λ _ _, false) (encode_message plain_reply plain_status (Response 5 (Err "no drive named x"))) =
  GotResponse (mkResponseMsg 5 false "no drive named x" None).
Proof. refine (@message_roundtrip (λ _ _, false) plain_reply plain_status (Response 5 (Err "no drive named x")) _). unfold id_fits, is_int64. lia. Defined.

Lemma request_roundtrip_witness :
  ∃ v, Send (mkClient true 6) "forget" (param "fingerprint" "beef") = (mkClient true 7, Ok (7, v)) ∧
    read_request (λ _ _, false) "bad" v = Request 7 "forget" (param "fingerprint" "beef").
Proof.
  eexists. split; [reflexivity|].
  refine (proj2 (proj2 (@request_roundtrip (λ _ _, false) "bad" (mkClient true 6) "forget" (param "fingerprint" "beef") (mkClient true 7) 7 _ _ eq_refl))).
  cbn. lia.
Defined.

Lemma answers_come_back_witness :
  (send_all (mkClient true 0) two_requests).*1 = [1; 2] ∧
  let '(out, _, _) := @Server.handleConn caseless no_text no_text (λ _ _, false) no_clock no_fault
    (zip [demo_req None; demo_req None] (read_request (λ _ _, false) "bad" <$> (send_all (mkClient true 0) two_requests).*2)) false (demo_srv demo_store) in
  length out = 3%nat ∧
  omap answer_id ((λ m, read_message (λ _ _, false) (encode_message plain_reply plain_status m)) <$> out) = [1; 2].
Proof.
  split; [reflexivity|].
  pose proof (@answers_come_back (λ _ _, false) "bad" plain_reply plain_status caseless no_text no_text no_clock no_fault (mkClient true 0)
    two_requests [demo_req None; demo_req None] false (demo_srv demo_store) eq_refl ltac:(cbn; lia) ltac:(cbn; lia) eq_refl) as H.
  cbv zeta in H.
  assert (length (@Server.handleConn caseless no_text no_text (λ _ _, false) no_clock no_fault
    (zip [demo_req None; demo_req None] (read_request (λ _ _, false) "bad" <$> (send_all (mkClient true 0) two_requests).*2)) false (demo_srv demo_store)).1.1 = 3%nat)
    as Hl by (vm_compute; reflexivity).
  destruct (@Server.handleConn _ _ _ _ _ _ _ _ _) as [[out sub] s']. split; [exact Hl|]. exact (proj1 H).
Defined.
