(* ===== verification/ClientRun.v ===== *)
(** * The client's goroutine and the end of it (Run, read, emit and Close in
    internal/client/client.go)

    One goroutine runs the client: it dials, reads and hands what it gets to
    a consumer through a channel of 64.  Close, the consumer and whoever sends
    requests run beside it; a step is one operation of one of them, and any
    order of steps is possible.  The waits between attempts are in Client.

    [client_never_panics]; [messages_in_order]: what the consumer receives is
    what was read, in order, and all of it up to Close; [close_ends_run]: after
    Close the goroutine ends within a dozen steps, unless it is reading a
    connection Close did not find; [close_misses_a_dial] is that limit, and
    [connections_are_abandoned] another: apart from Close nothing ever closes
    a connection. *)

From S2P Require Import Prelude GoText GoBase Server Client.
#[local] Open Scope nat_scope.

Section client.
(** What a line of the daemon is read as. *)
Context {A : Type}.

Definition messagesCap : nat := 64.
Inductive ClientMessage := Connected | Disconnected | Failed (e : string) | Received (a : A).

(** Where Run is; [Emitting m k] is in emit, going on at [k]. *)
Inductive runPoint := Top | Dialling | Dialled | Subscribing | Reading | Leaving | Waiting | Finished
| Emitting (m : ClientMessage) (k : runPoint).
(** Close: not called, past closing the channel, returned. *)
Inductive closer := NotClosed | ChannelClosed | CloseReturned.

Record Running := mkRunning {
  rn_at : runPoint;
  rn_closer : closer;
  (** The connection requests are sent on; those dialled so far; those among them that were closed. *)
  rn_conn : option nat;
  rn_dialled : nat;
  rn_shut : list nat;
  rn_id : Z;
  rn_out : list ClientMessage;
  rn_out_closed : bool;
  (** What the consumer received, the numbers of the requests written, and
      what went through emit; only the theorems look at these. *)
  rn_got : list ClientMessage;
  rn_sent : list Z;
  rn_emitted : list ClientMessage;
}.
Definition New : Running := mkRunning Top NotClosed None 0 [] 0 [] false [] [] [].

Definition is_closed (s : Running) : bool := match rn_closer s with NotClosed => false | _ => true end.
Definition is_open (s : Running) : bool :=
  match rn_conn s with Some c => negb (bool_decide (c ∈ rn_shut s)) | None => false end.

Definition go (p : runPoint) (s : Running) : Running :=
  mkRunning p (rn_closer s) (rn_conn s) (rn_dialled s) (rn_shut s) (rn_id s) (rn_out s) (rn_out_closed s) (rn_got s)
    (rn_sent s) (rn_emitted s).
Definition with_conn (c : option nat) (s : Running) : Running :=
  mkRunning (rn_at s) (rn_closer s) c (rn_dialled s) (rn_shut s) (rn_id s) (rn_out s) (rn_out_closed s) (rn_got s)
    (rn_sent s) (rn_emitted s).
Definition with_dial (s : Running) : Running :=
  mkRunning (rn_at s) (rn_closer s) (rn_conn s) (S (rn_dialled s)) (rn_shut s) (rn_id s) (rn_out s) (rn_out_closed s)
    (rn_got s) (rn_sent s) (rn_emitted s).
Definition with_closer (c : closer) (shut : list nat) (s : Running) : Running :=
  mkRunning (rn_at s) c (rn_conn s) (rn_dialled s) shut (rn_id s) (rn_out s) (rn_out_closed s) (rn_got s)
    (rn_sent s) (rn_emitted s).
Definition with_out (l : list ClientMessage) (closed : bool) (got : list ClientMessage) (s : Running) : Running :=
  mkRunning (rn_at s) (rn_closer s) (rn_conn s) (rn_dialled s) (rn_shut s) (rn_id s) l closed got
    (rn_sent s) (rn_emitted s).
Definition with_sent (id : Z) (sent : list Z) (s : Running) : Running :=
  mkRunning (rn_at s) (rn_closer s) (rn_conn s) (rn_dialled s) (rn_shut s) id (rn_out s) (rn_out_closed s) (rn_got s)
    sent (rn_emitted s).
(** A message has been through emit. *)
Definition emitted (m : ClientMessage) (s : Running) : Running :=
  mkRunning (rn_at s) (rn_closer s) (rn_conn s) (rn_dialled s) (rn_shut s) (rn_id s) (rn_out s) (rn_out_closed s) (rn_got s)
    (rn_sent s) (rn_emitted s ++ [m]).

Inductive event :=
| Look
| DialOk | DialError (e : string)
| SetConn
| Subscribe (written : bool)
| Line (a : option A) | StreamEnd
| Leave
| EmitSend | EmitDrop
| Timer | WaitClosed
| Close1 | Close2
| Receive
| Request (method : string) (written : bool).

Inductive ran := Stuck | Broke | Went (s : Running).

(** Send: the next number, and whether it was written.  A write to a closed
    connection fails. *)
Definition send (method : string) (written : bool) (s : Running) : Running * bool :=
  match Send (mkClient (bool_decide (is_Some (rn_conn s))) (rn_id s)) method None with
  | (c, Ok (id, _)) => let ok := written && is_open s in (with_sent (cl_id c) (if ok then rn_sent s ++ [id] else rn_sent s) s, ok)
  | (_, Err _) => (s, false)
  end.
(** The end of Run: its deferred call closes the channel. *)
Definition finish (s : Running) : ran := if rn_out_closed s then Broke else Went (go Finished (with_out (rn_out s) true (rn_got s) s)).

Definition client_event (s : Running) (e : event) : ran :=
  match e, rn_at s with
  | Look, Top => if is_closed s then finish s else Went (go Dialling s)
  | DialError m, Dialling => Went (go (Emitting (Failed m) Waiting) s)
  | DialOk, Dialling => Went (go Dialled (with_dial s))
  | SetConn, Dialled => Went (go (Emitting Connected Subscribing) (with_conn (Some (pred (rn_dialled s))) s))
  | Subscribe written, Subscribing =>
      let '(s, ok) := send "subscribe" written s in
      Went (go (if ok then Reading else Emitting (Failed "send subscribe") Reading) s)
  | Line a, Reading =>
      if is_closed s then Went (go Leaving s)
      else Went (match a with Some a => go (Emitting (Received a) Reading) s | None => s end)
  | StreamEnd, Reading => Went (go Leaving s)
  | Leave, Leaving => Went (go (Emitting Disconnected Waiting) (with_conn None s))
  | EmitSend, Emitting m k =>
      if rn_out_closed s then Broke
      else if length (rn_out s) <? messagesCap
      then Went (go k (with_out (rn_out s ++ [m]) false (rn_got s) (emitted m s))) else Stuck
  | EmitDrop, Emitting m k => if is_closed s then Went (go k (emitted m s)) else Stuck
  | Timer, Waiting => Went (go Top s)
  | WaitClosed, Waiting => if is_closed s then finish s else Stuck
  | Close1, _ => match rn_closer s with NotClosed => Went (with_closer ChannelClosed (rn_shut s) s) | _ => Stuck end
  | Close2, _ =>
      match rn_closer s with
      | ChannelClosed => Went (with_closer CloseReturned (match rn_conn s with Some c => c :: rn_shut s | None => rn_shut s end) s)
      | _ => Stuck
      end
  | Receive, _ => match rn_out s with m :: l => Went (with_out l (rn_out_closed s) (rn_got s ++ [m]) s) | [] => Stuck end
  | Request method written, _ => Went (send method written s).1
  | _, _ => Stuck
  end.

Fixpoint client_exec (s : Running) (es : list event) : ran :=
  match es with
  | [] => Went s
  | e :: es => match client_event s e with Went s => client_exec s es | r => r end
  end.
Definition reaches (s : Running) : Prop := ∃ es, client_exec New es = Went s.

(** ** What holds of every state *)

Ltac client_cases H :=
  repeat match type of H with
  | context [match ?x with _ => _ end] => destruct x eqn:?
  end; try discriminate H.

Lemma client_exec_inv (I : Running → Prop) (ok : event → Prop) s es s' :
  (∀ s e s', I s → ok e → client_event s e = Went s' → I s') → I s → Forall ok es → client_exec s es = Went s' → I s'.
Proof.
  intros Hstep Hs Hok. revert s Hs. induction Hok as [|e es He _ IH]; intros s Hs; cbn; [by intros [= <-]|].
  destruct (client_event s e) eqn:E; try done. by apply IH, (Hstep s e).
Qed.
Lemma reaches_inv (I : Running → Prop) s : (∀ s e s', I s → client_event s e = Went s' → I s') → I New → reaches s → I s.
Proof.
  intros Hstep HN [es He]. eapply (client_exec_inv I (λ _, True)); [|exact HN| |exact He]; [eauto|by apply Forall_true].
Qed.

(** Sending a request touches the number and the wire only. *)
Lemma send_cases method written s :
  (send method written s).1 = s ∨ (send method written s).1 = with_sent (rn_id s + 1) (rn_sent s) s ∨
  (send method written s).1 = with_sent (rn_id s + 1) (rn_sent s ++ [(rn_id s + 1)%Z]) s.
Proof. unfold send, Send. cbn. destruct (negb _); cbn; [by left|]. destruct (_ && _); auto. Qed.

(** Which state Run's deferred call leaves. *)
Definition finished (p : runPoint) : bool := match p with Finished => true | _ => false end.
Lemma finish_ok s : rn_out_closed s = finished (rn_at s) → finished (rn_at s) = false → finish s = Went (go Finished (with_out (rn_out s) true (rn_got s) s)).
Proof. intros H1 H2. unfold finish. by rewrite H1, H2. Qed.

(** What is emitted where. *)
Definition fits (p : runPoint) : Prop :=
  match p with
  | Emitting Connected k => k = Subscribing
  | Emitting Disconnected k => k = Waiting
  | Emitting (Failed _) k => k = Waiting ∨ k = Reading
  | Emitting (Received _) k => k = Reading
  | _ => True
  end.
Lemma fits_next m k : fits (Emitting m k) → fits k ∧ finished k = false.
Proof. destruct m; cbn; naive_solver. Qed.

Record running_ok (s : Running) : Prop := mkRunningOk {
  ro_closed : rn_out_closed s = finished (rn_at s);
  ro_cap : length (rn_out s) ≤ messagesCap;
  ro_fits : fits (rn_at s);
}.

Ltac client_step H := unfold client_event, finish in H; client_cases H; injection H as <-.

Lemma client_event_ok s e : running_ok s → client_event s e ≠ Broke ∧ ∀ s', client_event s e = Went s' → running_ok s'.
Proof.
  intros [Hc Hl Ha]. split.
  - unfold client_event, finish. destruct e, (rn_at s); try done; cbn in Hc, Ha; rewrite ?Hc; repeat case_match; try done.
  - intros s' He. destruct e as [| | | |written| | | | | | | | | | |method written].
    16: { cbn in He. injection He as <-. by destruct (send_cases method written s) as [->|[->| ->]]. }
    5: { cbn in He. destruct (rn_at s) eqn:Eat; try done.
         pose proof (send_cases "subscribe" written s) as Hs. destruct (send _ _ _) as [s1 ok]. injection He as <-. cbn in Hs.
         destruct Hs as [->|[->| ->]], ok; split; cbn; auto. }
    all: client_step He; split; cbn in *; auto; try congruence.
    all: try (apply fits_next in Ha as [? ?]; congruence || done).
    all: try match goal with H : (_ <=? _) = true |- _ => apply Nat.leb_le in H end.
    all: unfold messagesCap; rewrite ?Heqr, ?length_app; cbn; auto; unfold messagesCap in Hl; lia.
Qed.
Lemma New_ok : running_ok New.
Proof. split; cbn; [done|lia|done]. Qed.
Lemma client_exec_ok s es s' : running_ok s → client_exec s es = Went s' → running_ok s'.
Proof.
  intros Hs. apply (client_exec_inv running_ok (λ _, True) s es); [|done|by apply Forall_true].
  intros s1 e s2 H _. by apply client_event_ok.
Qed.

(** no message is sent on the client's channel after it is closed, and
    neither it nor the other is closed twice, in any order of the steps of
    Run, Close, the consumer and those who send requests. *)
Theorem client_never_panics es : client_exec New es ≠ Broke.
Proof.
  generalize New_ok. generalize New. induction es as [|e es IH]; intros s Hs; cbn; [done|].
  destruct (client_event_ok s e Hs) as [Hn Hok]. destruct (client_event s e); [done..|]. apply IH, Hok. done.
Qed.

(** ** What the consumer receives *)

(** The messages of a connection stand between its two notices. *)
Definition bracket (b : option bool) (m : ClientMessage) : option bool :=
  match b, m with
  | Some false, Connected => Some true
  | Some true, Disconnected => Some false
  | Some true, Received _ => Some true
  | Some b, Failed _ => Some b
  | _, _ => None
  end.
Definition bracketed (l : list ClientMessage) : option bool := foldl bracket (Some false) l.
#[local] Arguments bracketed : simpl never.
(** Whether Run has a connection at a place. *)
Definition attached (p : runPoint) : bool := match p with Subscribing | Reading | Leaving => true | _ => false end.
Definition bracket_ok (s : Running) : Prop :=
  match rn_at s with
  | Emitting m k => bracket (bracketed (rn_emitted s)) m = Some (attached k)
  | p => bracketed (rn_emitted s) = Some (attached p)
  end.
Lemma bracketed_snoc l m : bracketed (l ++ [m]) = bracket (bracketed l) m.
Proof. unfold bracketed. by rewrite foldl_app. Qed.
Lemma client_event_bracket s e s' : running_ok s ∧ bracket_ok s → client_event s e = Went s' → running_ok s' ∧ bracket_ok s'.
Proof.
  intros [Hok Hb] He. split; [by eapply client_event_ok|]. apply ro_fits in Hok. unfold bracket_ok in *.
  destruct e as [| | | |written| | | | | | | | | | |method written].
  16: { cbn in He. injection He as <-. by destruct (send_cases method written s) as [->|[->| ->]]. }
  5: { cbn in He. destruct (rn_at s) eqn:Eat; try done. cbn in Hb.
       pose proof (send_cases "subscribe" written s) as Hs. destruct (send _ _ _) as [s1 ok]. injection He as <-. cbn in Hs.
       destruct Hs as [->|[->| ->]], ok; cbn; by rewrite Hb. }
  all: client_step He; cbn in *; rewrite ?Heqr; try rewrite Hb; auto.
  all: destruct m; destruct_or?; subst r; rewrite bracketed_snoc, Hb; reflexivity.
Qed.

Definition line_of (e : event) : option A := match e with Line a => a | _ => None end.
Definition received_of (m : ClientMessage) : option A := match m with Received a => Some a | _ => None end.
(** The line Run holds in its hand. *)
Definition pending (p : runPoint) : list A := match p with Emitting (Received a) _ => [a] | _ => [] end.
Definition handed (s : Running) : list A := omap received_of (rn_got s ++ rn_out s).
Lemma pending_next m k : fits (Emitting m k) → pending k = [].
Proof. destruct m; cbn; naive_solver. Qed.
Lemma handed_snoc (l : list ClientMessage) m : omap received_of (l ++ [m]) = omap received_of l ++ pending (Emitting m Top).
Proof. rewrite omap_app. by destruct m. Qed.

(** One step, as to the lines: Run takes the next one, or hands on or drops the one it holds. *)
Definition lines_step (s : Running) (e : event) (s' : Running) : Prop :=
  let before := handed s ++ pending (rn_at s) ++ option_list (line_of e) in
  handed s' ++ pending (rn_at s') `sublist_of` before ∧
  (is_closed s = false → handed s' ++ pending (rn_at s') = before) ∧
  rn_got s ++ rn_out s `prefix_of` rn_got s' ++ rn_out s'.
Lemma lines_same s e s' : rn_got s' ++ rn_out s' = rn_got s ++ rn_out s → pending (rn_at s') = pending (rn_at s) ++ option_list (line_of e) →
  lines_step s e s'.
Proof. intros H1 H2. unfold lines_step, handed. by rewrite H1, H2. Qed.
Lemma client_event_lines s e s' : fits (rn_at s) → client_event s e = Went s' → lines_step s e s'.
Proof.
  intros Hfit He. destruct e as [| | | |written|a| | | | | | | | | |method written].
  16: { cbn in He. injection He as <-. destruct (send_cases method written s) as [->|[->| ->]]; apply lines_same; by rewrite ?app_nil_r. }
  5: { cbn in He. destruct (rn_at s) eqn:Eat; try done.
       pose proof (send_cases "subscribe" written s) as Hs. destruct (send _ _ _) as [s1 ok]. injection He as <-. cbn in Hs.
       destruct Hs as [->|[->| ->]], ok; apply lines_same; cbn; by rewrite ?Eat. }
  all: client_step He; try (apply lines_same; cbn; rewrite ?Heqr; cbn; rewrite <- ?app_assoc; try done; by rewrite ?app_nil_r).
  - unfold lines_step, handed. rewrite Heqr. cbn. rewrite app_nil_r. split; [by apply sublist_inserts_r|]. split; [congruence|done].
  - pose proof (pending_next _ _ Hfit) as Hp. unfold lines_step, handed. rewrite Heqr. cbn [rn_got rn_out rn_at go with_out emitted].
    rewrite Hp, app_assoc, handed_snoc, !app_nil_r.
    destruct m; (split; [done|]; split; [done|by apply prefix_app_r]).
  - pose proof (pending_next _ _ Hfit) as Hp. unfold lines_step, handed. rewrite Heqr. cbn [rn_got rn_out rn_at go emitted].
    rewrite Hp, !app_nil_r. split; [by apply sublist_inserts_r|]. split; [congruence|done].
  - apply lines_same; cbn; [rewrite Heql, <- app_assoc; reflexivity|by rewrite app_nil_r].
Qed.
(** Only Close closes. *)
Lemma client_event_closer s e s' : client_event s e = Went s' → rn_closer s' = rn_closer s ∨ e = Close1 ∨ e = Close2.
Proof.
  intros He. destruct e as [| | | |written| | | | | | | | | | |method written]; [..|by right; left|by right; right| |]; left.
  14: { cbn in He. injection He as <-. by destruct (send_cases method written s) as [->|[->| ->]]. }
  5: { cbn in He. destruct (rn_at s); try done. pose proof (send_cases "subscribe" written s) as Hs.
       destruct (send _ _ _) as [s1 ok]. injection He as <-. cbn in Hs. destruct Hs as [->|[->| ->]], ok; reflexivity. }
  all: client_step He; reflexivity.
Qed.
Lemma client_event_closed s e s' : client_event s e = Went s' → e ≠ Close1 → is_closed s' = is_closed s.
Proof.
  intros He Hn. destruct (client_event_closer s e s' He) as [E|[E|E]]; [by unfold is_closed; rewrite E|done|].
  subst e. cbn in He. destruct (rn_closer s) eqn:E; try done. injection He as <-. unfold is_closed. by rewrite E.
Qed.
Lemma exec_lines s es s' : running_ok s → client_exec s es = Went s' →
  handed s' ++ pending (rn_at s') `sublist_of` handed s ++ pending (rn_at s) ++ omap line_of es ∧
  (is_closed s = false → Close1 ∉ es → handed s' ++ pending (rn_at s') = handed s ++ pending (rn_at s) ++ omap line_of es) ∧
  rn_got s ++ rn_out s `prefix_of` rn_got s' ++ rn_out s'.
Proof.
  revert s. induction es as [|e es IH]; intros s Hs; cbn [client_exec].
  { intros [= <-]. cbn. by rewrite app_nil_r. }
  destruct (client_event s e) as [| |s1] eqn:E; try done. intros He.
  pose proof (proj2 (client_event_ok s e Hs) s1 E) as Hs1. destruct (IH s1 Hs1 He) as (Hsub & Heq & Hpre).
  destruct (client_event_lines s e s1 (ro_fits _ Hs) E) as (Hsub1 & Heq1 & Hpre1).
  assert (omap line_of (e :: es) = option_list (line_of e) ++ omap line_of es) as -> by (cbn; by destruct (line_of e)).
  split; [|split].
  - etransitivity; [exact Hsub|]. rewrite !app_assoc in *. by apply sublist_app.
  - intros Hc Hn. apply not_elem_of_cons in Hn as [Hne Hn].
    rewrite Heq; [|rewrite (client_event_closed _ _ _ E); congruence|done].
    specialize (Heq1 Hc). rewrite !app_assoc in *. by rewrite Heq1.
  - by etransitivity.
Qed.

(** C19: the consumer gets what was read.  Whatever Run, Close, the consumer and
    those who send requests do and in whatever order, the lines the consumer
    has received or can still receive are lines read, in the order they were
    read, and until Close all of them but the one Run is handing over; nothing
    handed over is taken back.  Every line stands between the notices of its
    connection, which alternate, and no more than 64 messages ever wait. *)
Theorem messages_in_order es1 es2 s1 s2 : client_exec New es1 = Went s1 → client_exec s1 es2 = Went s2 → Close1 ∉ es1 →
  handed s1 ++ pending (rn_at s1) = omap line_of es1 ∧
  rn_got s1 ++ rn_out s1 `prefix_of` rn_got s2 ++ rn_out s2 ∧
  handed s2 ++ pending (rn_at s2) `sublist_of` omap line_of (es1 ++ es2) ∧
  is_Some (bracketed (rn_emitted s2)) ∧ length (rn_out s2) ≤ messagesCap.
Proof.
  intros H1 H2 Hn. pose proof (client_exec_ok _ _ _ New_ok H1) as Hok1. pose proof (client_exec_ok _ _ _ Hok1 H2) as Hok2.
  destruct (exec_lines New es1 s1 New_ok H1) as (_ & Heq & _). specialize (Heq eq_refl Hn). cbn in Heq.
  destruct (exec_lines s1 es2 s2 Hok1 H2) as (Hsub & _ & Hpre). rewrite app_assoc, Heq in Hsub.
  split; [exact Heq|]. split; [exact Hpre|]. split; [by rewrite omap_app|]. split; [|apply Hok2].
  assert (running_ok s2 ∧ bracket_ok s2) as [_ Hb].
  { assert (running_ok New ∧ bracket_ok New) as H0 by (split; [apply New_ok|done]).
    eapply (client_exec_inv _ (λ _, True)) in H1; [|intros ???? _; by apply client_event_bracket|exact H0|by apply Forall_true].
    eapply (client_exec_inv _ (λ _, True)) in H2; [exact H2|intros ???? _; by apply client_event_bracket|exact H1|by apply Forall_true]. }
  unfold bracket_ok in Hb. destruct (rn_at s2); try by eexists.
  destruct (bracketed (rn_emitted s2)); [by eexists|]. by destruct m.
Qed.
(** ** The end *)

Fixpoint rank (p : runPoint) : nat :=
  match p with
  | Finished => 0 | Top => 1 | Waiting => 2 | Leaving => 4 | Reading => 5 | Subscribing => 7 | Dialled => 9 | Dialling => 10
  | Emitting _ k => S (rank k)
  end.
(** A step of Run, and one it makes whatever the daemon does: reading a
    connection that Close has closed fails. *)
Definition own (e : event) : bool := match e with Close1 | Close2 | Receive | Request _ _ => false | _ => true end.
Definition unaided (s : Running) (e : event) : bool :=
  own e && match e with Line _ => false | StreamEnd => negb (is_open s) | _ => true end.

Lemma send_keeps method written s : rn_at (send method written s).1 = rn_at s ∧ rn_closer (send method written s).1 = rn_closer s ∧
  is_open (send method written s).1 = is_open s.
Proof. by destruct (send_cases method written s) as [->|[->| ->]]. Qed.
Lemma client_event_rank s e s' : fits (rn_at s) → is_closed s = true → client_event s e = Went s' →
  if own e then rank (rn_at s') < rank (rn_at s) else rank (rn_at s') = rank (rn_at s).
Proof.
  intros Hfit Hc He. destruct e as [| | | |written| | | | | | | | | | |method written].
  16: { cbn in He. injection He as <-. cbn. by rewrite (proj1 (send_keeps method written s)). }
  5: { cbn in He. destruct (rn_at s); try done. destruct (send _ _ _) as [s1 ok]. injection He as <-. destruct ok; cbn; lia. }
  all: client_step He; cbn in *; rewrite ?Heqr; cbn; try lia; try congruence.
  all: destruct m; destruct_or?; subst r; cbn; lia.
Qed.
Lemma exec_rank s es s' : running_ok s → is_closed s = true → client_exec s es = Went s' →
  is_closed s' = true ∧ rank (rn_at s') + length (filter own es) ≤ rank (rn_at s).
Proof.
  revert s. induction es as [|e es IH]; intros s Hs Hc; cbn [client_exec]; [intros [= <-]; split; [done|cbn; lia]|].
  destruct (client_event s e) as [| |s1] eqn:E; try done. intros He.
  pose proof (client_event_rank s e s1 (ro_fits _ Hs) Hc E) as Hr.
  assert (is_closed s1 = true) as Hc1.
  { unfold is_closed in *. destruct (client_event_closer s e s1 E) as [->|[->| ->]]; [done|..].
    all: cbn in E; destruct (rn_closer s); try done; by injection E as <-. }
  destruct (IH s1 (proj2 (client_event_ok s e Hs) s1 E) Hc1 He) as [Hc' Hl]. split; [done|].
  rewrite filter_cons. destruct (own e); case_decide; cbn in *; done || lia.
Qed.
Lemma rank_bound p : fits p → rank p ≤ 10.
Proof. destruct p as [| | | | | | | |m k]; cbn; try lia. destruct m; intros; destruct_or?; subst k; cbn; lia. Qed.

(** Between dialling and registering the connection. *)
Definition dialling (p : runPoint) : bool := match p with Dialling | Dialled => true | _ => false end.
Definition settled (s : Running) : Prop :=
  running_ok s ∧ rn_closer s = CloseReturned ∧ dialling (rn_at s) = false ∧ is_open s = false.
Lemma client_event_settled s e s' : settled s → client_event s e = Went s' → settled s'.
Proof.
  intros (Hok & Hc & Hd & Ho) He. split; [by eapply client_event_ok|]. pose proof (ro_fits _ Hok) as Hfit. clear Hok.
  destruct e as [| | | |written| | | | | | | | | | |method written].
  16: { cbn in He. injection He as <-. pose proof (send_keeps method written s) as (H1 & H2 & H3). rewrite H1, H2, H3. auto. }
  5: { cbn in He. destruct (rn_at s); try done. pose proof (send_keeps "subscribe" written s) as (H1 & H2 & H3).
       destruct (send _ _ _) as [s1 ok]. injection He as <-. cbn in H1, H2, H3. rewrite <- H3 in Ho. rewrite <- H2 in Hc. destruct ok; (split; [exact Hc|]; split; [done|exact Ho]). }
  all: client_step He; cbn in *; rewrite ?Heqr; auto; unfold is_closed in *; try (rewrite Hc in *; congruence).
  all: destruct m; destruct_or?; subst r; auto.
Qed.

(** A closed client that is not done and not reading an open connection can move by itself. *)
Lemma closed_moves s : running_ok s → is_closed s = true → rn_at s ≠ Finished → (rn_at s = Reading → is_open s = false) →
  ∃ e s', unaided s e = true ∧ client_event s e = Went s'.
Proof.
  intros Hok Hc Hf Ho. pose proof (ro_closed _ Hok) as Hout.
  destruct (rn_at s) eqn:E; try done; cbn in Hout.
  - exists Look. cbn. rewrite E, Hc. unfold finish. rewrite Hout. eauto.
  - exists (DialError ""). cbn. rewrite E. eauto.
  - exists SetConn. cbn. rewrite E. eauto.
  - exists (Subscribe true). cbn. rewrite E. destruct (send _ _ _). eauto.
  - exists StreamEnd. unfold unaided. cbn. rewrite E, Ho; eauto.
  - exists Leave. cbn. rewrite E. eauto.
  - exists Timer. cbn. rewrite E. eauto.
  - exists EmitDrop. cbn. rewrite E, Hc. eauto.
Qed.

(** C20: once Close has returned the client comes to its end.  Run takes no more
    than ten steps of its own, however full its channel is and whether or not
    anyone receives, and it can always take the next one by itself until it is
    done and its channel closed; but not when it was between dialling a
    connection and registering it as Close looked, since that connection is
    then read until the daemon says something or hangs up. *)
Theorem close_ends_run es1 es2 s1 s2 : client_exec New es1 = Went s1 → rn_closer s1 = CloseReturned → client_exec s1 es2 = Went s2 →
  length (filter own es2) ≤ 10 ∧
  (rn_at s2 = Finished ∧ rn_out_closed s2 = true ∨
   (∃ e s', unaided s2 e = true ∧ client_event s2 e = Went s') ∨
   (rn_at s2 = Reading ∧ is_open s2 = true ∧ (dialling (rn_at s1) = true ∨ is_open s1 = true))).
Proof.
  intros H1 Hc H2. pose proof (client_exec_ok _ _ _ New_ok H1) as Hok1. pose proof (client_exec_ok _ _ _ Hok1 H2) as Hok2.
  assert (is_closed s1 = true) as Hcl by (unfold is_closed; by rewrite Hc).
  destruct (exec_rank s1 es2 s2 Hok1 Hcl H2) as [Hcl2 Hr]. pose proof (rank_bound _ (ro_fits _ Hok1)).
  split; [lia|]. destruct (finished (rn_at s2)) eqn:Ef.
  { left. rewrite (ro_closed _ Hok2), Ef. by destruct (rn_at s2). }
  right. assert (rn_at s2 ≠ Finished) as Hnf by (intros E; by rewrite E in Ef).
  destruct (is_open s2) eqn:Eo; [|left; by apply closed_moves].
  destruct (rn_at s2) eqn:Eat; try (left; apply closed_moves; [done..|by rewrite Eat|by rewrite Eat]).
  right. split; [done|]. split; [done|].
  destruct (dialling (rn_at s1)) eqn:Ed; [by left|]. destruct (is_open s1) eqn:Eo1; [by right|exfalso].
  assert (settled s2) as (_ & _ & _ & Hs); [|congruence].
  eapply (client_exec_inv settled (λ _, True)); [|split; [exact Hok1|done]|by apply (Forall_true _ es2)|exact H2].
  intros s e s' Hs _. by apply client_event_settled.
Qed.

(** ** Two limits *)

(** closing a client while it dials does not stop it.  There is a run in which
    Close has returned, having found no connection to close, and Run then
    reads one: as long as the daemon neither says anything nor hangs up, Run
    stays there and the connection stays open. *)
Theorem close_misses_a_dial :
  ∃ es s, client_exec New es = Went s ∧ rn_closer s = CloseReturned ∧
    ∀ es' s', Forall (λ e, e ≠ StreamEnd ∧ ∀ a, e ≠ Line a) es' → client_exec s es' = Went s' →
      rn_at s' = Reading ∧ is_open s' = true.
Proof.
  exists [Look; Close1; Close2; DialOk; SetConn; EmitDrop; Subscribe true],
    (mkRunning Reading CloseReturned (Some 0) 1 [] 1 [] false [] [1%Z] [Connected]). split; [vm_compute; reflexivity|].
  split; [reflexivity|]. intros es' s' Hq He.
  cut (rn_closer s' = CloseReturned ∧ rn_at s' = Reading ∧ is_open s' = true); [tauto|].
  refine (client_exec_inv (λ s, rn_closer s = CloseReturned ∧ rn_at s = Reading ∧ is_open s = true) _ _ es' s' _ _ Hq He);
    [|split; [reflexivity|]; split; [reflexivity|]; vm_compute; reflexivity].
  intros s e s1 (Hc & Ha & Ho) [Hn1 Hn2] H1. unfold client_event in H1. rewrite Ha, Hc in H1.
  destruct e as [| | | |written|a| | | | | | | | | |method written]; try done.
  - by destruct (Hn2 a).
  - client_cases H1. by injection H1 as <-.
  - injection H1 as <-. destruct (send_keeps method written s) as (-> & -> & ->). done.
Qed.

(** One connection from dialling to the end of its stream. *)
Definition one_connection : list event :=
  [Look; DialOk; SetConn; EmitSend; Receive; Subscribe true; StreamEnd; Leave; EmitSend; Receive; Timer].

Lemma exec_app s es es' : client_exec s (es ++ es') = match client_exec s es with Went s' => client_exec s' es' | r => r end.
Proof. revert s. induction es as [|e es IH]; intros s; cbn; [done|]. by destruct (client_event s e). Qed.
Lemma one_more n id got sent em :
  client_exec (mkRunning Top NotClosed None n [] id [] false got sent em) one_connection =
  Went (mkRunning Top NotClosed None (S n) [] (id + 1) [] false ((got ++ [Connected]) ++ [Disconnected])
          (sent ++ [(id + 1)%Z]) ((em ++ [Connected]) ++ [Disconnected])).
Proof. vm_compute. reflexivity. Qed.
Lemma connections n : ∃ id got sent em,
  client_exec New (concat (replicate n one_connection)) = Went (mkRunning Top NotClosed None n [] id [] false got sent em).
Proof.
  induction n as [|n (id & got & sent & em & IH)]; [by exists 0%Z, [], [], []|].
  rewrite replicate_S_end, concat_app, exec_app, IH. cbn [concat]. rewrite app_nil_r, one_more. by do 4 eexists.
Qed.
(** apart from Close nothing closes a connection.  As long as Close is not
    called none of those dialled is closed by the client, however the reading
    of it ended, and a client can have dialled any number of them while it has
    none. *)
Theorem connections_are_abandoned :
  (∀ es s, client_exec New es = Went s → Close1 ∉ es → rn_shut s = []) ∧
  ∀ n, ∃ es s, client_exec New es = Went s ∧ Close1 ∉ es ∧ rn_dialled s = n ∧ rn_conn s = None ∧ rn_shut s = [].
Proof.
  split.
  - intros es s He Hn. cut (rn_closer s = NotClosed ∧ rn_shut s = []); [tauto|].
    refine (client_exec_inv (λ s, rn_closer s = NotClosed ∧ rn_shut s = []) (λ e, e ≠ Close1) New es s _ _ _ He); [|done|].
    + intros s1 e s2 [Hc Hs] Hne H1. destruct e as [| | | |written| | | | | | | | | | |method written].
      16: { cbn in H1. injection H1 as <-. by destruct (send_cases method written s1) as [->|[->| ->]]. }
      5: { cbn in H1. destruct (rn_at s1); try done. pose proof (send_cases "subscribe" written s1) as Hk.
           destruct (send _ _ _) as [s3 ok]. injection H1 as <-. cbn in Hk. by destruct Hk as [->|[->| ->]], ok. }
      all: client_step H1; cbn; try done; by unfold is_closed in *; try rewrite Hc in *.
    + apply Forall_forall. intros e Hin ->. done.
  - intros n. destruct (connections n) as (id & got & sent & em & He). do 2 eexists. split; [exact He|]. split; [|done].
    intros Hin. assert (Forall (λ e, e ≠ Close1) (concat (replicate n one_connection))) as Hf.
    { apply List.Forall_concat, Forall_replicate. by repeat constructor. }
    rewrite Forall_forall in Hf. by apply (Hf Close1).
Qed.

(** ** Request numbers *)

(** no request number is written twice over the life of a client, across all
    its connections and whatever else fails. *)
Theorem request_numbers_never_repeat es s : client_exec New es = Went s → NoDup (rn_sent s) ∧ Forall (λ i, (i ≤ rn_id s)%Z) (rn_sent s).
Proof.
  assert (∀ id l, NoDup l ∧ Forall (λ i, (i ≤ id)%Z) l →
    (NoDup l ∧ Forall (λ i, (i ≤ id + 1)%Z) l) ∧ NoDup (l ++ [(id + 1)%Z]) ∧ Forall (λ i, (i ≤ id + 1)%Z) (l ++ [(id + 1)%Z])) as Hl.
  { intros id l [Hn Hf]. assert (Forall (λ i, (i ≤ id + 1)%Z) l) as Hf' by (eapply Forall_impl; [exact Hf|]; intros; cbn in *; lia).
    split; [done|]. rewrite Forall_app, NoDup_app, Forall_singleton. split; [|split; [done|lia]].
    split; [done|]. split; [|apply NoDup_singleton]. intros x Hx ->%list_elem_of_singleton.
    rewrite Forall_forall in Hf. specialize (Hf _ Hx). cbn in Hf. lia. }
  intros He. refine (client_exec_inv (λ s, NoDup (rn_sent s) ∧ Forall (λ i, (i ≤ rn_id s)%Z) (rn_sent s)) (λ _, True) New es s _ _ _ He);
    [|split; constructor|by apply Forall_true].
  intros s1 e s2 Hs _ H1. specialize (Hl _ _ Hs) as [Hl1 Hl2].
  destruct e as [| | | |written| | | | | | | | | | |method written].
  16: { cbn in H1. injection H1 as <-. by destruct (send_cases method written s1) as [->|[->| ->]]. }
  5: { cbn in H1. destruct (rn_at s1); try done. pose proof (send_cases "subscribe" written s1) as Hk.
       destruct (send _ _ _) as [s3 ok]. injection H1 as <-. cbn in Hk. by destruct Hk as [->|[->| ->]], ok. }
  all: client_step H1; cbn; exact Hs.
Qed.
End client.

(** ** A session *)

Definition session_start : list (event (A := nat)) :=
  [Look; DialOk; SetConn; EmitSend; Subscribe true; Line (Some 7); EmitSend; Receive; Request "status" true; Line None; Line (Some 8)].
Definition session_end : list (event (A := nat)) := [Close1; EmitDrop; Receive; Close2; StreamEnd; Leave; EmitSend; WaitClosed; Receive].
Definition session (es : list (event (A := nat))) : Running (A := nat) := match client_exec New es with Went s => s | _ => New end.

Lemma messages_in_order_witness :
  handed (session session_start) ++ pending (rn_at (session session_start)) = [7; 8] ∧
  rn_got (session (session_start ++ session_end)) = [Connected; Received 7; Disconnected].
Proof.
  destruct (messages_in_order session_start session_end (session session_start) (session (session_start ++ session_end))) as (H & _).
  - vm_compute. reflexivity.
  - vm_compute. reflexivity.
  - intros Hin. unfold session_start in Hin. repeat (apply elem_of_cons in Hin as [Hin|Hin]; [discriminate Hin|]).
    by apply not_elem_of_nil in Hin.
  - split; [exact H|vm_compute; reflexivity].
Defined.
Lemma close_ends_run_witness :
  length (filter own ([StreamEnd; Leave; EmitSend; WaitClosed] : list (event (A := nat)))) ≤ 10 ∧
  rn_at (session (session_start ++ session_end)) = Finished.
Proof.
  split; [|vm_compute; reflexivity].
  refine (proj1 (close_ends_run (session_start ++ [Close1; EmitDrop; Receive; Close2]) [StreamEnd; Leave; EmitSend; WaitClosed]
    (session (session_start ++ [Close1; EmitDrop; Receive; Close2])) (session (session_start ++ [Close1; EmitDrop; Receive; Close2; StreamEnd; Leave; EmitSend; WaitClosed])) _ _ _)).
  - vm_compute. reflexivity.
  - vm_compute. reflexivity.
  - vm_compute. reflexivity.
Defined.
