(* ===== verification/Tui.v ===== *)
(** * The terminal client's state (internal/tui/tui.go)

    The model of `slay` and its update: keys, which send requests, and what
    the daemon sends.  A request goes through the client of Client, an answer
    is a [Reply] of Server; decoding an answer as another type than it was
    made from is a parameter, [misread].  What is drawn is in View.

    [answers_are_understood]: the answer to a request a key made is decoded as
    what it is.  [forget_key_spares_busy]: which disc the forget key asks to
    forget.  [status_moves_queue_cursor] and [queue_view_ejects_a_drive]: two
    limits of the shared cursor. *)

From Stdlib Require Import QArith_base.
From S2P Require Import Prelude GoText GoBase Disc Table Store Queue StoreWf StoreQueue Status Transcoder Daemon Worker Server WorkerScan ServerFacts Client.
#[local] Open Scope Z_scope.

Inductive view := viewDrives | viewHistory | viewLog | viewQueue | viewFailures.
#[global] Instance view_eq_dec : EqDecision view.
Proof. solve_decision. Defined.

Record Model := mkModel {
  mo_cli : Client;
  mo_status : option StatusReply;
  mo_drives : list DriveSnapshot;
  mo_jobs : list JobSummary;
  mo_queue : list TranscodeJobSummary;
  mo_failures : list FailureReport;
  mo_events : list eventRow;
  mo_haveAny : bool;
  mo_view : view;
  mo_selected : Z;
  mo_connected : bool;
  mo_quitting : bool;
  (** The method of each request in flight. *)
  mo_pending : gmap Z string;
  mo_flash : string;
  mo_flashErr : bool;
  mo_lastErr : string;
  mo_version : string;
  mo_width : Z;
  mo_height : Z;
}.

(** New *)
Definition tui_New (c : Client) (version : string) : Model :=
  mkModel c None [] [] [] [] [] false viewDrives 0 false false ∅ "" false "" version 80 24.

Definition with_view (v : view) (m : Model) : Model :=
  mkModel (mo_cli m) (mo_status m) (mo_drives m) (mo_jobs m) (mo_queue m) (mo_failures m) (mo_events m) (mo_haveAny m) v
    (mo_selected m) (mo_connected m) (mo_quitting m) (mo_pending m) (mo_flash m) (mo_flashErr m) (mo_lastErr m) (mo_version m) (mo_width m) (mo_height m).
Definition with_selected (i : Z) (m : Model) : Model :=
  mkModel (mo_cli m) (mo_status m) (mo_drives m) (mo_jobs m) (mo_queue m) (mo_failures m) (mo_events m) (mo_haveAny m) (mo_view m)
    i (mo_connected m) (mo_quitting m) (mo_pending m) (mo_flash m) (mo_flashErr m) (mo_lastErr m) (mo_version m) (mo_width m) (mo_height m).
Definition with_flash (text : string) (err : bool) (m : Model) : Model :=
  mkModel (mo_cli m) (mo_status m) (mo_drives m) (mo_jobs m) (mo_queue m) (mo_failures m) (mo_events m) (mo_haveAny m) (mo_view m)
    (mo_selected m) (mo_connected m) (mo_quitting m) (mo_pending m) text err (mo_lastErr m) (mo_version m) (mo_width m) (mo_height m).
Definition with_lastErr (text : string) (m : Model) : Model :=
  mkModel (mo_cli m) (mo_status m) (mo_drives m) (mo_jobs m) (mo_queue m) (mo_failures m) (mo_events m) (mo_haveAny m) (mo_view m)
    (mo_selected m) (mo_connected m) (mo_quitting m) (mo_pending m) (mo_flash m) (mo_flashErr m) text (mo_version m) (mo_width m) (mo_height m).
Definition with_connected (b : bool) (m : Model) : Model :=
  mkModel (mo_cli m) (mo_status m) (mo_drives m) (mo_jobs m) (mo_queue m) (mo_failures m) (mo_events m) (mo_haveAny m) (mo_view m)
    (mo_selected m) b (mo_quitting m) (mo_pending m) (mo_flash m) (mo_flashErr m) (mo_lastErr m) (mo_version m) (mo_width m) (mo_height m).
Definition with_quitting (m : Model) : Model :=
  mkModel (mo_cli m) (mo_status m) (mo_drives m) (mo_jobs m) (mo_queue m) (mo_failures m) (mo_events m) (mo_haveAny m) (mo_view m)
    (mo_selected m) (mo_connected m) true (mo_pending m) (mo_flash m) (mo_flashErr m) (mo_lastErr m) (mo_version m) (mo_width m) (mo_height m).
Definition with_cli (c : Client) (m : Model) : Model :=
  mkModel c (mo_status m) (mo_drives m) (mo_jobs m) (mo_queue m) (mo_failures m) (mo_events m) (mo_haveAny m) (mo_view m)
    (mo_selected m) (mo_connected m) (mo_quitting m) (mo_pending m) (mo_flash m) (mo_flashErr m) (mo_lastErr m) (mo_version m) (mo_width m) (mo_height m).
Definition with_pending (p : gmap Z string) (m : Model) : Model :=
  mkModel (mo_cli m) (mo_status m) (mo_drives m) (mo_jobs m) (mo_queue m) (mo_failures m) (mo_events m) (mo_haveAny m) (mo_view m)
    (mo_selected m) (mo_connected m) (mo_quitting m) p (mo_flash m) (mo_flashErr m) (mo_lastErr m) (mo_version m) (mo_width m) (mo_height m).
Definition with_lists (jobs : list JobSummary) (queue : list TranscodeJobSummary) (failures : list FailureReport)
    (events : list eventRow) (m : Model) : Model :=
  mkModel (mo_cli m) (mo_status m) (mo_drives m) jobs queue failures events (mo_haveAny m) (mo_view m)
    (mo_selected m) (mo_connected m) (mo_quitting m) (mo_pending m) (mo_flash m) (mo_flashErr m) (mo_lastErr m) (mo_version m) (mo_width m) (mo_height m).
Definition with_status (st : StatusReply) (m : Model) : Model :=
  mkModel (mo_cli m) (Some st) (sr_Drives st) (mo_jobs m) (mo_queue m) (mo_failures m) (mo_events m) true (mo_view m)
    (mo_selected m) (mo_connected m) (mo_quitting m) (mo_pending m) (mo_flash m) (mo_flashErr m) (mo_lastErr m) (mo_version m) (mo_width m) (mo_height m).
Definition with_size (w h : Z) (m : Model) : Model :=
  mkModel (mo_cli m) (mo_status m) (mo_drives m) (mo_jobs m) (mo_queue m) (mo_failures m) (mo_events m) (mo_haveAny m) (mo_view m)
    (mo_selected m) (mo_connected m) (mo_quitting m) (mo_pending m) (mo_flash m) (mo_flashErr m) (mo_lastErr m) (mo_version m) w h.

(** ** Rows *)

Definition rowCount (m : Model) : Z :=
  if bool_decide (mo_view m = viewQueue) then Z.of_nat (length (mo_queue m)) else Z.of_nat (length (mo_drives m)).
Definition row_at {A} (l : list A) (i : Z) : option A := if i <? 0 then None else l !! Z.to_nat i.
Definition currentJob (m : Model) : option TranscodeJobSummary := row_at (mo_queue m) (mo_selected m).
Definition current (m : Model) : option DriveSnapshot := row_at (mo_drives m) (mo_selected m).

(** forgetTarget: the fingerprint to send, or the refusal. *)
Definition forgetTarget (m : Model) : string * string :=
  match current m with
  | None => ("", "")
  | Some d =>
      if bool_decide (sn_Fingerprint d = "") then ("", "no disc in " +:+ sn_Label d +:+ " to forget")
      else if Busy (sn_State d) then ("", sn_Label d +:+ " is busy; cancel it first")
      else (sn_Fingerprint d, "")
  end.

(** ** Keys *)

(** request: what is sent, with the method remembered under its number. *)
Definition request (method : string) (params : option json) (m : Model) : Model * list json :=
  match Send (mo_cli m) method params with
  | (c, Err e) => (with_flash e true (with_cli c m), [])
  | (c, Ok (id, v)) => (with_pending (<[id := method]> (mo_pending m)) (with_cli c m), [v])
  end.
Definition limit_of (n : Z) : option json := Some (JObject [("limit", JInt n)]).
Definition job_of (id : Z) : option json := Some (JObject [("id", JInt id)]).
Definition on_drive (k : DriveSnapshot → Model → Model * list json) (m : Model) : Model * list json :=
  match current m with Some d => k d m | None => (m, []) end.

(** handleKey: the model, what is sent, and whether the program ends. *)
Definition handleKey (key : string) (m : Model) : Model * list json * bool :=
  let stay (r : Model * list json) := (r.1, r.2, false) in
  let key_in ks := bool_decide (key ∈ ks) in
  let in_queue := bool_decide (mo_view m = viewQueue) in
  if key_in ["q"; "ctrl+c"; "esc"] then (with_quitting m, [], true)
  else if key_in ["d"] then stay (with_view viewDrives m, [])
  else if key_in ["h"] then stay (request "history" (limit_of 50) (with_view viewHistory m))
  else if key_in ["l"] then stay (request "events" (limit_of 200) (with_view viewLog m))
  else if key_in ["x"] then stay (request "failures" (limit_of 100) (with_view viewFailures m))
  else if key_in ["t"] then stay (request "queue" (limit_of 100) (with_view viewQueue m))
  else if key_in ["up"; "k"] then stay ((if 0 <? mo_selected m then with_selected (mo_selected m - 1) m else m), [])
  else if key_in ["down"; "j"] then stay ((if mo_selected m <? rowCount m - 1 then with_selected (mo_selected m + 1) m else m), [])
  else if key_in ["e"] then stay (on_drive (λ d, request "eject" (param "drive" (sn_StableID d))) m)
  else if key_in ["r"] then
    if in_queue then
      match currentJob m with
      | Some j => stay (request "queue.retry" (job_of (ts_ID j)) m)
      | None => stay (m, [])
      end
    else stay (on_drive (λ d, request "retry" (param "drive" (sn_StableID d))) m)
  else if key_in ["c"] then
    if in_queue then stay (request "queue.cancel" None m)
    else stay (on_drive (λ d, request "cancel" (param "drive" (sn_StableID d))) m)
  else if key_in ["T"] then
    stay (on_drive (λ d m,
      if bool_decide (sn_Fingerprint d = "") then (with_flash ("no disc in " +:+ sn_Label d +:+ " to transcode") true m, [])
      else request "transcode" (param "fingerprint" (sn_Fingerprint d)) m) m)
  else if key_in ["f"] then
    let '(fp, refusal) := forgetTarget m in
    if negb (bool_decide (refusal = "")) then stay (with_flash refusal true m, [])
    else if negb (bool_decide (fp = "")) then stay (request "forget" (param "fingerprint" fp) m)
    else stay (m, [])
  else if key_in ["R"] then stay (request "rescan" None m)
  else stay (m, []).

(** ** What the daemon sends *)

(** A message of the client: an answer as decoded, a status or why it could not be decoded. *)
Inductive daemonMsg :=
| MsgConnected
| MsgDisconnected
| MsgErr (e : string)
| MsgStatus (st : outcome string StatusReply)
| MsgOtherPush
| MsgResponse (id : Z) (r : outcome string (option Reply)).

Section daemon_messages.
(** An answer decoded as another type than it was made from. *)
Context (misread : string → Reply → Model → Model).

(** The methods whose answer is a list. *)
Definition list_methods : list string := ["history"; "events"; "failures"; "queue"].
Definition applyResult (method : string) (r : Reply) (m : Model) : Model :=
  let named n := bool_decide (method = n) in
  match r with
  | ReplyHistory l => if named "history" then with_lists l (mo_queue m) (mo_failures m) (mo_events m) m else misread method r m
  | ReplyEvents l => if named "events" then with_lists (mo_jobs m) (mo_queue m) (mo_failures m) l m else misread method r m
  | ReplyFailures l => if named "failures" then with_lists (mo_jobs m) (mo_queue m) l (mo_events m) m else misread method r m
  | ReplyQueue l =>
      if named "queue" then
        let m := with_lists (mo_jobs m) l (mo_failures m) (mo_events m) m in
        if Z.of_nat (length l) <=? mo_selected m then with_selected 0 m else m
      else misread method r m
  | ReplyMap k x =>
      if bool_decide (method ∈ list_methods) then misread method r m
      else if named "transcode" then
        with_flash ("queued " +:+ (if bool_decide (k = "queued") then x else "") +:+ " for transcoding") false m
      else if named "forget" then with_flash "forgotten — this disc will be ripped again" false m
      else with_flash (k +:+ " " +:+ x) false m
  | _ => misread method r m
  end.

Definition applyStatus (st : outcome string StatusReply) (m : Model) : Model :=
  match st with
  | Err e => with_lastErr ("could not read status: " +:+ e) m
  | Ok st =>
      let m := with_status st m in
      let n := Z.of_nat (length (sr_Drives st)) in
      if n <=? mo_selected m then with_selected (Z.max 0 (n - 1)) m else m
  end.

Definition handleDaemon (msg : daemonMsg) (m : Model) : Model :=
  if mo_quitting m then m
  else match msg with
  | MsgConnected => with_flash "connected" false (with_lastErr "" (with_connected true m))
  | MsgDisconnected => with_flash "lost the connection to hellboxd — reconnecting" true (with_connected false m)
  | MsgErr e => with_lastErr e m
  | MsgStatus st => applyStatus st m
  | MsgOtherPush => m
  | MsgResponse id r =>
      let method := default "" (mo_pending m !! id) in
      let m := with_pending (delete id (mo_pending m)) m in
      match r with
      | Err e => with_flash e true m
      | Ok (Some r) => applyResult method r m
      | Ok None => m
      end
  end.

(** ** The loop *)

(** What the loop is asked to do next: wait for the daemon, wait a second, or end. *)
Inductive command := CmdWait | CmdTick | CmdQuit.
#[global] Instance command_eq_dec : EqDecision command.
Proof. solve_decision. Defined.
Inductive teaMsg :=
| WindowSizeMsg (w h : Z)
| TickMsg
| KeyMsg (key : string)
| DaemonMsg (msg : daemonMsg)
| OtherMsg.

(** waitFor: a message of the client's channel, or the end when it is closed. *)
Definition waitFor (received : option daemonMsg) : teaMsg + command :=
  match received with Some msg => inl (DaemonMsg msg) | None => inr CmdQuit end.
Definition Init : list command := [CmdWait; CmdTick].
(** Update: the model, what is sent, and the commands to run. *)
Definition Update (msg : teaMsg) (m : Model) : Model * list json * list command :=
  match msg with
  | WindowSizeMsg w h => (with_size w h m, [], [])
  | TickMsg => (m, [], [CmdTick])
  | KeyMsg key => let '(m, sent, quit) := handleKey key m in (m, sent, if quit : bool then [CmdQuit] else [])
  | DaemonMsg msg => (handleDaemon msg m, [], [CmdWait])
  | OtherMsg => (m, [], [])
  end.
(** The commands that were run for a sequence of messages. *)
Fixpoint commands (msgs : list teaMsg) (m : Model) : list command :=
  match msgs with
  | [] => []
  | msg :: msgs => let '(m, _, cmds) := Update msg m in cmds ++ commands msgs m
  end.
Definition count_cmd (c : command) (l : list command) : nat := length (filter (λ x, x = c) l).
Definition is_daemon_msg (msg : teaMsg) : bool := match msg with DaemonMsg _ => true | _ => false end.
Definition is_tick (msg : teaMsg) : bool := match msg with TickMsg => true | _ => false end.

(** the terminal listens once.  After any messages, the waits for the
    daemon that were started are one more than the messages received from it,
    and the ticks one more than those that came: one of each is under way. *)
Theorem always_listening msgs m :
  count_cmd CmdWait (Init ++ commands msgs m) = S (length (filter (λ x, is_daemon_msg x = true) msgs)) ∧
  count_cmd CmdTick (Init ++ commands msgs m) = S (length (filter (λ x, is_tick x = true) msgs)).
Proof.
  unfold count_cmd. rewrite !filter_app, !length_app. change (length (filter (λ x, x = CmdWait) Init)) with 1%nat.
  change (length (filter (λ x, x = CmdTick) Init)) with 1%nat.
  revert m. induction msgs as [|msg msgs IH]; intros m; [done|]. cbn [commands].
  destruct (Update msg m) as [[m' sent] cmds] eqn:E. specialize (IH m').
  assert (length (filter (λ x, x = CmdWait) cmds) = (if is_daemon_msg msg then 1 else 0)%nat ∧
    length (filter (λ x, x = CmdTick) cmds) = (if is_tick msg then 1 else 0)%nat) as [H1 H2].
  { destruct msg as [w h| |key|dm|]; cbn [Update] in E; try (injection E as _ _ <-; split; reflexivity).
    destruct (handleKey key m) as [[? ?] [|]]; injection E as _ _ <-; split; reflexivity. }
  rewrite !filter_app, !length_app, H1, H2, !filter_cons. destruct msg; cbn [is_daemon_msg is_tick]; repeat case_decide; cbn [length]; lia || congruence.
Qed.
End daemon_messages.

(** ** Asking and being answered *)

Definition tui_methods : list string :=
  ["history"; "events"; "failures"; "queue"; "eject"; "queue.retry"; "retry"; "queue.cancel"; "cancel"; "transcode"; "forget"; "rescan"].
(** An answer of the type its method's answers are decoded as. *)
Definition understood (method : string) (r : Reply) : Prop :=
  match r with
  | ReplyHistory _ => method = "history"
  | ReplyEvents _ => method = "events"
  | ReplyFailures _ => method = "failures"
  | ReplyQueue _ => method = "queue"
  | ReplyMap _ _ => method ∉ list_methods
  | _ => False
  end.

Lemma understood_any method r m x y : understood method r → applyResult x method r m = applyResult y method r m.
Proof.
  destruct r; cbn; intros H; try done; subst; rewrite ?bool_decide_eq_true_2 by done; try done.
  by rewrite (bool_decide_eq_false_2 _ H).
Qed.

Lemma request_sends method params m m' v : request method params m = (m', [v]) →
  Send (mo_cli m) method params = (mo_cli m', Ok (cl_id (mo_cli m) + 1, v)) ∧
  mo_pending m' !! (cl_id (mo_cli m) + 1) = Some method ∧ mo_quitting m' = mo_quitting m.
Proof.
  unfold request. destruct (Send (mo_cli m) method params) as [c [[id w]|e]] eqn:E; [|done]. intros [= <- <-]. cbn.
  assert (id = cl_id (mo_cli m) + 1) as -> by (unfold Send in E; destruct (negb _); by simplify_eq/=).
  by rewrite lookup_insert_eq.
Qed.

Lemma on_drive_sends k m m' v : on_drive k m = (m', [v]) → ∃ d, current m = Some d ∧ k d m = (m', [v]).
Proof. unfold on_drive. destruct (current m) as [d|]; [eauto|done]. Qed.

(** What a key sends is one of the client's requests. *)
Lemma handleKey_sends key m m' v b : handleKey key m = (m', [v], b) →
  ∃ m0 method params, request method params m0 = (m', [v]) ∧ mo_cli m0 = mo_cli m ∧ mo_quitting m0 = mo_quitting m ∧ method ∈ tui_methods.
Proof.
  assert (∀ r : Model * list json, (r.1, r.2, false) = (m', [v], b) → r = (m', [v])) as Hs by (intros [? ?]; cbn; congruence).
  unfold handleKey. cbv zeta.
  repeat match goal with |- context [bool_decide (key ∈ ?ks)] => destruct (bool_decide (key ∈ ks)) end; try (intros H; discriminate H); try (intros H%Hs; discriminate H);
    try (intros H%Hs; eexists _, _, _; (split; [exact H|]); cbn; (split; [done|]); (split; [done|]); unfold tui_methods; set_solver).
  - intros H%Hs. apply on_drive_sends in H as (d & _ & H). eexists _, _, _. split; [exact H|]. split; [done|]. split; [done|]. unfold tui_methods; set_solver.
  - destruct (bool_decide (mo_view m = viewQueue)).
    + destruct (currentJob m) as [j|]; [|intros H%Hs; discriminate H].
      intros H%Hs. eexists _, _, _. split; [exact H|]. split; [done|]. split; [done|]. unfold tui_methods; set_solver.
    + intros H%Hs. apply on_drive_sends in H as (d & _ & H). eexists _, _, _. split; [exact H|]. split; [done|]. split; [done|]. unfold tui_methods; set_solver.
  - destruct (bool_decide (mo_view m = viewQueue)).
    + intros H%Hs. eexists _, _, _. split; [exact H|]. split; [done|]. split; [done|]. unfold tui_methods; set_solver.
    + intros H%Hs. apply on_drive_sends in H as (d & _ & H). eexists _, _, _. split; [exact H|]. split; [done|]. split; [done|]. unfold tui_methods; set_solver.
  - intros H%Hs. apply on_drive_sends in H as (d & _ & H). destruct (bool_decide (sn_Fingerprint d = "")); [discriminate H|].
    eexists _, _, _. split; [exact H|]. split; [done|]. split; [done|]. unfold tui_methods; set_solver.
  - destruct (forgetTarget m) as [fp refusal]. destruct (negb (bool_decide (refusal = ""))); [intros H%Hs; discriminate H|].
    destruct (negb (bool_decide (fp = ""))); [|intros H%Hs; discriminate H].
    intros H%Hs. eexists _, _, _. split; [exact H|]. split; [done|]. split; [done|]. unfold tui_methods; set_solver.
Qed.

Section facts.
Context {U : Unicode}.
Context (unescape quote_other : string → string) (fold_other : string → string → bool).
Context (clock : nat → Z) (log_fault : nat → bool).
Notation handle := (Server.handle unescape quote_other fold_other clock log_fault).

Lemma listing_kind {A} v (op : DB A) k s r s' : listing v op k s = (Ok r, s') → ∃ a, r = k a.
Proof. unfold listing. destruct (query_db v op s) as [[a|e] s1]; [|done]. intros [= <- _]. by exists a. Qed.
Lemma on_worker_kind v name op key s r s' : on_worker quote_other fold_other v name op key s = (Ok r, s') → ∃ x, r = ReplyMap key x.
Proof.
  unfold on_worker. destruct (workerFor _ _ _ _ _) as [w|e]; [|done]. destruct (run_worker _ _ _) as [[u|e] s1]; [|done].
  intros [= <- _]. eauto.
Qed.

Lemma handle_understood v method params s r s' :
  method ∈ tui_methods → handle v method params s = (Ok r, s') → understood method r.
Proof.
  intros Hm. assert (∀ k x, method ∉ list_methods → r = ReplyMap k x → understood method r) as Hack by (by intros k x ? ->).
  unfold tui_methods in Hm. rewrite !elem_of_cons in Hm.
  repeat match type of Hm with _ ∨ _ => destruct Hm as [->|Hm] end; [..|by apply elem_of_nil in Hm];
    unfold Server.handle; simpl (bool_decide (_ = _)); cbv iota zeta;
    try (intros [a ->]%listing_kind; done);
    try (intros [x ->]%on_worker_kind; cbn; unfold list_methods; set_solver);
    (assert (∀ k x, r = ReplyMap k x → understood _ r) as Hk by (intros k x; apply Hack; unfold list_methods; set_solver)); clear Hack.
  - destruct (JobParams fold_other params) as [id ok]. destruct (negb ok); [done|].
    destruct (run_queue _ _ _) as [[t|e] s1]; [|done]. intros [= E _]. by eapply Hk.
  - done.
  - destruct (run_queue _ _ _) as [[t|e] s1]; [|done]. intros [= E _]. by eapply Hk.
  - destruct (FingerprintParams fold_other params) as [fp ok]. destruct (negb ok || _); [done|].
    destruct (run_queue _ _ _) as [[[n name]|e] s1]; [|done]. intros [= E _]. by eapply Hk.
  - destruct (FingerprintParams fold_other params) as [fp ok]. destruct (negb ok || _); [done|].
    destruct (query_db _ _ _) as [[t|e] s1]; [|done]. intros [= E _]. by eapply Hk.
  - destruct (rescan _ _ _ _ _ _) as [[t|e] s1]; [|done]. intros [= E _]. by eapply Hk.
Qed.

(** C29: an answer is understood.  When a key sends a request and the daemon
    answers it, the terminal decodes the answer as what the daemon made it
    from, whatever else it asked in the meantime: it knows the request by its
    number, and what it does does not depend on how anything would be
    misread. *)
Theorem answers_are_understood key m m' v b type_error id method params env r srv s' misread misread' :
  0 ≤ cl_id (mo_cli m) < 2 ^ 63 - 1 → handleKey key m = (m', [v], b) →
  read_request fold_other type_error v = Request id method params → handle env method params srv = (Ok r, s') →
  mo_pending m' !! id = Some method ∧
  ∀ m2, mo_pending m2 !! id = Some method →
    handleDaemon misread (MsgResponse id (Ok (Some r))) m2 = handleDaemon misread' (MsgResponse id (Ok (Some r))) m2.
Proof.
  intros Hid Hk Hr Hh. apply handleKey_sends in Hk as (m0 & meth & ps & Hreq & Hc & _ & Hm).
  apply request_sends in Hreq as (Hsend & Hp & _). rewrite Hc in Hsend, Hp.
  destruct (request_roundtrip_lemma fold_other type_error _ _ _ _ _ _ Hid Hsend) as (_ & _ & Hread). rewrite Hread in Hr. injection Hr as <- <- <-.
  split; [exact Hp|]. intros m2 Hm2. unfold handleDaemon. destruct (mo_quitting m2); [done|]. rewrite Hm2. cbn.
  apply understood_any. by eapply handle_understood.
Qed.
End facts.

(** the forget key asks to forget the disc in the selected drive, and
    never while that drive is at work. *)
Theorem forget_key_spares_busy m m' v b : handleKey "f" m = (m', [v], b) →
  ∃ d, current m = Some d ∧ Busy (sn_State d) = false ∧ sn_Fingerprint d ≠ "" ∧
    request "forget" (param "fingerprint" (sn_Fingerprint d)) m = (m', [v]).
Proof.
  unfold handleKey. cbv zeta. simpl (bool_decide (_ ∈ _)). cbv iota. unfold forgetTarget.
  destruct (current m) as [d|]; [|cbn; discriminate]. case_bool_decide as Hf; [cbn; discriminate|].
  destruct (Busy (sn_State d)) eqn:Hb.
  - rewrite bool_decide_eq_false_2; [cbn; discriminate|]. by apply append_not_empty.
  - rewrite bool_decide_eq_true_2 by done. rewrite (bool_decide_eq_false_2 _ Hf). cbn.
    destruct (request _ _ m) as [m1 l] eqn:E. cbn. intros [= -> -> _]. by exists d.
Qed.

Definition stayed (r : Model * list json) : Model * list json * bool := (r.1, r.2, false).

(** a status moves the cursor of the queue.  In the queue view, with the
    cursor on an entry past the number of drives, the next status, which comes
    every second, puts it on the number of the last drive; the key that
    retries then asks for the job there, not for the one that was chosen. *)
Theorem status_moves_queue_cursor misread st m job :
  mo_quitting m = false → mo_view m = viewQueue → currentJob m = Some job →
  0 < mo_selected m → Z.of_nat (length (sr_Drives st)) ≤ mo_selected m →
  let m' := handleDaemon misread (MsgStatus (Ok st)) m in
  let i := Z.max 0 (Z.of_nat (length (sr_Drives st)) - 1) in
  mo_selected m' = i ∧ i < mo_selected m ∧
  ∃ other, mo_queue m !! Z.to_nat i = Some other ∧ handleKey "r" m' = stayed (request "queue.retry" (job_of (ts_ID other)) m').
Proof.
  intros Hq Hv Hj H0 Hl. cbv zeta. set (i := Z.max 0 _). 
  assert (handleDaemon misread (MsgStatus (Ok st)) m = with_selected i (with_status st m)) as E.
  { unfold handleDaemon, applyStatus. rewrite Hq. cbn [with_status mo_selected]. by rewrite (proj2 (Z.leb_le _ _) Hl). }
  split; [by rewrite E|]. split; [lia|].
  unfold currentJob, row_at in Hj. rewrite (proj2 (Z.ltb_ge _ _)) in Hj by lia. apply lookup_lt_Some in Hj.
  destruct (lookup_lt_is_Some_2 (mo_queue m) (Z.to_nat i)) as [other Ho]; [lia|]. exists other. split; [done|].
  rewrite E. unfold handleKey. cbv zeta. simpl (bool_decide (_ ∈ _)). cbv iota.
  rewrite bool_decide_eq_true_2 by exact Hv.
  assert (currentJob (with_selected i (with_status st m)) = Some other) as ->; [|done].
  unfold currentJob, row_at. cbn. by rewrite (proj2 (Z.ltb_ge _ _)) by lia.
Qed.

(** the keys for a drive act on one that is not shown.  In the queue view
    the eject key ejects the drive whose place in the list of drives is the
    cursor's place in the queue. *)
Theorem queue_view_ejects_a_drive m d :
  mo_view m = viewQueue → mo_drives m !! Z.to_nat (mo_selected m) = Some d → 0 ≤ mo_selected m →
  handleKey "e" m = stayed (request "eject" (param "drive" (sn_StableID d)) m).
Proof.
  intros Hv Hd H0. unfold handleKey. cbv zeta. simpl (bool_decide (_ ∈ _)). cbv iota. unfold on_drive, current, row_at.
  by rewrite (proj2 (Z.ltb_ge _ _) H0), Hd.
Qed.

(** ** A small screen *)

Definition one_status : StatusReply := mkStatusReply 1 1 [snap (newDriveStatus 0 "usb-ASUS_1" "left" "/dev/sr0" "BW-16")] []
  (mkTranscodeSnapshot false "" 0 0%Q 0%Q false 0 0) 0 "/rips" 0.
Definition queue_entry (id : Z) : TranscodeJobSummary :=
  mkTranscodeJobSummary id 1 "HEAT" id TranscodeFailed 0 2 false "" "" false.
Definition connected : Model :=
  handleDaemon (λ _ _ m, m) MsgConnected (tui_New (mkClient true 4) "1.0").
(** The queue of three jobs on screen, the cursor on the third. *)
Definition on_third : Model :=
  with_selected 2 (with_view viewQueue (with_lists [] (queue_entry <$> [11; 12; 13]) [] [] (handleDaemon (λ _ _ m, m) (MsgStatus (Ok one_status)) connected))).

Lemma status_moves_queue_cursor_witness :
  ts_ID <$> currentJob on_third = Some 13 ∧
  ∃ other, mo_queue on_third !! 0%nat = Some other ∧ ts_ID other = 11 ∧
    handleKey "r" (handleDaemon (λ _ _ m, m) (MsgStatus (Ok one_status)) on_third) =
      stayed (request "queue.retry" (job_of 11) (handleDaemon (λ _ _ m, m) (MsgStatus (Ok one_status)) on_third)).
Proof.
  split; [reflexivity|].
  destruct (status_moves_queue_cursor (λ _ _ m, m) one_status on_third (queue_entry 13)) as (_ & _ & other & Ho & Hk).
  - reflexivity.
  - reflexivity.
  - reflexivity.
  - cbn. lia.
  - cbn. lia.
  - exists other. split; [exact Ho|]. cbn in Ho. injection Ho as <-. split; [reflexivity|exact Hk].
Defined.

Lemma queue_view_ejects_a_drive_witness :
  handleKey "e" (with_selected 0 on_third) = stayed (request "eject" (param "drive" "usb-ASUS_1") (with_selected 0 on_third)).
Proof.
  refine (queue_view_ejects_a_drive (with_selected 0 on_third) (snap (newDriveStatus 0 "usb-ASUS_1" "left" "/dev/sr0" "BW-16")) _ _ _).
  - reflexivity.
  - reflexivity.
  - cbn. lia.
Defined.

Definition with_disc : Model :=
  with_status (mkStatusReply 1 1 [set_disc "HEAT" "f00d" 3 (snap (newDriveStatus 0 "usb-ASUS_1" "left" "/dev/sr0" "BW-16"))] []
    (mkTranscodeSnapshot false "" 0 0%Q 0%Q false 0 0) 0 "/rips" 0) connected.
Lemma forget_key_spares_busy_witness :
  ∃ m' v d, handleKey "f" with_disc = (m', [v], false) ∧ current with_disc = Some d ∧ Busy (sn_State d) = false.
Proof.
  destruct (handleKey "f" with_disc) as [[m' sent] b] eqn:E.
  assert (∃ v, sent = [v] ∧ b = false) as (v & -> & ->) by (vm_compute in E; injection E as _ <- <-; eexists; split; reflexivity).
  destruct (forget_key_spares_busy with_disc m' v false E) as (d & Hd & Hb & _).
  exists m', v, d. split; [reflexivity|]. split; [exact Hd|exact Hb].
Defined.

Lemma answers_are_understood_witness :
  let m' := (handleKey "e" with_disc).1.1 in
  mo_pending m' !! 5 = Some "eject" ∧
  handleDaemon (λ _ _ m, with_lastErr "misread" m) (MsgResponse 5 (Ok (Some (ReplyMap "ejected" "ASUS")))) m' =
  handleDaemon (λ _ _ m, m) (MsgResponse 5 (Ok (Some (ReplyMap "ejected" "ASUS")))) m'.
Proof.
  cbv zeta. destruct (handleKey "e" with_disc) as [[m' sent] b] eqn:E.
  assert (∃ v, sent = [v]) as [v ->] by (vm_compute in E; injection E as _ <- _; eexists; reflexivity).
  destruct (@answers_are_understood caseless no_text no_text (λ _ _, false) no_clock no_fault "e" with_disc m' v b "bad" 5 "eject"
    (param "drive" "usb-ASUS_1") (demo_req None) (ReplyMap "ejected" "ASUS") (demo_srv demo_store)
    (@Server.handle caseless no_text no_text (λ _ _, false) no_clock no_fault (demo_req None) "eject" (param "drive" "usb-ASUS_1") (demo_srv demo_store)).2
    (λ _ _ m, with_lastErr "misread" m) (λ _ _ m, m)) as [Hp Heq].
  - cbn. lia.
  - exact E.
  - vm_compute in E. injection E as _ <- _. reflexivity.
  - vm_compute. reflexivity.
  - split; [exact Hp|]. exact (Heq m' Hp).
Defined.
