(* ===== verification/Screen.v ===== *)
(** * Text on a screen (the helpers of internal/tui/view.go and tui.go)

    Cutting and padding by runes, fmt's widths, the time of day, and the
    numbers a row shows.  [truncate_width] and [pad_width]: what they return
    takes the columns it was given.  [truncate_fits]: a text that fits is left
    alone.  [bar_cells]: the bar always has the cells it was asked for. *)

From Stdlib Require Import SpecFloat QArith_base.
From S2P Require Import Prelude GoText GoFloat FloatFacts GoBase Regex RegexLines Ifo.
#[local] Open Scope Z_scope.

(** ** Runes *)

(** string([]rune(s)) *)
Definition of_runes (l : list (Z * string)) : string := join "" (rune_bytes <$> l).
Definition repeat_text (s : string) (n : Z) : string := join "" (replicate (Z.to_nat n) s).

Definition truncate (s : string) (n : Z) : string :=
  if n <=? 0 then ""
  else
    let r := runes s in
    if Z.of_nat (length r) <=? n then s
    else if n <=? 1 then of_runes (take (Z.to_nat n) r)
    else of_runes (take (Z.to_nat (n - 1)) r) +:+ "…".
Definition pad (s : string) (n : Z) : string :=
  if n <=? rune_count s then s else s +:+ repeat_text " " (n - rune_count s).
(** [%-*s] and [%*s] *)
Definition fmt_left (n : Z) (s : string) : string := s +:+ repeat_text " " (n - rune_count s).
Definition fmt_right (n : Z) (s : string) : string := repeat_text " " (n - rune_count s) +:+ s.

Example truncate_a : (λ s, (truncate s 4, truncate s 1)) <$> ["HEAT"; "Amélie"; "été"] = [("HEAT", "H"); ("Amé…", "A"); ("été", "é")].
Proof. vm_compute. reflexivity. Qed.
Example pad_a : (λ s, pad s 6) <$> ["é"; "HEAT"; "DOGTOOTH"] = ["é     "; "HEAT  "; "DOGTOOTH"].
Proof. vm_compute. reflexivity. Qed.

(** A rune that is decoded is decoded again from its own bytes, whatever follows them. *)
Lemma decode_rune_again a s r s' : decode_rune a s = (r, s') → r ≠ RuneError →
  ∃ u, s = u +:+ s' ∧ ∀ t, decode_rune a (u +:+ t) = (r, t).
Proof.
  unfold decode_rune. intros H Hr.
  repeat match type of H with
  | (if ?b then _ else _) = _ => destruct b eqn:?
  | (match ?s with EmptyString => _ | String _ _ => _ end) = _ => destruct s
  end; injection H as <- <-; try done.
  all: first [ by exists "" | eexists (String _ ""); split; [reflexivity|]
        | eexists (String _ (String _ "")); split; [reflexivity|]
        | eexists (String _ (String _ (String _ ""))); split; [reflexivity|] ].
  all: intros t; cbn [String.append]; repeat match goal with H : ?b = _ |- context [if ?b then _ else _] => rewrite H end; reflexivity.
Qed.

Lemma runes_of_enough n : ∀ m s, (String.length s ≤ n)%nat → (n ≤ m)%nat → runes_of m s = runes_of n s.
Proof.
  induction n as [|n IH]; intros m s Hn Hm.
  { destruct s; [|cbn in Hn; lia]. by destruct m. }
  destruct m as [|m]; [lia|]. destruct s as [|a s]; [done|]. cbn [runes_of].
  pose proof (decode_rune_shorter a s) as Hs. destruct (decode_rune a s) as [r t]. cbn [snd] in Hs. cbn in Hn. f_equal.
  apply IH; lia.
Qed.
Lemma runes_cons a s :
  runes (String a s) = let '(r, t) := decode_rune a s in (r, str_take (String.length (String a s) - String.length t) (String a s)) :: runes t.
Proof.
  unfold runes at 1. cbn [String.length runes_of]. pose proof (decode_rune_shorter a s) as Hs.
  destruct (decode_rune a s) as [r t]. f_equal. by apply runes_of_enough.
Qed.

Lemma str_take_prefix u t : str_take (String.length u) (u +:+ t) = u.
Proof. unfold str_take. induction u as [|c u IH]; [by destruct t|]. cbn [String.length String.append String.substring]. by rewrite IH. Qed.
Lemma str_take_app u t : str_take (String.length (u +:+ t) - String.length t) (u +:+ t) = u.
Proof.
  assert (String.length (u +:+ t) = String.length u + String.length t)%nat as ->.
  { induction u as [|c u IH]; [done|]. cbn. by rewrite IH. }
  replace (_ + _ - _)%nat with (String.length u) by lia. apply str_take_prefix.
Qed.

(** A piece of text that is one rune. *)
Definition one_rune (x : Z * string) : Prop := ∀ t, runes (rune_bytes x +:+ t) = (x.1, rune_bytes x) :: runes t.
Lemma decoded_one_rune c u r t' : (∀ t, decode_rune c (u +:+ t) = (r, t)) → runes (String c u +:+ t') = (r, String c u) :: runes t'.
Proof. intros H. change (String c u +:+ t') with (String c (u +:+ t')). rewrite runes_cons, H. f_equal. f_equal. exact (str_take_app (String c u) t'). Qed.

Lemma runes_one s : Forall one_rune (runes s).
Proof.
  unfold runes. generalize (String.length s) as n. intros n. revert s.
  induction n as [|n IH]; intros s; [constructor|]. destruct s as [|a s]; [constructor|]. cbn [runes_of].
  destruct (decode_rune a s) as [r t] eqn:D. constructor; [|apply IH]. intros t'. unfold rune_bytes. cbn [fst snd].
  destruct (Z.eqb_spec r RuneError) as [->|Hr].
  - apply (decoded_one_rune (byte_of 239)). done.
  - destruct (decode_rune_again a s r t D Hr) as (u & -> & Hu).
    change (String a (u +:+ t)) with (String a u +:+ t); rewrite str_take_app. by apply decoded_one_rune.
Qed.

Lemma runes_rejoin l t : Forall one_rune l → length (runes (of_runes l +:+ t)) = (length l + length (runes t))%nat.
Proof.
  induction 1 as [|x l Hx _ IH]; [done|].
  assert (of_runes (x :: l) = rune_bytes x +:+ of_runes l) as ->.
  { unfold of_runes, join. cbn. destruct (rune_bytes <$> l); [by rewrite str_app_empty_r|done]. }
  rewrite <- str_app_assoc, Hx. cbn [length]. by rewrite IH.
Qed.

(** ** Width *)

Lemma truncate_fits s n : 0 < n → rune_count s ≤ n → truncate s n = s.
Proof.
  intros Hn Hs. unfold truncate. rewrite (proj2 (Z.leb_gt _ _)) by lia. unfold rune_count in Hs. by rewrite (proj2 (Z.leb_le _ _)) by lia.
Qed.
Lemma truncate_width s n : rune_count (truncate s n) = Z.min (rune_count s) (Z.max n 0).
Proof.
  unfold truncate, rune_count. case_match; [cbn; lia|]. case_match; [lia|].
  pose proof (runes_one s) as Hf. case_match.
  - rewrite <- (str_app_empty_r (of_runes _)), runes_rejoin by (by apply Forall_take). rewrite length_take. cbn. lia.
  - rewrite runes_rejoin by (by apply Forall_take). rewrite length_take. change (length (runes "…")) with 1%nat. lia.
Qed.

(** Text in ASCII adds a column for each byte. *)
Lemma count_app_ascii s t : is_ascii t = true → length (runes (s +:+ t)) = (length (runes s) + String.length t)%nat.
Proof.
  assert (∀ t, is_ascii t = true → length (runes t) = String.length t) as H0.
  { intros u. induction u as [|c u IH]; [done|]. unfold is_ascii. cbn [str_forall]. intros [Hc Hu]%andb_true_iff.
    rewrite runes_cons, decode_rune_ascii by done. cbn [length String.length]. by rewrite IH. }
  intros Ht. remember (String.length s) as n eqn:En. assert (String.length s ≤ n)%nat as Hn by lia. clear En.
  revert s Hn. induction n as [|n IH]; intros s Hn; (destruct s as [|a s]; [by apply H0|cbn in Hn; try lia]).
  destruct t as [|c t]; [by rewrite str_app_empty_r, Nat.add_0_r|].
  cbn [String.append]. rewrite !runes_cons. rewrite (decode_rune_before_ascii a s c t) by (by apply andb_true_iff in Ht as [? _]).
  pose proof (decode_rune_shorter a s) as Hs. destruct (decode_rune a s) as [r s']. cbn [fst snd length] in *. rewrite IH by lia. done.
Qed.
Lemma repeat_text_spaces n : is_ascii (repeat_text " " n) = true ∧ String.length (repeat_text " " n) = Z.to_nat n.
Proof.
  unfold repeat_text. induction (Z.to_nat n) as [|k IH]; [done|]. cbn [replicate].
  assert (join "" (" " :: replicate k " ") = " " +:+ join "" (replicate k " ")) as -> by (destruct k; done). cbn. destruct IH as [H1 H2]. by rewrite H2.
Qed.
Lemma pad_width s n : rune_count (pad s n) = Z.max (rune_count s) n.
Proof.
  unfold pad. case_match; [lia|]. pose proof (repeat_text_spaces (n - rune_count s)) as [Ha Hl].
  unfold rune_count in *. rewrite count_app_ascii, Hl by done. lia.
Qed.

(** ** Numbers in a row *)

Definition plural (n : Z) : string := if n =? 1 then "" else "s".
(** [f[:12]] *)
Definition shortFingerprint (f : string) : string := if 12 <? len f then str_take 12 f else f.

(** Duration.Round: the nearest multiple, half away from zero, inside int64. *)
Definition Round (d m : Z) : Z :=
  Z.max (- 2 ^ 63) (Z.min (2 ^ 63 - 1) (Z.sgn d * ((Z.abs d + m / 2) / m) * m)).
(** int(d.Hours()) and int(d.Minutes()) of whole minutes are the whole hours and minutes. *)
Definition shortDuration (d : Z) : string :=
  let d := Round d Minute in
  if d <? Minute then "<1m"
  else
    let h := Z.quot d Hour in
    let m := Z.quot d Minute in
    if 0 <? h then itoa h +:+ "h" +:+ itoa02 (Z.rem m 60) +:+ "m" else itoa m +:+ "m".
Example shortDuration_a : (λ s, shortDuration (s * Second)) <$> [0; 29; 30; 89; 90; 3569; 3570; 3660; 36000]
  = ["<1m"; "<1m"; "1m"; "1m"; "2m"; "59m"; "1h00m"; "1h01m"; "10h00m"].
Proof. vm_compute. reflexivity. Qed.

(** The loop of humanBytes: the divisor and its exponent, for at most [fuel] divisions. *)
Fixpoint human_unit (fuel : nat) (v div : Z) (exp : nat) : Z * nat :=
  match fuel with
  | O => (div, exp)
  | S fuel => if v <? 1024 then (div, exp) else human_unit fuel (Z.quot v 1024) (div * 1024) (S exp)
  end.
(** An int64 is divided at most five times; the sixth unit has no letter, and the program stops. *)
Definition humanBytes (n : Z) : option string :=
  if n <? 1024 then Some (itoa n +:+ " B")
  else
    let '(div, exp) := human_unit 6 (Z.quot n 1024) 1024 0 in
    u ← ["K"; "M"; "G"; "T"; "P"] !! exp;
    Some (fmt_1f (f_lit n div) +:+ " " +:+ u +:+ "B").
Example humanBytes_a : humanBytes <$> [0; 1023; 1024; 1536; 4700000000; 2 ^ 60 - 1; 2 ^ 60]
  = [Some "0 B"; Some "1023 B"; Some "1.0 KB"; Some "1.5 KB"; Some "4.4 GB"; Some "1024.0 PB"; None].
Proof. vm_compute. reflexivity. Qed.

Lemma human_unit_exp fuel : ∀ v div exp, v < 1024 ^ Z.of_nat fuel → (0 < fuel)%nat → 0 ≤ v →
  (exp ≤ (human_unit fuel v div exp).2 ≤ exp + (fuel - 1))%nat.
Proof.
  induction fuel as [|fuel IH]; intros v div exp Hv Hf H0; [lia|]. cbn [human_unit].
  destruct (Z.ltb_spec v 1024); [cbn; lia|].
  destruct fuel as [|fuel]; [rewrite Z.pow_1_r in Hv; lia|].
  rewrite Z.quot_div_nonneg by lia. specialize (IH (v / 1024) (div * 1024) (S exp)).
  rewrite Nat2Z.inj_succ, Z.pow_succ_r in Hv by lia.
  assert (v / 1024 < 1024 ^ Z.of_nat (S fuel)) by (apply Z.div_lt_upper_bound; lia).
  assert (0 ≤ v / 1024) by (apply Z.div_pos; lia). lia.
Qed.
Lemma human_unit_more fuel : ∀ v div exp, v < 1024 ^ Z.of_nat fuel → (0 < fuel)%nat → 0 ≤ v → human_unit (S fuel) v div exp = human_unit fuel v div exp.
Proof.
  induction fuel as [|fuel IH]; intros v div exp Hv Hf H0; [lia|]. change (human_unit (S (S fuel)) v div exp) with
    (if v <? 1024 then (div, exp) else human_unit (S fuel) (Z.quot v 1024) (div * 1024) (S exp)). cbn [human_unit].
  destruct (Z.ltb_spec v 1024); [done|]. rewrite Z.quot_div_nonneg by lia.
  destruct fuel as [|fuel]; [rewrite Z.pow_1_r in Hv; lia|].
  rewrite Nat2Z.inj_succ, Z.pow_succ_r in Hv by lia. apply IH; [apply Z.div_lt_upper_bound; lia|lia|apply Z.div_pos; lia].
Qed.
(** Below an exbibyte there is a letter. *)
Lemma humanBytes_total n : n < 2 ^ 60 → is_Some (humanBytes n).
Proof.
  intros Hn. unfold humanBytes. destruct (Z.ltb_spec n 1024); [eauto|]. rewrite Z.quot_div_nonneg by lia.
  assert (n / 1024 < 1024 ^ Z.of_nat 5) by (apply Z.div_lt_upper_bound; lia).
  assert (0 ≤ n / 1024) by (apply Z.div_pos; lia).
  rewrite human_unit_more by (done || lia).
  pose proof (human_unit_exp 5 (n / 1024) 1024 0 ltac:(done) ltac:(lia) ltac:(done)) as He.
  destruct (human_unit 5 (n / 1024) 1024 0) as [div exp]. cbn [snd] in He.
  destruct (lookup_lt_is_Some_2 ["K"; "M"; "G"; "T"; "P"] exp) as [u Hu]; [cbn; lia|]. rewrite Hu. cbn. eauto.
Qed.

(** From an exbibyte on there is none. *)
Lemma human_unit_least k : ∀ fuel v div exp, (k ≤ fuel)%nat → 1024 ^ Z.of_nat k ≤ v → (exp + k ≤ (human_unit fuel v div exp).2)%nat.
Proof.
  induction k as [|k IH]; intros fuel v div exp Hk Hv.
  - clear. revert v div exp. induction fuel as [|fuel IH]; intros v div exp; cbn [human_unit]; [cbn; lia|].
    case_match; [cbn; lia|]. specialize (IH (Z.quot v 1024) (div * 1024) (S exp)). lia.
  - destruct fuel as [|fuel]; [lia|]. cbn [human_unit].
    rewrite Nat2Z.inj_succ, Z.pow_succ_r in Hv by lia. assert (0 < 1024 ^ Z.of_nat k) by lia.
    rewrite (proj2 (Z.ltb_ge _ _)), Z.quot_div_nonneg by lia.
    specialize (IH fuel (v / 1024) (div * 1024) (S exp) ltac:(lia) ltac:(apply Z.div_le_lower_bound; lia)). lia.
Qed.
Lemma humanBytes_huge n : 2 ^ 60 ≤ n < 2 ^ 63 → humanBytes n = None.
Proof.
  intros Hn. unfold humanBytes. rewrite (proj2 (Z.ltb_ge _ _)) by lia. rewrite Z.quot_div_nonneg by lia.
  pose proof (human_unit_least 5 6 (n / 1024) 1024 0 ltac:(lia) ltac:(apply Z.div_le_lower_bound; lia)) as He.
  destruct (human_unit 6 (n / 1024) 1024 0) as [div exp]. cbn [snd] in He.
  rewrite lookup_ge_None_2; [done|]. cbn. lia.
Qed.

(** A fraction as the number it is sent as, and [%3.0f%%] of its hundredfold. *)
Definition f_of_Q (q : Q) : float64 := f_lit (Qnum q) (Zpos (Qden q)).
Definition percent (f : float64) : string := fmt_right 3 (fmt_0f (f_mul f (f_of_Z 100))) +:+ "%".
Example percent_a : (λ x : Z * Z, percent (f_lit x.1 x.2)) <$> [(0, 1); (1, 3); (125, 1000); (999, 1000); (1, 1)] = ["  0%"; " 33%"; " 12%"; "100%"; "100%"].
Proof. vm_compute. reflexivity. Qed.

(** How many of [width] cells of a bar are filled. *)
Definition clamp (f : float64) : float64 :=
  let f := if f_lt f (f_of_Z 0) then f_of_Z 0 else f in
  if f_lt (f_of_Z 1) f then f_of_Z 1 else f.
Definition filled_cells (f : float64) (width : Z) : Z := f_to_int (f_mul (clamp f) (f_of_Z width)).

(** Among numbers in the form float64 keeps them in, one is not below a value at most 1. *)
Lemma not_above_one m e : bounded 53 1024 m e = true → f_lt (f_of_Z 1) (S754_finite false m e) = false → at_most (Zpos m) e 1.
Proof.
  unfold bounded, canonical_mantissa, fexp, emin. intros [Hc%Zeq_bool_eq _]%andb_true_iff Hl.
  rewrite digits2_log2 in Hc. 
  assert (Z.log2 (Zpos m) < 53) as Hm%Z.log2_lt_pow2 by lia; [|lia].
  assert (e < -52 ∨ e = -52 ∧ Zpos m ≤ 2 ^ 52) as He.
  { destruct (Z.lt_trichotomy e (-52)) as [|[->|]]; [by left|right|exfalso].
    - split; [done|]. apply Z.nlt_ge. intros Hx. assert (f_lt (f_of_Z 1) (S754_finite false m (-52)) = true) as E; [|congruence].
      apply f_lt_key; [done..|]. change (f_key (f_of_Z 1)) with (1, -52, 2 ^ 52). unfold key_lt. cbn [f_key fst snd]. lia.
    - assert (f_lt (f_of_Z 1) (S754_finite false m e) = true) as E; [|congruence].
      apply f_lt_key; [done..|]. change (f_key (f_of_Z 1)) with (1, -52, 2 ^ 52). unfold key_lt. cbn [f_key fst snd]. lia. }
  unfold at_most. rewrite Z.max_r, Z.max_l by lia. change (2 ^ 0) with 1.
  destruct He as [He|[-> Hx]]; [|lia]. transitivity (2 ^ 53); [lia|]. rewrite Z.mul_1_l. apply Z.pow_le_mono_r; lia.
Qed.

Lemma f_lt_zero_of_one f : f_lt (f_of_Z 1) f = true → f_lt (f_of_Z 0) f = true.
Proof.
  intros H. destruct (is_nan f) eqn:Hn; [by destruct f as [|[]| |]|].
  apply f_lt_key; [done..|]. apply f_lt_key in H; [|done..]. change (f_key (f_of_Z 1)) with (1, -52, 2 ^ 52) in H.
  change (f_key (f_of_Z 0)) with (0, 0, 0). unfold key_lt in *. cbn [fst snd] in *. lia.
Qed.

(** The bar neither overflows nor falls short: the number filled, rounded as
    it is, is between none and all. *)
Lemma bar_cells f width : valid_binary 53 1024 f = true → is_nan f = false → 0 < width < 2 ^ 53 → 0 ≤ filled_cells f width ≤ width.
Proof.
  intros Hv Hn Hw. pose proof (f_of_Z_represents width Hw) as Hy. unfold filled_cells, clamp.
  assert (∀ m e, at_most (Zpos m) e 1 → 0 ≤ f_to_int (f_mul (S754_finite false m e) (f_of_Z width)) ≤ width) as Hin.
  { intros m e H1. apply within_to_int; [lia|]. by apply f_mul_within. }
  assert (0 ≤ f_to_int (f_mul (f_of_Z 0) (f_of_Z width)) ≤ width) as H0 by (destruct Hy as (? & ? & -> & _); cbn; lia).
  assert (0 ≤ f_to_int (f_mul (f_of_Z 1) (f_of_Z width)) ≤ width) as H1 by (by apply Hin).
  destruct (f_lt f (f_of_Z 0)) eqn:Hneg; [done|]. destruct (f_lt (f_of_Z 1) f) eqn:Hbig; [done|].
  destruct f as [s|[]| |[] m e]; try done.
  - destruct Hy as (? & ? & -> & _). cbn. lia.
  - apply Hin, not_above_one; done.
Qed.

(** ** The time of day *)

(** The month and the day of the month of a day counted from 1970-01-01. *)
Definition month_day (days : Z) : Z * Z :=
  let doe := (days + 719468) mod 146097 in
  let yoe := (doe - doe / 1460 + doe / 36524 - doe / 146096) / 365 in
  let doy := doe - (365 * yoe + yoe / 4 - yoe / 100) in
  let mp := (5 * doy + 2) / 153 in
  (if mp <? 10 then mp + 3 else mp - 9, doy - (153 * mp + 2) / 5 + 1).
Definition months : list string :=
  ["Jan"; "Feb"; "Mar"; "Apr"; "May"; "Jun"; "Jul"; "Aug"; "Sep"; "Oct"; "Nov"; "Dec"].

Section local_time.
(** The offset of the local time zone from UTC at an instant, in seconds. *)
Context (zone : Z → Z).

(** t.Local().Format("15:04"), Format("15:04:05") and Format("Jan 02 15:04") *)
Definition clock_time (t : Z) : string :=
  let s := (t + zone t) mod 86400 in itoa02 (s / 3600) +:+ ":" +:+ itoa02 (s / 60 mod 60).
Definition clock_time_secs (t : Z) : string := clock_time t +:+ ":" +:+ itoa02 ((t + zone t) mod 60).
Definition calendar_time (t : Z) : string :=
  let '(m, d) := month_day ((t + zone t) / 86400) in
  default "" (months !! Z.to_nat (m - 1)) +:+ " " +:+ itoa02 d +:+ " " +:+ clock_time t.
End local_time.
Example calendar_a : (calendar_time (λ _, 3600)) <$> [0; 951782400; 1709164799; 1735689599; 4102444800; -1]
  = ["Jan 01 01:00"; "Feb 29 01:00"; "Feb 29 00:59"; "Jan 01 00:59"; "Jan 01 01:00"; "Jan 01 00:59"].
Proof. vm_compute. reflexivity. Qed.
