(* ===== verification/View.v ===== *)
(** * Drawing the terminal (internal/tui/view.go)

    What each part of the screen says, as the text that is written.  The
    styling library is a parameter: [Render] wraps a text in its style and
    [Width] counts its columns.  [None] is a program stopped by a slice out of
    range; the local time zone is the parameter of Screen.

    The theorems are in ViewFacts. *)

From Stdlib Require Import SpecFloat QArith_base.
From S2P Require Import Prelude GoText GoFloat GoBase Ifo Store Queue Status Transcoder Daemon Server Tui Screen.
#[local] Open Scope Z_scope.

Inductive style := styleDim | styleHead | styleLabel | styleOK | styleWarn | styleErr | styleBar | styleSel | styleBanner | styleBannerW.
#[global] Instance style_eq_dec : EqDecision style.
Proof. solve_decision. Defined.

Definition nl : string := String newline "".
(** strings.Count of a newline. *)
Fixpoint count_lines (s : string) : Z :=
  match s with "" => 0 | String c s => (if byte_eqb newline c then 1 else 0) + count_lines s end.

Definition drive_state_string (s : DriveState) : string :=
  match s with
  | StateAbsent => "absent" | StateEmpty => "empty" | StateTrayOpen => "tray_open" | StateLoading => "loading"
  | StateIncompatible => "incompatible" | StateQueued => "queued" | StateScanning => "scanning"
  | StateDecrypting => "decrypting" | StateRipping => "ripping" | StateVerifying => "verifying"
  | StateComplete => "complete" | StateDuplicate => "duplicate" | StateFailed => "failed"
  | StateCancelled => "cancelled" | StateEjecting => "ejecting"
  end.

(** The status before one has arrived. *)
Definition no_status : StatusReply := mkStatusReply 0 0 [] [] (mkTranscodeSnapshot false "" 0 0%Q 0%Q false 0 0) 0 "" 0.
Definition status_of (m : Model) : StatusReply := default no_status (mo_status m).

(** ** What the states are called *)

Definition discPlaceholder (s : DriveState) : string :=
  match s with
  | StateTrayOpen => "(tray open)"
  | StateAbsent => "(drive not responding)"
  | StateIncompatible => "(unreadable disc)"
  | _ => "(empty)"
  end.
Definition stateHint (s : DriveState) : string :=
  match s with
  | StateEmpty => "waiting for a disc"
  | StateTrayOpen => "ready for the next disc"
  | StateLoading => "spinning up"
  | StateCancelled => "cancelled; eject and reinsert the disc to try again"
  | StateDecrypting => "the drive cannot decrypt this disc; copying it to disk first"
  | StateQueued => "waiting for another drive to finish; one disc is worked on at a time"
  | StateScanning => "reading the disc structure"
  | StateComplete => "done — safe to reshelve"
  | StateDuplicate => "already ripped; nothing to do"
  | StateIncompatible => "swap the disc — this drive cannot read it"
  | StateFailed => "retained in the drive; press r to retry"
  | StateAbsent => "unplugged, or dropped by the kernel"
  | StateRipping | StateVerifying | StateEjecting => ""
  end.
Definition stateStyle (s : DriveState) : style :=
  match s with
  | StateComplete | StateDuplicate => styleOK
  | StateFailed | StateAbsent => styleErr
  | StateIncompatible => styleWarn
  | StateRipping | StateScanning | StateVerifying => styleBar
  | _ => styleDim
  end.
Definition jobStateStyle (s : JobState) : style :=
  match s with
  | JobComplete => styleOK
  | JobFailed | JobCancelled => styleErr
  | _ => styleDim
  end.

(** ** Failures by kind *)

Definition count_kind (k : string) (l : list FailureReport) : Z := Z.of_nat (length (filter (λ f, f_Kind f = k) l)).
(** The last advice that is not empty. *)
Definition advice_of (k : string) (l : list FailureReport) : string :=
  foldl (λ acc f, if bool_decide (f_Kind f = k) && negb (bool_decide (f_Advice f = "")) then f_Advice f else acc) "" l.
Definition kind_before (l : list FailureReport) (a b : string) : Prop :=
  count_kind b l < count_kind a l ∨ count_kind a l = count_kind b l ∧ String.leb a b = true.
#[global] Instance kind_before_dec l : RelDecision (kind_before l).
Proof. intros a b. unfold kind_before. apply _. Defined.
(** The keys of the map of counts, sorted. *)
Definition failure_kinds (l : list FailureReport) : list string :=
  merge_sort (kind_before l) (remove_dups (f_Kind <$> l)).

Section view.
Context (Render : style → string → string) (Width : string → Z) (zone : Z → Z).

Definition progressBar (fraction : float64) (width : Z) : string :=
  let filled := filled_cells fraction width in
  Render styleBar ("[" +:+ repeat_text "█" filled) +:+ Render styleDim (repeat_text "░" (width - filled)) +:+ Render styleBar "]".

Definition transcodeLine (m : Model) : string :=
  let t := sr_Transcode (status_of m) in
  if negb (x_Running t) && (x_Pending t =? 0) && (x_Failed t =? 0) then ""
  else
    let fraction := f_of_Q (x_Fraction t) in
    let running :=
      if x_Running t then
        let how := if x_Hardware t then "gpu" else "sw" in
        ["transcoding " +:+ x_Disc t +:+ " title " +:+ itoa (x_TitleIndex t) +:+ "  " +:+ progressBar fraction 20 +:+ " " +:+ percent fraction
         +:+ (if f_lt (f_of_Z 0) (f_of_Q (x_Speed t)) then "  " +:+ fmt_0f (f_of_Q (x_Speed t)) +:+ "x " +:+ how else "")]
      else [] in
    let pending := if 0 <? x_Pending t then [itoa (x_Pending t) +:+ " queued"] else [] in
    let failed := if 0 <? x_Failed t then [Render styleErr (itoa (x_Failed t) +:+ " failed")] else [] in
    nl +:+ Render styleDim "  " +:+ join (Render styleDim " · ") (running ++ pending ++ failed) +:+ nl.

Definition header (m : Model) : option string :=
  let left := Render styleHead ("hellbox " +:+ mo_version m) in
  let st := status_of m in
  right ←
    (if negb (mo_connected m) then Some (Render styleErr "disconnected")
     else if negb (mo_haveAny m) then Some (Render styleDim "waiting for status")
     else
       free ← humanBytes (int64 (sr_FreeBytes st));
       let n := Z.of_nat (length (mo_drives m)) in
       let drives := itoa n +:+ " drive" +:+ plural n in
       Some (Render styleDim (drives +:+ " · " +:+ itoa (sr_DiscsRipped st) +:+ " disc" +:+ plural (sr_DiscsRipped st) +:+ " ripped · " +:+ free +:+ " free")));
  let gap := mo_width m - Width left - Width right in
  Some (left +:+ repeat_text " " (if gap <? 1 then 1 else gap) +:+ right +:+ nl).

Definition banner_line (h : Health) : string :=
  let '(st, mark) := if h_Fatal h then (styleBanner, "PROBLEM") else (styleBannerW, "warning") in
  Render st (" " +:+ mark +:+ "  " +:+ h_Name h +:+ ": " +:+ h_Detail h).
Definition banner (m : Model) : string :=
  let lines := banner_line <$> filter (λ h, h_OK h = false) (sr_Health (status_of m)) in
  if bool_decide (lines = []) then "" else join nl lines +:+ nl +:+ nl.

Definition drivePanel (m : Model) (d : DriveSnapshot) (selected : bool) : string :=
  let marker := if selected then Render styleSel "▸ " else "  " in
  let label := Render (if selected then styleSel else styleLabel) (pad (sn_Label d) 8) in
  let dim := bool_decide (sn_DiscLabel d = "") in
  let disc := truncate (if dim then discPlaceholder (sn_State d) else sn_DiscLabel d) (Z.max 10 (mo_width m - 26)) in
  let disc := if dim then Render styleDim disc else disc in
  let first := marker +:+ label +:+ " " +:+ Render styleDim (pad (sn_DevicePath d) 10) +:+ "  " +:+ disc in
  let second := "     " +:+ Render (stateStyle (sn_State d)) (pad (str_map upper_byte (drive_state_string (sn_State d))) 13) +:+ "  " in
  let fraction := f_of_Q (sn_Fraction d) in
  let rest :=
    if bool_decide (sn_State d ∈ [StateDecrypting; StateRipping; StateVerifying]) then
      let detail :=
        if (0 <? sn_TitleCount d) && (0 <=? sn_CurrentTitle d)
        then "title " +:+ itoa (sn_TitlesDone d + 1) +:+ " of " +:+ itoa (sn_TitleCount d) else sn_Operation d in
      pad detail 18 +:+ progressBar fraction 20 +:+ " " +:+ percent fraction +:+
      (if 0 <? sn_ETASeconds d then Render styleDim ("   ~" +:+ shortDuration (int64 (sn_ETASeconds d * Second)) +:+ " left") else "")
    else if negb (bool_decide (sn_Error d = "")) then Render styleErr (truncate (sn_Error d) (Z.max 20 (mo_width m - 30)))
    else Render styleDim (stateHint (sn_State d)) in
  first +:+ nl +:+ second +:+ rest +:+ nl.
Definition drivesView (m : Model) : string :=
  if negb (mo_haveAny m) then Render styleDim (nl +:+ "  connecting to hellboxd…" +:+ nl)
  else match mo_drives m with
  | [] => Render styleWarn (nl +:+ "  no optical drives detected" +:+ nl)
  | ds => nl +:+ join "" (imap (λ i d, drivePanel m d (Z.of_nat i =? mo_selected m) +:+ nl) ds)
  end.

(** One job of the history: its line, and the line of its error. *)
Definition history_row (m : Model) (j : JobSummary) : string :=
  let label := if bool_decide (js_VolumeLabel j = "") then "unlabelled " +:+ shortFingerprint (js_Fingerprint j) else js_VolumeLabel j in
  let label := truncate label (Z.max 10 (mo_width m - 46)) in
  let label :=
    if 0 <? js_TitlesTotal j then label +:+ "  (" +:+ itoa (js_TitlesDone j) +:+ "/" +:+ itoa (js_TitlesTotal j) +:+ " titles)" else label in
  "   " +:+ Render styleDim (calendar_time zone (js_CreatedAt j)) +:+ "  " +:+
  Render (jobStateStyle (js_State j)) (pad (job_state_string (js_State j)) 10) +:+ " " +:+ pad (js_DriveLabel j) 8 +:+ "  " +:+ label +:+ nl +:+
  (if bool_decide (js_Error j = "") then "" else "         " +:+ Render styleErr (truncate (js_Error j) (Z.max 10 (mo_width m - 10))) +:+ nl).
Fixpoint history_rows (m : Model) (b : string) (l : list JobSummary) : string :=
  match l with
  | [] => b
  | j :: l => if mo_height m - 8 <? count_lines b then b else history_rows m (b +:+ history_row m j) l
  end.
Definition historyView (m : Model) : string :=
  match mo_jobs m with
  | [] => Render styleDim (nl +:+ "  no jobs yet" +:+ nl)
  | jobs => history_rows m (nl +:+ Render styleHead "  history" +:+ nl) jobs
  end.

Definition log_row (m : Model) (e : eventRow) : string :=
  let st := if bool_decide (e_level e = "warn") then styleWarn else if bool_decide (e_level e = "error") then styleErr else styleDim in
  "   " +:+ Render styleDim (clock_time_secs zone (e_ts e)) +:+ "  " +:+ Render st (pad (e_level e) 5) +:+ " " +:+
  truncate (e_message e) (Z.max 10 (mo_width m - 22)) +:+ nl.
Definition logView (m : Model) : string :=
  match mo_events m with
  | [] => Render styleDim (nl +:+ "  nothing logged yet" +:+ nl)
  | evs =>
      let limit := Z.max 1 (mo_height m - 8) in
      nl +:+ Render styleHead "  log" +:+ nl +:+ join "" (log_row m <$> take (Z.to_nat limit) evs)
  end.

Definition kind_row (m : Model) (k : string) : string :=
  let st := if bool_decide (k = "cancelled") then styleDim else styleErr in
  let line := "   " +:+ Render st (pad k 15) +:+ " " +:+ fmt_left 16 (itoa (count_kind k (mo_failures m))) +:+ " " +:+ advice_of k (mo_failures m) in
  truncate line (mo_width m) +:+ nl.
Definition failure_row (m : Model) (f : FailureReport) : string :=
  let label := if bool_decide (f_VolumeLabel f = "") then "unlabelled " +:+ shortFingerprint (f_Fingerprint f) else f_VolumeLabel f in
  let line := "   " +:+ calendar_time zone (f_When f) +:+ "  " +:+ fmt_left 15 (f_Kind f) +:+ " " +:+ fmt_left 20 (truncate label 20) +:+ " " +:+ f_Error f in
  Render styleDim (truncate line (mo_width m)) +:+ nl.
(** The failures from the [i]th on. *)
Fixpoint failure_rows (m : Model) (i : Z) (l : list FailureReport) : string :=
  match l with
  | [] => ""
  | f :: l' =>
      if mo_height m - 14 <? i then Render styleDim ("   … and " +:+ itoa (Z.of_nat (length l)) +:+ " more" +:+ nl)
      else failure_row m f +:+ failure_rows m (i + 1) l'
  end.
Definition failuresView (m : Model) : string :=
  match mo_failures m with
  | [] => nl +:+ Render styleDim "  nothing has failed" +:+ nl
  | fs =>
      nl +:+ Render styleHead "  failures" +:+ nl +:+ join "" (kind_row m <$> failure_kinds fs) +:+ nl +:+ failure_rows m 0 fs
  end.

(** What a queue entry's state is shown as, and in which style. *)
Definition queue_state (m : Model) (j : TranscodeJobSummary) : string * style :=
  match ts_State j with
  | TranscodeRunning =>
      let t := sr_Transcode (status_of m) in
      (if x_Running t then "running " +:+ percent (f_of_Q (x_Fraction t)) else "running", styleBar)
  | TranscodePending => ("pending", styleWarn)
  | TranscodeFailed => ("failed", styleErr)
  | TranscodeComplete => if ts_Filed j then ("complete", styleOK) else ("not filed", styleWarn)
  end.
Definition queue_line (m : Model) (selected : bool) (j : TranscodeJobSummary) (size : string) : string :=
  let '(state, st) := queue_state m j in
  (if selected then Render styleSel "▸ " else "  ") +:+ fmt_left 22 (truncate (ts_Disc j) 22) +:+ " t" +:+ itoa02 (ts_TitleIndex j) +:+ "  " +:+
  fmt_left 14 (Render st (pad state 14)) +:+ " " +:+ fmt_right 10 size.
Definition queue_row (m : Model) (i : nat) (j : TranscodeJobSummary) : option string :=
  let selected := Z.of_nat i =? mo_selected m in
  size ← (if 0 <? ts_SizeBytes j then humanBytes (ts_SizeBytes j) else Some "");
  Some (truncate (queue_line m selected j size) (mo_width m) +:+ nl +:+
        (if negb (bool_decide (ts_Error j = "")) && selected
         then Render styleDim (truncate ("      " +:+ ts_Error j) (mo_width m)) +:+ nl else "")).
Definition queueView (m : Model) : option string :=
  match mo_queue m with
  | [] => Some (nl +:+ Render styleDim "  the transcode queue is empty" +:+ nl)
  | q => rows ← mapM id (imap (queue_row m) q); Some (nl +:+ join "" rows)
  end.

Definition footer (m : Model) : string :=
  let keys :=
    if bool_decide (mo_view m = viewQueue) then "d drives · t queue · ↑↓ select · c cancel running · r retry · q quit"
    else "d drives · h history · l log · t queue · x failures · e eject · c cancel · r retry · f forget · T re-encode · q quit" in
  let status :=
    if negb (bool_decide (mo_flash m = "")) then Render (if mo_flashErr m then styleErr else styleOK) (truncate (mo_flash m) (mo_width m))
    else if negb (bool_decide (mo_lastErr m = "")) then Render styleDim (truncate (mo_lastErr m) (mo_width m))
    else "" in
  Render styleDim (truncate keys (mo_width m)) +:+ (if bool_decide (status = "") then "" else nl +:+ status).

Definition View (m : Model) : option string :=
  top ← header m;
  body ←
    (match mo_view m with
     | viewHistory => Some (historyView m)
     | viewLog => Some (logView m)
     | viewQueue => queueView m
     | viewFailures => Some (failuresView m)
     | viewDrives => Some (drivesView m)
     end);
  Some (top +:+ nl +:+ banner m +:+ body +:+ transcodeLine m +:+ nl +:+ footer m).
End view.
