(* ===== verification/ViewFacts.v ===== *)
(** * What the terminal shows

    [failing_checks_are_shown]: whatever is on screen, every failing check is;
    [drives_are_shown]: each drive has its panel, in the daemon's order;
    [failures_are_counted]: the kinds of failure are listed once, by how many,
    and account for all of them; [view_total]: when
    drawing succeeds; [bar_has_its_cells]; [selected_row_loses_its_size]: a
    limit of cutting lines that are already styled. *)

From Stdlib Require Import SpecFloat QArith_base.
From S2P Require Import Prelude GoText GoFloat FloatFacts GoBase Ifo Store Queue StoreQueue Status Transcoder Daemon Server WorkerScan Client Tui Screen View.
#[local] Open Scope Z_scope.

(** ** Text inside text *)

Definition inside (u s : string) : Prop := ∃ a b, s = a +:+ u +:+ b.
Lemma inside_refl u : inside u u.
Proof. exists "", "". by rewrite str_app_empty_r. Qed.
Lemma inside_l u s t : inside u s → inside u (s +:+ t).
Proof. intros (a & b & ->). exists a, (b +:+ t). by rewrite !str_app_assoc. Qed.
Lemma inside_r u s t : inside u t → inside u (s +:+ t).
Proof. intros (a & b & ->). exists (s +:+ a), b. by rewrite !str_app_assoc. Qed.
#[export] Hint Resolve inside_refl inside_l inside_r : hellbox.
Lemma inside_join sep u x l : inside u x → x ∈ l → inside u (join sep l).
Proof.
  intros Hu. induction l as [|y l IH]; intros H; [by apply elem_of_nil in H|]. apply elem_of_cons in H as [->|H].
  - destruct l; [done|]. by apply (inside_l u y).
  - destruct l as [|z l]; [by apply elem_of_nil in H|]. apply (inside_r u y), (inside_r u sep). by apply IH.
Qed.

Section facts.
Context (Render : style → string → string) (Width : string → Z) (zone : Z → Z).
Notation View := (View Render Width zone).

(** The parts of what is drawn. *)
Lemma View_parts m s : View m = Some s → ∃ top body,
  s = top +:+ nl +:+ banner Render m +:+ body +:+ transcodeLine Render m +:+ nl +:+ footer Render m ∧
  (mo_view m = viewDrives → body = drivesView Render m) ∧ (mo_view m = viewFailures → body = failuresView Render zone m) ∧
  (mo_view m = viewQueue → queueView Render m = Some body).
Proof.
  unfold View.View. intros (top & Ht & H)%bind_Some. apply bind_Some in H as (body & Hb & [= <-]).
  exists top, body. split; [done|]. by destruct (mo_view m); simplify_eq.
Qed.

(** C30: every failing check is on screen.  Whatever the terminal shows, the
    line of every check of the status that failed is there, with its name and
    its detail, and nothing is added while none fails. *)
Theorem failing_checks_are_shown m s :
  View m = Some s →
  (∀ h, h ∈ sr_Health (status_of m) → h_OK h = false → inside (banner_line Render h) s) ∧
  (forallb h_OK (sr_Health (status_of m)) = true → banner Render m = "").
Proof.
  intros (top & body & -> & _)%View_parts. split.
  - intros h Hh Hok. apply inside_r, inside_r, inside_l. unfold banner.
    assert (banner_line Render h ∈ banner_line Render <$> filter (λ h, h_OK h = false) (sr_Health (status_of m))) as Hin.
    { apply list_elem_of_fmap. exists h. split; [done|]. by apply list_elem_of_filter. }
    case_bool_decide as E; [rewrite E in Hin; by apply elem_of_nil in Hin|]. by eapply inside_l, inside_join; [apply inside_refl|].
  - intros Hall. unfold banner. rewrite filter_none; [done|].
    apply Forall_forall. intros h Hh. rewrite forallb_forall in Hall. rewrite Hall by (by apply list_elem_of_In). done.
Qed.

(** every drive has its panel.  In the drives view, once a status has
    arrived, the panels of all drives follow each other in the daemon's order;
    the one under the cursor, and no other, is drawn as selected. *)
Theorem drives_are_shown m s :
  View m = Some s → mo_view m = viewDrives → mo_haveAny m = true → mo_drives m ≠ [] →
  inside (join "" (imap (λ i d, drivePanel Render m d (Z.of_nat i =? mo_selected m) +:+ nl) (mo_drives m))) s ∧
  ∀ i d, mo_drives m !! i = Some d → inside (drivePanel Render m d (bool_decide (Z.of_nat i = mo_selected m))) s.
Proof.
  intros (top & body & -> & Hb & _)%View_parts Hv Ha Hne. rewrite (Hb Hv). unfold drivesView. rewrite Ha. cbn [negb].
  destruct (mo_drives m) as [|d0 ds] eqn:E; [done|]. split.
  - apply inside_r, inside_r, inside_r, inside_l, inside_r, inside_refl.
  - intros i d Hi. apply inside_r, inside_r, inside_r, inside_l, inside_r.
    assert (bool_decide (Z.of_nat i = mo_selected m) = (Z.of_nat i =? mo_selected m)) as ->.
    { destruct (Z.eqb_spec (Z.of_nat i) (mo_selected m)); [by apply bool_decide_eq_true|by apply bool_decide_eq_false]. }
    eapply inside_join; [apply inside_l, inside_refl|].
    apply list_elem_of_lookup. exists i. by rewrite list_lookup_imap, Hi.
Qed.

End facts.

(** ** Failures *)

Lemma sum_indicator x ks : NoDup ks → sumZ ((λ k : string, if bool_decide (x = k) then 1 else 0) <$> ks) = if bool_decide (x ∈ ks) then 1 else 0.
Proof.
  induction 1 as [|k ks Hk _ IH]; [done|]. cbn [fmap list_fmap sumZ foldr]. unfold sumZ in IH. rewrite IH.
  destruct (decide (x = k)) as [->|Hx].
  - rewrite (bool_decide_eq_true_2 (k = k)), (bool_decide_eq_false_2 (k ∈ ks)), bool_decide_eq_true_2 by (done || set_solver). done.
  - rewrite (bool_decide_eq_false_2 (x = k)) by done. rewrite Z.add_0_l. by rewrite (bool_decide_ext (x ∈ k :: ks) (x ∈ ks)) by set_solver.
Qed.
Lemma sumZ_add {A} (f g : A → Z) l : sumZ ((λ x, f x + g x) <$> l) = sumZ (f <$> l) + sumZ (g <$> l).
Proof. induction l as [|x l IH]; [done|]. cbn. unfold sumZ in IH. cbn in IH. rewrite IH. lia. Qed.
Lemma count_kind_cons k f l : count_kind k (f :: l) = (if bool_decide (f_Kind f = k) then 1 else 0) + count_kind k l.
Proof. unfold count_kind. rewrite filter_cons. case_decide as E; [rewrite bool_decide_eq_true_2 by done|rewrite bool_decide_eq_false_2 by done]; cbn [length]; lia. Qed.
Lemma kinds_cover ks l : NoDup ks → Forall (λ f, f_Kind f ∈ ks) l → sumZ ((λ k, count_kind k l) <$> ks) = Z.of_nat (length l).
Proof.
  intros Hn. induction 1 as [|f l Hf _ IH].
  - cbn [length]. induction ks as [|k ks IHk]; [done|]. apply NoDup_cons in Hn as [_ Hn]. cbn. by apply IHk in Hn.
  - rewrite (list_fmap_ext _ (λ k, (if bool_decide (f_Kind f = k) then 1 else 0) + count_kind k l) ks) by (intros; apply count_kind_cons).
    rewrite sumZ_add, sum_indicator, IH by done. rewrite bool_decide_eq_true_2 by done. cbn [length]. lia.
Qed.

#[local] Instance kind_before_total l : Total (kind_before l).
Proof.
  intros a b. unfold kind_before. destruct (Z.lt_trichotomy (count_kind a l) (count_kind b l)) as [?|[E|?]]; [auto..|auto].
  destruct (String.leb_total a b) as [H|H]; auto.
Qed.

#[local] Instance kind_before_trans l : Transitive (kind_before l).
Proof. intros a b c. unfold kind_before. intros [?|[? H1]] [?|[? H2]]; [left; lia..|]. right. split; [lia|]. by eapply leb_trans. Qed.

(** the failures view accounts for every failure.  Each kind that
    occurs is listed once, those with more failures first and those with as
    many by name; the counts that are printed add up to the failures there
    are; and on screen each kind has its row. *)
Theorem failures_are_counted Render Width zone m s :
  View Render Width zone m = Some s → mo_view m = viewFailures → mo_failures m ≠ [] →
  let l := mo_failures m in let ks := failure_kinds l in
  NoDup ks ∧ (∀ k, k ∈ ks ↔ ∃ f, f ∈ l ∧ f_Kind f = k) ∧ StronglySorted (kind_before l) ks ∧
  sumZ ((λ k, count_kind k l) <$> ks) = Z.of_nat (length l) ∧ ∀ k, k ∈ ks → inside (kind_row Render m k) s.
Proof.
  intros (top & body & -> & _ & Hb & _)%View_parts Hv Hne. cbv zeta. set (l := mo_failures m). 
  assert (∀ k, k ∈ failure_kinds l ↔ ∃ f, f ∈ l ∧ f_Kind f = k) as Hin.
  { intros k. unfold failure_kinds. rewrite merge_sort_Permutation, elem_of_remove_dups, list_elem_of_fmap. naive_solver. }
  assert (NoDup (failure_kinds l)) as Hnd by (unfold failure_kinds; rewrite merge_sort_Permutation; apply NoDup_remove_dups).
  split; [done|]. split; [done|]. split.
  { apply (StronglySorted_merge_sort _). }
  split; [apply kinds_cover; [done|]; apply Forall_forall; intros f Hf; apply Hin; eauto|].
  intros k Hk. rewrite (Hb Hv). apply inside_r, inside_r, inside_r, inside_l. unfold failuresView. fold l.
  destruct l as [|f0 l0] eqn:E; [done|]. apply inside_r, inside_r, inside_r, inside_l.
  eapply inside_join; [apply inside_refl|]. apply list_elem_of_fmap. eauto.
Qed.

(** ** When drawing succeeds *)

Lemma mapM_total {A} (l : list (option A)) : Forall is_Some l → is_Some (mapM id l).
Proof. intros H. apply mapM_is_Some. eapply Forall_impl; [exact H|]. done. Qed.
Lemma queue_row_total Render m i j : ts_SizeBytes j < 2 ^ 60 → is_Some (queue_row Render m i j).
Proof.
  intros Hj. unfold queue_row. destruct (humanBytes_total _ Hj) as [t Ht]. destruct (0 <? ts_SizeBytes j); cbn; rewrite ?Ht; cbn; eauto.
Qed.

(** drawing stops the program only over a size.  While the free space
    and every size in the queue are below an exbibyte there is a screen to
    show, whatever else the daemon sent; and a queue entry of an exbibyte or
    more stops the program as soon as the queue is looked at. *)
Theorem view_total Render Width zone m :
  (int64 (sr_FreeBytes (status_of m)) < 2 ^ 60 → Forall (λ j, ts_SizeBytes j < 2 ^ 60) (mo_queue m) → is_Some (View Render Width zone m)) ∧
  (∀ j, j ∈ mo_queue m → 2 ^ 60 ≤ ts_SizeBytes j < 2 ^ 63 → mo_view m = viewQueue → View Render Width zone m = None).
Proof.
  split.
  - intros Hf Hq. unfold View.
    assert (is_Some (header Render Width m)) as [top ->].
    { unfold header. destruct (humanBytes_total _ Hf) as [t Ht].
      destruct (negb (mo_connected m)); [cbn; eauto|]. destruct (negb (mo_haveAny m)); [cbn; eauto|]. rewrite Ht. cbn. eauto. }
    cbn. destruct (mo_view m); cbn; [eauto..| |eauto]. unfold queueView. destruct (mo_queue m) as [|j q] eqn:E; [cbn; eauto|]. rewrite <- E in *.
    destruct (mapM_total (imap (queue_row Render m) (mo_queue m))) as [rows ->]; [|cbn; eauto].
    apply Forall_lookup. intros i r. rewrite list_lookup_imap. intros (j' & Hj & ->)%fmap_Some. apply queue_row_total.
    by eapply Forall_lookup_1 in Hq.
  - intros j [i Hj]%list_elem_of_lookup Hs Hv. unfold View. rewrite Hv. destruct (header Render Width m); [|done]. cbn.
    assert (queueView Render m = None) as ->; [|done]. unfold queueView. destruct (mo_queue m) as [|j0 q] eqn:E; [done|]. rewrite <- E in *.
    assert (mapM id (imap (queue_row Render m) (mo_queue m)) = None) as ->; [|done].
    apply eq_None_not_Some. intros [rows H]. apply mapM_Some_1 in H.
    assert (imap (queue_row Render m) (mo_queue m) !! i = Some None) as Hi.
    { rewrite list_lookup_imap, Hj. cbn. f_equal. unfold queue_row. rewrite (proj2 (Z.ltb_lt _ _)) by lia. by rewrite humanBytes_huge. }
    destruct (Forall2_lookup_l _ _ _ _ _ H Hi) as (y & _ & Hy). discriminate Hy.
Qed.

(** ** The bar *)

(** C31: a progress bar has the cells it was asked for.  For every float64
    that is a number, below zero and above one included, the filled and the
    empty cells together are the width: the product is rounded, but never past
    the width, so that neither count is negative and the program never
    stops. *)
Theorem bar_has_its_cells Render f width :
  valid_binary 53 1024 f = true → is_nan f = false → 0 < width < 2 ^ 53 →
  ∃ filled, 0 ≤ filled ≤ width ∧
    progressBar Render f width =
      Render styleBar ("[" +:+ repeat_text "█" filled) +:+ Render styleDim (repeat_text "░" (width - filled)) +:+ Render styleBar "]" ∧
    (f_lt f (f_of_Z 0) = true → filled = 0) ∧ (f_lt (f_of_Z 1) f = true → filled = width).
Proof.
  intros Hv Hn Hw. exists (filled_cells f width). split; [by apply bar_cells|]. split; [done|].
  pose proof (f_of_Z_represents width Hw) as Hy. unfold filled_cells, clamp. split; intros H.
  - rewrite H. change (f_lt (f_of_Z 1) (f_of_Z 0)) with false. destruct Hy as (? & ? & -> & _). done.
  - rewrite (f_lt_asym _ _ (f_lt_zero_of_one _ H)), H. rewrite <- (Z.mul_1_l width) at 2.
    apply represents_to_int, f_mul_exact; [by apply f_of_Z_represents|done|lia..].
Qed.

(** ** Cutting what is already styled *)

(** The escapes of a terminal with 256 colours. *)
Definition colour (s : style) : string :=
  match s with
  | styleDim => "38;5;244" | styleHead => "1" | styleLabel => "1;38;5;39" | styleOK => "38;5;42" | styleWarn => "38;5;214"
  | styleErr => "38;5;203" | styleBar => "38;5;39" | styleSel => "1;38;5;212" | styleBanner => "1;38;5;203" | styleBannerW => "1;38;5;214"
  end.
Definition escape (t : string) : string := String (byte_of 27) ("[" +:+ t +:+ "m").
Definition ansi (s : style) (t : string) : string := escape (colour s) +:+ t +:+ escape "0".
Definition plain (s : style) (t : string) : string := t.

(** A queue of one waiting entry, under the cursor, on a screen of 80 columns. *)
Definition one_waiting : Model :=
  with_view viewQueue (with_lists [] [mkTranscodeJobSummary 7 1 "HEAT" 1 TranscodePending 4700000000 1 false "" "" false] [] []
    (handleDaemon (λ _ _ m, m) (MsgStatus (Ok one_status)) connected)).

(** on a screen of the default width the row under the cursor loses its
    size.  The row takes 55 of the 80 columns and its plain text is shown
    whole; in colour it is cut, because the escapes, which are not displayed,
    are counted, and what is cut off is the size. *)
Theorem selected_row_loses_its_size :
  mo_width one_waiting = 80 ∧
  ∃ size j, mo_queue one_waiting = [j] ∧ humanBytes (ts_SizeBytes j) = Some size ∧
    rune_count (queue_line plain one_waiting true j size) = 55 ∧
    (∃ row, queue_row plain one_waiting 0 j = Some row ∧ contains row size = true) ∧
    (∃ row, queue_row ansi one_waiting 0 j = Some row ∧ contains row size = false).
Proof.
  split; [reflexivity|]. eexists _, _. split; [reflexivity|]. split; [reflexivity|]. split; [reflexivity|].
  split; eexists; (split; [reflexivity|]); vm_compute; reflexivity.
Qed.

(** ** A screen *)

Definition stale_key : Health := mkHealth "makemkv key" false "expired" true.
Definition ill_status : StatusReply := mkStatusReply 1 1 (sr_Drives one_status) [stale_key; mkHealth "ffmpeg" true "6.1" true]
  (mkTranscodeSnapshot true "HEAT" 1 (1 # 3) (25 # 10) true 2 0) 12 "/rips" (2 ^ 40).
Definition ill : Model := handleDaemon (λ _ _ m, m) (MsgStatus (Ok ill_status)) connected.
Definition drawn (m : Model) : string := default "" (View plain rune_count (λ _, 0) m).

Example drawn_ill : drawn ill = join nl
  ["hellbox 1.0                              1 drive · 12 discs ripped · 1.0 TB free"; "";
   " PROBLEM  makemkv key: expired"; ""; "";
   "▸ left     /dev/sr0    (empty)";
   "     EMPTY          waiting for a disc"; ""; "";
   "  transcoding HEAT title 1  [██████░░░░░░░░░░░░░░]  33%  2x gpu · 2 queued"; "";
   "d drives · h history · l log · t queue · x failures · e eject · c cancel · r re…"; "connected"].
Proof. vm_compute. reflexivity. Qed.

Lemma failing_checks_are_shown_witness :
  inside " PROBLEM  makemkv key: expired" (drawn ill) ∧ banner plain one_waiting = "".
Proof.
  destruct (View plain rune_count (λ _, 0) ill) as [s|] eqn:E; [|vm_compute in E; discriminate E].
  destruct (View plain rune_count (λ _, 0) one_waiting) as [s'|] eqn:E'; [|vm_compute in E'; discriminate E'].
  split.
  - unfold drawn. rewrite E. destruct (failing_checks_are_shown plain rune_count (λ _, 0) ill s E) as [H _].
    apply (H stale_key); [left|reflexivity].
  - destruct (failing_checks_are_shown plain rune_count (λ _, 0) one_waiting s' E') as [_ H]. apply H. reflexivity.
Defined.

Lemma drives_are_shown_witness : ∃ s d, View plain rune_count (λ _, 0) ill = Some s ∧ mo_drives ill = [d] ∧ inside (drivePanel plain ill d true) s.
Proof.
  destruct (View plain rune_count (λ _, 0) ill) as [s|] eqn:E; [|vm_compute in E; discriminate E].
  exists s. eexists. split; [reflexivity|]. split; [reflexivity|].
  destruct (drives_are_shown plain rune_count (λ _, 0) ill s E) as [_ H]; [reflexivity..|discriminate|].
  exact (H 0%nat _ eq_refl).
Defined.

Definition failed (kind advice : string) : FailureReport := mkFailureReport 0 "HEAT" "f00d" kind advice "no key" 1.
Definition failing : Model :=
  with_view viewFailures (with_lists [] [] [failed "cancelled" ""; failed "aacs" "update the key database"; failed "cancelled" ""] [] ill).
Lemma failures_are_counted_witness :
  ∃ s, View plain rune_count (λ _, 0) failing = Some s ∧ failure_kinds (mo_failures failing) = ["cancelled"; "aacs"] ∧
    sumZ ((λ k, count_kind k (mo_failures failing)) <$> ["cancelled"; "aacs"]) = 3 ∧
    kind_row plain failing "aacs" = "   aacs            1                update the key database" +:+ nl ∧
    inside (kind_row plain failing "aacs") s.
Proof.
  destruct (View plain rune_count (λ _, 0) failing) as [s|] eqn:E; [|vm_compute in E; discriminate E].
  destruct (failures_are_counted plain rune_count (λ _, 0) failing s E) as (_ & _ & _ & Hs & Hr); [reflexivity|discriminate|].
  exists s. split; [reflexivity|]. split; [vm_compute; reflexivity|]. split; [exact Hs|].
  split; [vm_compute; reflexivity|]. apply Hr. vm_compute. right; left.
Defined.

Lemma view_total_witness :
  is_Some (View plain rune_count (λ _, 0) ill) ∧
  View plain rune_count (λ _, 0) (with_lists [] [mkTranscodeJobSummary 7 1 "HEAT" 1 TranscodePending (2 ^ 60) 1 false "" "" false] [] []
    (with_view viewQueue ill)) = None.
Proof.
  split.
  - apply (view_total plain rune_count (λ _, 0) ill); [vm_compute; reflexivity|constructor].
  - eapply (view_total plain rune_count (λ _, 0)); [left|vm_compute; split; [discriminate|reflexivity]|reflexivity].
Defined.

Lemma bar_has_its_cells_witness :
  ∃ filled, 0 ≤ filled ≤ 20 ∧ progressBar plain (f_lit 1 3) 20 = "[" +:+ repeat_text "█" filled +:+ repeat_text "░" (20 - filled) +:+ "]".
Proof.
  destruct (bar_has_its_cells plain (f_lit 1 3) 20) as (k & Hk & E & _); [vm_compute; reflexivity|reflexivity|lia|].
  exists k. split; [exact Hk|exact E].
Defined.
