(* ===== verification/Main.v ===== *)
(** * The programs (cmd/hellboxd/main.go, cmd/slay/main.go) and opening the
    database (Open in internal/store/store.go)

    What each program does with its flags, in which order, and what it ends
    with.  The TOML decoder, the outcome of the database's own operations,
    of the daemon's self-test and of its run are arguments.

    [store_always_closed] and [open_closes_on_failure]: a database that was
    opened is closed again, on every path; [hellboxd_never_runs_unconfigured]
    and [slay_starts_anyway]: what each program does with a configuration it
    cannot read. *)

From S2P Require Import Prelude GoText GoPath Config Store.
#[local] Open Scope Z_scope.

(** ** Open *)

(** What happens to the database handle. *)
Inductive handle_op := MakeDir (dir : string) | OpenHandle | ApplySchema | Migrate | InitVersion | CloseHandle.
#[global] Instance handle_op_eq_dec : EqDecision handle_op.
Proof. solve_decision. Defined.

Record OpenEnv := mkOpenEnv {
  oe_mkdir : option string;
  oe_open : option string;
  oe_schema : option string;
  oe_migrate : option string;
  oe_init : option string;
}.
Definition Open (v : OpenEnv) (path : string) : list handle_op * option string :=
  let dir := Dir path in
  let '(made, failed) :=
    if bool_decide (dir = ".") then ([], None)
    else ([MakeDir dir], (λ e, "create state directory " +:+ dir +:+ ": " +:+ e) <$> oe_mkdir v) in
  match failed with
  | Some e => (made, Some e)
  | None =>
      match oe_open v with
      | Some e => (made, Some ("open " +:+ path +:+ ": " +:+ e))
      | None =>
          match oe_schema v with
          | Some e => (made ++ [OpenHandle; ApplySchema; CloseHandle], Some ("apply schema: " +:+ e))
          | None =>
              match oe_migrate v with
              | Some e => (made ++ [OpenHandle; ApplySchema; Migrate; CloseHandle], Some e)
              | None =>
                  match oe_init v with
                  | Some e => (made ++ [OpenHandle; ApplySchema; Migrate; InitVersion; CloseHandle], Some e)
                  | None => (made ++ [OpenHandle; ApplySchema; Migrate; InitVersion], None)
                  end
              end
          end
      end
  end.

(** ** hellboxd *)

Record Flags := mkFlags { fl_config : string; fl_version : bool; fl_check : bool; fl_socket : string }.
Inductive part := PrintVersion | LoadConfig (path : string) | Database (op : handle_op) | Check | Run | Complain (e : string) | Tui (socket : string).

Section programs.
(** Quoting of error texts, the TOML decoder, and the file at a path; what the
    self-test and the run of a daemon end with. *)
Context (quote : string → string) (unmarshal : string → Config → Config * option string) (file_at : string → cfgFile).
Context (check run_daemon : Config → option string).

Definition load (path : string) : outcome string Config :=
  match Load quote unmarshal path (file_at path) with (c, None) => Ok c | (_, Some e) => Err e end.
Lemma load_valid path c : load path = Ok c → Validate quote c = None.
Proof.
  unfold load, Load. destruct (file_at path) as [|e|b]; [|done|].
  - by destruct (Validate quote Default) eqn:E; [|intros [= <-]].
  - destruct (unmarshal b Default) as [c' [e|]]; [done|]. by destruct (Validate quote c') eqn:E; [|intros [= <-]].
Qed.

(** run: what is done, and the error; the database is closed when it returns. *)
Definition run (v : OpenEnv) (configPath : string) (checkOnly : bool) : list part * option string :=
  match load configPath with
  | Err e => ([LoadConfig configPath], Some e)
  | Ok cfg =>
      let '(ops, failed) := Open v (c_StatePath cfg) in
      let before := LoadConfig configPath :: (Database <$> ops) in
      match failed with
      | Some e => (before, Some e)
      | None =>
          let '(step, res) := if checkOnly then (Check, check cfg) else (Run, run_daemon cfg) in
          (before ++ [step; Database CloseHandle], res)
      end
  end.
(** main of hellboxd: what is done, and the exit code. *)
Definition hellboxd (v : OpenEnv) (f : Flags) : list part * Z :=
  if fl_version f then ([PrintVersion], 0)
  else match run v (fl_config f) (fl_check f) with
       | (done, None) => (done, 0)
       | (done, Some e) => (done ++ [Complain ("hellboxd: " +:+ e)], 1)
       end.

(** ** slay *)

Context (run_tui : string → option string).

Definition slay (f : Flags) : list part * Z :=
  if fl_version f then ([PrintVersion], 0)
  else
    let '(before, socket) :=
      if bool_decide (fl_socket f = "") then
        match load (fl_config f) with
        | Ok cfg => ([LoadConfig (fl_config f)], c_SocketPath cfg)
        | Err e => ([LoadConfig (fl_config f); Complain ("slay: " +:+ e)], c_SocketPath Default)
        end
      else ([], fl_socket f) in
    match run_tui socket with
    | None => (before ++ [Tui socket], 0)
    | Some e => (before ++ [Tui socket; Complain ("slay: " +:+ e)], 1)
    end.

(** ** What they promise *)

Definition opened (l : list handle_op) : nat := length (filter (λ o, o = OpenHandle) l).
Definition closes (l : list handle_op) : nat := length (filter (λ o, o = CloseHandle) l).
Definition database (l : list part) : list handle_op := omap (λ p, match p with Database o => Some o | _ => None end) l.

(** Open leaves a handle open exactly when it succeeds. *)
Lemma open_closes_on_failure v path : let '(ops, e) := Open v path in
  (opened ops = (if e is None then 1 else 0) + closes ops)%nat ∧ (e = None → closes ops = 0%nat).
Proof.
  unfold Open, opened, closes. case_bool_decide; [|destruct (oe_mkdir v)]; cbn;
    try (destruct (oe_open v)); try (destruct (oe_schema v)); try (destruct (oe_migrate v)); try (destruct (oe_init v)); cbn; done.
Qed.

Lemma database_app l k : database (l ++ k) = database l ++ database k.
Proof. apply omap_app. Qed.
Lemma database_ops ops : database (Database <$> ops) = ops.
Proof. unfold database. induction ops as [|o ops IH]; [done|]. cbn. by rewrite IH. Qed.

(** the database is closed on every path: whatever fails, hellboxd closes
    it exactly as often as it opened it, after the daemon has stopped. *)
Theorem store_always_closed v f : let ops := database (hellboxd v f).1 in opened ops = closes ops.
Proof.
  cbv zeta. unfold hellboxd. destruct (fl_version f); [done|]. unfold run. destruct (load (fl_config f)) as [cfg|e]; [|done].
  pose proof (open_closes_on_failure v (c_StatePath cfg)) as Ho. destruct (Open v (c_StatePath cfg)) as [ops [e|]]; destruct Ho as [Ho Hc]; cbn [fst].
  - rewrite database_app. change (database (LoadConfig (fl_config f) :: (Database <$> ops))) with (database (Database <$> ops)).
    rewrite database_ops. cbn. by rewrite app_nil_r.
  - specialize (Hc eq_refl).
    assert (∀ s extra, (s = Check ∨ s = Run) → database extra = [] →
      let l := database (((LoadConfig (fl_config f) :: (Database <$> ops)) ++ [s; Database CloseHandle]) ++ extra) in opened l = closes l) as Hl.
    { intros s extra Hs Hx. cbv zeta. rewrite !database_app, Hx, app_nil_r.
      assert (database [s; Database CloseHandle] = [CloseHandle]) as -> by (by destruct Hs as [->| ->]).
      change (database (LoadConfig (fl_config f) :: (Database <$> ops))) with (database (Database <$> ops)). rewrite database_ops.
      unfold opened, closes in *. rewrite !filter_app, !length_app.
      change (length (filter (λ o, o = OpenHandle) [CloseHandle])) with 0%nat.
      change (length (filter (λ o, o = CloseHandle) [CloseHandle])) with 1%nat. lia. }
    destruct (fl_check f); [destruct (check cfg)|destruct (run_daemon cfg)]; cbn [fst].
    all: first [apply Hl; [auto|done] | rewrite <- (app_nil_r (_ ++ _)); apply Hl; [auto|done]].
Qed.

(** hellboxd does nothing on a configuration it cannot read or that is not
    valid: the database is not opened, nothing runs, and it fails; nothing runs on a database that
    cannot be opened either. *)
Theorem hellboxd_never_runs_unconfigured v f : (hellboxd v f).2 = 0 → fl_version f = false →
  ∃ cfg, load (fl_config f) = Ok cfg ∧ Validate quote cfg = None ∧ (Open v (c_StatePath cfg)).2 = None ∧ (if fl_check f then check cfg else run_daemon cfg) = None.
Proof.
  unfold hellboxd. intros H Hv. rewrite Hv in H. unfold run in H. destruct (load (fl_config f)) as [cfg|e] eqn:El; [|done].
  exists cfg. split; [done|]. split; [by eapply load_valid|]. destruct (Open v (c_StatePath cfg)) as [ops [e|]]; [done|]. split; [done|].
  destruct (fl_check f); [by destruct (check cfg)|by destruct (run_daemon cfg)].
Qed.

(** slay starts on a configuration it cannot read: it says so, and takes
    the default socket. *)
Theorem slay_starts_anyway f e : fl_version f = false → fl_socket f = "" → load (fl_config f) = Err e →
  Tui (c_SocketPath Default) ∈ (slay f).1 ∧ Complain ("slay: " +:+ e) ∈ (slay f).1.
Proof.
  intros Hv Hs Hl. unfold slay. rewrite Hv, bool_decide_eq_true_2, Hl by done.
  destruct (run_tui (c_SocketPath Default)); cbn; split; rewrite !elem_of_cons; auto.
Qed.
End programs.
